(* ===== verification/_CoqProject ===== *)
-Q . S2P
Prelude.v
Heap.v
Interval.v
Types.v
FigNode.v
FigTree.v
FigSpec.v
FigNodeProof.v
FigPrune.v
FigInsert.v
FigDescend.v
FigPush.v
FigTrack.v
FigWrite.v
FigTheorems.v
Bitmap.v
DList.v
DListProof.v
DListSort.v
DListRefine.v
LogQueue.v
FigIter.v
FigRanges.v
FigIterProof.v
FigReads.v
FigDirty.v
FigAllDirty.v
FigDirtyProof.v
FigChkpt.v
FigShape.v
State.v
Posix.v
BitmapFile.v
FileIface.v
Fresh.v
FileRef.v
Dir.v
DirSpec.v
DirProof.v
FsPath.v
FsSpec.v
FsDir.v
Fuse.v
FsOps.v
FsTree.v
FuseSpec.v
FuseProof.v
FuseTheorems.v
FuseFacts.v
Readdir.v
Format.v
FormatProof.v
Gdp.v
LogEnt.v
LogEntProof.v
FileIndex.v
File.v
FileSpec.v
FileReload.v
FileFocus.v
FileRead.v
FileRep.v
FileStep.v
FileSettle.v
FileLoad.v
FileOpen.v
FileCreate.v
FileLaws.v
FileStart.v
FileTheorems.v
FileFaults.v
FileRestart.v
FileConc.v
FileConcSafe.v
Stable.v
FileSerial.v
Mount.v
History.v
Main.v
