(* ===== verification/Prelude.v ===== *)
(** * GDPFS: a verification development

    GDPFS mounts a file system whose files are append-only logs of the Global
    Data Plane, a log service.  This library models the C sources under [src/src]
    and proves what they promise; every definition that stands for code has the
    name of the function or structure it translates.

    ** The program

    A request of the kernel reaches a handler of [gdpfs.c].  The handler resolves
    paths through [gdpfs_dir.c], where a directory is a file that holds an array
    of entries, and reads and writes files through [gdpfs_file.c].  An open file
    is a log with an index in memory, a FIG tree ([figtree/]) from byte ranges to
    record numbers, and a local cache file.  A write appends a record
    asynchronously; closing the last reference puts the file on a list of
    recently closed files ([list.c]); eviction from that list and the end of the
    program append a checkpoint of the index.  Handles are numbers of a bitmap
    ([bitmap.c]).  Logs are created in advance by a producer thread and handed out
    by a queue ([gdpfs_log.c]), which also wraps the records of the log service.

    ** Files of the library

    - Foundations.  [Prelude]: faults, results, wrap-around, lists.  [Heap]:
      programs over a heap of C structs with a total-correctness weakest
      precondition (separation logic) and its adequacy.  [State]: programs over an
      explicit state.  [Posix]: local files.  [Fresh]: least free numbers.
    - Data.  [Types]: [gdpfs_stat.h] and the types of [gdpfs_file.h].  [Format],
      [FormatProof]: the bytes of headers, tree nodes and records.
    - FIG tree.  [Interval] ([figtree/interval.c]), [FigNode]
      ([figtree/figtreenode.c], [figtree/utils.c]), [FigTree], [FigIter]
      ([figtree/figtree.c]), [FigDirty] ([get_dirty] of [figtree/utils.c]) are the
      code.  [FigSpec]: trees as mathematical objects and their byte maps.
      [FigNodeProof], [FigPrune], [FigInsert], [FigDescend], [FigPush],
      [FigTrack], [FigWrite], [FigTheorems]: writes and lookups.  [FigRanges],
      [FigIterProof], [FigReads]: the iterator.  [FigAllDirty], [FigDirtyProof],
      [FigChkpt]: checkpoints.  [FigShape]: the structure of the nodes in memory.
    - Small components.  [Bitmap] ([bitmap.c]); [DList], [DListProof], [DListSort],
      [DListRefine] ([list.c]); [BitmapFile] ([bitmap_file.c]); [LogQueue] (the
      queue of precreated logs of [gdpfs_log.c], as a transition system).
    - Log service.  [Gdp]: the functions of the client library that the sources
      call, their contract and a reference service.  [LogEnt], [LogEntProof]: the
      rest of [gdpfs_log.c].
    - File layer.  [FileIface]: the functions of [gdpfs_file.h] and their contract
      [FileLaws]; [FileRef]: a reference implementation.  [File]: [gdpfs_file.c].
      [FileIndex], [FileSpec], [FileFocus], [FileRead], [FileRep], [FileStep],
      [FileSettle], [FileLoad], [FileOpen], [FileCreate]: the invariant of the layer
      and the effect of each function on it.  [FileReload], [FileRestart]: the
      checkpoints of [gdpfs_stop] and files that are opened from them.  [FileLaws]: [File] over any log
      service meets the contract.  [FileStart], [FileTheorems], [FileFaults]:
      starting, sessions of calls, and calls outside the contract.
    - Directories and requests, over any file layer that meets the contract.
      [Dir] ([gdpfs_dir.c]), [DirSpec], [DirProof]; [FsPath], [FsSpec], [FsDir]:
      paths, the graph of inodes, and resolution; [Fuse] ([gdpfs.c]), [FsOps],
      [FsTree], [FuseSpec], [FuseProof], [FuseTheorems], [FuseFacts], [Readdir].
    - Concurrency of file references.  [FileConc]: the regions of [gdpfs_file.c]
      that hold a lock, interleaved.  [FileConcSafe]: the interleavings that are
      safe.  [FileSerial]: the calls of [File] are serial runs of [FileConc].
    - The whole program.  [Mount]: [gdpfs_run].  [Stable], [History]: what holds of
      every run without any assumption on the requests.  [Main]: [main.c], the
      command line and the program started from it.

    ** How state and operations correspond to the code

    A pointer is an address in a finite map; a null pointer is [None]; a status, a
    type or a tagged union is an inductive type; a fixed-size array with a length
    field is a list whose accesses are checked against the capacity; an integer is
    a [Z] with its wrap-around written out where it can occur.  A failed assertion,
    an access out of bounds, a dangling or null pointer, a double free and the use
    of an uninitialised variable are outcomes ([fault]).  The globals of
    [gdpfs_file.c] are the record [gfs]; each FIG tree has a heap of its own in the
    object of its file.  Loops that are not structural take fuel, and the theorems
    on them show that the result is reached: the height of a tree and the number
    of elements of a list, of entries of a directory (the parameter [fuel] of the
    handlers must exceed the number of entries any directory reaches, [room]) or of
    bytes of a request are enough.

    Concurrency.  [LogQueue] interleaves the producer and any number of consumers
    at the regions that hold the mutex, with spurious wakeups and failing
    creations.  In [File] the calls of the FUSE thread are steps; before each call
    any sequence of completions of appends, in any order, and of creations of logs
    takes place, as an arbitrary schedule says.  [FileConc] takes the same functions
    apart into the regions between two changes of a lock, for any number of threads,
    and keeps of their state what manages references: the counters, the hash table,
    the list of recently closed files, the handles and the pending callbacks.
    [FileSerial] connects the two.

    ** What the theorems show

    - Refinement: the program over any log service answers every client as an
      abstract file system does ([Mount.gdpfs_run_refines]); so do the handlers over
      any file layer ([FuseTheorems.fuse_refines]), the file layer over any log
      service ([FileTheorems.file_session_refines]), log entries, lists, bitmaps and
      bitmap files over theirs.
    - Recovery and history: the logs alone restore the file system after a crash
      between two requests ([Mount.crash_recovery]); after a clean stop a new
      process reads the files through their checkpoints
      ([FileRestart.restart_reads]); no run changes or removes a record, and a
      read-only mount adds none ([History.history_preserved]).
    - The FIG tree: writes, lookups, range reads and checkpoints are those of a byte
      map, without fault and with termination, for every allocator; the nodes keep
      their shape ([FigShape.ft_well_shaped]); a checkpoint can be loaded again, and lookups
      and iterators read it.
    - Invariants: exact reference counts, of the calls in sequence
      ([FileTheorems.file_counters_exact]) and in every interleaving of threads
      ([FileConc.conc_counters_exact]); order, exclusion and progress of the queue
      of logs.
    - Concurrency: interleavings that keep certain regions on one file exclusive
      are free of faults ([FileConcSafe.disciplined_runs_safe]); without that, three
      races end in a failed assertion or the use of a freed file
      ([FileConc.reference_races]).
    - The command line: what [main] makes of every list of arguments
      ([Main.main_command_line]), and the program from there on
      ([Main.main_serves]).
    - Requests: resolving paths, creating, moving and listing; reading back what was
      written; the permission checks.
    - Round trips of records, directory entries and log entries.
    - What the code gets wrong, as theorems: silent success of removing an absent
      name, truncation that keeps the data, long names, the range checks of bitmaps,
      closed handles, stale names after a failed creation, poisoned cache files,
      lost writes after a checkpoint, record numbers that an empty checkpoint shifts,
      zeros read after a clean stop, writes on a read-only mount, races, and runs
      without the cache.

    ** Bounds

    At most 1024 handles ([MAX_FHS]) and, for the refinement of the file layer, 256
    files ([RC_CAP], so that no file is evicted), offsets below [BYTE_INDEX_MAX]
    (the byte indices of the FIG tree have 32 bits), and fewer than 65536 logs and
    pending appends ([MAX_LOGS], [MAX_PENDING]).  The refinement theorems are about
    mounts with the cache in mode [GDP_MODE_RA]; [crash_recovery] is about logs
    without checkpoints, [restart_reads] about logs with one at the end.

    ** Not modelled

    - The FUSE main loop, with the signal that calls [sig_int]: a client of the
      handlers stands for the kernel, and the arguments of FUSE are only passed on.
    - The benchmarks under [src/benchmark], which use the mounted file system from
      outside.
    - The client library of the log service and libep are parameters with their
      contract; local files and memory allocation do not fail.
    - [handle_read] of [gdpfs_file.c]: only ranges with a negative record number
      reach it, and there are none.
    - Preemption inside a call of [gdpfs_file.h] as far as the data, the index and
      the cache of a file are concerned ([FileConc] is about its references), the
      freeing of the handles and the hash table at the end of [stop_gdpfs_file],
      and the code that is disabled by [USE_BITMAP] in [gdpfs_file.c]
      ([BitmapFile] models the functions it would call).
*)
From Stdlib Require Export ZArith Lia ZifyBool.
From stdpp Require Export base option gmap list.

#[global] Open Scope Z_scope.

(** ** Faults and results *)

(** The ways in which a run of the C code can go wrong.  [AssertFail] is a
    failed [EP_ASSERT]-style check, [FatalError] an [ep_app_fatal],
    [OutOfBounds], [NullDeref], [DanglingPtr] and [Uninitialised] (reading a
    variable that was not set) are undefined behaviour of the
    C abstract machine, and [OutOfFuel] marks a loop that was cut off by the
    model; the termination theorems show that the latter never happens. *)
Inductive fault :=
  | AssertFail
  | FatalError
  | OutOfBounds
  | NullDeref
  | DanglingPtr
  | Uninitialised
  | OutOfFuel.

#[export] Instance fault_eq_dec : EqDecision fault.
Proof. solve_decision. Defined.

(** The outcome of a fallible computation. *)
Inductive res (A : Type) :=
  | Ok (a : A)
  | Fault (f : fault).
Arguments Ok {A} _.
Arguments Fault {A} _.

#[export] Instance res_eq_dec {A} `{!EqDecision A} : EqDecision (res A).
Proof. intros x y. unfold Decision. decide equality; apply (decide (_ = _)). Defined.

#[export] Instance res_ret : MRet res := λ A a, Ok a.
#[export] Instance res_bind : MBind res := λ A B k r,
  match r with Ok a => k a | Fault f => Fault f end.

Lemma res_bind_ok {A B} (r : res A) (k : A → res B) b :
  r ≫= k = Ok b ↔ ∃ a, r = Ok a ∧ k a = Ok b.
Proof. destruct r; naive_solver. Qed.

(** An assertion in fallible code. *)
Definition ep_assert (b : bool) : res unit :=
  if b then Ok tt else Fault AssertFail.

(** ** Machine integers

    A [w]-bit unsigned integer is a [Z]; the operations that can wrap around
    are written with [wrap]. *)
Definition wrap (w z : Z) : Z := z mod 2 ^ w.
Abbreviation wrap8 := (wrap 8).
Abbreviation wrap32 := (wrap 32).
Abbreviation wrap64 := (wrap 64).

Definition in_width (w z : Z) : Prop := 0 ≤ z < 2 ^ w.

#[export] Instance in_width_dec w z : Decision (in_width w z).
Proof. unfold in_width. apply _. Defined.

Lemma wrap_small w z : in_width w z → wrap w z = z.
Proof. intros H. by apply Z.mod_small. Qed.

Lemma wrap_bound w z : 0 ≤ w → in_width w (wrap w z).
Proof. intros H. apply Z.mod_pos_bound, Z.pow_pos_nonneg; lia. Qed.

Lemma wrap32_eq z : wrap32 z = z mod 4294967296.
Proof. reflexivity. Qed.

Lemma wrap64_eq z : wrap64 z = z mod 18446744073709551616.
Proof. reflexivity. Qed.

(** ** Lists *)

(** Two consecutive slots of an insertion. *)
Lemma take_drop_insert {A} (l : list A) i x :
  (i < length l)%nat → <[i:=x]> l = take i l ++ x :: drop (S i) l.
Proof. intros. by rewrite insert_take_drop. Qed.

Lemma lookup_split {A} (l : list A) i x :
  l !! i = Some x → l = take i l ++ x :: drop (S i) l.
Proof. intros. symmetry. by apply take_drop_middle. Qed.

Lemma split_at {A} (l : list A) n :
  (n < length l)%nat → ∃ l1 x l2, l = l1 ++ x :: l2 ∧ length l1 = n.
Proof.
  intros Hn. destruct (lookup_lt_is_Some_2 l n Hn) as [x Hx].
  exists (take n l), x, (drop (S n) l). split; [by apply lookup_split|].
  rewrite length_take. lia.
Qed.

(** The longest prefix whose elements satisfy a test. *)
Lemma split_while {A} (p : A → bool) (l : list A) :
  ∃ l1 l2, l = l1 ++ l2 ∧ Forall (λ x, p x = true) l1 ∧
    Forall (λ x, p x = false) (take 1 l2).
Proof.
  induction l as [|x l (l1 & l2 & -> & H1 & H2)].
  - exists [], []. by repeat constructor.
  - destruct (p x) eqn:Hx.
    + exists (x :: l1), l2. split_and!; [done|by constructor|done].
    + exists [], (x :: l1 ++ l2). split_and!; [done|constructor|]. by repeat constructor.
Qed.

(** ** Automation *)

(** [case_all] splits every boolean comparison in sight. *)
Ltac case_bools :=
  repeat match goal with
  | |- context [bool_decide ?P] => case_bool_decide
  | H : context [bool_decide ?P] |- _ => case_bool_decide
  | |- context [Z.leb ?a ?b] => destruct (Z.leb_spec a b)
  | |- context [Z.ltb ?a ?b] => destruct (Z.ltb_spec a b)
  | |- context [Z.eqb ?a ?b] => destruct (Z.eqb_spec a b)
  | H : context [Z.leb ?a ?b] |- _ => destruct (Z.leb_spec a b)
  | H : context [Z.ltb ?a ?b] |- _ => destruct (Z.ltb_spec a b)
  | H : context [Z.eqb ?a ?b] |- _ => destruct (Z.eqb_spec a b)
  end; simpl in *.
