(* ===== verification/Heap.v ===== *)
(** * Programs over a typed heap, and a weakest precondition for them

    The pointer-based components ([list.c] and the FIG tree) are modelled as
    functions in a state monad over a finite map from addresses to objects of
    one C struct type.  Reading or writing an address that is not allocated is
    a fault, so use-after-free is visible.  Allocation goes through an
    arbitrary allocator ([ep_mem_zalloc] of libep, which aborts instead of
    returning NULL): nothing is assumed of it but that it returns an address
    that is not in use.

    [wp c Φ] is the total-correctness weakest precondition of such a program,
    an Iris assertion over the points-to connective of the heap; [wp_adequacy]
    turns it into a statement about runs. *)
From S2P Require Import Prelude.
From iris.base_logic.lib Require Export ghost_map own.
From iris.proofmode Require Export proofmode.
From stdpp Require Import base gmap.

Abbreviation loc := positive.

(** ** The program monad *)

Definition heap (V : Type) := gmap loc V.

Definition prog (V A : Type) : Type := heap V → res (A * heap V).

#[export] Instance prog_ret {V} : MRet (prog V) := λ A a σ, Ok (a, σ).
#[export] Instance prog_bind {V} : MBind (prog V) := λ A B k c σ,
  match c σ with
  | Ok (a, σ') => k a σ'
  | Fault f => Fault f
  end.

(** The allocator of the C library (libep). *)
Class Allocator := {
  malloc : gset loc → loc;
  malloc_fresh X : malloc X ∉ X;
}.

(** An allocator that can be evaluated: the successor of the largest address
    in use. *)
Definition bump_malloc (X : gset loc) : loc :=
  Pos.succ (set_fold Pos.max 1%positive X).

Definition fail {V A} (f : fault) : prog V A := λ _, Fault f.

Definition assert {V} (b : bool) : prog V unit :=
  if b then mret tt else fail AssertFail.

Definition load {V} (l : loc) : prog V V := λ σ,
  match σ !! l with Some v => Ok (v, σ) | None => Fault DanglingPtr end.

Definition store {V} (l : loc) (v : V) : prog V unit := λ σ,
  match σ !! l with Some _ => Ok (tt, <[l:=v]> σ) | None => Fault DanglingPtr end.

Definition alloc `{Allocator} {V} (v : V) : prog V loc := λ σ,
  let l := malloc (dom σ) in Ok (l, <[l:=v]> σ).

(** [free] of an address that is not allocated is a double free. *)
Definition free {V} (l : loc) : prog V unit := λ σ,
  match σ !! l with Some _ => Ok (tt, delete l σ) | None => Fault DanglingPtr end.

(** Dereferencing a possibly null pointer. *)
Definition deref {V} (p : option loc) : prog V loc :=
  match p with Some l => mret l | None => fail NullDeref end.

(** Lift a lookup in a fixed-size array. *)
Definition in_bounds {V A} (o : option A) : prog V A :=
  match o with Some a => mret a | None => fail OutOfBounds end.

Definition lift_res {V A} (r : res A) : prog V A := λ σ,
  match r with Ok a => Ok (a, σ) | Fault f => Fault f end.

(** ** The allocator instance used by the witnesses *)

Lemma set_fold_max_ge (X : gset loc) x :
  x ∈ X → (x ≤ set_fold Pos.max 1 X)%positive.
Proof.
  revert x. apply (set_fold_ind_L (λ b X, ∀ x, x ∈ X → (x ≤ b)%positive)).
  - set_solver.
  - intros y Y b _ IH x [->%elem_of_singleton|Hx]%elem_of_union; [lia|].
    specialize (IH x Hx). lia.
Qed.

Lemma bump_malloc_fresh X : bump_malloc X ∉ X.
Proof. intros HX%set_fold_max_ge. unfold bump_malloc in HX. lia. Qed.

#[export] Instance bump_allocator : Allocator :=
  {| malloc := bump_malloc; malloc_fresh := bump_malloc_fresh |}.

(** ** Resources *)

Class heapG (V : Type) (Σ : gFunctors) := HeapG {
  heapG_map :: ghost_mapG Σ loc V;
  heapG_name : gname;
}.

Definition heapΣ (V : Type) : gFunctors := ghost_mapΣ loc V.

Definition points_to `{!heapG V Σ} (l : loc) (v : V) : iProp Σ :=
  l ↪[heapG_name] v.
Notation "l ↦ v" := (points_to l v)
  (at level 20, format "l  ↦  v") : bi_scope.

Definition wp `{!heapG V Σ} {A} (c : prog V A) (Φ : A → iProp Σ) : iProp Σ :=
  ∀ σ, ghost_map_auth heapG_name 1 σ ==∗
    ∃ a σ', ⌜c σ = Ok (a, σ')⌝ ∗ ghost_map_auth heapG_name 1 σ' ∗ Φ a.

(** ** Rules of the weakest precondition *)
Section rules.
Context `{!heapG V Σ}.
Implicit Types (l : loc) (v w : V).

#[global] Instance points_to_timeless l v : Timeless (l ↦ v).
Proof. apply _. Qed.

Lemma points_to_ne l l' v v' : l ↦ v -∗ l' ↦ v' -∗ ⌜l ≠ l'⌝.
Proof. iIntros "H H'". iApply (ghost_map_elem_ne with "H H'"). Qed.

Lemma wp_ret {A} (a : A) Φ : Φ a ⊢ wp (mret a : prog V A) Φ.
Proof. iIntros "H %σ Hσ !>". iExists a, σ. by iFrame. Qed.

Lemma wp_bind {A B} (c : prog V A) (k : A → prog V B) Φ :
  wp c (λ a, wp (k a) Φ) ⊢ wp (c ≫= k) Φ.
Proof.
  iIntros "H %σ Hσ". iMod ("H" with "Hσ") as (a σ' Hc) "[Hσ H]".
  iMod ("H" with "Hσ") as (b σ'' Hk) "[Hσ H]".
  iModIntro. iExists b, σ''. iFrame. iPureIntro.
  unfold mbind, prog_bind. by rewrite Hc.
Qed.

Lemma wp_mono {A} (c : prog V A) Φ Ψ :
  wp c Φ -∗ (∀ a, Φ a -∗ Ψ a) -∗ wp c Ψ.
Proof.
  iIntros "H HΦ %σ Hσ". iMod ("H" with "Hσ") as (a σ' Hc) "[Hσ H]".
  iModIntro. iExists a, σ'. iFrame. iSplit; [done|]. by iApply "HΦ".
Qed.

Lemma wp_pure_step {A} (c c' : prog V A) Φ :
  (∀ σ, c σ = c' σ) → wp c' Φ ⊢ wp c Φ.
Proof.
  iIntros (Heq) "H %σ Hσ". iMod ("H" with "Hσ") as (a σ' Hc) "H".
  iModIntro. iExists a, σ'. rewrite Heq. by iFrame.
Qed.

Lemma wp_assert (b : bool) Φ : b = true → Φ tt ⊢ wp (assert b) Φ.
Proof. iIntros (->) "H". by iApply wp_ret. Qed.

Lemma wp_deref l Φ : Φ l ⊢ wp (deref (Some l)) Φ.
Proof. apply wp_ret. Qed.

Lemma wp_in_bounds {A} (o : option A) a Φ :
  o = Some a → Φ a ⊢ wp (in_bounds o) Φ.
Proof. intros ->. apply wp_ret. Qed.

Lemma wp_lift_res {A} (r : res A) a Φ :
  r = Ok a → Φ a ⊢ wp (lift_res r) Φ.
Proof. iIntros (->) "H %σ Hσ !>". iExists a, σ. by iFrame. Qed.

Lemma wp_load l v Φ : l ↦ v -∗ (l ↦ v -∗ Φ v) -∗ wp (load l) Φ.
Proof.
  iIntros "Hl HΦ %σ Hσ". iDestruct (ghost_map_lookup with "Hσ Hl") as %Hl.
  iModIntro. iExists v, σ. rewrite /load Hl. iFrame. iSplit; [done|]. by iApply "HΦ".
Qed.

Lemma wp_store l v w Φ : l ↦ v -∗ (l ↦ w -∗ Φ tt) -∗ wp (store l w) Φ.
Proof.
  iIntros "Hl HΦ %σ Hσ". iDestruct (ghost_map_lookup with "Hσ Hl") as %Hl.
  iMod (ghost_map_update w with "Hσ Hl") as "[Hσ Hl]".
  iModIntro. iExists tt, _. rewrite /store Hl. iFrame. iSplit; [done|]. by iApply "HΦ".
Qed.

Lemma wp_alloc `{!Allocator} v Φ : (∀ l, l ↦ v -∗ Φ l) -∗ wp (alloc v) Φ.
Proof.
  iIntros "HΦ %σ Hσ".
  assert (σ !! malloc (dom σ) = None) as Hn.
  { apply not_elem_of_dom, malloc_fresh. }
  iMod (ghost_map_insert _ v with "Hσ") as "[Hσ Hl]"; [exact Hn|].
  iModIntro. iExists _, _. iFrame. iSplit; [done|]. by iApply "HΦ".
Qed.

Lemma wp_free l v Φ : l ↦ v -∗ Φ tt -∗ wp (free l) Φ.
Proof.
  iIntros "Hl HΦ %σ Hσ". iDestruct (ghost_map_lookup with "Hσ Hl") as %Hl.
  iMod (ghost_map_delete with "Hσ Hl") as "Hσ".
  iModIntro. iExists tt, _. rewrite /free Hl. by iFrame.
Qed.

End rules.

(** A weakest precondition proved for every choice of resources is a statement
    about the run from the given heap. *)
Lemma wp_adequacy {V A} (c : prog V A) (σ : heap V) (φ : A → Prop) :
  (∀ Σ `{!heapG V Σ}, ([∗ map] l ↦ v ∈ σ, l ↦ v) ⊢ wp c (λ a, ⌜φ a⌝)) →
  ∃ a σ', c σ = Ok (a, σ') ∧ φ a.
Proof.
  intros Hwp. apply (pure_soundness (PROP:=iPropI (heapΣ V))).
  apply uPred.bupd_soundness; [apply _|].
  iMod (ghost_map_alloc (K:=loc) (V:=V) σ) as (γ) "[Hσ Hl]".
  iPoseProof (Hwp (heapΣ V) (HeapG V _ _ γ) with "Hl") as "H".
  iMod ("H" with "Hσ") as (a σ' Hc) "[_ %Hφ]". iModIntro.
  iPureIntro. eauto.
Qed.

(** Two programs in a row, where the first one preserves a property [P] of the
    heap: the second one may rely on it. *)
Lemma wp_adequacy_inv {V A B} (P : heap V → Prop) (c : prog V A) (k : A → prog V B)
    (σ : heap V) (φ : B → Prop) :
  P σ → (∀ σ1 a σ2, P σ1 → c σ1 = Ok (a, σ2) → P σ2) →
  (∀ Σ `{!heapG V Σ}, ([∗ map] l ↦ v ∈ σ, l ↦ v) ⊢ wp c (λ a, ∀ σ', ⌜P σ'⌝ -∗
     ghost_map_auth heapG_name 1 σ' ==∗ ∃ b σ'', ⌜k a σ' = Ok (b, σ'')⌝ ∗ ⌜φ b⌝)) →
  ∃ b σ', (c ≫= k) σ = Ok (b, σ') ∧ φ b.
Proof.
  intros HP Hkeep Hwp. apply (pure_soundness (PROP:=iPropI (heapΣ V))).
  apply uPred.bupd_soundness; [apply _|].
  iMod (ghost_map_alloc (K:=loc) (V:=V) σ) as (γ) "[Hσ Hl]".
  iPoseProof (Hwp (heapΣ V) (HeapG V _ _ γ) with "Hl") as "H".
  iMod ("H" with "Hσ") as (a σ' Hc) "[Hσ H]".
  iMod ("H" with "[%] Hσ") as (b σ'' Hk) "%Hφ"; [by eapply Hkeep|]. iModIntro.
  iPureIntro. exists b, σ''. split; [|done]. unfold mbind, prog_bind. by rewrite Hc.
Qed.

(** The same for a property of the result and the final heap. *)
Lemma wp_adequacy_heap {V A} (c : prog V A) (σ : heap V) (φ : A → heap V → Prop) :
  (∀ Σ `{!heapG V Σ}, ([∗ map] l ↦ v ∈ σ, l ↦ v) ⊢
     wp c (λ a, ∀ σ', ghost_map_auth heapG_name 1 σ' -∗ ⌜φ a σ'⌝)) →
  ∃ a σ', c σ = Ok (a, σ') ∧ φ a σ'.
Proof.
  intros Hwp. apply (pure_soundness (PROP:=iPropI (heapΣ V))).
  apply uPred.bupd_soundness; [apply _|].
  iMod (ghost_map_alloc (K:=loc) (V:=V) σ) as (γ) "[Hσ Hl]".
  iPoseProof (Hwp (heapΣ V) (HeapG V _ _ γ) with "Hl") as "H".
  iMod ("H" with "Hσ") as (a σ' Hc) "[Hσ H]". iModIntro.
  iDestruct ("H" with "Hσ") as %Hφ. iPureIntro. eauto.
Qed.

Lemma prog_bind_assoc {V A B C} (c : prog V A) (d : A → prog V B) (k : B → prog V C) σ :
  (c ≫= λ a, d a ≫= k) σ = ((c ≫= d) ≫= k) σ.
Proof. unfold mbind, prog_bind. by destruct (c σ) as [[a σ']|]. Qed.

(** ** Proof-mode tactics for programs *)

Ltac wp_bind := iApply wp_bind.
Ltac wp_ret := iApply wp_ret.

(** Step over a load of [l], whose points-to is the hypothesis named [H]. *)
Tactic Notation "wp_load" constr(H) :=
  iApply (wp_load with H); iIntros H.
Tactic Notation "wp_store" constr(H) :=
  iApply (wp_store with H); iIntros H.
Tactic Notation "wp_alloc" ident(l) "as" constr(H) :=
  iApply wp_alloc; iIntros (l) H.
Tactic Notation "wp_free" constr(H) :=
  iApply (wp_free with H).
Tactic Notation "wp_assert" :=
  iApply wp_bind; iApply wp_assert; [|].
