(* ===== verification/Interval.v ===== *)
(** * Closed byte intervals ([src/figtree/interval.c])

    An interval is a pair of 32-bit byte indices and a flag; the empty interval
    is represented by [left = UINT32_MAX], [right = 0] and a cleared flag.  The
    C functions that update an interval in place return the new value here, and
    a failed assertion is a fault. *)
From S2P Require Import Prelude.

(** ** Data ([utils.h], [interval.h]) *)

Definition BYTE_INDEX_MIN : Z := 0.
Definition BYTE_INDEX_MAX : Z := 4294967295.

Record interval := mkInterval {
  i_left : Z;
  i_right : Z;
  i_nonempty : bool;
}.

#[export] Instance interval_eq_dec : EqDecision interval.
Proof. solve_decision. Defined.

(** ** Operations *)

Definition i_init (l r : Z) : interval := mkInterval l r true.

Definition i_new (l r : Z) : res interval :=
  _ ← ep_assert (l <=? r);
  mret (i_init l r).

Definition i_contains_val (this : interval) (x : Z) : bool :=
  (i_left this <=? x) && (x <=? i_right this).

Definition i_contains_int (this other : interval) : bool :=
  (i_left this <=? i_left other) && (i_right other <=? i_right this).

Definition i_restrict_range (this : interval) (l r : Z) (allowempty : bool)
    : res interval :=
  let newleft := Z.max (i_left this) l in
  let newright := Z.min (i_right this) r in
  if allowempty && (newright <? newleft)
  then mret (mkInterval BYTE_INDEX_MAX BYTE_INDEX_MIN false)
  else
    _ ← ep_assert (newleft <=? newright);
    mret (mkInterval newleft newright (i_nonempty this)).

Definition i_restrict_int (this to : interval) (allowempty : bool) : res interval :=
  i_restrict_range this (i_left to) (i_right to) allowempty.

Definition i_overlaps (this other : interval) : bool :=
  (i_left other <=? i_right this) && (i_left this <=? i_right other).

Definition i_leftOverlaps (this other : interval) : bool :=
  i_nonempty this && i_contains_val other (i_left this).

Definition i_rightOverlaps (this other : interval) : bool :=
  i_nonempty this && i_contains_val other (i_right this).

Definition i_leftOf_val (this : interval) (x : Z) : bool :=
  i_nonempty this && (i_right this <? x).

Definition i_leftOf_int (this other : interval) : bool :=
  i_leftOf_val this (i_left other).

Definition i_rightOf_val (this : interval) (x : Z) : bool :=
  i_nonempty this && (x <? i_left this).

Definition i_rightOf_int (this other : interval) : bool :=
  i_rightOf_val this (i_right other).

Definition i_equals (this other : interval) : bool :=
  if eqb (i_nonempty this) (i_nonempty other)
  then negb (i_nonempty this) ||
       ((i_left this =? i_left other) && (i_right this =? i_right other))
  else false.

(** ** Meaning *)

(** The bytes of an interval. *)
#[export] Instance interval_elem_of : ElemOf Z interval :=
  λ b i, i_left i ≤ b ≤ i_right i.

#[export] Instance interval_elem_of_dec (b : Z) (i : interval) : Decision (b ∈ i).
Proof. unfold elem_of, interval_elem_of. apply _. Defined.

Definition byte_index (b : Z) : Prop := BYTE_INDEX_MIN ≤ b ≤ BYTE_INDEX_MAX.

(** The representation invariant: a nonempty range of byte indices, or the
    canonical empty interval. *)
Definition interval_wf (i : interval) : Prop :=
  if i_nonempty i
  then BYTE_INDEX_MIN ≤ i_left i ∧ i_left i ≤ i_right i ∧ i_right i ≤ BYTE_INDEX_MAX
  else i_left i = BYTE_INDEX_MAX ∧ i_right i = BYTE_INDEX_MIN.

(** ** Automation: reduce interval goals to linear arithmetic *)
Ltac unfold_interval :=
  unfold i_overlaps, i_leftOverlaps, i_rightOverlaps, i_leftOf_int, i_leftOf_val,
    i_rightOf_int, i_rightOf_val, i_contains_val, i_contains_int, interval_wf,
    byte_index, BYTE_INDEX_MIN, BYTE_INDEX_MAX, elem_of, interval_elem_of in *;
  simpl in *.

Ltac interval_lia :=
  repeat match goal with
  | i : interval |- _ => destruct i as [? ? [|]]
  end;
  unfold_interval;
  repeat match goal with
  | H : _ ∧ _ |- _ => destruct H
  | H : _ && _ = true |- _ => apply andb_true_iff in H
  end; try done; try lia.

Lemma elem_of_interval (b : Z) (i : interval) :
  b ∈ i ↔ i_left i ≤ b ≤ i_right i.
Proof. done. Qed.

(** ** Properties of single operations *)

Lemma i_restrict_range_empty i l r :
  interval_wf i → byte_index l → byte_index r →
  (∀ b, b ∈ i → ¬ (l ≤ b ≤ r)) →
  i_restrict_range i l r true = Ok (mkInterval BYTE_INDEX_MAX BYTE_INDEX_MIN false).
Proof.
  intros Hwf Hl Hr Hno. unfold i_restrict_range.
  assert (Z.min (i_right i) r < Z.max (i_left i) l) as ->%Z.ltb_lt; [|done].
  destruct (Z_lt_le_dec (Z.min (i_right i) r) (Z.max (i_left i) l)); [done|].
  destruct (Hno (Z.max (i_left i) l)); unfold_interval; lia.
Qed.

Lemma i_restrict_range_nonempty i l r a b :
  b ∈ i → l ≤ b ≤ r →
  i_restrict_range i l r a =
    Ok (mkInterval (Z.max (i_left i) l) (Z.min (i_right i) r) (i_nonempty i)).
Proof.
  intros Hb Hlr. unfold i_restrict_range. unfold_interval.
  destruct (Z.ltb_spec (Z.min (i_right i) r) (Z.max (i_left i) l)); [lia|].
  rewrite andb_false_r. unfold ep_assert.
  destruct (Z.leb_spec (Z.max (i_left i) l) (Z.min (i_right i) r)); [done|lia].
Qed.

(** With [allowempty] a restriction never fails and yields the intersection. *)
Lemma i_restrict_range_allow i l r :
  interval_wf i → byte_index l → byte_index r →
  ∃ i', i_restrict_range i l r true = Ok i' ∧ interval_wf i' ∧
    ∀ b, b ∈ i' ↔ b ∈ i ∧ l ≤ b ≤ r.
Proof.
  intros Hwf Hl Hr. unfold i_restrict_range. simpl.
  destruct (Z.ltb_spec (Z.min (i_right i) r) (Z.max (i_left i) l)).
  - eexists; split; [done|]. interval_lia; (split; [lia|]); intros; lia.
  - unfold ep_assert. destruct (Z.leb_spec (Z.max (i_left i) l) (Z.min (i_right i) r)); [|lia].
    eexists; split; [done|]. interval_lia. split; [lia|]. intros; lia.
Qed.
