(* ===== verification/Types.v ===== *)
(** * Shared data types ([src/gdpfs_stat.h], [src/gdpfs_file.h])

    Status codes, file types and the metadata header that precedes the payload
    of every log entry. *)
From S2P Require Import Prelude.

(** ** Status codes

    An [EP_STAT] carries a severity, a module and a detail number.  The model
    keeps the codes of GDPFS apart as constructors; [EP_STAT_OK] is libep's own
    success code, [GDP_STAT] stands for every other status reported by the
    GDP library. *)
Inductive stat :=
  | GDPFS_STAT_OK
  | GDPFS_STAT_EOF
  | GDPFS_STAT_NOTFOUND
  | GDPFS_STAT_RW_FAILED
  | GDPFS_STAT_OOMEM
  | GDPFS_STAT_BADFH
  | GDPFS_STAT_INVLDPARAM
  | GDPFS_STAT_INVLDMODE
  | GDPFS_STAT_INVLDFTYPE
  | GDPFS_STAT_BADLOGMODE
  | GDPFS_STAT_CORRUPT
  | GDPFS_STAT_BADPATH
  | GDPFS_STAT_CREATE_FAILED
  | GDPFS_STAT_FILE_EXISTS
  | GDPFS_STAT_DIR_EXISTS
  | GDPFS_STAT_DIR_NOT_EMPTY
  | GDPFS_STAT_LOCAL_FS_FAIL
  | GDPFS_STAT_SYNCH_FAIL
  | EP_STAT_OK
  | GDP_STAT (ok : bool) (detail : Z).

#[export] Instance stat_eq_dec : EqDecision stat.
Proof. solve_decision. Defined.

(** [EP_STAT_ISOK]: the severity is OK; [GDPFS_STAT_EOF] is declared with that
    severity too. *)
Definition EP_STAT_ISOK (s : stat) : bool :=
  match s with
  | GDPFS_STAT_OK | GDPFS_STAT_EOF | EP_STAT_OK => true
  | GDP_STAT ok _ => ok
  | _ => false
  end.

Definition EP_STAT_IS_SAME (s t : stat) : bool := bool_decide (s = t).

(** ** File metadata ([gdpfs_file.h]) *)

Inductive gdpfs_logent_type :=
  | GDPFS_LOGENT_TYPE_DATA
  | GDPFS_LOGENT_TYPE_CHKPT.

Inductive gdpfs_file_type :=
  | GDPFS_FILE_TYPE_REGULAR
  | GDPFS_FILE_TYPE_DIR
  | GDPFS_FILE_TYPE_NEW
  | GDPFS_FILE_TYPE_UNKNOWN.

Inductive gdpfs_file_mode :=
  | GDPFS_FILE_MODE_RO
  | GDPFS_FILE_MODE_RW
  | GDPFS_FILE_MODE_WO.

#[export] Instance gdpfs_logent_type_eq_dec : EqDecision gdpfs_logent_type.
Proof. solve_decision. Defined.
#[export] Instance gdpfs_file_type_eq_dec : EqDecision gdpfs_file_type.
Proof. solve_decision. Defined.
#[export] Instance gdpfs_file_mode_eq_dec : EqDecision gdpfs_file_mode.
Proof. solve_decision. Defined.

Record gdpfs_file_info := mkInfo {
  file_size : Z;
  file_type : gdpfs_file_type;
  file_perm : Z;
}.

Record gdpfs_fmeta := mkFmeta {
  fm_file_size : Z;
  fm_file_perm : Z;
  fm_file_type : gdpfs_file_type;
  fm_logent_type : gdpfs_logent_type;
  fm_ent_offset : Z;
  fm_ent_size : Z;
  fm_magic : Z;
}.

#[export] Instance gdpfs_file_info_eq_dec : EqDecision gdpfs_file_info.
Proof. solve_decision. Defined.
#[export] Instance gdpfs_fmeta_eq_dec : EqDecision gdpfs_fmeta.
Proof. solve_decision. Defined.

(** [sizeof (gdpfs_fmeta_t)] on LP64. *)
Definition sizeof_fmeta : Z := 48.

Definition MAGIC_NUMBER : Z := 0xb531479b64f64e0d.
