(* ===== verification/FigNode.v ===== *)
(** * FIG tree nodes ([src/figtree/utils.[ch]], [src/figtree/figtreenode.[ch]])

    The nodes live in a heap of [ft_node] structs.  The fixed-size arrays
    [entries] and [subtrees] together with their length fields are lists; the
    length fields are the lengths of these lists, and every access is checked
    against them (writes are also checked against the array capacity). *)
From S2P Require Import Prelude.
From S2P Require Import Heap.
From S2P Require Import Interval.
From S2P Require Import Types.

#[local] Open Scope Z_scope.

(** ** Data *)

Definition FT_ORDER : nat := 2.
Definition FT_SPLITLIMIT : nat := 1 + 2 * FT_ORDER.

Record subtree_ptr := mkSubtreePtr {
  sp_recno : Z;
  sp_offset : Z;
  sp_st : option loc;
  sp_inmemory : bool;
}.

Record ft_ent := mkEnt {
  irange : interval;
  ent_value : Z;
}.

Record ft_node := mkNode {
  entries : list ft_ent;
  subtrees : list subtree_ptr;
  HEIGHT : Z;
  dirty : bool;
}.

#[export] Instance subtree_ptr_eq_dec : EqDecision subtree_ptr.
Proof. solve_decision. Defined.
#[export] Instance ft_ent_eq_dec : EqDecision ft_ent.
Proof. solve_decision. Defined.
#[export] Instance ft_node_eq_dec : EqDecision ft_node.
Proof. solve_decision. Defined.

(** [sizeof (struct ft_node)] on LP64. *)
Definition sizeof_ft_node : Z := 336.

Definition with_entries (n : ft_node) (es : list ft_ent) : ft_node :=
  mkNode es (subtrees n) (HEIGHT n) (dirty n).
Definition with_subtrees (n : ft_node) (ss : list subtree_ptr) : ft_node :=
  mkNode (entries n) ss (HEIGHT n) (dirty n).
Definition with_dirty (n : ft_node) (d : bool) : ft_node :=
  mkNode (entries n) (subtrees n) (HEIGHT n) d.

(** A log entry as the FIG tree and the file layer read it: the metadata
    header and either file data or checkpointed node images (the node images
    are written with [memcpy], so they are kept as structs). *)
Inductive payload :=
  | PData (bytes : list Z)
  | PNodes (nodes : list ft_node).

Record logent := mkLogent {
  le_meta : gdpfs_fmeta;
  le_payload : payload;
}.

Definition payload_size (p : payload) : Z :=
  match p with
  | PData bs => Z.of_nat (length bs)
  | PNodes ns => sizeof_ft_node * Z.of_nat (length ns)
  end.

(** What [gdp_gcl_read] returns for a record number; the log service itself is
    not part of the repository, so it is an argument everywhere. *)
Definition gdpfs_log := Z → option logent.

Abbreviation node_prog := (prog ft_node).

Section operations.
Context `{!Allocator}.

(** ** Subtree pointers ([utils.c]) *)

Definition null_subtree : subtree_ptr := mkSubtreePtr 0 0 None false.

Definition subtree_set (sptr : subtree_ptr) (st : option loc) : subtree_ptr :=
  mkSubtreePtr (sp_recno sptr) (sp_offset sptr) st true.

(** [subtree_free], with the recursive [ftn_free] as an argument; the updated
    slot is returned. *)
Definition subtree_free_with (ftn_free : loc → node_prog unit)
    (sptr : subtree_ptr) : node_prog subtree_ptr :=
  match sp_inmemory sptr, sp_st sptr with
  | true, Some st =>
      ftn_free st;;
      mret (mkSubtreePtr (sp_recno sptr) (sp_offset sptr) None true)
  | _, _ => mret sptr
  end.

(** The C loop over the subtrees of a node, applying [f] to each slot. *)
Fixpoint for_subtrees (f : subtree_ptr → node_prog subtree_ptr)
    (l : list subtree_ptr) : node_prog (list subtree_ptr) :=
  match l with
  | [] => mret []
  | sp :: l =>
      sp' ← f sp;
      l' ← for_subtrees f l;
      mret (sp' :: l')
  end.

(** [ftn_free]; the recursion is over the height of the tree. *)
Fixpoint ftn_free_rec (fuel : nat) (this : loc) : node_prog unit :=
  match fuel with
  | O => fail OutOfFuel
  | S fuel =>
      node ← load this;
      _ ← for_subtrees (subtree_free_with (ftn_free_rec fuel)) (subtrees node);
      free this
  end.

Definition ftn_free (this : loc) : node_prog unit :=
  node ← load this;
  ftn_free_rec (S (Z.to_nat (HEIGHT node))) this.

Definition subtree_free : subtree_ptr → node_prog subtree_ptr :=
  subtree_free_with ftn_free.

(** ** Node creation and clearing *)

(** [ftn_clear], with the allocation of the child as an argument. *)
Definition ftn_clear_with (ftn_new : Z → node_prog loc) (this : loc)
    (make_height : bool) : node_prog unit :=
  node ← load this;
  sps ← for_subtrees subtree_free (subtrees node);
  firstchild ←
    (if (HEIGHT node =? 0) || negb make_height then mret None
     else st ← ftn_new (HEIGHT node - 1); mret (Some st));
  let slot0 := default null_subtree (head sps) in
  store this (mkNode [] [subtree_set slot0 firstchild] (HEIGHT node) (dirty node)).

Fixpoint ftn_new_rec (fuel : nat) (height : Z) (make_height : bool) : node_prog loc :=
  match fuel with
  | O => fail OutOfFuel
  | S fuel =>
      assert (0 <=? height);;
      this ← alloc (mkNode [] [] height true);
      ftn_clear_with (λ h, ftn_new_rec fuel h true) this make_height;;
      mret this
  end.

Definition ftn_new (height : Z) (make_height : bool) : node_prog loc :=
  ftn_new_rec (S (Z.to_nat height)) height make_height.

Definition ftn_clear : loc → bool → node_prog unit :=
  ftn_clear_with (λ h, ftn_new h true).

(** [subtree_clear (&this->subtrees[i], height)] *)
Definition subtree_clear (this : loc) (i : nat) (height : Z) : node_prog unit :=
  if height <? 0 then mret tt else
  node ← load this;
  sptr ← in_bounds (subtrees node !! i);
  if sp_inmemory sptr then
    match sp_st sptr with
    | None => mret tt
    | Some st =>
        child ← load st;
        assert (height =? HEIGHT child);;
        ftn_clear st true
    end
  else
    st ← ftn_new height true;
    store this (with_subtrees node (<[i := mkSubtreePtr 0 0 (Some st) true]> (subtrees node))).

(** [subtree_get (&this->subtrees[i], log)]: a subtree that is not in memory is
    read from its checkpoint entry.  [inmemory] is left unchanged. *)
Definition subtree_get (log : gdpfs_log) (this : loc) (i : nat) : node_prog (option loc) :=
  node ← load this;
  sptr ← in_bounds (subtrees node !! i);
  if sp_inmemory sptr then mret (sp_st sptr) else
  match log (sp_recno sptr) with
  | None => fail AssertFail
  | Some ent =>
      if negb (payload_size (le_payload ent) =? fm_ent_size (le_meta ent))
      then fail FatalError else
      assert (bool_decide (fm_logent_type (le_meta ent) = GDPFS_LOGENT_TYPE_CHKPT));;
      match le_payload ent with
      | PData _ => fail OutOfBounds
      | PNodes images =>
          image ← in_bounds
            (if sp_offset sptr mod sizeof_ft_node =? 0
             then images !! Z.to_nat (sp_offset sptr / sizeof_ft_node) else None);
          st ← alloc image;
          store this (with_subtrees node
            (<[i := mkSubtreePtr (sp_recno sptr) (sp_offset sptr) (Some st) false]>
               (subtrees node)));;
          mret (Some st)
      end
  end.

(** ** Insertion into a node ([figtreenode.c]) *)

Definition fte_overlaps (this other : ft_ent) : bool :=
  i_overlaps (irange this) (irange other).

Definition _ftn_entries_add (this : loc) (index : Z) (new : ft_ent) : node_prog unit :=
  node ← load this;
  let len := Z.of_nat (length (entries node)) in
  assert ((0 <=? index) && (index <=? len) && (len <? Z.of_nat FT_SPLITLIMIT));;
  let k := Z.to_nat index in
  store this (with_entries node (take k (entries node) ++ new :: drop k (entries node))).

Definition _ftn_subtrees_add (this : loc) (index : Z) (new : option loc) : node_prog unit :=
  node ← load this;
  let len := Z.of_nat (length (subtrees node)) in
  assert ((0 <=? index) && (index <=? len) && (len <=? Z.of_nat FT_SPLITLIMIT));;
  let k := Z.to_nat index in
  let old := default null_subtree (subtrees node !! k) in
  store this (with_subtrees node
    (take k (subtrees node) ++ subtree_set old new :: drop k (subtrees node))).

(** The overlap checks of the second assertion of [ftn_insert]. *)
Definition insert_ok (es : list ft_ent) (newent : ft_ent) (index : Z) : bool :=
  let len := Z.of_nat (length es) in
  (0 <=? index) && (index <=? len)
  && ((index =? 0) ||
      match es !! Z.to_nat (index - 1) with
      | Some e => negb (fte_overlaps newent e) | None => false end)
  && ((index =? len) ||
      match es !! Z.to_nat index with
      | Some e => negb (fte_overlaps newent e) | None => false end).

(** The split of a full node: [this] becomes the node that is pushed up, with
    two fresh halves as its children. *)
Definition ftn_split (this : loc) : node_prog loc :=
  node ← load this;
  lft ← ftn_new (HEIGHT node) false;
  rgt ← ftn_new (HEIGHT node) false;
  lnode ← load lft;
  rnode ← load rgt;
  store lft (mkNode (take FT_ORDER (entries node))
               (take (FT_ORDER + 1) (subtrees node)) (HEIGHT lnode) (dirty lnode));;
  store rgt (mkNode (take FT_ORDER (drop (FT_ORDER + 1) (entries node)))
               (take (FT_ORDER + 1) (drop (FT_ORDER + 1) (subtrees node)))
               (HEIGHT rnode) (dirty rnode));;
  middle ← in_bounds (entries node !! FT_ORDER);
  slot0 ← in_bounds (subtrees node !! 0%nat);
  slot1 ← in_bounds (subtrees node !! 1%nat);
  store this (mkNode [middle] [subtree_set slot0 (Some lft); subtree_set slot1 (Some rgt)]
                (HEIGHT node + 1) (dirty node));;
  mret this.

Definition ftn_insert (this : loc) (newent : ft_ent) (index : Z)
    (leftChild rightChild : option loc) : node_prog (option loc) :=
  node ← load this;
  assert (length (entries node) + 1 =? length (subtrees node))%nat;;
  assert (insert_ok (entries node) newent index);;
  _ftn_entries_add this index newent;;
  node ← load this;
  sptr ← in_bounds (subtrees node !! Z.to_nat index);
  store this (with_subtrees node (<[Z.to_nat index := subtree_set sptr leftChild]> (subtrees node)));;
  _ftn_subtrees_add this (index + 1) rightChild;;
  node ← load this;
  store this (with_dirty node true);;
  if (length (entries node) =? FT_SPLITLIMIT)%nat
  then st ← ftn_split this; mret (Some st)
  else mret None.

(** ** Replacing a run of entries *)

Definition ftn_replaceEntries (this : loc) (start end_ : nat)
    (newent_interval : interval) (newent_value : Z) : node_prog unit :=
  node ← load this;
  let n := length (entries node) in
  assert (n + 1 =? length (subtrees node))%nat;;
  assert ((start <? n) && (end_ <=? n))%nat;;
  assert (start <? end_)%nat;;
  _ ← for_subtrees subtree_free
        (take (end_ - (start + 1)) (drop (start + 1) (subtrees node)));
  store this (mkNode
    (take start (entries node) ++ mkEnt newent_interval newent_value
       :: drop end_ (entries node))
    (take (start + 1) (subtrees node) ++ drop end_ (subtrees node))
    (HEIGHT node) true).

(** ** Pruning a node to a valid range *)

(** The locals of [ftn_pruneTo]: the scan position and the deletion marks. *)
Record prune_marks := mkMarks {
  entrydel : list bool;
  subtreedel : list bool;
}.

(** First loop: entries left of [valid]. *)
Fixpoint prune_left (es : list ft_ent) (valid : interval) (fuel i : nat)
    (m : prune_marks) : nat * prune_marks :=
  match fuel, es !! i with
  | S fuel, Some e =>
      if i_leftOf_int (irange e) valid
      then prune_left es valid fuel (S i)
             (mkMarks (<[i := true]> (entrydel m)) (<[i := true]> (subtreedel m)))
      else (i, m)
  | _, _ => (i, m)
  end.

(** Third loop: entries contained in [valid]. *)
Fixpoint prune_inside (es : list ft_ent) (valid : interval) (fuel i : nat) : nat :=
  match fuel, es !! i with
  | S fuel, Some e =>
      if i_contains_int valid (irange e) then prune_inside es valid fuel (S i) else i
  | _, _ => i
  end.

(** Last loop: entries right of [valid]. *)
Fixpoint prune_right (es : list ft_ent) (valid : interval) (fuel i : nat)
    (m : prune_marks) : prune_marks :=
  match fuel, es !! i with
  | S fuel, Some e =>
      if i_rightOf_int (irange e) valid
      then prune_right es valid fuel (S i)
             (mkMarks (<[i := true]> (entrydel m)) (<[S i := true]> (subtreedel m)))
      else m
  | _, _ => m
  end.

(** A boundary entry that sticks out of [valid]: its subtree [k] on that side is
    cleared and the entry is restricted. *)
Definition prune_boundary (this : loc) (i k : nat) (valid : interval) : node_prog unit :=
  node ← load this;
  subtree_clear this k (HEIGHT node - 1);;
  node ← load this;
  e ← in_bounds (entries node !! i);
  iv ← lift_res (i_restrict_int (irange e) valid false);
  store this (with_entries node (<[i := mkEnt iv (ent_value e)]> (entries node))).

(** An entry at the left edge of [valid]; the scan moves past it. *)
Definition prune_left_edge (this : loc) (es : list ft_ent) (valid : interval) (i : nat)
    : node_prog nat :=
  match es !! i with
  | Some e =>
      if i_leftOverlaps valid (irange e)
      then prune_boundary this i i valid;; mret (S i)
      else mret i
  | None => mret i
  end.

(** An entry at the right edge of [valid]; subtrees are indexed with [i + 1]
    from here on. *)
Definition prune_right_edge (this : loc) (es : list ft_ent) (valid : interval) (i : nat)
    : node_prog nat :=
  match es !! i with
  | Some e =>
      if i_rightOverlaps valid (irange e)
      then prune_boundary this i (S i) valid;; mret (S i)
      else mret i
  | None => mret i
  end.

(** The elements whose mark is not set. *)
Fixpoint drop_marked {A} (marks : list bool) (l : list A) : list A :=
  match marks, l with
  | true :: marks, _ :: l => drop_marked marks l
  | false :: marks, x :: l => x :: drop_marked marks l
  | _, _ => []
  end.

Definition keep_marked {A} (marks : list bool) (l : list A) : list A :=
  drop_marked (negb <$> marks) l.

(** [performdeletes] *)
Definition prune_deletes (this : loc) (m : prune_marks) : node_prog unit :=
  node ← load this;
  _ ← for_subtrees subtree_free (keep_marked (subtreedel m) (subtrees node));
  let es := drop_marked (entrydel m) (entries node) in
  let ss := drop_marked (subtreedel m) (subtrees node) in
  store this (mkNode es ss (HEIGHT node)
    (dirty node || existsb id (entrydel m)));;
  assert (length es + 1 =? length ss)%nat.

Definition ftn_pruneTo (this : loc) (valid : interval) : node_prog unit :=
  node ← load this;
  if negb (i_nonempty valid) then ftn_clear this true else
  let n := length (entries node) in
  if (n =? 0)%nat then mret tt else
  let m := mkMarks (replicate n false) (replicate (length (subtrees node)) false) in
  let '(i, m) := prune_left (entries node) valid n 0 m in
  (* i = n: goto performdeletes *)
  i ← prune_left_edge this (entries node) valid i;
  node ← load this;
  let i := prune_inside (entries node) valid n i in
  i ← prune_right_edge this (entries node) valid i;
  node ← load this;
  prune_deletes this (prune_right (entries node) valid n i m).

End operations.
