(* ===== verification/FigTree.v ===== *)
(** * The FIG tree ([src/figtree/figtree.c])

    A FIG tree maps byte ranges to values (record numbers of the log).
    [ft_write] assigns a value to a range, [ft_lookup] reads one byte,
    [ft_read] and [fti_next] iterate over the ranges of an interval. *)
From S2P Require Import Prelude.
From S2P Require Import Heap.
From S2P Require Import Interval.
From S2P Require Import Types.
From S2P Require Import FigNode.

#[local] Open Scope Z_scope.

(** ** Data *)

Record figtree := mkFigtree { ft_root : option loc }.

Record insertargs := mkArgs {
  ia_range : interval;
  ia_value : Z;
  ia_at : option loc;
  ia_valid : interval;
}.

(** [struct insertcont]: a flag and a continuation for each side. *)
Record insertcont := mkCont {
  ic_leftc : option insertargs;
  ic_rightc : option insertargs;
}.

Definition no_cont : insertcont := mkCont None None.

(** The parallel arrays [path] and [pathIndices], up to [path_len]. *)
Definition ftpath := list (loc * Z).

Section operations.
Context `{!Allocator}.
Variable log : gdpfs_log.

Definition ft_init : node_prog figtree :=
  root ← ftn_new 0 true;
  mret (mkFigtree (Some root)).

Definition ft_init_with_root (root : loc) : figtree := mkFigtree (Some root).

(** ** Insertion *)

(** Storing at [path[*path_len]]: the arrays have [maxdepth] slots. *)
Definition path_push (maxdepth : nat) (path : ftpath) (p : loc * Z) : node_prog ftpath :=
  if (length path <? maxdepth)%nat then mret (path ++ [p]) else fail OutOfBounds.

(** The outcome of scanning the entries of a node for [range]. *)
Inductive scan :=
  | ScanOverlap (i : nat)
  | ScanRightOf (i : nat)
  | ScanEnd.

Fixpoint scan_entries (es : list ft_ent) (range : interval) (i : nat) : scan :=
  match es with
  | [] => ScanEnd
  | e :: es =>
      if i_overlaps (irange e) range then ScanOverlap i
      else if i_rightOf_int (irange e) range then ScanRightOf i
      else scan_entries es range (S i)
  end.

(** The inner loop: the number of entries after the first overlapping one that
    left-overlap [range]. *)
Fixpoint count_leftOverlaps (es : list ft_ent) (range : interval) : nat :=
  match es with
  | e :: es => if i_leftOverlaps (irange e) range then S (count_leftOverlaps es range) else 0%nat
  | [] => 0%nat
  end.

(** [previval == NULL ? BYTE_INDEX_MIN : previval->right + 1]; byte indices are
    32-bit and wrap around. *)
Definition after_prev (es : list ft_ent) (i : nat) : Z :=
  match i with
  | O => BYTE_INDEX_MIN
  | S k => match es !! k with Some e => wrap32 (i_right (irange e) + 1) | None => BYTE_INDEX_MIN end
  end.

(** [j == numentries ? BYTE_INDEX_MAX : entries[j].left - 1] *)
Definition before_next (es : list ft_ent) (j : nat) : Z :=
  match es !! j with Some e => wrap32 (i_left (irange e) - 1) | None => BYTE_INDEX_MAX end.

(** Entry [i] is the first entry of [currnode] that overlaps [range]: record the
    continuations and replace the overlapping entries. *)
Definition ins_replace (maxdepth : nat) (range : interval) (value : Z)
    (currnode : loc) (valid : interval) (path : ftpath) (i : nat)
    : node_prog (ftpath * insertcont) :=
  node ← load currnode;
  current ← in_bounds (entries node !! i);
  leftc ←
    (if i_left (irange current) <? i_left range then
       at_ ← subtree_get log currnode i;
       v ← lift_res (i_restrict_range valid (after_prev (entries node) i)
                       (wrap32 (i_left (irange current) - 1)) true);
       mret (Some (mkArgs (i_init (i_left (irange current)) (wrap32 (i_left range - 1)))
                     (ent_value current) at_ v))
     else mret None);
  let j := (i + 1 + count_leftOverlaps (drop (i + 1) (entries node)) range)%nat in
  previous ← in_bounds (entries node !! (j - 1)%nat);
  '(path, rightc) ←
    (if i_right range <? i_right (irange previous) then
       at_ ← subtree_get log currnode j;
       v ← lift_res (i_restrict_range valid (wrap32 (i_right (irange previous) + 1))
                       (before_next (entries node) j) true);
       path ← path_push maxdepth path (currnode, Z.of_nat i + 1);
       mret (path, Some (mkArgs (i_init (wrap32 (i_right range + 1)) (i_right (irange previous)))
                           (ent_value previous) at_ v))
     else
       path ← path_push maxdepth path (currnode, Z.of_nat i);
       mret (path, None));
  ftn_replaceEntries currnode i j range value;;
  mret (path, mkCont leftc rightc).

(** The descent ([outerloop]).  [None] as the second component means that a
    NULL subtree was reached, i.e. [currnode == NULL] at [treeinsertion]. *)
Fixpoint ins_descend (fuel maxdepth : nat) (range : interval) (value : Z)
    (currnode : option loc) (valid : interval) (path : ftpath)
    : node_prog (ftpath * option insertcont) :=
  match fuel with
  | O => fail OutOfFuel
  | S fuel =>
    match currnode with
    | None => mret (path, None)
    | Some curr =>
      ftn_pruneTo curr valid;;
      node ← load curr;
      let es := entries node in
      match scan_entries es range 0 with
      | ScanOverlap i =>
          '(path, ic) ← ins_replace maxdepth range value curr valid path i;
          mret (path, Some ic)
      | ScanRightOf i =>
          path ← path_push maxdepth path (curr, Z.of_nat i);
          next ← subtree_get log curr i;
          v ← lift_res (i_restrict_range valid (after_prev es i) (before_next es i) true);
          ins_descend fuel maxdepth range value next v path
      | ScanEnd =>
          let n := length es in
          path ← path_push maxdepth path (curr, Z.of_nat n);
          next ← subtree_get log curr n;
          v ← lift_res (i_restrict_range valid (after_prev es n) BYTE_INDEX_MAX true);
          ins_descend fuel maxdepth range value next v path
      end
    end
  end.

Definition set_path (path : ftpath) (k : nat) (p : loc * Z) : ftpath := <[k := p]> path.

(** Keeping [path] and [pathIndices] usable for a left continuation while the
    right continuation inserts at [pathindex]: first the index, *)
Definition fix_index (fsi : Z) (path : ftpath) (k : nat) (insertindex : Z)
    (right : option loc) : node_prog (ftpath * Z) :=
  '(insertinto, _) ← in_bounds (path !! k);
  if Z.of_nat k =? fsi then
    mret (set_path path k (insertinto, insertindex - 1), insertindex - 1)
  else if Z.of_nat k <? fsi then
    '(nextpathmember, _) ← in_bounds (path !! S k);
    if bool_decide (Some nextpathmember = right)
    then mret (set_path path k (insertinto, insertindex + 1), insertindex + 1)
    else mret (path, insertindex)
  else mret (path, insertindex).

(** ... then, if the node was split, the node as well. *)
Definition fix_split (path : ftpath) (k : nat) (insertindex : Z)
    (topushnode : option loc) : node_prog ftpath :=
  match topushnode with
  | None => mret path
  | Some top =>
      '(_, idx) ← in_bounds (path !! k);
      if insertindex <=? Z.of_nat FT_ORDER then
        st ← subtree_get log top 0;
        l ← deref st;
        mret (set_path path k (l, idx))
      else
        st ← subtree_get log top 1;
        l ← deref st;
        mret (set_path path k (l, insertindex - (Z.of_nat FT_ORDER + 1)))
  end.

(** [pathIndices[finalsharedindex]--] *)
Definition path_decrement (fsi : Z) (path : ftpath) : node_prog ftpath :=
  if fsi <? 0 then fail OutOfBounds else
  '(l, idx) ← in_bounds (path !! Z.to_nat fsi);
  mret (set_path path (Z.to_nat fsi) (l, idx - 1)).

Definition free_opt (p : option loc) : node_prog unit :=
  match p with Some l => free l | None => mret tt end.

(** The insertion loop: [k] is [pathindex + 1].  The result is the path and
    either the node to push above the root or [None] after
    [goto endtreeinsertion]. *)
Fixpoint ins_push (k : nat) (rightcontinuation : bool) (fsi : Z) (path : ftpath)
    (topushent : ft_ent) (lft rgt topushnode : option loc)
    : node_prog (ftpath * option (option loc)) :=
  match k with
  | O => mret (path, Some topushnode)
  | S k =>
      '(insertinto, insertindex) ← in_bounds (path !! k);
      rv ← ftn_insert insertinto topushent insertindex lft rgt;
      free_opt topushnode;;
      path ← (if rightcontinuation then
                '(path, insertindex) ← fix_index fsi path k insertindex rgt;
                fix_split path k insertindex rv
              else mret path);
      match rv with
      | None =>
          path ← (if rightcontinuation && (fsi <? Z.of_nat k)
                  then path_decrement fsi path else mret path);
          mret (path, None)
      | Some top =>
          node ← load top;
          ent ← in_bounds (entries node !! 0%nat);
          lft ← subtree_get log top 0;
          rgt ← subtree_get log top 1;
          ins_push k rightcontinuation fsi path ent lft rgt (Some top)
      end
  end.

(** No parent to push to: the new root, and the path shifted below it. *)
Definition ins_newroot (maxdepth : nat) (fsi : Z) (path : ftpath) (topushnode : option loc)
    : node_prog (ftpath * Z) :=
  top ← deref topushnode;
  '(nextpathmember, _) ← in_bounds (path !! 0%nat);
  rgt ← subtree_get log top 1;
  idx ←
    (if bool_decide (Some nextpathmember = rgt) then mret 1
     else
       lft ← subtree_get log top 0;
       assert (bool_decide (Some nextpathmember = lft));;
       mret 0);
  if (length path <? maxdepth)%nat
  then mret ((top, idx) :: path, fsi + 1)
  else fail OutOfBounds.

Definition _ft_insert (maxdepth : nat) (this : figtree) (args : insertargs) (path : ftpath)
    (rightcontinuation : bool) : node_prog (figtree * ftpath * insertcont) :=
  let fsi := Z.of_nat (length path) - 1 in
  '(path, replaced) ←
    ins_descend (S maxdepth) maxdepth (ia_range args) (ia_value args)
      (ia_at args) (ia_valid args) path;
  '(this, path, fsi, ic) ←
    match replaced with
    | Some ic => mret (this, path, fsi, ic)
    | None =>
        '(path, top) ←
          ins_push (length path) rightcontinuation fsi path
            (mkEnt (ia_range args) (ia_value args)) None None None;
        match top with
        | None => mret (this, path, fsi, no_cont)
        | Some top =>
            '(path, fsi) ← (if rightcontinuation then ins_newroot maxdepth fsi path top
                            else mret (path, fsi));
            mret (mkFigtree top, path, fsi, no_cont)
        end
    end;
  let path := if rightcontinuation then take (Z.to_nat (fsi + 1)) path else path in
  mret (this, path, ic).

Definition no_more (ic : insertcont) : bool :=
  match ic with mkCont None None => true | _ => false end.

Definition ft_write (this : figtree) (start end_ value : Z) : node_prog figtree :=
  root ← deref (ft_root this);
  node ← load root;
  let maxdepth := Z.to_nat (HEIGHT node + 2) in
  let iargs := mkArgs (i_init start end_) value (ft_root this)
                 (i_init BYTE_INDEX_MIN BYTE_INDEX_MAX) in
  '(this, path, star) ← _ft_insert maxdepth this iargs [] false;
  '(this, path) ←
    match ic_rightc star with
    | None => mret (this, path)
    | Some rightc =>
        '(this, path, newstar) ← _ft_insert maxdepth this rightc path true;
        assert (no_more newstar);;
        mret (this, path)
    end;
  match ic_leftc star with
  | None => mret this
  | Some leftc =>
      '(this, path, newstar) ← _ft_insert maxdepth this leftc path false;
      assert (no_more newstar);;
      mret this
  end.

(** ** Lookup *)

(** The scan of one node: [inl] a value that was found, [inr] the index of the
    subtree to descend into. *)
Fixpoint lookup_entries (es : list ft_ent) (location : Z) (i : nat) : Z + nat :=
  match es with
  | [] => inr i
  | e :: es =>
      if i_contains_val (irange e) location then inl (ent_value e)
      else if location <? i_left (irange e) then inr i
      else lookup_entries es location (S i)
  end.

Fixpoint ft_lookup_rec (fuel : nat) (currnode : option loc) (location : Z)
    : node_prog (option Z) :=
  match fuel with
  | O => fail OutOfFuel
  | S fuel =>
    match currnode with
    | None => mret None
    | Some curr =>
        node ← load curr;
        match lookup_entries (entries node) location 0 with
        | inl v => mret (Some v)
        | inr i =>
            next ← subtree_get log curr i;
            ft_lookup_rec fuel next location
        end
    end
  end.

Definition ft_lookup (this : figtree) (location : Z) : node_prog (option Z) :=
  match ft_root this with
  | None => mret None
  | Some root =>
      node ← load root;
      ft_lookup_rec (Z.to_nat (HEIGHT node) + 2) (Some root) location
  end.

Definition ft_dealloc (this : figtree) : node_prog figtree :=
  root ← deref (ft_root this);
  ftn_free root;;
  mret (mkFigtree None).

End operations.
