(* ===== verification/FigSpec.v ===== *)
(** * The FIG tree as a mathematical object

    Functional trees that describe the shape of a FIG tree in the heap, their
    well-formedness, and the byte map they denote.  Entries of a subtree may
    overlap entries of its ancestors (they are stale: the code prunes them only
    when it visits the node), so the meaning of a tree is given by the search
    path of a byte, not by the set of its entries. *)
From S2P Require Import Prelude.
From S2P Require Import Interval.
From S2P Require Import Types.
From S2P Require Import Heap.
From S2P Require Import FigNode.
From S2P Require Import FigTree.
From stdpp Require Import sorting.

#[local] Open Scope Z_scope.

(** ** Trees *)

Inductive ftree :=
  | TNull
  | TNode (l : loc) (es : list ft_ent) (ts : list ftree).

Definition ptr (t : ftree) : option loc :=
  match t with TNull => None | TNode l _ _ => Some l end.

Definition lft (e : ft_ent) : Z := i_left (irange e).
Definition rgt (e : ft_ent) : Z := i_right (irange e).

(** A nonempty range of byte indices that does not end at [BYTE_INDEX_MAX]: the
    code computes [right + 1] in 32 bits. *)
Definition ent_ok (e : ft_ent) : Prop :=
  i_nonempty (irange e) = true ∧ BYTE_INDEX_MIN ≤ lft e ∧ lft e ≤ rgt e ∧ rgt e < BYTE_INDEX_MAX.

Definition before (e e' : ft_ent) : Prop := rgt e < lft e'.

Definition es_ok (es : list ft_ent) : Prop :=
  Forall ent_ok es ∧ StronglySorted before es.

(** [wf h t]: [t] is a tree of height [h] whose nodes have room for one more
    entry and whose entries are sorted. *)
Fixpoint wf (h : nat) (t : ftree) : Prop :=
  match h, t with
  | O, TNull => True
  | S h, TNode _ es ts =>
      es_ok es ∧ (length es < FT_SPLITLIMIT)%nat ∧ length ts = S (length es) ∧
      Forall (wf h) ts
  | _, _ => False
  end.

(** A tree without entries. *)
Fixpoint blank (h : nat) (t : ftree) : Prop :=
  match h, t with
  | O, TNull => True
  | S h, TNode _ [] [c] => blank h c
  | _, _ => False
  end.

(** ** The byte map of a tree *)

(** Searching a node, given the meaning [F] of its subtrees. *)
Fixpoint look (F : ftree → option Z) (es : list ft_ent) (ts : list ftree) (b : Z)
    : option Z :=
  match ts, es with
  | [], _ => None
  | c :: _, [] => F c
  | c :: ts, e :: es =>
      if b <? lft e then F c
      else if b <=? rgt e then Some (ent_value e)
      else look F es ts b
  end.

Fixpoint lookup_tree (h : nat) (t : ftree) (b : Z) : option Z :=
  match h, t with
  | S h, TNode _ es ts => look (λ c, lookup_tree h c b) es ts b
  | _, _ => None
  end.

(** Two subtrees separated by an entry. *)
Definition look3 (F : ftree → option Z) (A : ftree) (e : ft_ent) (B : ftree) (b : Z)
    : option Z :=
  if b <? lft e then F A else if b <=? rgt e then Some (ent_value e) else F B.

(** ** One-hole contexts *)

Record frame := mkFrame {
  f_loc : loc;
  f_esL : list ft_ent;
  f_tsL : list ftree;
  f_esR : list ft_ent;
  f_tsR : list ftree;
}.

Definition plug1 (f : frame) (c : ftree) : ftree :=
  TNode (f_loc f) (f_esL f ++ f_esR f) (f_tsL f ++ c :: f_tsR f).

Definition plug (F : list frame) (c : ftree) : ftree := foldr plug1 c F.

(** The bytes whose search path goes through the hole. *)
Definition gapLR (esL esR : list ft_ent) (b : Z) : Prop :=
  Forall (λ e, rgt e < b) esL ∧ Forall (λ e, b < lft e) esR.
Definition gap1 (f : frame) (b : Z) : Prop := gapLR (f_esL f) (f_esR f) b.
Definition gap (F : list frame) (b : Z) : Prop := Forall (λ f, gap1 f b) F.

#[export] Instance gapLR_dec esL esR b : Decision (gapLR esL esR b).
Proof. unfold gapLR. apply _. Defined.
#[export] Instance gap1_dec f b : Decision (gap1 f b).
Proof. unfold gap1. apply _. Defined.
#[export] Instance gap_dec F b : Decision (gap F b).
Proof. unfold gap. apply _. Defined.

Definition frame_ok (h : nat) (f : frame) : Prop :=
  es_ok (f_esL f ++ f_esR f) ∧ (length (f_esL f ++ f_esR f) < FT_SPLITLIMIT)%nat ∧
  length (f_tsL f) = length (f_esL f) ∧ length (f_tsR f) = length (f_esR f) ∧
  Forall (wf h) (f_tsL f) ∧ Forall (wf h) (f_tsR f).

(** [ctx_ok H h F]: a context of height [H] with a hole of height [h]. *)
Fixpoint ctx_ok (H h : nat) (F : list frame) : Prop :=
  match F with
  | [] => H = h
  | f :: F => ∃ H', H = S H' ∧ frame_ok H' f ∧ ctx_ok H' h F
  end.

(** The [path]/[pathIndices] arrays that describe a context. *)
Definition frame_path (f : frame) : loc * Z := (f_loc f, Z.of_nat (length (f_esL f))).
Definition ctx_path (F : list frame) : ftpath := frame_path <$> F.

(** The subtree [c] sits in [t] at the end of [path]. *)
Inductive at_path : ftree → ftpath → ftree → Prop :=
  | at_here c : at_path c [] c
  | at_child l es ts i c' path c :
      ts !! i = Some c' →
      at_path c' path c →
      at_path (TNode l es ts) ((l, Z.of_nat i) :: path) c.

(** ** Lemmas on entries *)

Lemma es_ok_app es1 es2 :
  es_ok (es1 ++ es2) ↔ es_ok es1 ∧ es_ok es2 ∧
    (∀ e1 e2, e1 ∈ es1 → e2 ∈ es2 → before e1 e2).
Proof. unfold es_ok. rewrite Forall_app StronglySorted_app. naive_solver. Qed.

Lemma es_ok_cons e es :
  es_ok (e :: es) ↔ ent_ok e ∧ Forall (before e) es ∧ es_ok es.
Proof. unfold es_ok. rewrite Forall_cons StronglySorted_cons. naive_solver. Qed.

Lemma es_ok_nil : es_ok [].
Proof. split; constructor. Qed.

Lemma es_ok_ent es e : es_ok es → e ∈ es → ent_ok e.
Proof. intros [H _] He. rewrite Forall_forall in H. auto. Qed.

Lemma es_ok_take n es : es_ok es → es_ok (take n es).
Proof. intros H. rewrite <-(take_drop n es) in H. by apply es_ok_app in H as (?&?&?). Qed.

Lemma es_ok_drop n es : es_ok es → es_ok (drop n es).
Proof. intros H. rewrite <-(take_drop n es) in H. by apply es_ok_app in H as (?&?&?). Qed.

(** An entry that lies in the gap between two runs can be inserted there. *)
Lemma es_ok_insert esL e esR :
  es_ok (esL ++ esR) → ent_ok e → gapLR esL esR (lft e) → gapLR esL esR (rgt e) →
  es_ok (esL ++ e :: esR).
Proof.
  rewrite !es_ok_app es_ok_cons. intros (HL & HR & HLR) He [H1 _] [_ H2].
  rewrite Forall_forall in H1; rewrite Forall_forall in H2. split_and!; auto.
  - by apply Forall_forall.
  - intros e1 e2 He1 [->|He2]%elem_of_cons; [by apply H1|by apply HLR].
Qed.

(** ** Lemmas on [look] *)
Section look.
Context (F : ftree → option Z).
Implicit Types (es : list ft_ent) (ts : list ftree) (b : Z).

Lemma look_app_l esL es tsL ts b :
  length tsL = length esL → Forall ent_ok esL → Forall (λ e, rgt e < b) esL →
  look F (esL ++ es) (tsL ++ ts) b = look F es ts b.
Proof.
  revert tsL. induction esL as [|e esL IH]; intros [|c tsL] Hlen Hok HL; simplify_eq/=; [done|].
  apply Forall_cons in Hok as [(?&?&?&?) ?]. apply Forall_cons in HL as [? ?].
  destruct (Z.ltb_spec b (lft e)); [lia|]. destruct (Z.leb_spec b (rgt e)); [lia|]. auto.
Qed.

Lemma look_app_r es1 esC ts1 tsC b :
  length ts1 = S (length es1) → Forall (λ e, b < lft e) (take 1 esC) →
  look F (es1 ++ esC) (ts1 ++ tsC) b = look F es1 ts1 b.
Proof.
  revert ts1. induction es1 as [|e es1 IH]; intros [|c ts1] Hlen HC; simplify_eq/=.
  - destruct ts1; [|done]. destruct esC as [|e esC]; [done|]. simpl in HC.
    inversion_clear HC. simpl. by destruct (Z.ltb_spec b (lft e)); [|lia].
  - by rewrite IH.
Qed.

(** The part of a node to the right of a point matters only for bytes to the
    right of that point. *)
Lemma look_congr esL tsL es1 ts1 es2 ts2 b :
  length tsL = length esL →
  (Forall (λ e, rgt e < b) esL → look F es1 ts1 b = look F es2 ts2 b) →
  look F (esL ++ es1) (tsL ++ ts1) b = look F (esL ++ es2) (tsL ++ ts2) b.
Proof.
  revert tsL. induction esL as [|e esL IH]; intros [|c tsL] Hlen Heq; simplify_eq/=; [by apply Heq|].
  destruct (Z.ltb_spec b (lft e)); [done|]. destruct (Z.leb_spec b (rgt e)); [done|].
  apply IH; [done|]. intros HL. apply Heq. by constructor; [lia|].
Qed.

(** Likewise for the part to the left. *)
Lemma look_congr_r c1 c2 esR tsR b :
  length tsR = length esR → es_ok esR →
  (Forall (λ e, b < lft e) esR → F c1 = F c2) →
  look F esR (c1 :: tsR) b = look F esR (c2 :: tsR) b.
Proof.
  intros Hlen Hok Heq. destruct esR as [|e esR]; simpl; [by apply Heq|].
  destruct (Z.ltb_spec b (lft e)) as [Hb|]; [|done]. apply Heq.
  apply es_ok_cons in Hok as ((?&?&?&?) & Hs & _). constructor; [done|].
  eapply Forall_impl; [exact Hs|]. unfold before. intros; lia.
Qed.

Lemma look_gap esL esR tsL tsR c b :
  length tsL = length esL → es_ok (esL ++ esR) → gapLR esL esR b →
  look F (esL ++ esR) (tsL ++ c :: tsR) b = F c.
Proof.
  intros HlenL Hok [HL HR]. apply es_ok_app in Hok as (HokL & HokR & _).
  rewrite look_app_l; [|done|apply HokL|done]. destruct esR as [|e esR]; [done|]. simpl.
  inversion_clear HR. by destruct (Z.ltb_spec b (lft e)); [|lia].
Qed.

Lemma look_out esL esR tsL tsR c c' b :
  length tsL = length esL → length tsR = length esR → es_ok (esL ++ esR) →
  ¬ gapLR esL esR b →
  look F (esL ++ esR) (tsL ++ c :: tsR) b = look F (esL ++ esR) (tsL ++ c' :: tsR) b.
Proof.
  intros HlenL HlenR (HokL & HokR & _)%es_ok_app Hgap.
  apply look_congr; [done|]. intros HL. apply look_congr_r; [done..|].
  intros HR. by destruct Hgap.
Qed.

(** Replacing the child at the hole by two children and an entry. *)
Lemma look_insert esL esR tsL tsR A e B c b :
  length tsL = length esL → length tsR = length esR → es_ok (esL ++ esR) → ent_ok e →
  gapLR esL esR (lft e) → gapLR esL esR (rgt e) →
  look F (esL ++ e :: esR) (tsL ++ A :: B :: tsR) b =
    if decide (gapLR esL esR b) then look3 F A e B b
    else look F (esL ++ esR) (tsL ++ c :: tsR) b.
Proof.
  intros HlenL HlenR Hok He Hl Hr. destruct He as (_&_&Hlr&_).
  apply es_ok_app in Hok as (HokL & HokR & _).
  case_decide as Hgap.
  - destruct Hgap as [HL HR]. rewrite look_app_l; [|done|apply HokL|done]. simpl. unfold look3.
    destruct (Z.ltb_spec b (lft e)); [done|]. destruct (Z.leb_spec b (rgt e)); [done|].
    destruct esR as [|e' esR]; [done|]. simpl. inversion_clear HR.
    by destruct (Z.ltb_spec b (lft e')); [|lia].
  - apply look_congr; [done|]. intros HL. simpl.
    destruct esR as [|e' esR].
    { destruct Hgap. by split. }
    destruct Hr as [_ Hr]. inversion_clear Hr.
    assert (lft e' ≤ b).
    { destruct (Z.le_gt_cases (lft e') b); [done|]. destruct Hgap. split; [done|].
      constructor; [lia|]. apply es_ok_cons in HokR as ((?&?&?&?) & Hs & _).
      eapply Forall_impl; [exact Hs|]. unfold before. intros; lia. }
    destruct (Z.ltb_spec b (lft e)); [lia|]. destruct (Z.leb_spec b (rgt e)); [lia|]. simpl.
    by destruct (Z.ltb_spec b (lft e')); [lia|].
Qed.

(** A node seen as two halves around an entry. *)
Lemma look_split es1 m es2 ts1 ts2 b :
  length ts1 = S (length es1) → es_ok (es1 ++ m :: es2) →
  look F (es1 ++ m :: es2) (ts1 ++ ts2) b =
    if b <? lft m then look F es1 ts1 b
    else if b <=? rgt m then Some (ent_value m) else look F es2 ts2 b.
Proof.
  intros Hlen Hok. destruct (Z.ltb_spec b (lft m)).
  - apply look_app_r; [done|]. simpl. by constructor.
  - destruct ts1 as [|c ts1 _] using rev_ind; [done|].
    rewrite length_app in Hlen. simpl in Hlen.
    apply es_ok_app in Hok as (H1 & Hm & H12). apply es_ok_cons in Hm as ((?&?&?&?) & _ & _).
    rewrite <-app_assoc. simpl. rewrite look_app_l; [|lia|apply H1|].
    + simpl. destruct (Z.ltb_spec b (lft m)); [lia|done].
    + apply Forall_forall. intros e He. specialize (H12 e m He ltac:(set_solver)).
      unfold before in H12. lia.
Qed.

(** A run of entries outside of the bytes of interest can be dropped. *)
Lemma look_restrict esA esM esC tsA tsM tsC b :
  length tsA = length esA → length tsM = S (length esM) → Forall ent_ok esA →
  Forall (λ e, rgt e < b) esA → Forall (λ e, b < lft e) (take 1 esC) →
  look F (esA ++ esM ++ esC) (tsA ++ tsM ++ tsC) b = look F esM tsM b.
Proof. intros. rewrite look_app_l //. by apply look_app_r. Qed.

End look.

(** ** Lemmas on trees and contexts *)

Lemma lookup_tree_blank h t b : blank h t → lookup_tree h t b = None.
Proof.
  revert t. induction h as [|h IH]; intros [|l [|] [|c [|]]]; simpl; try done. apply IH.
Qed.

Lemma blank_wf h t : blank h t → wf h t.
Proof.
  revert t. induction h as [|h IH]; intros [|l [|] [|c [|]]]; simpl; try done.
  intros Hb. split_and!; [apply es_ok_nil|unfold FT_SPLITLIMIT; lia|done|]. apply Forall_singleton. auto.
Qed.

Lemma wf_plug1 h f c : frame_ok h f → wf h c → wf (S h) (plug1 f c).
Proof.
  intros (?&?&HL&HR&?&?) Hc. simpl. split_and!; [done..| |].
  - rewrite !length_app /= HL HR. lia.
  - rewrite Forall_app Forall_cons. done.
Qed.

Lemma wf_plug H h F c : ctx_ok H h F → wf h c → wf H (plug F c).
Proof.
  revert H. induction F as [|f F IH]; simpl; intros H; [by intros ->|].
  intros (H' & -> & Hf & HF) Hc. apply wf_plug1; auto.
Qed.

Lemma ctx_ok_snoc H h F f :
  ctx_ok H h (F ++ [f]) ↔ ctx_ok H (S h) F ∧ frame_ok h f.
Proof.
  revert H. induction F as [|f' F IH]; simpl; intros H.
  - split; [intros (?&->&?&->); done|]. intros [-> ?]. eauto.
  - setoid_rewrite IH. naive_solver.
Qed.

Lemma ctx_ok_app H h F1 F2 :
  ctx_ok H h (F1 ++ F2) ↔ ∃ m, ctx_ok H m F1 ∧ ctx_ok m h F2.
Proof.
  revert H. induction F1 as [|f' F IH]; simpl; intros H; [naive_solver|].
  setoid_rewrite IH. naive_solver.
Qed.

Lemma ctx_ok_length H h F : ctx_ok H h F → (H = h + length F)%nat.
Proof.
  revert H. induction F as [|f F IH]; simpl; intros H; [lia|].
  intros (H' & -> & _ & ?%IH). lia.
Qed.

Lemma plug_snoc F f c : plug (F ++ [f]) c = plug F (plug1 f c).
Proof. unfold plug. by rewrite foldr_app. Qed.

Lemma plug_app F1 F2 c : plug (F1 ++ F2) c = plug F1 (plug F2 c).
Proof. unfold plug. by rewrite foldr_app. Qed.

Lemma gap_app F1 F2 b : gap (F1 ++ F2) b ↔ gap F1 b ∧ gap F2 b.
Proof. apply Forall_app. Qed.

Lemma gap_snoc F f b : gap (F ++ [f]) b ↔ gap F b ∧ gap1 f b.
Proof. rewrite gap_app. unfold gap. by rewrite Forall_singleton. Qed.

Lemma lookup_plug1_gap h f c b :
  frame_ok h f → gap1 f b → lookup_tree (S h) (plug1 f c) b = lookup_tree h c b.
Proof. intros (?&?&?&?&?&?) Hg. simpl. by rewrite look_gap. Qed.

Lemma lookup_plug1_out h f c c' b :
  frame_ok h f → ¬ gap1 f b →
  lookup_tree (S h) (plug1 f c) b = lookup_tree (S h) (plug1 f c') b.
Proof. intros (?&?&?&?&?&?) Hg. simpl. by apply look_out. Qed.

Lemma lookup_plug_gap H h F c b :
  ctx_ok H h F → gap F b → lookup_tree H (plug F c) b = lookup_tree h c b.
Proof.
  revert H. induction F as [|f F IH]; intros H; [by intros ->|].
  intros (H' & -> & Hf & HF) [Hg HgF]%Forall_cons. simpl plug.
  rewrite lookup_plug1_gap //. by apply IH.
Qed.

Lemma lookup_plug_out H h F c c' b :
  ctx_ok H h F → ¬ gap F b → lookup_tree H (plug F c) b = lookup_tree H (plug F c') b.
Proof.
  revert H. induction F as [|f F IH]; intros H; [by destruct 2; constructor|].
  intros (H' & -> & Hf & HF) Hg. simpl plug.
  destruct (decide (gap1 f b)) as [Hgf|Hgf]; [|by apply lookup_plug1_out].
  rewrite !lookup_plug1_gap //. apply IH; [done|].
  intros ?. apply Hg. by constructor.
Qed.

(** A tree with a subtree at a path is a plugged context. *)
Lemma at_path_plug H t path c :
  wf H t → at_path t path c →
  ∃ F h, t = plug F c ∧ ctx_path F = path ∧ ctx_ok H h F ∧ wf h c.
Proof.
  intros Hwf Hat. revert H Hwf. induction Hat as [c|l es ts i c' path c Hi Hat IH]; intros H Hwf.
  - by exists [], H.
  - destruct H as [|H]; [done|]. simpl in Hwf. destruct Hwf as (Hok & Hlen & Hts & Hwf).
    destruct (IH H) as (F & h & -> & <- & HF & Hc); [by eapply Forall_lookup_1|].
    assert (i ≤ length es)%nat as Hle by (apply lookup_lt_Some in Hi; lia).
    exists (mkFrame l (take i es) (take i ts) (drop i es) (drop (S i) ts) :: F), h.
    split_and!; simpl.
    + unfold plug1. simpl. rewrite take_drop. by rewrite <-(take_drop_middle ts i (plug F c)) at 1.
    + unfold frame_path. simpl. rewrite length_take. rewrite Nat.min_l //; lia.
    + exists H. split_and!; [done| |done].
      split_and!; simpl; rewrite ?take_drop; try done.
      * rewrite !length_take. lia.
      * rewrite !length_drop. lia.
      * by apply Forall_take.
      * by apply Forall_drop.
    + done.
Qed.

Lemma at_path_frame f path c c' :
  at_path c path c' → length (f_tsL f) = length (f_esL f) →
  at_path (plug1 f c) (frame_path f :: path) c'.
Proof.
  intros Hat Hlen. unfold plug1, frame_path. rewrite <-Hlen.
  eapply at_child; [|done]. by apply list_lookup_middle.
Qed.
