(* ===== verification/FigNodeProof.v ===== *)
(** * Correctness of the FIG tree node operations

    [is_tree h t] is the ownership of the nodes of the tree [t] of height [h].
    Every operation of [figtreenode.c] is specified by its effect on trees. *)
From S2P Require Import Prelude.
From S2P Require Import Interval.
From S2P Require Import Types.
From S2P Require Import Heap.
From S2P Require Import FigNode.
From S2P Require Import FigTree.
From S2P Require Import FigSpec.

#[local] Open Scope Z_scope.

(** A slot of the [subtrees] array that points to [t] in memory. *)
Definition slot_ok (sp : subtree_ptr) (t : ftree) : Prop :=
  sp_inmemory sp = true ∧ sp_st sp = ptr t.

Section node_proof.
Context `{HG : !heapG ft_node Σ} `{AL : !Allocator}.

Fixpoint is_tree (h : nat) (t : ftree) : iProp Σ :=
  match h, t with
  | O, TNull => True
  | S h, TNode l es ts => ∃ sps d,
      l ↦ mkNode es sps (Z.of_nat h) d ∗ ⌜Forall2 slot_ok sps ts⌝ ∗
      [∗ list] c ∈ ts, is_tree h c
  | _, _ => False
  end.

Lemma slot_ok_set sp t : slot_ok (subtree_set sp (ptr t)) t.
Proof. done. Qed.

Lemma is_tree_leaf h t : ptr t = None → is_tree h t -∗ ⌜h = 0%nat ∧ t = TNull⌝.
Proof. iIntros (Ht) "H". destruct h, t; try done. Qed.

Lemma is_tree_node h t l : ptr t = Some l → is_tree h t -∗
  ∃ h' es ts, ⌜h = S h' ∧ t = TNode l es ts⌝ ∗ is_tree (S h') (TNode l es ts).
Proof.
  iIntros (Ht) "H". destruct t as [|l' es ts]; [done|]. simpl in Ht. simplify_eq.
  destruct h as [|h]; [done|]. iExists h, es, ts. by iFrame.
Qed.

Lemma is_tree_ptr_ne h1 t1 h2 t2 l1 l2 :
  ptr t1 = Some l1 → ptr t2 = Some l2 → is_tree h1 t1 -∗ is_tree h2 t2 -∗ ⌜l1 ≠ l2⌝.
Proof.
  iIntros (H1 H2) "T1 T2".
  iDestruct (is_tree_node with "T1") as (???) "[_ (%&%&Hl1&_)]"; [done|].
  iDestruct (is_tree_node with "T2") as (???) "[_ (%&%&Hl2&_)]"; [done|].
  iApply (points_to_ne with "Hl1 Hl2").
Qed.

(** ** Reading a subtree pointer *)

Lemma wp_subtree_get log l node i sp Φ :
  subtrees node !! i = Some sp → sp_inmemory sp = true →
  l ↦ node -∗ (l ↦ node -∗ Φ (sp_st sp)) -∗ wp (subtree_get log l i) Φ.
Proof.
  iIntros (Hi Hmem) "Hl HΦ". rewrite /subtree_get. wp_bind. wp_load "Hl".
  wp_bind. iApply wp_in_bounds; [done|]. rewrite Hmem. wp_ret. by iApply "HΦ".
Qed.

Lemma wp_subtree_get_slot log l es sps ts H d i t Φ :
  Forall2 slot_ok sps ts → ts !! i = Some t →
  l ↦ mkNode es sps H d -∗ (l ↦ mkNode es sps H d -∗ Φ (ptr t)) -∗
  wp (subtree_get log l i) Φ.
Proof.
  iIntros (Hslots Hi) "Hl HΦ".
  destruct (Forall2_lookup_r _ _ _ _ _ Hslots Hi) as (sp & Hsp & Hmem & Hst).
  rewrite -Hst. by iApply (wp_subtree_get with "Hl HΦ").
Qed.

(** ** Freeing *)

Lemma wp_for_subtrees_free (fr : loc → node_prog unit) h sps ts Φ :
  Forall2 slot_ok sps ts →
  (∀ t l, ptr t = Some l → is_tree h t ⊢ wp (fr l) (λ _, True)) →
  ([∗ list] c ∈ ts, is_tree h c) -∗ (∀ sps', Φ sps') -∗
  wp (for_subtrees (subtree_free_with fr) sps) Φ.
Proof.
  iIntros (Hslots Hfr) "Hts HΦ".
  iInduction Hslots as [|sp t sps ts [Hmem Hst] Hslots IH] forall (Φ); simpl.
  { wp_ret. iApply "HΦ". }
  iDestruct "Hts" as "[Ht Hts]". wp_bind. rewrite /subtree_free_with Hmem Hst.
  iAssert (∀ sp', wp (for_subtrees (subtree_free_with fr) sps ≫= λ l', mret (sp' :: l')) Φ)%I
    with "[Hts HΦ]" as "Hrest".
  { iIntros (sp'). wp_bind. iApply ("IH" with "Hts"). iIntros (sps'). wp_ret. iApply "HΦ". }
  destruct (ptr t) as [l|] eqn:Ht.
  - wp_bind. iApply (wp_mono with "[Ht]"); [by iApply Hfr|]. iIntros (_) "_".
    wp_ret. iApply "Hrest".
  - wp_ret. iApply "Hrest".
Qed.

Lemma wp_ftn_free_rec h : ∀ t l fuel,
  ptr t = Some l → (h ≤ fuel)%nat → is_tree h t ⊢ wp (ftn_free_rec fuel l) (λ _, True).
Proof.
  induction h as [|h IH]; iIntros (t l fuel Hl Hfuel) "Ht".
  { by destruct t. }
  destruct fuel as [|fuel]; [lia|]. destruct t as [|l' es ts]; simplify_eq/=.
  iDestruct "Ht" as (sps d) "(Hl & %Hslots & Hts)".
  wp_bind. wp_load "Hl". wp_bind. iApply (wp_for_subtrees_free with "Hts"); [done|..].
  - intros t' l' Ht'. apply IH; [done|lia].
  - iIntros (_). by iApply (wp_free with "Hl").
Qed.

Lemma wp_ftn_free h t l :
  ptr t = Some l → is_tree h t ⊢ wp (ftn_free l) (λ _, True).
Proof.
  iIntros (Hl) "Ht". iDestruct (is_tree_node with "Ht") as (h' es ts) "[[-> ->] Ht]"; [done|].
  iDestruct "Ht" as (sps d) "(Hl & %Hslots & Hts)". rewrite /ftn_free. wp_bind. wp_load "Hl".
  simpl HEIGHT. rewrite Nat2Z.id. iApply (wp_ftn_free_rec (S h') (TNode l es ts)); [done..|].
  simpl. by iFrame.
Qed.

Lemma wp_subtrees_free h sps ts Φ :
  Forall2 slot_ok sps ts →
  ([∗ list] c ∈ ts, is_tree h c) -∗ (∀ sps', Φ sps') -∗
  wp (for_subtrees subtree_free sps) Φ.
Proof.
  intros Hslots. apply wp_for_subtrees_free; [done|]. intros t l. apply wp_ftn_free.
Qed.

(** ** Creating and clearing nodes *)

Definition new_spec (ftn_new : Z → node_prog loc) (h : nat) : Prop :=
  ⊢ wp (ftn_new (Z.of_nat h)) (λ l,
      ∃ t, ⌜ptr t = Some l ∧ blank (S h) t⌝ ∗ is_tree (S h) t).

Lemma wp_ftn_clear_with ftn_new l h es ts :
  (∀ h', h = S h' → new_spec ftn_new h') →
  is_tree (S h) (TNode l es ts) ⊢ wp (ftn_clear_with ftn_new l true) (λ _,
    ∃ c, ⌜blank h c⌝ ∗ is_tree (S h) (TNode l [] [c])).
Proof.
  iIntros (Hnew) "Ht". iDestruct "Ht" as (sps d) "(Hl & %Hslots & Hts)".
  rewrite /ftn_clear_with. wp_bind. wp_load "Hl". wp_bind.
  iApply (wp_subtrees_free with "Hts"); [done|]. iIntros (sps'). simpl HEIGHT. simpl dirty.
  wp_bind. rewrite orb_false_r. destruct (Z.eqb_spec (Z.of_nat h) 0) as [Hh|Hh].
  - wp_ret. wp_store "Hl". assert (h = 0%nat) as -> by lia. iExists TNull.
    iSplit; [done|]. simpl. iExists _, d. iFrame. iSplit; [|done]. iPureIntro. by repeat constructor.
  - destruct h as [|h]; [done|]. wp_bind.
    replace (Z.of_nat (S h) - 1) with (Z.of_nat h) by lia.
    iApply (wp_mono with "[]"); [by iApply Hnew|]. iIntros (c) "(%t & [%Hc %Hb] & Ht)".
    wp_ret. wp_store "Hl". iExists t. iSplit; [done|]. simpl. iExists _, d. iFrame.
    iPureIntro. by repeat constructor.
Qed.

Lemma wp_ftn_new_rec h : ∀ fuel, (h < fuel)%nat → new_spec (λ H, ftn_new_rec fuel H true) h.
Proof.
  induction h as [h IH] using lt_wf_ind. intros [|fuel] Hfuel; [lia|].
  rewrite /new_spec. simpl. wp_bind. iApply wp_assert; [lia|].
  wp_bind. wp_alloc l as "Hl". wp_bind.
  iApply (wp_mono with "[Hl]").
  - iApply (wp_ftn_clear_with _ l h [] []).
    + intros h' ->. apply IH; lia.
    + simpl. iExists [], true. by iFrame.
  - iIntros (_) "(%c & %Hb & Ht)". wp_ret. iExists (TNode l [] [c]). iFrame. done.
Qed.

Lemma wp_ftn_new h : new_spec (λ H, ftn_new H true) h.
Proof.
  rewrite /new_spec /ftn_new Nat2Z.id. apply wp_ftn_new_rec. lia.
Qed.

Lemma wp_ftn_clear l h es ts :
  is_tree (S h) (TNode l es ts) ⊢ wp (ftn_clear l true) (λ _,
    ∃ c, ⌜blank h c⌝ ∗ is_tree (S h) (TNode l [] [c])).
Proof. apply wp_ftn_clear_with. intros h' _. apply wp_ftn_new. Qed.

(** A node without children, as created for a split. *)
Lemma wp_ftn_new_half h Φ :
  (∀ l, l ↦ mkNode [] [subtree_set null_subtree None] (Z.of_nat h) true -∗ Φ l) -∗
  wp (ftn_new (Z.of_nat h) false) Φ.
Proof.
  iIntros "HΦ". rewrite /ftn_new. cbn [ftn_new_rec]. wp_bind. iApply wp_assert; [apply Z.leb_le; lia|].
  wp_bind. wp_alloc l as "Hl". wp_bind. rewrite /ftn_clear_with. wp_bind. wp_load "Hl".
  wp_bind. wp_ret. wp_bind. rewrite orb_true_r. wp_ret. wp_store "Hl". wp_ret. by iApply "HΦ".
Qed.

(** [subtree_clear] on the slot of a child. *)
Lemma wp_subtree_clear l es sps ts h d i t Φ :
  Forall2 slot_ok sps ts → ts !! i = Some t →
  l ↦ mkNode es sps (Z.of_nat h) d -∗ is_tree h t -∗
  (∀ t', ⌜ptr t' = ptr t ∧ blank h t'⌝ -∗
     l ↦ mkNode es sps (Z.of_nat h) d -∗ is_tree h t' -∗ Φ tt) -∗
  wp (subtree_clear l i (Z.of_nat h - 1)) Φ.
Proof.
  iIntros (Hslots Hi) "Hl Ht HΦ". rewrite /subtree_clear.
  destruct (Forall2_lookup_r _ _ _ _ _ Hslots Hi) as (sp & Hsp & Hmem & Hst).
  destruct (Z.ltb_spec (Z.of_nat h - 1) 0).
  { assert (h = 0%nat) as -> by lia. destruct t; [|done].
    wp_ret. iApply ("HΦ" $! TNull with "[//] Hl Ht"). }
  wp_bind. wp_load "Hl". wp_bind. iApply wp_in_bounds; [done|]. rewrite Hmem Hst.
  destruct h as [|h]; [lia|]. destruct t as [|c ces cts]; [done|]. simpl ptr.
  iDestruct "Ht" as (csps cd) "(Hc & %Hcslots & Hcts)". wp_bind. wp_load "Hc".
  wp_bind. iApply wp_assert; [simpl; lia|].
  iApply (wp_mono with "[Hc Hcts]").
  - iApply (wp_ftn_clear c h ces cts). simpl. by iFrame.
  - iIntros ([]) "(%g & %Hb & Ht)". iApply ("HΦ" $! (TNode c [] [g]) with "[//] Hl Ht").
Qed.

End node_proof.
