(* ===== verification/FigPrune.v ===== *)
(** * Correctness of [ftn_pruneTo]

    Pruning a node to a valid range keeps the byte map on that range, leaves
    only entries inside it, and empties the subtree left of an entry that starts
    exactly at the left end of the range. *)
From S2P Require Import Prelude.
From S2P Require Import Interval.
From S2P Require Import Types.
From S2P Require Import Heap.
From S2P Require Import FigNode.
From S2P Require Import FigTree.
From S2P Require Import FigSpec.
From S2P Require Import FigNodeProof.
From stdpp Require Import sorting.

#[local] Open Scope Z_scope.

(** ** The scans *)

Lemma prune_left_spec valid esA esB pre X r r' fuel :
  Forall (λ e, i_leftOf_int (irange e) valid = true) esA →
  Forall (λ e, i_leftOf_int (irange e) valid = false) (take 1 esB) →
  length X = length pre → (length esA + length esB ≤ fuel)%nat →
  prune_left (pre ++ esA ++ esB) valid fuel (length pre)
    (mkMarks (X ++ replicate (length esA + r) false) (X ++ replicate (length esA + r') false)) =
  ((length pre + length esA)%nat,
   mkMarks (X ++ replicate (length esA) true ++ replicate r false)
           (X ++ replicate (length esA) true ++ replicate r' false)).
Proof.
  intros HA HB. revert pre X fuel. induction HA as [|e esA He HA IH]; intros pre X fuel HX Hfuel; simpl.
  - rewrite Nat.add_0_r. destruct esB as [|e esB]; simpl in *.
    + rewrite app_nil_r. destruct fuel; simpl; by rewrite ?lookup_ge_None_2.
    + apply Forall_cons in HB as [HB _]. destruct fuel; [lia|]. simpl.
      by rewrite list_lookup_middle // HB.
  - destruct fuel as [|fuel]; [simpl in Hfuel; lia|]. simpl prune_left.
    rewrite list_lookup_middle // He /=.
    specialize (IH (pre ++ [e]) (X ++ [true]) fuel).
    rewrite !length_app -!app_assoc /= in IH.
    rewrite -HX !insert_app_r_alt ?Nat.sub_diag /=; [|lia..].
    replace (S (length X)) with (length pre + 1)%nat by lia.
    rewrite IH; [f_equal; lia|lia|simpl in Hfuel; lia].
Qed.

Lemma prune_inside_spec valid esI esR pre fuel :
  Forall (λ e, i_contains_int valid (irange e) = true) esI →
  Forall (λ e, i_contains_int valid (irange e) = false) (take 1 esR) →
  (length esI + length esR ≤ fuel)%nat →
  prune_inside (pre ++ esI ++ esR) valid fuel (length pre) = (length pre + length esI)%nat.
Proof.
  intros HI HR. revert pre fuel. induction HI as [|e esI He HI IH]; intros pre fuel Hfuel; simpl.
  - rewrite Nat.add_0_r. destruct esR as [|e esR]; simpl in *.
    + rewrite app_nil_r. destruct fuel; simpl; by rewrite ?lookup_ge_None_2.
    + apply Forall_cons in HR as [HR _]. destruct fuel; [lia|]. simpl.
      by rewrite list_lookup_middle // HR.
  - destruct fuel as [|fuel]; [simpl in Hfuel; lia|]. simpl prune_inside.
    rewrite list_lookup_middle // He. specialize (IH (pre ++ [e]) fuel).
    rewrite length_app -!app_assoc /= in IH. simpl in Hfuel.
    replace (S (length pre)) with (length pre + 1)%nat by lia. rewrite IH; lia.
Qed.

Lemma prune_right_spec valid esC pre X Y fuel :
  Forall (λ e, i_rightOf_int (irange e) valid = true) esC →
  length X = length pre → length Y = S (length pre) → (length esC ≤ fuel)%nat →
  prune_right (pre ++ esC) valid fuel (length pre)
    (mkMarks (X ++ replicate (length esC) false) (Y ++ replicate (length esC) false)) =
  mkMarks (X ++ replicate (length esC) true) (Y ++ replicate (length esC) true).
Proof.
  intros HC. revert pre X Y fuel.
  induction HC as [|e esC He HC IH]; intros pre X Y fuel HX HY Hfuel; simpl.
  - rewrite !app_nil_r. destruct fuel; simpl; [done|]. by rewrite lookup_ge_None_2.
  - destruct fuel as [|fuel]; [simpl in Hfuel; lia|]. simpl prune_right.
    rewrite list_lookup_middle // He /=.
    specialize (IH (pre ++ [e]) (X ++ [true]) (Y ++ [true]) fuel).
    rewrite !length_app -!app_assoc /= in IH. simpl in Hfuel.
    rewrite -HX insert_app_r_alt ?Nat.sub_diag /=; [|lia].
    rewrite HX -HY insert_app_r_alt ?Nat.sub_diag /=; [|lia].
    rewrite HY. replace (S (length pre)) with (length pre + 1)%nat by lia.
    rewrite IH; [done|lia..].
Qed.

Lemma drop_marked_all {A} (l l' : list A) marks :
  drop_marked (replicate (length l) true ++ marks) (l ++ l') = drop_marked marks l'.
Proof. by induction l. Qed.

Lemma drop_marked_none {A} (l l' : list A) marks :
  drop_marked (replicate (length l) false ++ marks) (l ++ l') = l ++ drop_marked marks l'.
Proof. induction l; simpl; [done|]. by f_equal. Qed.

Lemma drop_marked_split {A} (xs ys zs : list A) :
  drop_marked (replicate (length xs) true ++ replicate (length ys) false ++
               replicate (length zs) true) (xs ++ ys ++ zs) = ys.
Proof.
  rewrite drop_marked_all drop_marked_none.
  assert (drop_marked (replicate (length zs) true) zs = []) as -> by (by induction zs).
  by rewrite app_nil_r.
Qed.

Lemma keep_marked_split {A} (xs ys zs : list A) :
  keep_marked (replicate (length xs) true ++ replicate (length ys) false ++
               replicate (length zs) true) (xs ++ ys ++ zs) = xs ++ zs.
Proof.
  rewrite /keep_marked !fmap_app !fmap_replicate /=.
  rewrite drop_marked_none drop_marked_all.
  f_equal. induction zs; simpl; [done|]. by f_equal.
Qed.

(** ** Edge entries *)

Definition within (valid : interval) (e : ft_ent) : Prop :=
  i_left valid ≤ lft e ∧ rgt e ≤ i_right valid.

Definition restrict_ent (valid : interval) (e : ft_ent) : ft_ent :=
  mkEnt (mkInterval (Z.max (lft e) (i_left valid)) (Z.min (rgt e) (i_right valid))
           (i_nonempty (irange e))) (ent_value e).

Lemma es_ok_shrink es1 e e' es2 :
  es_ok (es1 ++ e :: es2) → ent_ok e' → lft e ≤ lft e' → rgt e' ≤ rgt e →
  es_ok (es1 ++ e' :: es2).
Proof.
  rewrite !es_ok_app !es_ok_cons. intros (H1 & (He & Hs & H2) & H12) He' Hl Hr.
  split_and!; try done.
  - eapply Forall_impl; [exact Hs|]. unfold before. intros; lia.
  - intros e1 e2 Hin1 [->|Hin2]%elem_of_cons.
    + specialize (H12 e1 e Hin1 ltac:(set_solver)). unfold before in *. lia.
    + apply H12; [done|set_solver].
Qed.

Lemma restrict_ent_ok valid e :
  interval_wf valid → i_nonempty valid = true → ent_ok e →
  i_left valid ≤ rgt e → lft e ≤ i_right valid → ent_ok (restrict_ent valid e).
Proof.
  unfold ent_ok, interval_wf. intros Hv Hne (?&?&?&?) ??. rewrite Hne in Hv.
  unfold restrict_ent, lft, rgt in *. simpl in *. unfold lft, rgt. split; [done|]. lia.
Qed.

(** Restricting an entry and emptying the subtree next to its cut side does
    not change the byte map on [valid]. *)
Lemma look_restrict_left F valid e es t t' ts b :
  b ∈ valid → ent_ok e → lft e ≤ i_left valid →
  look F (restrict_ent valid e :: es) (t' :: ts) b = look F (e :: es) (t :: ts) b.
Proof.
  rewrite elem_of_interval. intros Hb (_&_&?&_) Hl. simpl.
  unfold restrict_ent, lft, rgt in *. simpl.
  destruct (Z.ltb_spec b (Z.max (i_left (irange e)) (i_left valid))); [lia|].
  destruct (Z.ltb_spec b (i_left (irange e))); [lia|].
  destruct (Z.leb_spec b (Z.min (i_right (irange e)) (i_right valid)));
    destruct (Z.leb_spec b (i_right (irange e))); try done; lia.
Qed.

Lemma look_restrict_right F valid e es t t1 t1' ts b :
  b ∈ valid → ent_ok e → i_left valid ≤ lft e → i_right valid ≤ rgt e →
  look F (restrict_ent valid e :: es) (t :: t1' :: ts) b = look F (e :: es) (t :: t1 :: ts) b.
Proof.
  rewrite elem_of_interval. intros Hb (_&_&?&_) Hl Hr. simpl.
  unfold restrict_ent, lft, rgt in *. simpl.
  destruct (Z.ltb_spec b (Z.max (i_left (irange e)) (i_left valid)));
  destruct (Z.ltb_spec b (i_left (irange e))); try done; try lia.
  destruct (Z.leb_spec b (Z.min (i_right (irange e)) (i_right valid)));
    destruct (Z.leb_spec b (i_right (irange e))); try done; lia.
Qed.

(** One node replaced by another that is equivalent on [valid]. *)
Definition prune_rel (h : nat) (valid : interval) (es : list ft_ent) (ts : list ftree)
    (es' : list ft_ent) (ts' : list ftree) : Prop :=
  length es' = length es ∧ length ts' = length ts ∧ es_ok es' ∧ Forall (wf h) ts' ∧
  ∀ b, b ∈ valid → look (λ c, lookup_tree h c b) es' ts' b = look (λ c, lookup_tree h c b) es ts b.

(** The outcome of pruning a node. *)
Definition pruned (h : nat) (valid : interval) (es : list ft_ent) (ts : list ftree)
    (es' : list ft_ent) (ts' : list ftree) : Prop :=
  es_ok es' ∧ (length es' ≤ length es)%nat ∧ length ts' = S (length es') ∧
  Forall (wf h) ts' ∧ Forall (within valid) es' ∧
  (∀ b, b ∈ valid → look (λ c, lookup_tree h c b) es' ts' b = look (λ c, lookup_tree h c b) es ts b) ∧
  (Forall (λ e, lft e = i_left valid) (take 1 es') → es' ≠ [] → Forall (blank h) (take 1 ts')).

Lemma prune_rel_refl h valid es ts :
  es_ok es → Forall (wf h) ts → prune_rel h valid es ts es ts.
Proof. done. Qed.

Lemma prune_rel_trans h valid es ts es' ts' es'' ts'' :
  prune_rel h valid es ts es' ts' → prune_rel h valid es' ts' es'' ts'' →
  prune_rel h valid es ts es'' ts''.
Proof.
  intros (?&?&?&?&Heq1) (?&?&?&?&Heq2). split_and!; [congruence|congruence|done|done|].
  intros b Hb. rewrite Heq2 // Heq1 //.
Qed.

(** The two ways in which the edges of [valid] change a node. *)
Lemma prune_rel_left h valid es1 e es2 ts1 t t' ts2 :
  length ts1 = length es1 → es_ok (es1 ++ e :: es2) → Forall (wf h) (ts1 ++ t :: ts2) →
  interval_wf valid → i_nonempty valid = true →
  lft e ≤ i_left valid ≤ rgt e → blank h t' →
  prune_rel h valid (es1 ++ e :: es2) (ts1 ++ t :: ts2)
    (es1 ++ restrict_ent valid e :: es2) (ts1 ++ t' :: ts2).
Proof.
  intros Hlen Hok Hwf Hv Hne Hl Hb. pose proof (es_ok_ent _ e Hok ltac:(set_solver)) as He.
  assert (i_left valid ≤ i_right valid) as Hlr by (unfold interval_wf in Hv; rewrite Hne in Hv; lia).
  split_and!; [by rewrite !length_app|by rewrite !length_app| | |].
  - eapply es_ok_shrink; [done|apply restrict_ent_ok; done || lia|..];
      unfold restrict_ent, lft, rgt in *; simpl; lia.
  - apply Forall_app in Hwf as [? [??]%Forall_cons]. apply Forall_app. split; [done|].
    constructor; [by apply blank_wf|done].
  - intros b Hb'. apply look_congr; [done|]. intros _. apply look_restrict_left; [done|done|lia].
Qed.

Lemma prune_rel_right h valid es1 e es2 ts1 t t' ts2 :
  length ts1 = S (length es1) → es_ok (es1 ++ e :: es2) → Forall (wf h) (ts1 ++ t :: ts2) →
  interval_wf valid → i_nonempty valid = true →
  i_left valid ≤ lft e ≤ i_right valid → i_right valid ≤ rgt e → blank h t' →
  prune_rel h valid (es1 ++ e :: es2) (ts1 ++ t :: ts2)
    (es1 ++ restrict_ent valid e :: es2) (ts1 ++ t' :: ts2).
Proof.
  intros Hlen Hok Hwf Hv Hne Hl Hr Hb. pose proof (es_ok_ent _ e Hok ltac:(set_solver)) as He.
  assert (i_left valid ≤ i_right valid) as Hlr by (unfold interval_wf in Hv; rewrite Hne in Hv; lia).
  split_and!; [by rewrite !length_app|by rewrite !length_app| | |].
  - eapply es_ok_shrink; [done|apply restrict_ent_ok; done || lia|..];
      unfold restrict_ent, lft, rgt in *; simpl; lia.
  - apply Forall_app in Hwf as [? [??]%Forall_cons]. apply Forall_app. split; [done|].
    constructor; [by apply blank_wf|done].
  - intros b Hb'. destruct ts1 as [|c ts1 _] using rev_ind; [done|].
    rewrite length_app /= in Hlen. rewrite -!app_assoc /=.
    apply look_congr; [lia|]. intros _. apply look_restrict_right; [done|done|lia|lia].
Qed.

Section prune_proof.
Context `{HG : !heapG ft_node Σ} `{AL : !Allocator}.

Lemma slots_replace sps ts1 t t' ts2 :
  ptr t' = ptr t →
  Forall2 slot_ok sps (ts1 ++ t :: ts2) → Forall2 slot_ok sps (ts1 ++ t' :: ts2).
Proof.
  intros Ht (s1 & s2 & H1 & H2 & ->)%Forall2_app_inv_r.
  apply Forall2_cons_inv_r in H2 as (sp & s2' & [Hm Hp] & H2 & ->).
  apply Forall2_app; [done|]. constructor; [|done]. split; [done|congruence].
Qed.

Lemma wp_prune_boundary l es1 e es2 ts1 t ts2 h valid i k Φ :
  i = length es1 → k = length ts1 →
  interval_wf valid → i_nonempty valid = true → ent_ok e →
  i_left valid ≤ rgt e → lft e ≤ i_right valid →
  is_tree (S h) (TNode l (es1 ++ e :: es2) (ts1 ++ t :: ts2)) -∗
  (∀ t', ⌜blank h t'⌝ -∗
     is_tree (S h) (TNode l (es1 ++ restrict_ent valid e :: es2) (ts1 ++ t' :: ts2)) -∗ Φ tt) -∗
  wp (prune_boundary l i k valid) Φ.
Proof.
  iIntros (-> -> Hv Hne He Hl Hr) "Ht HΦ". iDestruct "Ht" as (sps d) "(Hl & %Hslots & Hts)".
  rewrite big_sepL_app big_sepL_cons. iDestruct "Hts" as "(Hts1 & Ht & Hts2)".
  rewrite /prune_boundary. wp_bind. wp_load "Hl". simpl HEIGHT. wp_bind.
  iApply (wp_subtree_clear with "Hl Ht"); [exact Hslots|by apply list_lookup_middle|].
  iIntros (t' [Hptr Hblank]) "Hl Ht". wp_bind. wp_load "Hl".
  wp_bind. iApply wp_in_bounds; [by apply list_lookup_middle|].
  wp_bind. iApply wp_lift_res.
  { unfold i_restrict_int, i_restrict_range. simpl. unfold ep_assert.
    unfold interval_wf in Hv. rewrite Hne in Hv. destruct He as (_&_&?&_). unfold lft, rgt in *.
    by destruct (Z.leb_spec (Z.max (i_left (irange e)) (i_left valid))
                   (Z.min (i_right (irange e)) (i_right valid))); [|lia]. }
  wp_store "Hl". iApply ("HΦ" $! t' with "[//]"). simpl. iExists sps, d.
  rewrite /with_entries /= insert_app_r_alt // Nat.sub_diag /=. iFrame.
  iPureIntro. by eapply slots_replace.
Qed.

Lemma wp_prune_deletes l esA esM esC tsA tsM tsC h m Φ :
  length tsA = length esA → length tsM = S (length esM) → length tsC = length esC →
  entrydel m = replicate (length esA) true ++ replicate (length esM) false ++
    replicate (length esC) true →
  subtreedel m = replicate (length tsA) true ++ replicate (length tsM) false ++
    replicate (length tsC) true →
  is_tree (S h) (TNode l (esA ++ esM ++ esC) (tsA ++ tsM ++ tsC)) -∗
  (is_tree (S h) (TNode l esM tsM) -∗ Φ tt) -∗
  wp (prune_deletes l m) Φ.
Proof.
  iIntros (HA HM HC Hed Hsd) "Ht HΦ". iDestruct "Ht" as (sps d) "(Hl & %Hslots & Hts)".
  apply Forall2_app_inv_r in Hslots as (spsA & sps' & HsA & Hslots & ->).
  apply Forall2_app_inv_r in Hslots as (spsM & spsC & HsM & HsC & ->).
  rewrite !big_sepL_app. iDestruct "Hts" as "(HtsA & HtsM & HtsC)".
  rewrite /prune_deletes. wp_bind. wp_load "Hl". simpl.
  rewrite Hed Hsd -(Forall2_length _ _ _ HsA) -(Forall2_length _ _ _ HsM)
    -(Forall2_length _ _ _ HsC).
  rewrite !drop_marked_split keep_marked_split. wp_bind.
  iApply (wp_subtrees_free h _ (tsA ++ tsC) with "[HtsA HtsC]").
  { by apply Forall2_app. }
  { rewrite big_sepL_app. iFrame. }
  iIntros (_). wp_bind. wp_store "Hl". iApply wp_assert.
  { apply Nat.eqb_eq. rewrite (Forall2_length _ _ _ HsM). lia. }
  iApply "HΦ". simpl. iExists spsM, _. by iFrame.
Qed.

(** ** The edges of the valid range *)

Lemma wp_prune_left_edge l esA esB ts h valid Φ :
  length ts = S (length (esA ++ esB)) → es_ok (esA ++ esB) → Forall (wf h) ts →
  interval_wf valid → i_nonempty valid = true →
  Forall (λ e, i_leftOf_int (irange e) valid = false) (take 1 esB) →
  is_tree (S h) (TNode l (esA ++ esB) ts) -∗
  (∀ esP esB' ts',
     ⌜prune_rel h valid (esA ++ esB) ts (esA ++ esP ++ esB') ts'⌝ -∗
     ⌜Forall (within valid) esP ∧ Forall (λ e, i_left valid < lft e) esB'⌝ -∗
     ⌜esP = [] ∨ ∃ c, ts' !! length esA = Some c ∧ blank h c⌝ -∗
     is_tree (S h) (TNode l (esA ++ esP ++ esB') ts') -∗
     Φ (length esA + length esP)%nat) -∗
  wp (prune_left_edge l (esA ++ esB) valid (length esA)) Φ.
Proof.
  iIntros (Hlen Hok Hwf Hv Hne HB) "Ht HΦ". rewrite /prune_left_edge.
  destruct esB as [|e esB].
  { rewrite lookup_ge_None_2; [|rewrite length_app /=; lia]. wp_ret.
    iSpecialize ("HΦ" $! [] [] ts with "[%] [%] [%] Ht"); [by apply prune_rel_refl|done|by left|].
    by rewrite Nat.add_0_r. }
  rewrite list_lookup_middle //. apply Forall_cons in HB as [HB _].
  pose proof (es_ok_ent _ e Hok ltac:(set_solver)) as (Hene & He).
  pose proof Hok as (HokA & HokB & _)%es_ok_app. apply es_ok_cons in HokB as (_ & Hs & _).
  unfold i_leftOf_int, i_leftOf_val in HB. rewrite Hene /= in HB.
  rewrite /i_leftOverlaps Hne /= /i_contains_val. fold (lft e) (rgt e) in *.
  destruct (Z.leb_spec (lft e) (i_left valid)); simpl.
  - destruct (Z.leb_spec (i_left valid) (rgt e)) as [|]; [|unfold rgt in *; lia]. simpl.
    destruct (split_at ts (length esA)) as (tsA & t & tsB & -> & HtsA).
    { rewrite Hlen !length_app /=. lia. }
    assert (i_left valid ≤ i_right valid) as Hlr by (unfold interval_wf in Hv; rewrite Hne in Hv; lia).
    wp_bind. iApply (wp_prune_boundary with "Ht"); [done..|by split|lia|lia|].
    iIntros (t' Hb) "Ht". wp_ret.
    iSpecialize ("HΦ" $! [restrict_ent valid e] esB (tsA ++ t' :: tsB)).
    rewrite /= Nat.add_1_r. iApply ("HΦ" with "[%] [%] [%] Ht").
    + apply prune_rel_left; done || lia.
    + split; [|].
      * apply Forall_singleton. unfold within, restrict_ent, lft, rgt. simpl. lia.
      * eapply Forall_impl; [exact Hs|]. unfold before. intros; lia.
    + right. exists t'. split; [|done]. by apply list_lookup_middle.
  - wp_ret. iSpecialize ("HΦ" $! [] (e :: esB) ts with "[%] [%] [%] Ht");
      [by apply prune_rel_refl| |by left|by rewrite Nat.add_0_r].
    split; [done|]. constructor; [done|]. eapply Forall_impl; [exact Hs|]. unfold before. intros; lia.
Qed.

Lemma wp_prune_right_edge l pre esR ts h valid Φ :
  length ts = S (length (pre ++ esR)) → es_ok (pre ++ esR) → Forall (wf h) ts →
  interval_wf valid → i_nonempty valid = true →
  Forall (λ e, i_left valid < lft e) esR →
  Forall (λ e, i_contains_int valid (irange e) = false) (take 1 esR) →
  is_tree (S h) (TNode l (pre ++ esR) ts) -∗
  (∀ esQ esC ts',
     ⌜prune_rel h valid (pre ++ esR) ts (pre ++ esQ ++ esC) ts'⌝ -∗
     ⌜Forall (within valid) esQ ∧ Forall (λ e, i_left valid < lft e) esQ ∧
      Forall (λ e, i_rightOf_int (irange e) valid = true) esC⌝ -∗
     ⌜∀ k, (k ≤ length pre)%nat → ts' !! k = ts !! k⌝ -∗
     is_tree (S h) (TNode l (pre ++ esQ ++ esC) ts') -∗
     Φ (length pre + length esQ)%nat) -∗
  wp (prune_right_edge l (pre ++ esR) valid (length pre)) Φ.
Proof.
  iIntros (Hlen Hok Hwf Hv Hne HR HI) "Ht HΦ". rewrite /prune_right_edge.
  destruct esR as [|e esR].
  { rewrite lookup_ge_None_2; [|rewrite length_app /=; lia]. wp_ret.
    iSpecialize ("HΦ" $! [] [] ts with "[%] [%] [%] Ht"); [by apply prune_rel_refl|done|done|].
    by rewrite Nat.add_0_r. }
  rewrite list_lookup_middle //. apply Forall_cons in HI as [HI _].
  apply Forall_cons in HR as [HR _].
  pose proof (es_ok_ent _ e Hok ltac:(set_solver)) as (Hene & He).
  pose proof Hok as (_ & HokR & _)%es_ok_app. apply es_ok_cons in HokR as (_ & Hs & HokR).
  unfold i_contains_int in HI. fold (lft e) (rgt e) in *.
  assert (i_right valid < rgt e) as Hbeyond by lia.
  rewrite /i_rightOverlaps Hne /= /i_contains_val. fold (lft e) (rgt e) in *.
  assert (∀ es, es_ok es → Forall (λ e', i_right valid < lft e') es →
    Forall (λ e, i_rightOf_int (irange e) valid = true) es) as Hrof.
  { intros es [Hes _] H.
    rewrite Forall_forall in H. apply Forall_forall. intros e' He'.
    unfold i_rightOf_int, i_rightOf_val. rewrite Forall_forall in Hes.
    specialize (H e' He'). specialize (Hes e' He'). unfold lft, ent_ok in *. lia. }
  destruct (Z.leb_spec (lft e) (i_right valid)); simpl.
  - destruct (Z.leb_spec (i_right valid) (rgt e)) as [|]; [|lia]. simpl.
    destruct (split_at ts (S (length pre))) as (tsA & t & tsB & -> & HtsA).
    { rewrite Hlen !length_app /=. lia. }
    wp_bind. iApply (wp_prune_boundary with "Ht"); [done..|by split|lia|lia|].
    iIntros (t' Hb) "Ht". wp_ret.
    iSpecialize ("HΦ" $! [restrict_ent valid e] esR (tsA ++ t' :: tsB)).
    rewrite /= Nat.add_1_r. iApply ("HΦ" with "[%] [%] [%] Ht").
    + apply prune_rel_right; done || lia.
    + split_and!.
      * apply Forall_singleton. unfold within, restrict_ent, lft, rgt in *. simpl. lia.
      * apply Forall_singleton. unfold restrict_ent, lft in *. simpl. lia.
      * apply Hrof; [done|]. eapply Forall_impl; [exact Hs|]. unfold before. intros; lia.
    + intros k Hk. rewrite !lookup_app_l //; lia.
  - wp_ret. iSpecialize ("HΦ" $! [] (e :: esR) ts with "[%] [%] [%] Ht");
      [by apply prune_rel_refl| |done|by rewrite Nat.add_0_r].
    split_and!; [done|done|]. apply Hrof; [by apply es_ok_app in Hok as (_&?&_)|]. constructor; [done|].
    eapply Forall_impl; [exact Hs|]. unfold before. intros; lia.
Qed.

(** The deletions: what is left of a scanned node. *)
Lemma wp_prune_finish l esA esK esC es0 ts0 ts h valid m fuel Φ :
  let n := length (esA ++ esK ++ esC) in
  prune_rel h valid es0 ts0 (esA ++ esK ++ esC) ts →
  length ts0 = S (length es0) → interval_wf valid →
  Forall (λ e, i_leftOf_int (irange e) valid = true) esA →
  Forall (within valid) esK →
  Forall (λ e, i_rightOf_int (irange e) valid = true) esC →
  (esK ≠ [] → Forall (λ e, lft e = i_left valid) (take 1 esK) →
     ∃ c, ts !! length esA = Some c ∧ blank h c) →
  m = mkMarks (replicate (length esA) true ++ replicate (n - length esA) false)
        (replicate (length esA) true ++ replicate (S n - length esA) false) →
  (length esC ≤ fuel)%nat →
  is_tree (S h) (TNode l (esA ++ esK ++ esC) ts) -∗
  (∀ ts', ⌜pruned h valid es0 ts0 esK ts'⌝ -∗ is_tree (S h) (TNode l esK ts') -∗ Φ tt) -∗
  wp (prune_deletes l
        (prune_right (esA ++ esK ++ esC) valid fuel (length esA + length esK) m)) Φ.
Proof.
  iIntros (n Hrel Hlen0 Hv HA HK HC Hfirst -> Hfuel) "Ht HΦ".
  destruct Hrel as (Hle & Hlt & Hok & Hwf & Hlook).
  assert (length ts = S n) as Hlts by (subst n; lia).
  assert (∃ tsA tsM tsC, ts = tsA ++ tsM ++ tsC ∧ length tsA = length esA ∧
    length tsM = S (length esK) ∧ length tsC = length esC) as (tsA&tsM&tsC&->&HtA&HtM&HtC).
  { exists (take (length esA) ts), (take (S (length esK)) (drop (length esA) ts)),
      (drop (S (length esK)) (drop (length esA) ts)).
    subst n. rewrite !length_app in Hlts.
    rewrite !take_drop !length_take !length_drop. split_and!; lia || done. }
  assert (prune_right (esA ++ esK ++ esC) valid fuel (length esA + length esK)
    (mkMarks (replicate (length esA) true ++ replicate (n - length esA) false)
             (replicate (length esA) true ++ replicate (S n - length esA) false)) =
    mkMarks (replicate (length esA) true ++ replicate (length esK) false ++ replicate (length esC) true)
      (replicate (length esA) true ++ replicate (S (length esK)) false ++ replicate (length esC) true))
    as ->.
  { replace (n - length esA)%nat with (length esK + length esC)%nat by (subst n; rewrite !length_app; lia).
    replace (S n - length esA)%nat with (S (length esK) + length esC)%nat by (subst n; rewrite !length_app; lia).
    rewrite !replicate_add !app_assoc -length_app. rewrite prune_right_spec //;
      rewrite ?length_app ?length_replicate //; lia. }
  iApply (wp_prune_deletes with "Ht"); [done..| | |].
  { done. } { simpl. by rewrite HtA HtM HtC. }
  iIntros "Ht". iApply ("HΦ" with "[%] Ht").
  apply Forall_app in Hwf as (HwA & (HwM & HwC)%Forall_app).
  apply es_ok_app in Hok as (HokA & (HokK & HokC & _)%es_ok_app & _).
  rewrite !length_app in Hle.
  split_and!; [done|lia|done|done|done| |].
  - intros b Hb. rewrite -Hlook //. symmetry. apply look_restrict; [done|done|apply HokA| |].
    + eapply Forall_impl; [exact HA|]. intros e. rewrite elem_of_interval in Hb.
      unfold i_leftOf_int, i_leftOf_val, rgt. lia.
    + apply Forall_take. eapply Forall_impl; [exact HC|]. intros e. rewrite elem_of_interval in Hb.
      unfold i_rightOf_int, i_rightOf_val, lft. lia.
  - intros Hf Hne. destruct (Hfirst Hne Hf) as (c & Hc & Hb).
    destruct tsM as [|c' tsM]; [done|]. rewrite -HtA list_lookup_middle // in Hc.
    simplify_eq. simpl. by apply Forall_singleton.
Qed.

Lemma wp_ftn_pruneTo_nonempty l es ts h valid Φ :
  wf (S h) (TNode l es ts) → interval_wf valid → i_nonempty valid = true → es ≠ [] →
  is_tree (S h) (TNode l es ts) -∗
  (∀ es' ts', ⌜pruned h valid es ts es' ts'⌝ -∗ is_tree (S h) (TNode l es' ts') -∗ Φ tt) -∗
  wp (ftn_pruneTo l valid) Φ.
Proof.
  iIntros ((Hok & _ & Hlen & Hwf) Hv Hne Hes) "Ht HΦ". rewrite /ftn_pruneTo.
  wp_bind. iDestruct "Ht" as (sps d) "(Hl & %Hslots & Hts)". wp_load "Hl".
  rewrite Hne /=. destruct (Nat.eqb_spec (length es) 0) as [He|_].
  { by apply nil_length_inv in He. }
  rewrite (Forall2_length _ _ _ Hslots) Hlen.
  iAssert (is_tree (S h) (TNode l es ts)) with "[Hl Hts]" as "Ht".
  { simpl. iExists sps, d. by iFrame. }
  clear dependent sps d.
  destruct (split_while (λ e, i_leftOf_int (irange e) valid) es) as (esA & esB & -> & HA & HB).
  rewrite (_ : prune_left _ _ _ _ _ = (length esA, mkMarks
      (replicate (length esA) true ++ replicate (length esB) false)
      (replicate (length esA) true ++ replicate (S (length esB)) false))); last first.
  { rewrite length_app -Nat.add_succ_r.
    apply (prune_left_spec valid esA esB [] [] (length esB) (S (length esB))); done || lia. }
  wp_bind.
  iApply (wp_prune_left_edge with "Ht"); [done..|].
  iIntros (esP esB' ts1 Hrel1 [HP HB'] Hfirst1) "Ht". wp_bind.
  iDestruct "Ht" as (sps d) "(Hl & %Hslots & Hts)". wp_load "Hl". simpl entries.
  iAssert (is_tree (S h) (TNode l (esA ++ esP ++ esB') ts1)) with "[Hl Hts]" as "Ht".
  { simpl. iExists sps, d. by iFrame. }
  clear dependent sps d.
  destruct (split_while (λ e, i_contains_int valid (irange e)) esB') as (esI & esR & -> & HI & HR).
  pose proof Hrel1 as (Hle1 & Hlt1 & Hok1 & Hwf1 & _).
  rewrite !length_app in Hle1.
  rewrite app_assoc -length_app prune_inside_spec; [|done|done|rewrite !length_app; lia].
  rewrite app_assoc -!length_app. wp_bind.
  apply Forall_app in HB' as [HlI HlR].
  iApply (wp_prune_right_edge with "[Ht]"); [| |exact Hwf1|done|done|exact HlR|done| |].
  { rewrite Hlt1 Hlen !length_app. lia. }
  { by rewrite -!app_assoc. }
  { by rewrite -!app_assoc. }
  iIntros (esQ esC ts2 Hrel2 (HQ & HlQ & HC) Hsame) "Ht". wp_bind.
  rewrite -!app_assoc. rewrite -!app_assoc in Hrel2.
  iDestruct "Ht" as (sps d) "(Hl & %Hslots & Hts)". wp_load "Hl". simpl entries.
  iAssert (is_tree (S h) (TNode l (esA ++ esP ++ esI ++ esQ ++ esC) ts2)) with "[Hl Hts]" as "Ht".
  { simpl. iExists sps, d. by iFrame. }
  clear dependent sps d. pose proof Hrel2 as (Hle2 & _).
  rewrite !length_app in Hle2. rewrite !length_app -!Nat.add_assoc -!length_app.
  rewrite (app_assoc esP) (app_assoc (esP ++ esI)) -(app_assoc esP).
  rewrite (length_app esA (esP ++ esI ++ esQ)).
  iApply (wp_prune_finish l esA (esP ++ esI ++ esQ) esC _ _ ts2 h valid with "Ht");
    [rewrite -!app_assoc; eapply prune_rel_trans; [exact Hrel1|exact Hrel2]|by rewrite Hlen|done|done| |done| | | |].
  - rewrite !Forall_app. split_and!; [done| |done].
    apply Forall_forall. intros e He. rewrite Forall_forall in HI. specialize (HI e He).
    unfold i_contains_int in HI. unfold within, lft, rgt. lia.
  - intros HK Hf. destruct Hfirst1 as [->|(c & Hc & Hb)].
    + exfalso. simpl in HK, Hf.
      assert (Forall (λ e, i_left valid < lft e) (esI ++ esQ)) as Hlt by (by apply Forall_app).
      destruct (esI ++ esQ) as [|e es']; [done|]. simpl in Hf.
      apply Forall_cons in Hf as [Hf _]. apply Forall_cons in Hlt as [Hlt _]. lia.
    + exists c. split; [|done]. rewrite Hsame // !length_app. lia.
  - rewrite !length_app. f_equal; f_equal; f_equal; lia.
  - rewrite !length_app; lia.
  - iIntros (ts') "%Hp Ht". by iApply ("HΦ" with "[%] Ht").
Qed.

(** [ftn_pruneTo] for every valid range; pruning to the empty range clears the
    node. *)
Lemma wp_ftn_pruneTo l es ts h valid Φ :
  wf (S h) (TNode l es ts) → interval_wf valid →
  is_tree (S h) (TNode l es ts) -∗
  (∀ es' ts',
     ⌜pruned h valid es ts es' ts'⌝ -∗
     ⌜i_nonempty valid = false ∨ blank (S h) (TNode l es ts) →
      blank (S h) (TNode l es' ts')⌝ -∗
     is_tree (S h) (TNode l es' ts') -∗ Φ tt) -∗
  wp (ftn_pruneTo l valid) Φ.
Proof.
  iIntros (Hwf Hv) "Ht HΦ". destruct (i_nonempty valid) eqn:Hne.
  - destruct es as [|e es].
    + iDestruct "Ht" as (sps d) "(Hl & Hts)". rewrite /ftn_pruneTo. wp_bind. wp_load "Hl".
      rewrite Hne /=. wp_ret. iApply ("HΦ" $! [] ts with "[%] [%]"); [|naive_solver|iExists _, _; iFrame].
      destruct Hwf as (?&?&?&?). by split_and!.
    + iApply (wp_ftn_pruneTo_nonempty with "Ht"); [done..|].
      iIntros (es' ts' Hp) "Ht". iApply ("HΦ" with "[//] [%] Ht"). naive_solver.
  - rewrite /ftn_pruneTo. iDestruct "Ht" as (sps d) "(Hl & Hslots & Hts)".
    wp_bind. wp_load "Hl". rewrite Hne /=.
    iApply (wp_mono with "[Hl Hslots Hts]").
    { iApply (wp_ftn_clear l h es ts). simpl. iExists _, _. iFrame. }
    iIntros ([]) "(%c & %Hb & Ht)". iApply ("HΦ" $! [] [c] with "[%] [%] Ht"); [|done].
    unfold interval_wf in Hv. rewrite Hne in Hv.
    split_and!; [apply es_ok_nil|simpl; lia|done|by apply Forall_singleton, blank_wf|done| |done].
    intros b. rewrite elem_of_interval. unfold BYTE_INDEX_MAX, BYTE_INDEX_MIN in Hv. lia.
Qed.

End prune_proof.
