(* ===== verification/FigInsert.v ===== *)
(** * Correctness of [ftn_replaceEntries] and [ftn_insert]

    [is_frame h f p] is the ownership of a one-node context: the node of the
    frame [f] with its subtrees, except the one at the hole, whose slot holds
    the pointer [p]. *)
From S2P Require Import Prelude.
From S2P Require Import Interval.
From S2P Require Import Types.
From S2P Require Import Heap.
From S2P Require Import FigNode.
From S2P Require Import FigTree.
From S2P Require Import FigSpec.
From S2P Require Import FigNodeProof.

#[local] Open Scope Z_scope.

Section insert_proof.
Context `{HG : !heapG ft_node Σ} `{AL : !Allocator}.

(** ** Replacing a run of entries *)

Lemma wp_ftn_replaceEntries l es1 esM es2 ts1 tsM ts2 h iv v Φ :
  esM ≠ [] → length ts1 = S (length es1) → S (length tsM) = length esM →
  length ts2 = S (length es2) →
  is_tree (S h) (TNode l (es1 ++ esM ++ es2) (ts1 ++ tsM ++ ts2)) -∗
  (is_tree (S h) (TNode l (es1 ++ mkEnt iv v :: es2) (ts1 ++ ts2)) -∗ Φ tt) -∗
  wp (ftn_replaceEntries l (length es1) (length es1 + length esM) iv v) Φ.
Proof.
  iIntros (HM H1 HMl H2) "Ht HΦ". iDestruct "Ht" as (sps d) "(Hl & %Hslots & Hts)".
  apply Forall2_app_inv_r in Hslots as (sps1 & sps' & Hs1 & Hslots & ->).
  apply Forall2_app_inv_r in Hslots as (spsM & sps2 & HsM & Hs2 & ->).
  pose proof (Forall2_length _ _ _ Hs1) as L1. pose proof (Forall2_length _ _ _ HsM) as LM.
  pose proof (Forall2_length _ _ _ Hs2) as L2.
  rewrite !big_sepL_app. iDestruct "Hts" as "(Hts1 & HtsM & Hts2)".
  assert (length esM ≠ 0%nat) as HM0 by (by destruct esM).
  rewrite /ftn_replaceEntries. wp_bind. wp_load "Hl". simpl entries. simpl subtrees.
  wp_bind. iApply wp_assert. { apply Nat.eqb_eq. rewrite !length_app. lia. }
  wp_bind. iApply wp_assert. { rewrite !length_app. lia. }
  wp_bind. iApply wp_assert. { apply Nat.ltb_lt. lia. }
  rewrite (_ : drop (length es1 + 1) (sps1 ++ spsM ++ sps2) = spsM ++ sps2); last first.
  { rewrite drop_app_length' //. lia. }
  rewrite (_ : take (length es1 + length esM - (length es1 + 1)) (spsM ++ sps2) = spsM); last first.
  { rewrite take_app_length' //. lia. }
  wp_bind. iApply (wp_subtrees_free with "HtsM"); [done|]. iIntros (_).
  wp_store "Hl". iApply "HΦ". simpl. iExists (sps1 ++ sps2), true.
  rewrite take_app_length drop_app_add drop_app_length.
  rewrite (_ : take (length es1 + 1) (sps1 ++ spsM ++ sps2) = sps1); last first.
  { rewrite take_app_length' //. lia. }
  rewrite (_ : drop (length es1 + length esM) (sps1 ++ spsM ++ sps2) = sps2); last first.
  { rewrite app_assoc drop_app_length' // length_app. lia. }
  rewrite big_sepL_app. iFrame. iPureIntro. by apply Forall2_app.
Qed.

(** ** Frames *)

Definition is_frame (h : nat) (f : frame) (p : option loc) : iProp Σ :=
  ∃ spsL sp spsR d,
    f_loc f ↦ mkNode (f_esL f ++ f_esR f) (spsL ++ sp :: spsR) (Z.of_nat h) d ∗
    ⌜Forall2 slot_ok spsL (f_tsL f) ∧ sp_inmemory sp = true ∧ sp_st sp = p ∧
     Forall2 slot_ok spsR (f_tsR f)⌝ ∗
    ([∗ list] c ∈ f_tsL f, is_tree h c) ∗ ([∗ list] c ∈ f_tsR f, is_tree h c).

Lemma is_tree_plug1 h f c :
  is_tree (S h) (plug1 f c) ⊣⊢ is_frame h f (ptr c) ∗ is_tree h c.
Proof.
  iSplit.
  - iIntros "Ht". iDestruct "Ht" as (sps d) "(Hl & %Hslots & Hts)".
    apply Forall2_app_inv_r in Hslots as (spsL & sps' & HL & Hslots & ->).
    apply Forall2_cons_inv_r in Hslots as (sp & spsR & [Hm Hp] & HR & ->).
    rewrite big_sepL_app big_sepL_cons. iDestruct "Hts" as "(HtsL & Hc & HtsR)".
    iFrame "Hc". iExists spsL, sp, spsR, d. by iFrame.
  - iIntros "[(%spsL & %sp & %spsR & %d & Hl & (%HL & %Hm & %Hp & %HR) & HtsL & HtsR) Hc]".
    iExists _, d. iFrame "Hl". rewrite big_sepL_app big_sepL_cons. iFrame.
    iPureIntro. apply Forall2_app; [done|]. by constructor.
Qed.

(** Ownership of a whole context with a hole of height [h] whose slot holds [p]. *)
Fixpoint is_ctx (h : nat) (F : list frame) (p : option loc) : iProp Σ :=
  match F with
  | [] => True
  | f :: F =>
      is_frame (h + length F) f (match F with [] => p | f' :: _ => Some (f_loc f') end) ∗
      is_ctx h F p
  end.

Lemma ptr_plug F c : ptr (plug F c) = match F with [] => ptr c | f :: _ => Some (f_loc f) end.
Proof. by destruct F. Qed.

Lemma is_tree_plug h F c :
  is_tree (h + length F) (plug F c) ⊣⊢ is_ctx h F (ptr c) ∗ is_tree h c.
Proof.
  induction F as [|f F IH]; simpl plug; simpl length.
  - rewrite Nat.add_0_r /=. by rewrite left_id.
  - rewrite Nat.add_succ_r is_tree_plug1 IH ptr_plug. cbn [is_ctx]. by rewrite assoc.
Qed.

Lemma is_tree_plug_ok H h F c :
  ctx_ok H h F → is_tree H (plug F c) ⊣⊢ is_ctx h F (ptr c) ∗ is_tree h c.
Proof. intros ->%ctx_ok_length. apply is_tree_plug. Qed.

Lemma is_ctx_snoc h F f p :
  is_ctx h (F ++ [f]) p ⊣⊢ is_ctx (S h) F (Some (f_loc f)) ∗ is_frame h f p.
Proof.
  induction F as [|f' F IH]; cbn [app is_ctx length].
  - rewrite Nat.add_0_r. by rewrite comm.
  - rewrite IH length_app Nat.add_1_r Nat.add_succ_r assoc. by destruct F.
Qed.

Lemma is_ctx_app h F1 F2 p :
  is_ctx h (F1 ++ F2) p ⊣⊢
  is_ctx (h + length F2) F1 (match F2 with [] => p | f :: _ => Some (f_loc f) end) ∗ is_ctx h F2 p.
Proof.
  induction F1 as [|f F1 IH]; cbn [app is_ctx].
  - by rewrite left_id.
  - rewrite IH assoc length_app (Nat.add_comm (length F1)) Nat.add_assoc.
    destruct F1; [by destruct F2|done].
Qed.

(** ** Insertion into the node of a frame *)

Lemma gap1_insert_ok h f e :
  frame_ok h f → ent_ok e → gap1 f (lft e) → gap1 f (rgt e) →
  insert_ok (f_esL f ++ f_esR f) e (Z.of_nat (length (f_esL f))) = true.
Proof.
  intros (Hok & _) He [HlL HlR] [HrL HrR]. destruct f as [l esL tsL esR tsR]. simpl in *.
  destruct He as (_&_&He&_). rewrite /insert_ok length_app.
  assert (∀ e', e' ∈ esL → negb (fte_overlaps e e') = true) as HoL.
  { intros e' He'. rewrite Forall_forall in HlL. specialize (HlL e' He').
    unfold fte_overlaps, i_overlaps, lft, rgt in *. lia. }
  assert (∀ e', e' ∈ esR → negb (fte_overlaps e e') = true) as HoR.
  { intros e' He'. rewrite Forall_forall in HrR. specialize (HrR e' He').
    unfold fte_overlaps, i_overlaps, lft, rgt in *. lia. }
  repeat (apply andb_true_iff; split); [lia|lia| |].
  - destruct esL as [|e' esL _] using rev_ind; [done|]. apply orb_true_iff. right.
    rewrite length_app Nat.add_1_r (_ : Z.to_nat _ = length esL); [|lia].
    rewrite -app_assoc list_lookup_middle //. apply HoL. set_solver.
  - destruct esR as [|e' esR]; [simpl; lia|]. apply orb_true_iff. right.
    rewrite Nat2Z.id list_lookup_middle //. apply HoR. set_solver.
Qed.

(** The insertion proper, before a split. *)
Definition ins_es (f : frame) (e : ft_ent) : list ft_ent := f_esL f ++ e :: f_esR f.
Definition ins_ts (f : frame) (A B : ftree) : list ftree := f_tsL f ++ A :: B :: f_tsR f.

Lemma slots_take n sps ts : Forall2 slot_ok sps ts → Forall2 slot_ok (take n sps) (take n ts).
Proof. apply Forall2_take. Qed.
Lemma slots_drop n sps ts : Forall2 slot_ok sps ts → Forall2 slot_ok (drop n sps) (drop n ts).
Proof. apply Forall2_drop. Qed.

(** Splitting a node with [FT_SPLITLIMIT] entries. *)
Lemma wp_ftn_split l es ts h Φ :
  length es = FT_SPLITLIMIT → length ts = S FT_SPLITLIMIT →
  is_tree (S h) (TNode l es ts) -∗
  (∀ a b m, ⌜es !! FT_ORDER = Some m⌝ -∗
     is_tree (S (S h)) (TNode l [m]
       [TNode a (take FT_ORDER es) (take (S FT_ORDER) ts);
        TNode b (drop (S FT_ORDER) es) (drop (S FT_ORDER) ts)]) -∗ Φ l) -∗
  wp (ftn_split l) Φ.
Proof.
  iIntros (Hes Hts) "Ht HΦ". iDestruct "Ht" as (sps d) "(Hl & %Hslots & Hts)".
  rewrite /ftn_split. wp_bind. wp_load "Hl". simpl HEIGHT. simpl entries. simpl subtrees.
  wp_bind. iApply wp_ftn_new_half. iIntros (a) "Ha". wp_bind.
  iApply wp_ftn_new_half. iIntros (b) "Hb". wp_bind.
  wp_load "Ha". wp_bind. wp_load "Hb". simpl HEIGHT. simpl dirty.
  wp_bind. wp_store "Ha". wp_bind. wp_store "Hb".
  pose proof (Forall2_length _ _ _ Hslots) as Hsps. rewrite Hts in Hsps.
  unfold FT_SPLITLIMIT, FT_ORDER in *. simpl in Hes, Hsps, Hts.
  destruct es as [|e0 [|e1 [|e2 [|e3 [|e4 [|]]]]]]; try done.
  destruct sps as [|s0 [|s1 [|s2 [|s3 [|s4 [|s5 [|]]]]]]]; try done.
  wp_bind. iApply wp_in_bounds; [done|]. wp_bind. iApply wp_in_bounds; [done|].
  wp_bind. iApply wp_in_bounds; [done|]. wp_bind. wp_store "Hl". wp_ret.
  iApply ("HΦ" $! a b e2 with "[//]").
  iDestruct (big_sepL_take_drop _ ts 3 with "Hts") as "[Hts1 Hts2]". simpl take; simpl drop.
  iExists _, d. replace (Z.of_nat h + 1) with (Z.of_nat (S h)) by lia. iFrame "Hl".
  iSplitR. { iPureIntro. by repeat constructor. }
  apply Forall2_length in Hslots as Hlen.
  rewrite !big_sepL_cons big_sepL_nil. iSplitL "Ha Hts1".
  - iExists _, _. iFrame "Ha".
    iFrame. iPureIntro. apply (slots_take 3) in Hslots. done.
  - iSplitL; [|done]. iExists _, _. iFrame "Hb".
    iFrame.
    iPureIntro. apply (slots_drop 3) in Hslots. done.
Qed.

(** The node after an insertion: as it is, or split around its middle entry. *)
Definition insert_res (h : nat) (f : frame) (e : ft_ent) (A B : ftree) (r : option loc)
    : iProp Σ :=
  match r with
  | None => ⌜(length (ins_es f e) < FT_SPLITLIMIT)%nat⌝ ∗
      is_tree (S h) (TNode (f_loc f) (ins_es f e) (ins_ts f A B))
  | Some l => ∃ a b m,
      ⌜l = f_loc f ∧ length (ins_es f e) = FT_SPLITLIMIT ∧ ins_es f e !! FT_ORDER = Some m⌝ ∗
      is_tree (S (S h)) (TNode l [m]
        [TNode a (take FT_ORDER (ins_es f e)) (take (S FT_ORDER) (ins_ts f A B));
         TNode b (drop (S FT_ORDER) (ins_es f e)) (drop (S FT_ORDER) (ins_ts f A B))])
  end.

Lemma wp_ftn_insert h f e A B p Φ :
  frame_ok h f → ent_ok e → gap1 f (lft e) → gap1 f (rgt e) →
  is_frame h f p -∗ is_tree h A -∗ is_tree h B -∗
  (∀ r, insert_res h f e A B r -∗ Φ r) -∗
  wp (ftn_insert (f_loc f) e (Z.of_nat (length (f_esL f))) (ptr A) (ptr B)) Φ.
Proof.
  iIntros (Hf He Hl Hr) "Hf HA HB HΦ".
  iDestruct "Hf" as (spsL sp spsR d) "(Hl & (%HL & %Hm & %Hp & %HR) & HtsL & HtsR)".
  pose proof (gap1_insert_ok h f e Hf He Hl Hr) as Hins.
  destruct Hf as (Hok & Hlen & HlL & HlR & HwL & HwR).
  pose proof (Forall2_length _ _ _ HL) as LL. pose proof (Forall2_length _ _ _ HR) as LR.
  rewrite length_app in Hlen.
  rewrite /ftn_insert. wp_bind. wp_load "Hl". simpl entries. simpl subtrees.
  wp_bind. iApply wp_assert. { apply Nat.eqb_eq. rewrite !length_app /=. lia. }
  wp_bind. iApply wp_assert; [done|].
  wp_bind. rewrite /_ftn_entries_add. wp_bind. wp_load "Hl". simpl entries.
  wp_bind. iApply wp_assert. { rewrite length_app. unfold FT_SPLITLIMIT in *. lia. }
  rewrite Nat2Z.id take_app_length drop_app_length /with_entries /=. wp_store "Hl".
  wp_bind. wp_load "Hl". simpl subtrees. wp_bind. iApply wp_in_bounds.
  { rewrite HlL in LL. by rewrite -LL list_lookup_middle. }
  rewrite /with_subtrees /=.
  replace (length (f_esL f)) with (length spsL) by lia. rewrite insert_app_r_alt // Nat.sub_diag /=.
  wp_bind. wp_store "Hl". rewrite /_ftn_subtrees_add. wp_bind. wp_bind. wp_load "Hl". simpl subtrees.
  wp_bind. iApply wp_assert. { rewrite length_app /=. unfold FT_SPLITLIMIT in *. lia. }
  rewrite (_ : Z.to_nat (Z.of_nat (length spsL) + 1) = S (length spsL)); [|lia].
  set (sp' := default _ _).
  rewrite (_ : take (S (length spsL)) (spsL ++ subtree_set sp (ptr A) :: spsR)
             = spsL ++ [subtree_set sp (ptr A)]); last first.
  { rewrite cons_middle app_assoc take_app_length' // length_app /=. lia. }
  rewrite (_ : drop (S (length spsL)) (spsL ++ subtree_set sp (ptr A) :: spsR) = spsR); last first.
  { rewrite cons_middle app_assoc drop_app_length' // length_app /=. lia. }
  rewrite -app_assoc /with_subtrees /=. wp_store "Hl".
  wp_bind. wp_load "Hl". rewrite /with_dirty /=. wp_bind. wp_store "Hl".
  fold (ins_es f e).
  iAssert (is_tree (S h) (TNode (f_loc f) (ins_es f e) (ins_ts f A B)))
    with "[Hl HA HB HtsL HtsR]" as "Ht".
  { iExists _, _. iFrame "Hl". rewrite /ins_ts big_sepL_app !big_sepL_cons. iFrame.
    iPureIntro. apply Forall2_app; [done|]. repeat constructor; done. }
  assert (length (ins_es f e) = S (length (f_esL f) + length (f_esR f))) as Hl'.
  { rewrite /ins_es length_app /=. lia. }
  assert (length (ins_ts f A B) = S (length (ins_es f e))) as Ht'.
  { rewrite /ins_ts length_app /=. lia. }
  destruct (Nat.eqb_spec (length (ins_es f e)) FT_SPLITLIMIT) as [Heq|Hne].
  - wp_bind. iApply (wp_ftn_split with "Ht"); [done|by rewrite Ht' Heq|].
    iIntros (a b m) "%Hmid Ht". wp_ret. iApply "HΦ". rewrite /insert_res. iExists a, b, m. by iFrame.
  - wp_ret. iApply "HΦ". rewrite /insert_res. iFrame. iPureIntro. unfold FT_SPLITLIMIT in *. lia.
Qed.

End insert_proof.
