(* ===== verification/FigDescend.v ===== *)
(** * Correctness of the descent of [_ft_insert]

    The descent walks down the search path of a range and prunes the nodes on
    its way.  It ends at a NULL subtree, or at a node with entries that overlap
    the range; these are replaced and the residual ranges become continuations. *)
From S2P Require Import Prelude.
From S2P Require Import Interval.
From S2P Require Import Types.
From S2P Require Import Heap.
From S2P Require Import FigNode.
From S2P Require Import FigTree.
From S2P Require Import FigSpec.
From S2P Require Import FigNodeProof.
From S2P Require Import FigPrune.
From S2P Require Import FigInsert.

#[local] Open Scope Z_scope.

(** ** Ranges and sides *)

Definition range_ok (R : interval) : Prop :=
  i_nonempty R = true ∧ BYTE_INDEX_MIN ≤ i_left R ∧ i_left R ≤ i_right R ∧
  i_right R < BYTE_INDEX_MAX.

(** Where the range of an insertion lies relative to the valid bytes of the
    subtree it descends into: inside (the primary insertion), beside
    (continuations), or anywhere if the subtree has no entries. *)
Definition beside (R V : interval) (h : nat) (t : ftree) : Prop :=
  (∀ b, b ∈ V → b < i_left R) ∨ (∀ b, b ∈ V → i_right R < b) ∨ blank h t.
Definition side (R V : interval) (h : nat) (t : ftree) : Prop :=
  (∀ b, b ∈ R → b ∈ V) ∨ beside R V h t.

(** The entries of the frames of a context lie in the gaps of the frames above
    them. *)
Definition nested (G : Z → Prop) (F : list frame) : Prop :=
  ∀ F1 f F2 e, F = F1 ++ f :: F2 → e ∈ f_esL f ++ f_esR f →
    (G (lft e) ∧ gap F1 (lft e)) ∧ (G (rgt e) ∧ gap F1 (rgt e)).

Lemma nested_nil G : nested G [].
Proof. intros F1 f F2 e H. by destruct F1. Qed.

Lemma nested_cons G f F :
  (∀ e, e ∈ f_esL f ++ f_esR f → G (lft e) ∧ G (rgt e)) →
  nested (λ b, G b ∧ gap1 f b) F → nested G (f :: F).
Proof.
  intros Hf HF [|f' F1] g F2 e [= <- Heq] He.
  - destruct (Hf e He). repeat split; try done; constructor.
  - destruct (HF F1 g F2 e Heq He) as [[[??]?] [[??]?]].
    repeat split; try done; by constructor.
Qed.

Lemma nested_cons_inv G f F :
  nested G (f :: F) →
  (∀ e, e ∈ f_esL f ++ f_esR f → G (lft e) ∧ G (rgt e)) ∧ nested (λ b, G b ∧ gap1 f b) F.
Proof.
  intros H. split.
  - intros e He. destruct (H [] f F e eq_refl He) as [[??] [??]]. done.
  - intros F1 g F2 e -> He. destruct (H (f :: F1) g F2 e eq_refl He) as [[? Ha] [? Hb]].
    apply Forall_cons in Ha as [??]. by apply Forall_cons in Hb as [??].
Qed.

Lemma nested_impl (G G' : Z → Prop) F :
  (∀ b, G b → G' b) → nested G F → nested G' F.
Proof.
  intros HG HF F1 f F2 e Heq He. destruct (HF F1 f F2 e Heq He) as [[??] [??]]. auto.
Qed.

Lemma nested_app G F1 F2 :
  nested G F1 → nested (λ b, G b ∧ gap F1 b) F2 → nested G (F1 ++ F2).
Proof.
  revert G. induction F1 as [|f F1 IH]; intros G H1 H2; simpl.
  - eapply nested_impl; [|exact H2]. by intros b [??].
  - apply nested_cons_inv in H1 as [Hf H1]. apply nested_cons; [done|].
    apply IH; [done|]. eapply nested_impl; [|exact H2].
    intros b [? Hb]. by apply Forall_cons in Hb as [??].
Qed.

Lemma nested_app_inv G F1 F2 :
  nested G (F1 ++ F2) → nested G F1 ∧ nested (λ b, G b ∧ gap F1 b) F2.
Proof.
  revert G. induction F1 as [|f F1 IH]; intros G H; simpl in *.
  - split; [apply nested_nil|]. eapply nested_impl; [|exact H]. intros b ?. split; [done|constructor].
  - apply nested_cons_inv in H as [Hf H]. destruct (IH _ H) as [H1 H2].
    split; [by apply nested_cons|]. eapply nested_impl; [|exact H2].
    intros b [[??] ?]. split; [done|]. by constructor.
Qed.

(** ** Scanning a node *)

Definition left_of (R : interval) (es : list ft_ent) : Prop := Forall (λ e, rgt e < i_left R) es.
Definition right_of (R : interval) (es : list ft_ent) : Prop := Forall (λ e, i_right R < lft e) es.

Lemma right_of_cons R e es :
  es_ok (e :: es) → i_right R < lft e → right_of R (e :: es).
Proof.
  intros ((_&_&?&_) & Hs & _)%es_ok_cons He. constructor; [done|].
  eapply Forall_impl; [exact Hs|]. unfold before, lft, rgt in *. intros; lia.
Qed.

Lemma count_leftOverlaps_spec R e es :
  range_ok R → es_ok (e :: es) → i_left R ≤ rgt e → lft e ≤ i_right R →
  ∃ esM esR, es = esM ++ esR ∧ right_of R esR ∧
    Forall (λ e, i_left R ≤ lft e ∧ lft e ≤ i_right R) esM ∧
    count_leftOverlaps es R = length esM.
Proof.
  intros HR. revert e. induction es as [|e' es IH]; intros e Hok Hl Hr; simpl.
  { exists [], []. by repeat constructor. }
  pose proof Hok as (_ & [Hb _]%Forall_cons & Hok')%es_ok_cons.
  pose proof Hok' as ((Hne & _ & Hle & _) & _ & _)%es_ok_cons. unfold before in Hb.
  rewrite /i_leftOverlaps Hne /i_contains_val /=. fold (lft e').
  destruct (Z.leb_spec (i_left R) (lft e')); [|lia].
  destruct (Z.leb_spec (lft e') (i_right R)); simpl.
  - destruct (IH e') as (esM & esR & -> & H1 & H2 & H3); [done|lia|done|].
    exists (e' :: esM), esR. split_and!; [done|done|by constructor|by rewrite H3].
  - exists [], (e' :: es). split_and!; [done|by apply right_of_cons|done|done].
Qed.

Lemma scan_entries_spec R es i :
  range_ok R → es_ok es →
  (∃ esL esR, es = esL ++ esR ∧ left_of R esL ∧ right_of R esR ∧
     scan_entries es R i =
       match esR with [] => ScanEnd | _ => ScanRightOf (i + length esL) end) ∨
  (∃ esL e esM esR, es = esL ++ e :: esM ++ esR ∧ left_of R esL ∧ right_of R esR ∧
     (i_left R ≤ rgt e ∧ lft e ≤ i_right R) ∧
     Forall (λ e, i_left R ≤ lft e ∧ lft e ≤ i_right R) esM ∧
     scan_entries es R i = ScanOverlap (i + length esL) ∧
     count_leftOverlaps (esM ++ esR) R = length esM).
Proof.
  intros HR. revert i. induction es as [|e es IH]; intros i Hok; simpl.
  { left. exists [], []. by repeat constructor. }
  pose proof Hok as ((Hne & _ & Hle & _) & Hs & Hok')%es_ok_cons.
  pose proof HR as (_ & _ & ? & _).
  rewrite /i_overlaps /i_rightOf_int /i_rightOf_val Hne /=. fold (lft e) (rgt e).
  destruct (Z.leb_spec (i_left R) (rgt e)); simpl.
  - destruct (Z.leb_spec (lft e) (i_right R)).
    + right. destruct (count_leftOverlaps_spec R e es) as (esM & esR & -> & ?&?&?); [done..|].
      exists [], e, esM, esR. split_and!; try done; [constructor|]. simpl. by rewrite Nat.add_0_r.
    + destruct (Z.ltb_spec (i_right R) (lft e)); [|lia].
      left. exists [], (e :: es). split_and!; [done|constructor|by apply right_of_cons|].
      simpl. by rewrite Nat.add_0_r.
  - destruct (Z.ltb_spec (i_right R) (lft e)); [unfold lft, rgt in *; lia|].
    destruct (IH (S i) Hok') as
      [(esL & esR & -> & ?&?& ->)|(esL & e' & esM & esR & -> & ?&?&[??]&?& -> &?)].
    + left. exists (e :: esL), esR. split_and!; [done|by constructor|done|].
      destruct esR; [done|]. f_equal. simpl. lia.
    + right. exists (e :: esL), e', esM, esR. split_and!; try done; [by constructor|].
      f_equal. simpl. lia.
Qed.

(** Restricting the valid range to the gap between two runs of entries. *)
Lemma after_prev_spec esL esR b :
  es_ok (esL ++ esR) → BYTE_INDEX_MIN ≤ b →
  BYTE_INDEX_MIN ≤ after_prev (esL ++ esR) (length esL) ≤ BYTE_INDEX_MAX ∧
  (after_prev (esL ++ esR) (length esL) ≤ b ↔ Forall (λ e, rgt e < b) esL).
Proof.
  intros Hok Hb. destruct esL as [|e esL _] using rev_ind; simpl.
  { unfold BYTE_INDEX_MIN, BYTE_INDEX_MAX in *. split; [lia|]. split; [constructor|done]. }
  rewrite length_app Nat.add_1_r /= -app_assoc list_lookup_middle //.
  apply es_ok_app in Hok as (Hok & _ & _). pose proof Hok as (_ & He & Hlt)%es_ok_app.
  apply es_ok_cons in He as ((_&?&?&?)&_). fold (rgt e).
  unfold BYTE_INDEX_MIN, BYTE_INDEX_MAX in *. rewrite wrap_small; [|unfold in_width; lia].
  split; [lia|]. rewrite Forall_app Forall_singleton. split; [|lia].
  intros Hle. split; [|lia]. apply Forall_forall. intros e' He'.
  specialize (Hlt e' e He' ltac:(set_solver)). unfold before in Hlt. lia.
Qed.

Lemma before_next_spec esL esR b :
  es_ok (esL ++ esR) → Forall (λ e, 0 < lft e) esR → b ≤ BYTE_INDEX_MAX →
  BYTE_INDEX_MIN ≤ before_next (esL ++ esR) (length esL) ≤ BYTE_INDEX_MAX ∧
  (b ≤ before_next (esL ++ esR) (length esL) ↔ Forall (λ e, b < lft e) esR).
Proof.
  intros Hok HR Hb. unfold before_next. destruct esR as [|e esR].
  { rewrite lookup_ge_None_2; [|rewrite app_nil_r; lia].
    unfold BYTE_INDEX_MIN, BYTE_INDEX_MAX in *. split; [lia|]. split; [constructor|done]. }
  rewrite list_lookup_middle //. apply Forall_cons in HR as [HR _].
  apply es_ok_app in Hok as (_ & Hok & _). apply es_ok_cons in Hok as ((_&?&?&?) & Hs & _).
  fold (lft e). unfold BYTE_INDEX_MIN, BYTE_INDEX_MAX in *.
  rewrite wrap_small; [|unfold in_width; lia].
  split; [lia|]. rewrite Forall_cons. split; [|lia]. intros Hle. split; [lia|].
  eapply Forall_impl; [exact Hs|]. unfold before. intros; lia.
Qed.

Lemma elem_of_wf b (V : interval) : interval_wf V → b ∈ V → byte_index b.
Proof. rewrite elem_of_interval. interval_lia. Qed.

Lemma restrict_gap V esL esR :
  es_ok (esL ++ esR) → Forall (λ e, 0 < lft e) esR → interval_wf V →
  ∃ V', i_restrict_range V (after_prev (esL ++ esR) (length esL))
          (before_next (esL ++ esR) (length esL)) true = Ok V' ∧ interval_wf V' ∧
    ∀ b, b ∈ V' ↔ b ∈ V ∧ gapLR esL esR b.
Proof.
  intros Hok HR HV.
  destruct (i_restrict_range_allow V (after_prev (esL ++ esR) (length esL))
    (before_next (esL ++ esR) (length esL))) as (V' & HV' & Hwf & Hin).
  - done.
  - apply (after_prev_spec esL esR BYTE_INDEX_MIN); [done|lia].
  - apply (before_next_spec esL esR BYTE_INDEX_MAX); [done|done|lia].
  - exists V'. split_and!; [done..|]. intros b. rewrite Hin. unfold gapLR.
    split; intros [Hb Hg]; (split; [done|]); destruct (elem_of_wf b V HV Hb) as [Hlo Hhi];
      destruct (after_prev_spec esL esR b Hok Hlo) as [_ HA];
      destruct (before_next_spec esL esR b Hok HR Hhi) as [_ HB].
    + by rewrite -HA -HB.
    + by rewrite HA HB.
Qed.

(** ** Continuations *)

(** The arguments of an insertion into the hole with gap [G] that holds the
    subtree [c]: the range and the valid bytes cover the gap, except that the
    valid range does not matter for a subtree without entries. *)
Record hole_ok (G : Z → Prop) (h : nat) (c : ftree) (a : insertargs) : Prop := HoleOk {
  hole_at : ia_at a = ptr c;
  hole_range : range_ok (ia_range a);
  hole_valid : interval_wf (ia_valid a);
  hole_range_gap b : b ∈ ia_range a → G b;
  hole_side : beside (ia_range a) (ia_valid a) h c;
  hole_cover b : G b → b ∈ ia_range a ∨ b ∈ ia_valid a ∨ blank h c;
  hole_valid_gap b : b ∈ ia_valid a → ¬ blank h c → G b;
}.

Lemma elem_of_i_init b l r : b ∈ i_init l r ↔ l ≤ b ≤ r.
Proof. done. Qed.

(** The residual range to the left of [R] and the subtree it goes to. *)
Lemma left_cont_ok h V R v esL e es esR tL :
  es_ok (esL ++ e :: es) → interval_wf V → range_ok R → (∀ b, b ∈ R → b ∈ V) →
  left_of R esL → right_of R esR → lft e < i_left R → within V e →
  (Forall (λ e, lft e = i_left V) (take 1 (esL ++ e :: es)) → esL = [] → blank h tL) →
  ∃ V', i_restrict_range V (after_prev (esL ++ e :: es) (length esL))
          (wrap32 (lft e - 1)) true = Ok V' ∧
    hole_ok (λ b, b ∈ V ∧ gapLR esL (mkEnt R v :: esR) b) h tL
      (mkArgs (i_init (lft e) (wrap32 (i_left R - 1))) (ent_value e) (ptr tL) V').
Proof.
  intros Hok HV HR HRV HL HRr Hlt [Hw1 Hw2] Hfirst.
  pose proof HR as (Hne & HR0 & HR1 & HR2).
  pose proof (HRV (i_left R) ltac:(rewrite elem_of_interval; lia)) as HRl.
  rewrite elem_of_interval in HRl.
  pose proof (es_ok_ent _ e Hok ltac:(set_solver)) as (_ & He0 & He1 & He2).
  pose proof Hok as (HokL & Hoke & Hlte)%es_ok_app. pose proof Hoke as (_ & Hse & _)%es_ok_cons.
  unfold BYTE_INDEX_MIN, BYTE_INDEX_MAX in *.
  assert (wrap32 (i_left R - 1) = i_left R - 1) as ->.
  { apply wrap_small. unfold in_width. lia. }
  assert (∀ b, lft e ≤ b ≤ i_left R - 1 → b ∈ V ∧ gapLR esL (mkEnt R v :: esR) b) as Hin.
  { intros b Hb. split; [rewrite elem_of_interval; lia|]. split.
    - eapply Forall_impl; [|intros e' Hb'; exact Hb']. apply Forall_forall. intros e' He'.
      specialize (Hlte e' e He' ltac:(set_solver)). unfold before in Hlte. lia.
    - constructor; [unfold lft at 1; simpl; lia|]. eapply Forall_impl; [exact HRr|].
      simpl. intros; lia. }
  destruct (Z.eq_dec (lft e) 0) as [Hz|Hz].
  - assert (esL = []) as ->.
    { destruct esL as [|e' esL]; [done|]. exfalso.
      pose proof (es_ok_ent _ e' Hok ltac:(set_solver)) as (_ & ? & ? & _).
      specialize (Hlte e' e ltac:(set_solver) ltac:(set_solver)). unfold before in Hlte.
      unfold BYTE_INDEX_MIN in *. lia. }
    assert (i_left V = 0) as HV0.
    { unfold interval_wf, BYTE_INDEX_MIN, BYTE_INDEX_MAX in HV. destruct (i_nonempty V); lia. }
    assert (blank h tL) as Hb.
    { apply Hfirst; [|done]. simpl. constructor; [lia|done]. }
    destruct (i_restrict_range_allow V (after_prev ([] ++ e :: es) (length ([] : list ft_ent)))
      (wrap32 (lft e - 1))) as (V' & HV' & Hwf & _).
    { done. } { simpl. unfold byte_index, BYTE_INDEX_MIN, BYTE_INDEX_MAX. lia. }
    { rewrite Hz. unfold byte_index, BYTE_INDEX_MIN, BYTE_INDEX_MAX. vm_compute. split; congruence. }
    exists V'. split; [done|]. split; simpl; try done.
    + unfold range_ok, BYTE_INDEX_MIN, BYTE_INDEX_MAX. simpl. lia.
    + by right; right.
    + intros b [_ [_ Hg]]. right. by right.
  - assert (Forall (λ e, 0 < lft e) (e :: es)) as Hpos.
    { constructor; [lia|]. eapply Forall_impl; [exact Hse|]. unfold before. intros; lia. }
    destruct (restrict_gap V esL (e :: es)) as (V' & HV' & Hwf & HinV'); [done..|].
    rewrite {1}/before_next list_lookup_middle // in HV'.
    exists V'. split; [done|]. split; simpl; try done.
    + unfold range_ok, BYTE_INDEX_MIN, BYTE_INDEX_MAX. simpl. lia.
    + left. simpl. intros b [_ [_ Hg]]%HinV'. apply Forall_cons in Hg as [Hg _]. lia.
    + intros b [Hb [HgL [Hg _]%Forall_cons]]. unfold lft in Hg. simpl in Hg.
      destruct (Z_lt_le_dec b (lft e)).
      * right; left. apply HinV'. split; [done|]. split; [done|]. constructor; [done|].
        eapply Forall_impl; [exact Hse|]. unfold before. intros; lia.
      * left. rewrite elem_of_i_init. lia.
    + intros b [Hb [HgL [Hg _]%Forall_cons]]%HinV' _. split; [done|]. split; [done|].
      constructor; [unfold lft at 1; simpl; lia|]. eapply Forall_impl; [exact HRr|].
      simpl. intros; lia.
Qed.

(** The residual range to the right of [R]. *)
Lemma right_cont_ok h V R v esL esM p esR tR :
  es_ok (esM ++ p :: esR) → interval_wf V → range_ok R → (∀ b, b ∈ R → b ∈ V) →
  left_of R esL → right_of R esR → i_right R < rgt p → within V p →
  ∃ V', i_restrict_range V (wrap32 (rgt p + 1))
          (before_next (esM ++ p :: esR) (S (length esM))) true = Ok V' ∧
    hole_ok (λ b, b ∈ V ∧ gapLR (esL ++ [mkEnt R v]) esR b) h tR
      (mkArgs (i_init (wrap32 (i_right R + 1)) (rgt p)) (ent_value p) (ptr tR) V').
Proof.
  intros Hok HV HR HRV HL HRr Hlt [Hw1 Hw2].
  pose proof HR as (Hne & HR0 & HR1 & HR2).
  pose proof (HRV (i_right R) ltac:(rewrite elem_of_interval; lia)) as HRl.
  rewrite elem_of_interval in HRl.
  pose proof (es_ok_ent _ p Hok ltac:(set_solver)) as (_ & He0 & He1 & He2).
  pose proof Hok as (HokL & Hoke & Hlte)%es_ok_app. pose proof Hoke as (_ & Hse & HokR)%es_ok_cons.
  unfold BYTE_INDEX_MIN, BYTE_INDEX_MAX in *.
  assert (wrap32 (i_right R + 1) = i_right R + 1) as ->.
  { apply wrap_small. unfold in_width. lia. }
  assert (Forall (λ e, rgt e < i_right R + 1) (esL ++ [mkEnt R v])) as HL'.
  { apply Forall_app. split; [|apply Forall_singleton; unfold rgt; simpl; lia].
    eapply Forall_impl; [exact HL|]. simpl. intros; lia. }
  assert (∀ b, i_right R + 1 ≤ b → Forall (λ e, rgt e < b) (esL ++ [mkEnt R v])) as HLb.
  { intros b Hb. eapply Forall_impl; [exact HL'|]. simpl. intros; lia. }
  destruct (restrict_gap V (esM ++ [p]) esR) as (V' & HV' & Hwf & HinV').
  { by rewrite -app_assoc. }
  { eapply Forall_impl; [exact HRr|]. simpl. intros; lia. } { done. }
  rewrite length_app Nat.add_1_r -app_assoc {1}/after_prev list_lookup_middle // in HV'.
  exists V'. split; [done|]. split; simpl; try done.
  + unfold range_ok, BYTE_INDEX_MIN, BYTE_INDEX_MAX. simpl. lia.
  + intros b. rewrite elem_of_i_init. intros Hb. split; [rewrite elem_of_interval; lia|].
    split; [apply HLb; lia|]. eapply Forall_impl; [exact Hse|]. unfold before. intros; lia.
  + right; left. simpl. intros b [_ [Hg _]]%HinV'. apply Forall_app in Hg as [_ [Hg _]%Forall_cons]. lia.
  + intros b [Hb [HgL Hg]]. apply Forall_app in HgL as [_ [Hg' _]%Forall_cons].
    unfold rgt in Hg'. simpl in Hg'. destruct (Z_lt_le_dec (rgt p) b).
    * right; left. apply HinV'. split; [done|]. split; [|done]. apply Forall_app.
      split; [|by apply Forall_singleton]. apply Forall_forall. intros e' He'.
      specialize (Hlte e' p He' ltac:(set_solver)). unfold before in Hlte. lia.
    * left. rewrite elem_of_i_init. lia.
  + intros b [Hb [HgL Hg]]%HinV' _. split; [done|]. split; [|done].
    apply Forall_app in HgL as [_ [Hg' _]%Forall_cons]. apply HLb. lia.
Qed.

Definition left_cont (h : nat) (V R : interval) (v : Z) (esL esR : list ft_ent) (e : ft_ent)
    (tL : ftree) (c : option insertargs) : Prop :=
  match c with
  | None => i_left R ≤ lft e
  | Some a =>
      lft e < i_left R ∧ ia_value a = ent_value e ∧
      (∀ b, b ∈ ia_range a ↔ lft e ≤ b < i_left R) ∧
      hole_ok (λ b, b ∈ V ∧ gapLR esL (mkEnt R v :: esR) b) h tL a
  end.

Definition right_cont (h : nat) (V R : interval) (v : Z) (esL esR : list ft_ent) (p : ft_ent)
    (tR : ftree) (c : option insertargs) : Prop :=
  match c with
  | None => rgt p ≤ i_right R
  | Some a =>
      i_right R < rgt p ∧ ia_value a = ent_value p ∧
      (∀ b, b ∈ ia_range a ↔ i_right R < b ≤ rgt p) ∧
      hole_ok (λ b, b ∈ V ∧ gapLR (esL ++ [mkEnt R v]) esR b) h tR a
  end.

(** The effect of replacing the entries of a node that overlap [R]: the new
    entries and subtrees, the index on the path, and the continuations. *)
Inductive replaced (h : nat) (V R : interval) (v : Z) :
    list ft_ent → list ftree → list ft_ent → list ftree → Z → insertcont → Prop :=
  | Replaced esL e esM p esR tsL tL tsM tR tsR ic :
      length tsL = length esL → length tsM = length esM → length tsR = length esR →
      left_of R esL → right_of R esR → i_left R ≤ rgt e → lft e ≤ i_right R →
      Forall (λ e, i_left R ≤ lft e ∧ lft e ≤ i_right R) esM →
      last (e :: esM) = Some p →
      left_cont h V R v esL esR e tL (ic_leftc ic) →
      right_cont h V R v esL esR p tR (ic_rightc ic) →
      replaced h V R v
        (esL ++ e :: esM ++ esR) (tsL ++ tL :: tsM ++ tR :: tsR)
        (esL ++ mkEnt R v :: esR) (tsL ++ tL :: tR :: tsR)
        (Z.of_nat (length esL) + match ic_rightc ic with Some _ => 1 | None => 0 end) ic.

(** ** One step of the descent *)

(** The descent from the tree [t] has reached the subtree [c] below the frames
    [F]. *)
Record descended (R V : interval) (h : nat) (t : ftree) (hc : nat) (F : list frame)
    (c : ftree) : Prop := Descended {
  desc_ctx : ctx_ok h hc F;
  desc_wf : wf hc c;
  desc_ptr : ptr (plug F c) = ptr t;
  desc_gap b : b ∈ R → gap F b;
  desc_nested : nested (λ b, b ∈ V ∧ ¬ blank h t) F;
  desc_look b : b ∈ V ∨ blank h t → lookup_tree h (plug F c) b = lookup_tree h t b;
}.

Lemma left_right_gap R esL esR b :
  left_of R esL → right_of R esR → b ∈ R → gapLR esL esR b.
Proof.
  rewrite elem_of_interval. intros HL HR Hb.
  split; eapply Forall_impl; [exact HL|simpl; intros; lia|exact HR|simpl; intros; lia].
Qed.

Lemma within_elem V e : ent_ok e → within V e → lft e ∈ V ∧ rgt e ∈ V.
Proof. intros (_&_&?&_) [??]. rewrite !elem_of_interval. lia. Qed.

Section step.
Context (R V : interval) (h : nat) (l : loc) (es0 : list ft_ent) (ts0 : list ftree).
Context (es : list ft_ent) (ts : list ftree).
Context (Hwf : wf (S h) (TNode l es0 ts0)).
Context (Hpruned : pruned h V es0 ts0 es ts).
Context (Hblank : i_nonempty V = false ∨ blank (S h) (TNode l es0 ts0) →
                  blank (S h) (TNode l es ts)).

Lemma pruned_look b :
  b ∈ V ∨ blank (S h) (TNode l es0 ts0) →
  lookup_tree (S h) (TNode l es ts) b = lookup_tree (S h) (TNode l es0 ts0) b.
Proof.
  intros [Hb|Hb].
  - destruct Hpruned as (_&_&_&_&_&Hlook&_). by apply Hlook.
  - rewrite !lookup_tree_blank; auto.
Qed.

Lemma pruned_self : pruned h V es ts es ts.
Proof. destruct Hpruned as (?&?&?&?&?&?&?). by split_and!. Qed.

Lemma pruned_wf : wf (S h) (TNode l es ts).
Proof.
  destruct Hpruned as (?&?&?&?&_). destruct Hwf as (?&?&?&?). split_and!; try done. lia.
Qed.

Lemma descended_here (HR : ∀ b, b ∈ R → b ∈ V) :
  descended R V (S h) (TNode l es0 ts0) (S h) [] (TNode l es ts).
Proof.
  split; [done|apply pruned_wf|done|intros; constructor|apply nested_nil|]. apply pruned_look.
Qed.

(** An entry that overlaps [R] can only be met on the way to the primary
    insertion. *)
Lemma side_overlap e :
  side R V (S h) (TNode l es0 ts0) → e ∈ es → i_left R ≤ rgt e → lft e ≤ i_right R →
  ∀ b, b ∈ R → b ∈ V.
Proof.
  intros Hside He Ho1 Ho2. destruct Hpruned as (Hok & _ & _ & _ & Hw & _).
  rewrite Forall_forall in Hw.
  destruct (within_elem V e) as [Hl Hr]; [by eapply es_ok_ent|by apply Hw|].
  destruct Hside as [?|[Hs|[Hs|Hs]]]; [done|..].
  - specialize (Hs _ Hr). lia.
  - specialize (Hs _ Hl). lia.
  - assert (blank (S h) (TNode l es ts)) as Hb by auto. destruct es; [|done]. set_solver.
Qed.

Context (esL esR : list ft_ent) (tsL tsR : list ftree) (c : ftree).
Context (Hes : es = esL ++ esR) (Hts : ts = tsL ++ c :: tsR).
Context (HtL : length tsL = length esL).
Context (HL : left_of R esL) (HRr : right_of R esR).
Context (V' : interval) (HV' : ∀ b, b ∈ V' ↔ b ∈ V ∧ gapLR esL esR b).

Let f := mkFrame l esL tsL esR tsR.

Lemma step_frame_ok : frame_ok h f.
Proof.
  pose proof pruned_wf as (Hok & Hlen & Hlt & Hts'). rewrite Hes Hts in Hlt.
  rewrite !length_app /= in Hlt. rewrite Hts in Hts'.
  apply Forall_app in Hts' as [? [??]%Forall_cons]. unfold frame_ok. simpl. rewrite -Hes.
  split_and!; try done. lia.
Qed.

Lemma step_blank : blank (S h) (TNode l es0 ts0) → blank h c.
Proof.
  intros Hb. assert (blank (S h) (TNode l es ts)) as Hb' by auto.
  rewrite Hes Hts in Hb'. destruct esL; [|done]. destruct esR; [|done].
  destruct tsL; [|done]. by destruct tsR.
Qed.

Lemma step_side : side R V (S h) (TNode l es0 ts0) → side R V' h c.
Proof.
  intros [Hs|[Hs|[Hs|Hs]]].
  - left. intros b Hb. apply HV'. split; [by apply Hs|]. by eapply left_right_gap.
  - right; left. intros b [??]%HV'. auto.
  - right; right; left. intros b [??]%HV'. auto.
  - right; right; right. by apply step_blank.
Qed.

Lemma step_wf : wf h c.
Proof.
  destruct pruned_wf as (_&_&_&Hts'). rewrite Hts in Hts'.
  by apply Forall_app in Hts' as [_ [??]%Forall_cons].
Qed.

Lemma step_nested F :
  nested (λ b, b ∈ V' ∧ ¬ blank h c) F →
  nested (λ b, b ∈ V ∧ ¬ blank (S h) (TNode l es0 ts0)) (f :: F).
Proof.
  intros HF. apply nested_cons; simpl.
  - rewrite -Hes. intros e He. destruct Hpruned as (Hok & _ & _ & _ & Hw & _).
    rewrite Forall_forall in Hw.
    destruct (within_elem V e) as [Hl Hr]; [by eapply es_ok_ent|by apply Hw|].
    assert (¬ blank (S h) (TNode l es0 ts0)) as Hnb; [|done].
    intros Hb. assert (blank (S h) (TNode l es ts)) as Hb' by auto. destruct es; [set_solver|done].
  - eapply nested_impl; [|exact HF]. intros b [[Hb Hg]%HV' Hnb]. split; [|done]. split; [done|].
    intros ?. by apply Hnb, step_blank.
Qed.

Lemma descended_step hc F c' :
  descended R V' h c hc F c' →
  descended R V (S h) (TNode l es0 ts0) hc (f :: F) c'.
Proof.
  intros [Hctx Hwfc Hptr Hgap Hnest Hlook]. pose proof step_frame_ok as Hf. split; try done.
  - simpl. exists h. done.
  - intros b Hb. constructor; [by eapply left_right_gap|by apply Hgap].
  - by apply step_nested.
  - intros b Hb. rewrite -pruned_look // Hes Hts. fold (plug1 f c).
    simpl plug. destruct (decide (gap1 f b)) as [Hg|Hg].
    + rewrite !(lookup_plug1_gap _ f) //. apply Hlook.
      destruct Hb as [Hb|Hb]; [left; by apply HV'|right; by apply step_blank].
    + by apply lookup_plug1_out.
Qed.
End step.

Section descend_proof.
Context `{HG : !heapG ft_node Σ} `{AL : !Allocator}.
Variable log : gdpfs_log.

(** Loading a node of a tree. *)
Lemma wp_load_tree l es ts h Φ :
  is_tree (S h) (TNode l es ts) -∗
  (∀ sps d, ⌜length sps = length ts⌝ -∗ is_tree (S h) (TNode l es ts) -∗
     Φ (mkNode es sps (Z.of_nat h) d)) -∗
  wp (load l) Φ.
Proof.
  iIntros "Ht HΦ". iDestruct "Ht" as (sps d) "(Hl & %Hslots & Hts)". wp_load "Hl".
  iApply ("HΦ" with "[%]"); [by eapply Forall2_length|]. simpl. iExists sps, d. by iFrame.
Qed.

Lemma wp_subtree_get_tree l es ts h i t Φ :
  ts !! i = Some t →
  is_tree (S h) (TNode l es ts) -∗ (is_tree (S h) (TNode l es ts) -∗ Φ (ptr t)) -∗
  wp (subtree_get log l i) Φ.
Proof.
  iIntros (Hi) "Ht HΦ". iDestruct "Ht" as (sps d) "(Hl & %Hslots & Hts)".
  iApply (wp_subtree_get_slot with "Hl"); [done..|]. iIntros "Hl". iApply "HΦ".
  simpl. iExists sps, d. by iFrame.
Qed.

(** The left continuation. *)
Lemma wp_left_cont l V R v esL e es esR ts tL h Φ :
  es_ok (esL ++ e :: es) → interval_wf V → range_ok R → (∀ b, b ∈ R → b ∈ V) →
  left_of R esL → right_of R esR → within V e →
  (Forall (λ e, lft e = i_left V) (take 1 (esL ++ e :: es)) → esL = [] → blank h tL) →
  ts !! length esL = Some tL →
  is_tree (S h) (TNode l (esL ++ e :: es) ts) -∗
  (∀ c, ⌜left_cont h V R v esL esR e tL c⌝ -∗
     is_tree (S h) (TNode l (esL ++ e :: es) ts) -∗ Φ c) -∗
  wp (if i_left (irange e) <? i_left R then
       at_ ← subtree_get log l (length esL);
       v ← lift_res (i_restrict_range V (after_prev (esL ++ e :: es) (length esL))
                       (wrap32 (i_left (irange e) - 1)) true);
       mret (Some (mkArgs (i_init (i_left (irange e)) (wrap32 (i_left R - 1)))
                     (ent_value e) at_ v))
     else mret None) Φ.
Proof.
  iIntros (Hok HV HR HRV HL HRr Hw Hfirst Hi) "Ht HΦ". fold (lft e).
  destruct (Z.ltb_spec (lft e) (i_left R)) as [Hlt|Hge].
  - destruct (left_cont_ok h V R v esL e es esR tL) as (V' & HV' & Hhole); [done..|].
    wp_bind. iApply (wp_subtree_get_tree with "Ht"); [done|]. iIntros "Ht".
    wp_bind. iApply wp_lift_res; [done|]. wp_ret. iApply ("HΦ" with "[%] Ht").
    split_and!; [done|done| |done]. intros b. simpl. rewrite elem_of_i_init.
    destruct HR as (_&?&?&?). unfold BYTE_INDEX_MIN, BYTE_INDEX_MAX in *.
    pose proof (es_ok_ent _ e Hok ltac:(set_solver)) as (_ & He0 & _).
    unfold BYTE_INDEX_MIN in *. rewrite wrap_small; [lia|unfold in_width; lia].
  - wp_ret. by iApply ("HΦ" with "[%] Ht").
Qed.

(** The right continuation, which also decides the index on the path. *)
Lemma wp_right_cont maxdepth path i l V R v esL esM p esR ts tR h Φ :
  es_ok (esM ++ p :: esR) → interval_wf V → range_ok R → (∀ b, b ∈ R → b ∈ V) →
  left_of R esL → right_of R esR → within V p →
  ts !! S (length esM) = Some tR → (length path < maxdepth)%nat →
  is_tree (S h) (TNode l (esM ++ p :: esR) ts) -∗
  (∀ c, ⌜right_cont h V R v esL esR p tR c⌝ -∗
     is_tree (S h) (TNode l (esM ++ p :: esR) ts) -∗
     Φ (path ++ [(l, i + match c with Some _ => 1 | None => 0 end)], c)) -∗
  wp (if i_right R <? i_right (irange p) then
       at_ ← subtree_get log l (S (length esM));
       v ← lift_res (i_restrict_range V (wrap32 (i_right (irange p) + 1))
                       (before_next (esM ++ p :: esR) (S (length esM))) true);
       path ← path_push maxdepth path (l, i + 1);
       mret (path, Some (mkArgs (i_init (wrap32 (i_right R + 1)) (i_right (irange p)))
                           (ent_value p) at_ v))
     else
       path ← path_push maxdepth path (l, i);
       mret (path, None)) Φ.
Proof.
  iIntros (Hok HV HR HRV HL HRr Hw Hi Hlen) "Ht HΦ". fold (rgt p). rewrite /path_push.
  apply Nat.ltb_lt in Hlen as ->.
  destruct (Z.ltb_spec (i_right R) (rgt p)) as [Hlt|Hge].
  - destruct (right_cont_ok h V R v esL esM p esR tR) as (V' & HV' & Hhole); [done..|].
    wp_bind. iApply (wp_subtree_get_tree with "Ht"); [done|]. iIntros "Ht".
    wp_bind. iApply wp_lift_res; [done|]. wp_bind. wp_ret. wp_ret.
    iApply ("HΦ" $! (Some _) with "[%] Ht").
    split_and!; [done|done| |done]. intros b. simpl. rewrite elem_of_i_init.
    destruct HR as (_&?&?&?). unfold BYTE_INDEX_MIN, BYTE_INDEX_MAX in *.
    rewrite wrap_small; [lia|unfold in_width; lia].
  - wp_bind. wp_ret. wp_ret. iSpecialize ("HΦ" $! None with "[%] Ht"); [done|].
    by rewrite Z.add_0_r.
Qed.

Lemma wp_ins_replace maxdepth R v l V path es e esL es' ts h Φ :
  es = esL ++ e :: es' → pruned h V es ts es ts → interval_wf V → range_ok R →
  (∀ b, b ∈ R → b ∈ V) → (length path < maxdepth)%nat →
  left_of R esL → i_left R ≤ rgt e → lft e ≤ i_right R →
  is_tree (S h) (TNode l es ts) -∗
  (∀ es2 ts2 idx ic, ⌜replaced h V R v es ts es2 ts2 idx ic⌝ -∗
     is_tree (S h) (TNode l es2 ts2) -∗ Φ (path ++ [(l, idx)], ic)) -∗
  wp (ins_replace log maxdepth R v l V path (length esL)) Φ.
Proof.
  iIntros (Hes (Hok & _ & Hlen & _ & Hw & _ & Hfirst) HV HR HRV Hpath HL Ho1 Ho2) "Ht HΦ".
  rewrite /ins_replace. wp_bind. iApply (wp_load_tree with "Ht"). iIntros (sps d Hsps) "Ht".
  simpl entries.
  destruct (count_leftOverlaps_spec R e es') as (esM & esR & -> & HRr & HM & Hcount); [done| |done..|].
  { rewrite Hes in Hok. by apply es_ok_app in Hok as (_ & ? & _). }
  assert (∃ tsL tL tsM tR tsR, ts = tsL ++ tL :: tsM ++ tR :: tsR ∧ length tsL = length esL ∧
    length tsM = length esM ∧ length tsR = length esR) as (tsL&tL&tsM&tR&tsR&->&HtL&HtM&HtR).
  { rewrite Hes length_app /= length_app in Hlen.
    destruct (split_at ts (length esL)) as (tsL & tL & ts' & -> & HtL); [lia|].
    rewrite length_app /= in Hlen.
    destruct (split_at ts' (length esM)) as (tsM & tR & tsR & -> & HtM); [lia|].
    rewrite length_app /= in Hlen. exists tsL, tL, tsM, tR, tsR. split_and!; try done; lia. }
  assert (∃ esP p, e :: esM = esP ++ [p] ∧ last (e :: esM) = Some p) as (esP & p & Hep & Hlast).
  { assert (e :: esM ≠ []) as Hne by done. revert Hne. generalize (e :: esM). intros es0 Hne.
    destruct es0 as [|p esP _] using rev_ind; [done|]. exists esP, p. by rewrite last_snoc. }
  assert (length esP = length esM) as HlenP.
  { apply (f_equal length) in Hep. rewrite length_app /= in Hep. lia. }
  assert (es = (esL ++ esP) ++ p :: esR) as Hes2.
  { by rewrite Hes app_comm_cons Hep -!app_assoc. }
  rewrite Hes. wp_bind. iApply wp_in_bounds; [by apply list_lookup_middle|].
  wp_bind. iApply (wp_left_cont _ V R v esL e (esM ++ esR) esR _ tL with "Ht"); try done.
  { by rewrite -Hes. }
  { rewrite Hes in Hw. apply Forall_app in Hw as [_ [??]%Forall_cons]. done. }
  { rewrite -Hes. intros Hf ->. assert (es ≠ []) as Hne by (by rewrite Hes).
    specialize (Hfirst Hf Hne). destruct tsL; [|done]. simpl in Hfirst.
    by apply Forall_cons in Hfirst as [? _]. }
  { rewrite -HtL. by apply list_lookup_middle. }
  iIntros (lc Hlc) "Ht".
  rewrite (_ : drop (length esL + 1) (esL ++ e :: esM ++ esR) = esM ++ esR); last first.
  { rewrite (app_assoc esL [e]) drop_app_length' // length_app //. }
  rewrite Hcount.
  rewrite (_ : length esL + 1 + length esM = S (length (esL ++ esP)))%nat; last first.
  { rewrite length_app. lia. }
  rewrite -Hes Hes2 (_ : S (length (esL ++ esP)) - 1 = length (esL ++ esP))%nat; [|lia].
  wp_bind. iApply wp_in_bounds; [by apply list_lookup_middle|].
  wp_bind. iApply (wp_right_cont maxdepth path (Z.of_nat (length esL)) _ V R v esL (esL ++ esP) p esR _ tR with "Ht"); try done.
  { by rewrite -Hes2. }
  { rewrite Hes2 in Hw. apply Forall_app in Hw as [_ [??]%Forall_cons]. done. }
  { rewrite app_comm_cons app_assoc. apply list_lookup_middle. rewrite !length_app /=. lia. }
  iIntros (rc Hrc) "Ht". wp_bind.
  rewrite (_ : S (length (esL ++ esP)) = (length esL + length (e :: esM))%nat); last first.
  { rewrite length_app /=. lia. }
  rewrite -Hes2 Hes (cons_middle tL tsL) (app_assoc tsL [tL]).
  iApply (wp_ftn_replaceEntries l esL (e :: esM) esR (tsL ++ [tL]) tsM (tR :: tsR) with "Ht");
    [done|rewrite length_app /=; lia|simpl; lia|simpl; lia|].
  iIntros "Ht". rewrite -!(app_assoc tsL [tL]). wp_ret.
  iSpecialize ("HΦ" $! _ _ _ (mkCont lc rc) with "[%] Ht"); [|iApply "HΦ"].
  by apply (Replaced h V R v esL e esM p esR tsL tL tsM tR tsR (mkCont lc rc)).
Qed.

(** ** The descent *)

(** How the descent ends: at an empty place, or at a node some of whose entries
    have been replaced. *)
Definition descend_post (R V : interval) (v : Z) (h : nat) (t : ftree) (path : ftpath)
    (Φ : ftpath * option insertcont → iProp Σ) : iProp Σ :=
  (∀ F, ⌜descended R V h t 0 F TNull⌝ -∗ is_tree h (plug F TNull) -∗
     Φ (path ++ ctx_path F, None)) ∧
  (∀ F hl l es ts es2 ts2 V' idx ic,
     ⌜descended R V h t (S hl) F (TNode l es ts)⌝ -∗
     ⌜interval_wf V' ∧ (∀ b, b ∈ V' ↔ b ∈ V ∧ gap F b) ∧ (∀ b, b ∈ R → b ∈ V') ∧ ¬ blank h t ∧
      pruned hl V' es ts es ts ∧ replaced hl V' R v es ts es2 ts2 idx ic⌝ -∗
     is_tree h (plug F (TNode l es2 ts2)) -∗
     Φ (path ++ ctx_path F ++ [(l, idx)], Some ic)).

Lemma wp_ins_descend maxdepth R v fuel : ∀ h t V path Φ,
  wf h t → interval_wf V → range_ok R → side R V h t →
  (h < fuel)%nat → (length path + h ≤ maxdepth)%nat →
  is_tree h t -∗ descend_post R V v h t path Φ -∗
  wp (ins_descend log fuel maxdepth R v (ptr t) V path) Φ.
Proof.
  induction fuel as [|fuel IH]; intros h t V path Φ Hwf HV HR Hside Hfuel Hpath; [lia|].
  iIntros "Ht HΦ". destruct h as [|h], t as [|l es0 ts0]; try done.
  { iDestruct "HΦ" as "[HΦ _]". cbn [ins_descend ptr]. wp_ret.
    iSpecialize ("HΦ" $! [] with "[%] Ht"); [|by rewrite app_nil_r].
    split; try done; [intros; constructor|apply nested_nil]. }
  cbn [ins_descend ptr]. wp_bind. iApply (wp_ftn_pruneTo with "Ht"); [done..|].
  iIntros (es ts Hpr Hbl) "Ht". wp_bind. iApply (wp_load_tree with "Ht").
  iIntros (sps d _) "Ht". simpl entries.
  pose proof Hpr as (Hok & Hlen1 & Hlen2 & Hwf2 & Hw & Hlook & Hfirst).
  (* the common continuation of the descent *)
  iAssert (∀ esL esR,
    ⌜es = esL ++ esR ∧ left_of R esL ∧ right_of R esR⌝ -∗
    is_tree (S h) (TNode l es ts) -∗ descend_post R V v (S h) (TNode l es0 ts0) path Φ -∗
    wp (path ← path_push maxdepth path (l, Z.of_nat (length esL));
        next ← subtree_get log l (length esL);
        v' ← lift_res (i_restrict_range V (after_prev es (length esL))
                        (before_next es (length esL)) true);
        ins_descend log fuel maxdepth R v next v' path) Φ)%I as "Hnext".
  { iIntros (esL esR (Hes & HL & HRr)) "Ht HΦ".
    rewrite {1}/path_push. destruct (Nat.ltb_spec (length path) maxdepth); [|lia].
    wp_bind. wp_ret.
    destruct (split_at ts (length esL)) as (tsL & c & tsR & Hts & HtL).
    { rewrite Hlen2 Hes length_app. lia. }
    wp_bind. iApply (wp_subtree_get_tree _ _ _ _ _ c with "Ht").
    { rewrite Hts -HtL. by apply list_lookup_middle. }
    iIntros "Ht".
    destruct (restrict_gap V esL esR) as (V' & HV' & Hwf' & HinV'); [by rewrite -Hes| |done|].
    { eapply Forall_impl; [exact HRr|]. destruct HR as (_&?&?&_). unfold BYTE_INDEX_MIN in *.
      simpl. intros; lia. }
    wp_bind. iApply wp_lift_res; [by rewrite Hes|].
    pose (f := mkFrame l esL tsL esR tsR).
    assert (TNode l es ts = plug1 f c) as Hnode by (by rewrite Hes Hts).
    iEval (rewrite Hnode is_tree_plug1) in "Ht". iDestruct "Ht" as "[Hf Hc]".
    iApply (IH h c with "Hc"); [by eapply step_wf|done|done|by eapply step_side|lia| |].
    { rewrite length_app /=. lia. }
    iSplit.
    - iIntros (F Hd) "Hc". iDestruct "HΦ" as "[HΦ _]".
      iSpecialize ("HΦ" $! (f :: F) with "[%]"); [by eapply descended_step|].
      rewrite -app_assoc. iApply "HΦ". simpl plug.
      rewrite is_tree_plug1 (desc_ptr _ _ _ _ _ _ _ Hd). iFrame.
    - iIntros (F hl l' es' ts' es2 ts2 V2 idx ic Hd (HV2 & Hin2 & HR2 & Hnb & Hp2 & Hrep)) "Hc".
      iDestruct "HΦ" as "[_ HΦ]".
      iSpecialize ("HΦ" $! (f :: F) hl l' es' ts' es2 ts2 V2 idx ic with "[%] [%]");
        [by eapply descended_step| |].
      { split_and!; try done; [|by intros Hb; eapply Hnb, step_blank]. intros b. rewrite Hin2 HinV'. unfold gap.
        rewrite Forall_cons. unfold gap1 at 2. simpl. tauto. }
      rewrite -app_assoc. iApply "HΦ". simpl plug. rewrite is_tree_plug1.
      rewrite (_ : ptr (plug F (TNode l' es2 ts2)) = ptr c); [by iFrame|].
      rewrite -(desc_ptr _ _ _ _ _ _ _ Hd). by destruct F. }
  destruct (scan_entries_spec R es 0 HR Hok)
    as [(esL & esR & Hes & HL & HRr & ->)|(esL & e & esM & esR & Hes & HL & HRr & [Ho1 Ho2] & HM & -> & Hcount)].
  - destruct esR as [|e esR].
    + iSpecialize ("Hnext" $! esL [] with "[//] Ht HΦ").
      rewrite app_nil_r in Hes. subst es.
      rewrite (_ : before_next esL (length esL) = BYTE_INDEX_MAX); [done|].
      by rewrite /before_next lookup_ge_None_2.
    + iApply ("Hnext" $! esL (e :: esR) with "[//] Ht HΦ").
  - iClear "Hnext". wp_bind.
    assert (∀ b, b ∈ R → b ∈ V) as HRV.
    { eapply (side_overlap R V h l es0 ts0 es ts); [done..| |done|done]. set_solver. }
    iApply (wp_ins_replace with "Ht"); [exact Hes|by eapply pruned_self|done|done|done|lia|done..|].
    iIntros (es2 ts2 idx ic Hrep) "Ht". wp_ret. iDestruct "HΦ" as "[_ HΦ]".
    iSpecialize ("HΦ" $! [] h l es ts es2 ts2 V idx ic with "[%] [%] Ht"); [by apply descended_here| |done].
    split_and!; try done.
    + intros b. split; [|by intros [??]]. intros ?. split; [done|constructor].
    + intros Hb. rewrite Hes in Hbl. destruct esL; by specialize (Hbl (or_intror Hb)).
Qed.

End descend_proof.
