(* ===== verification/FigPush.v ===== *)
(** * Correctness of the insertion loop of [_ft_insert]

    [ins_push] inserts an entry (with a subtree on either side) into the hole of
    a context and pushes middle entries of full nodes upwards.  For a right
    continuation it also maintains the path to the hole that the pending left
    continuation needs. *)
From S2P Require Import Prelude.
From S2P Require Import Interval.
From S2P Require Import Types.
From S2P Require Import Heap.
From S2P Require Import FigNode.
From S2P Require Import FigTree.
From S2P Require Import FigSpec.
From S2P Require Import FigNodeProof.
From S2P Require Import FigInsert.
From S2P Require Import FigDescend.

#[local] Open Scope Z_scope.

(** ** Halves of a node *)

Definition half_l (a : loc) (es : list ft_ent) (ts : list ftree) : ftree :=
  TNode a (take FT_ORDER es) (take (S FT_ORDER) ts).
Definition half_r (b : loc) (es : list ft_ent) (ts : list ftree) : ftree :=
  TNode b (drop (S FT_ORDER) es) (drop (S FT_ORDER) ts).

Lemma full_node_split (es : list ft_ent) m :
  es !! FT_ORDER = Some m → es = take FT_ORDER es ++ m :: drop (S FT_ORDER) es.
Proof. intros H. by rewrite take_drop_middle. Qed.

Section halves.
Context (h : nat) (es : list ft_ent) (ts : list ftree) (m : ft_ent).
Context (Hok : es_ok es) (Hes : length es = FT_SPLITLIMIT) (Hts : length ts = S (length es)).
Context (Hwf : Forall (wf h) ts) (Hm : es !! FT_ORDER = Some m).

Lemma half_l_wf a : wf (S h) (half_l a es ts).
Proof.
  split_and!; [by apply es_ok_take|..|by apply Forall_take];
    rewrite !length_take ?Hts Hes; unfold FT_SPLITLIMIT, FT_ORDER; lia.
Qed.

Lemma half_r_wf b : wf (S h) (half_r b es ts).
Proof.
  split_and!; [by apply es_ok_drop|..|by apply Forall_drop];
    rewrite !length_drop ?Hts Hes; unfold FT_SPLITLIMIT, FT_ORDER; lia.
Qed.

Lemma middle_elem : m ∈ es.
Proof. by eapply list_elem_of_lookup_2. Qed.

Lemma look_halves a b x :
  look (λ c, lookup_tree h c x) es ts x =
  look3 (λ c, lookup_tree (S h) c x) (half_l a es ts) m (half_r b es ts) x.
Proof.
  pose proof (full_node_split es m Hm) as Hsp.
  rewrite {1}Hsp -{1}(take_drop (S FT_ORDER) ts). rewrite look_split //.
  - rewrite !length_take Hts Hes. unfold FT_SPLITLIMIT, FT_ORDER. lia.
  - by rewrite -Hsp.
Qed.
End halves.

(** ** The node after an insertion *)

Section inserted.
Context (h : nat) (f : frame) (A : ftree) (e : ft_ent) (B : ftree).
Context (Hf : frame_ok h f) (HA : wf h A) (HB : wf h B) (He : ent_ok e).
Context (Hl : gap1 f (lft e)) (Hr : gap1 f (rgt e)).

Lemma ins_es_ok : es_ok (ins_es f e).
Proof. destruct Hf as (Hok & _). by apply es_ok_insert. Qed.

Lemma ins_ts_length : length (ins_ts f A B) = S (length (ins_es f e)).
Proof.
  destruct Hf as (_ & _ & H1 & H2 & _). rewrite /ins_ts /ins_es !length_app /= H1 H2. lia.
Qed.

Lemma ins_ts_wf : Forall (wf h) (ins_ts f A B).
Proof.
  destruct Hf as (_ & _ & _ & _ & H1 & H2). apply Forall_app. split; [done|]. by repeat constructor.
Qed.

Lemma ins_look c b :
  look (λ c, lookup_tree h c b) (ins_es f e) (ins_ts f A B) b =
  if decide (gap1 f b) then look3 (λ c, lookup_tree h c b) A e B b
  else lookup_tree (S h) (plug1 f c) b.
Proof. destruct Hf as (Hok & _ & H1 & H2 & _). by rewrite /ins_es /ins_ts (look_insert _ _ _ _ _ _ _ _ c). Qed.

Lemma ins_wf : (length (ins_es f e) < FT_SPLITLIMIT)%nat →
  wf (S h) (TNode (f_loc f) (ins_es f e) (ins_ts f A B)).
Proof. intros. split_and!; [apply ins_es_ok|done|apply ins_ts_length|apply ins_ts_wf]. Qed.

End inserted.

(** An entry of the new node is an old one or the new one. *)
Lemma ins_elem f e (P : ft_ent → Prop) m :
  (∀ e', e' ∈ f_esL f ++ f_esR f → P e') → P e → m ∈ ins_es f e → P m.
Proof. rewrite /ins_es. set_solver. Qed.

(** The meaning of a pending insertion: the bytes in the gap of the context see
    the two subtrees and the entry, all others see the context. *)
Definition pending (H h : nat) (F : list frame) (A : ftree) (e : ft_ent) (B c : ftree) (b : Z)
    : option Z :=
  if decide (gap F b) then look3 (λ c, lookup_tree h c b) A e B b
  else lookup_tree H (plug F c) b.

Lemma pending_snoc_stop H h F f l A e B c b :
  ctx_ok H h (F ++ [f]) → ent_ok e → gap1 f (lft e) → gap1 f (rgt e) →
  lookup_tree H (plug F (TNode l (ins_es f e) (ins_ts f A B))) b =
  pending H h (F ++ [f]) A e B c b.
Proof.
  intros [HF Hf]%ctx_ok_snoc He Hl Hr. rewrite /pending plug_snoc.
  destruct (decide (gap F b)) as [Hg|Hg].
  - rewrite (lookup_plug_gap _ _ _ _ _ HF Hg) (lookup_plug_gap _ _ _ _ _ HF Hg).
    cbn [lookup_tree]. rewrite (ins_look h f A e B Hf He Hl Hr c).
    destruct (decide (gap1 f b)) as [Hg1|Hg1].
    + rewrite decide_True //. by apply gap_snoc.
    + rewrite decide_False // gap_snoc. tauto.
  - rewrite decide_False; [|rewrite gap_snoc; tauto]. by eapply lookup_plug_out.
Qed.

Lemma pending_snoc_split H h F f A e B c m a b x :
  ctx_ok H h (F ++ [f]) → ent_ok e → gap1 f (lft e) → gap1 f (rgt e) →
  length (ins_es f e) = FT_SPLITLIMIT → ins_es f e !! FT_ORDER = Some m →
  pending H (S h) F (half_l a (ins_es f e) (ins_ts f A B)) m
    (half_r b (ins_es f e) (ins_ts f A B)) (plug1 f c) x =
  pending H h (F ++ [f]) A e B c x.
Proof.
  intros [HF Hf]%ctx_ok_snoc He Hl Hr Hlen Hm. rewrite /pending plug_snoc.
  rewrite -(look_halves h); [|by eapply ins_es_ok|done|by eapply ins_ts_length|done].
  destruct (decide (gap F x)) as [Hg|Hg].
  - rewrite (ins_look h f A e B Hf He Hl Hr c) (lookup_plug_gap _ _ _ _ _ HF Hg).
    destruct (decide (gap1 f x)) as [Hg1|Hg1].
    + rewrite decide_True //. by apply gap_snoc.
    + rewrite decide_False // gap_snoc. tauto.
  - by rewrite decide_False; [|rewrite gap_snoc; tauto].
Qed.

Section push_proof.
Context `{HG : !heapG ft_node Σ} `{AL : !Allocator}.
Variable log : gdpfs_log.

(** ** One step *)

(** Ownership of a pending insertion; the pushed node holds the entry. *)
Definition is_triple (h : nat) (A : ftree) (e : ft_ent) (B : ftree) (top : option loc) : iProp Σ :=
  match top with
  | None => ⌜h = 0%nat ∧ A = TNull ∧ B = TNull⌝
  | Some l => is_tree (S h) (TNode l [e] [A; B])
  end.

Lemma wp_push_insert {X} h f e A B p top (k : option loc → node_prog X) Φ :
  frame_ok h f → ent_ok e → gap1 f (lft e) → gap1 f (rgt e) →
  is_frame h f p -∗ is_triple h A e B top -∗
  (∀ rv, insert_res h f e A B rv -∗ wp (k rv) Φ) -∗
  wp (rv ← ftn_insert (f_loc f) e (Z.of_nat (length (f_esL f))) (ptr A) (ptr B);
      free_opt top;; k rv) Φ.
Proof.
  iIntros (Hf He Hl Hr) "Hf Ht HΦ". wp_bind. destruct top as [l|]; simpl.
  - iDestruct "Ht" as (sps d) "(Htop & _ & HA & HB & _)".
    iApply (wp_ftn_insert with "Hf HA HB"); [done..|].
    iIntros (rv) "Hres". wp_bind. iApply (wp_free with "Htop"). by iApply "HΦ".
  - iDestruct "Ht" as %(-> & -> & ->).
    iApply (wp_ftn_insert with "Hf [] []"); [done..|].
    iIntros (rv) "Hres". wp_bind. wp_ret. by iApply "HΦ".
Qed.

(** Reading the pushed node for the next round. *)
Lemma wp_push_next {X} h l m A B (k : ft_ent → option loc → option loc → node_prog X) Φ :
  is_triple h A m B (Some l) -∗
  (is_triple h A m B (Some l) -∗ wp (k m (ptr A) (ptr B)) Φ) -∗
  wp (node ← load l;
      ent ← in_bounds (entries node !! 0%nat);
      lft ← subtree_get log l 0;
      rgt ← subtree_get log l 1;
      k ent lft rgt) Φ.
Proof.
  iIntros "Ht HΦ". wp_bind. iApply (wp_load_tree with "Ht"). iIntros (sps d _) "Ht".
  wp_bind. iApply wp_in_bounds; [done|].
  wp_bind. iApply (wp_subtree_get_tree with "Ht"); [done|]. iIntros "Ht".
  wp_bind. iApply (wp_subtree_get_tree with "Ht"); [done|]. iIntros "Ht".
  by iApply "HΦ".
Qed.

Lemma wp_fix_split h l m a b es1 ts1 es2 ts2 path k ii l0 idx Φ :
  path !! k = Some (l0, idx) →
  is_triple h (TNode a es1 ts1) m (TNode b es2 ts2) (Some l) -∗
  (is_triple h (TNode a es1 ts1) m (TNode b es2 ts2) (Some l) -∗
   Φ (if ii <=? Z.of_nat FT_ORDER then set_path path k (a, idx)
      else set_path path k (b, ii - (Z.of_nat FT_ORDER + 1)))) -∗
  wp (fix_split log path k ii (Some l)) Φ.
Proof.
  iIntros (Hk) "Ht HΦ". rewrite /fix_split. wp_bind. iApply wp_in_bounds; [done|].
  destruct (ii <=? Z.of_nat FT_ORDER); wp_bind;
    (iApply (wp_subtree_get_tree with "Ht"); [done|]; iIntros "Ht");
    wp_bind; iApply wp_deref; wp_ret; by iApply "HΦ".
Qed.

(** ** Pushing below the shared part of the path *)

(** What a pending insertion needs: well-formed parts, and an entry that lies in
    the gaps of the context. *)
Definition triple_ok (G : Z → Prop) (h : nat) (F : list frame) (A : ftree) (e : ft_ent) (B : ftree)
    : Prop :=
  wf h A ∧ wf h B ∧ ent_ok e ∧
  (G (lft e) ∧ gap F (lft e)) ∧ (G (rgt e) ∧ gap F (rgt e)).

Lemma triple_ok_snoc G h F f A e B :
  triple_ok G h (F ++ [f]) A e B → gap1 f (lft e) ∧ gap1 f (rgt e).
Proof.
  intros (_&_&_&[_ Hl]&[_ Hr]).
  apply gap_snoc in Hl as [_ ?]. by apply gap_snoc in Hr as [_ ?].
Qed.

(** The middle entry is again a pending insertion, one level up. *)
Lemma triple_ok_split G H h F f A e B m a b :
  ctx_ok H h (F ++ [f]) → nested G (F ++ [f]) → triple_ok G h (F ++ [f]) A e B →
  length (ins_es f e) = FT_SPLITLIMIT → ins_es f e !! FT_ORDER = Some m →
  triple_ok G (S h) F (half_l a (ins_es f e) (ins_ts f A B)) m
    (half_r b (ins_es f e) (ins_ts f A B)).
Proof.
  intros Hctx Hnest Ht Hlen Hm. destruct (triple_ok_snoc _ _ _ _ _ _ _ Ht) as [Hl Hr].
  destruct Ht as (HA & HB & He & [HGl Hgl] & [HGr Hgr]).
  apply ctx_ok_snoc in Hctx as [_ Hf]. apply gap_snoc in Hgl as [??], Hgr as [??].
  assert (es_ok (ins_es f e)) as Hok by by eapply ins_es_ok.
  assert (Forall (wf h) (ins_ts f A B)) as Hwf by by apply ins_ts_wf.
  assert (length (ins_ts f A B) = S (length (ins_es f e))) as Hts by by eapply ins_ts_length.
  assert (m ∈ ins_es f e) as Hin by by eapply middle_elem.
  split; [by eapply half_l_wf|]. split; [by eapply half_r_wf|]. split; [by eapply es_ok_ent|].
  pattern m. eapply ins_elem; [| |exact Hin].
  - intros e' He'. by apply (Hnest F f [] e').
  - tauto.
Qed.

Lemma wp_push_low (rc : bool) fsi (Fs : list frame) (ps : ftpath) Hs G c h F A e B top p
    (rest : ftpath) Φ :
  (if rc then fsi = Z.of_nat (length ps) - 1 else True) → length ps = length Fs →
  ctx_ok Hs h F → nested G F → triple_ok G h F A e B →
  is_ctx h F p -∗ is_triple h A e B top -∗
  ( (∀ t' rest',
       ⌜wf Hs t' ∧ ptr t' = ptr (plug F c) ∧ length rest' = (length F + length rest)%nat ∧
        ∀ b, lookup_tree Hs t' b = pending Hs h F A e B c b⌝ -∗ is_tree Hs t' -∗
       wp (path ← (if rc then path_decrement fsi (ps ++ rest') else mret (ps ++ rest'));
           mret (path, None)) Φ) ∧
    (∀ A' e' B' top' rest',
       ⌜triple_ok G Hs [] A' e' B' ∧ length rest' = (length F + length rest)%nat ∧
        ∀ b, pending Hs Hs [] A' e' B' (plug F c) b = pending Hs h F A e B c b⌝ -∗
       is_triple Hs A' e' B' top' -∗
       wp (ins_push log (length Fs) rc fsi (ps ++ rest') e' (ptr A') (ptr B') top') Φ) ) -∗
  wp (ins_push log (length Fs + length F) rc fsi (ps ++ ctx_path F ++ rest)
        e (ptr A) (ptr B) top) Φ.
Proof.
  intros Hfsi Hps. revert h A e B top p rest c.
  induction F as [|f F IH] using rev_ind; intros h A e B top p rest c Hctx Hnest Ht;
    iIntros "HF Ht HΦ".
  { rewrite Nat.add_0_r /=. destruct Hctx. iDestruct "HΦ" as "[_ HΦ]". by iApply ("HΦ" with "[%] Ht"). }
  pose proof Hctx as [HctxF Hf]%ctx_ok_snoc. pose proof Ht as (HA & HB & He & [HGl _] & [HGr _]).
  destruct (triple_ok_snoc _ _ _ _ _ _ _ Ht) as [Hl Hr].
  rewrite is_ctx_snoc. iDestruct "HF" as "[HF Hf]".
  rewrite length_app Nat.add_1_r Nat.add_succ_r. cbn [ins_push].
  set (k := (length Fs + length F)%nat).
  assert (∀ x rest, (ps ++ ctx_path F ++ x :: rest) !! k = Some x) as Hk.
  { intros. rewrite app_assoc. apply list_lookup_middle. rewrite length_app length_fmap. lia. }
  rewrite /ctx_path fmap_app -/(ctx_path F) -app_assoc /=.
  wp_bind. iApply wp_in_bounds; [apply Hk|]. rewrite /frame_path.
  iApply (wp_push_insert with "Hf Ht"); [done..|]. iIntros ([l|]) "Hres".
  - iDestruct "Hres" as (a b m (-> & Hlen & Hm)) "Ht".
    fold (half_l a (ins_es f e) (ins_ts f A B)) (half_r b (ins_es f e) (ins_ts f A B)).
    iAssert (is_triple (S h) (half_l a (ins_es f e) (ins_ts f A B)) m
      (half_r b (ins_es f e) (ins_ts f A B)) (Some (f_loc f))) with "Ht" as "Ht".
    iAssert (∀ x, is_triple (S h) (half_l a (ins_es f e) (ins_ts f A B)) m
        (half_r b (ins_es f e) (ins_ts f A B)) (Some (f_loc f)) -∗
      wp (node ← load (f_loc f);
          ent ← in_bounds (entries node !! 0%nat);
          lft ← subtree_get log (f_loc f) 0;
          rgt ← subtree_get log (f_loc f) 1;
          ins_push log k rc fsi (ps ++ ctx_path F ++ x :: rest) ent lft rgt (Some (f_loc f))) Φ)%I
      with "[HΦ HF]" as "Hnext".
    { iIntros (x) "Ht". iApply (wp_push_next with "Ht"). iIntros "Ht".
      iApply (IH with "HF Ht"); [done|by eapply nested_app_inv|by eapply triple_ok_split|].
      iSplit.
      - iIntros (t' rest' (Hw & Hp & Hlr & Hlook)). iDestruct "HΦ" as "[HΦ _]". iApply "HΦ".
        iPureIntro. split_and!; [done| |simpl in Hlr; rewrite ?length_app /=; lia|].
        + rewrite plug_snoc. exact Hp.
        + intros x'. rewrite Hlook. by eapply pending_snoc_split.
      - iIntros (A' e' B' top' rest' (Ht' & Hlr & Hlook)). iDestruct "HΦ" as "[_ HΦ]". iApply "HΦ".
        iPureIntro. split_and!; [done|simpl in Hlr; rewrite ?length_app /=; lia|]. intros x'. rewrite plug_snoc Hlook. by eapply pending_snoc_split. }
    destruct rc.
    + wp_bind. rewrite /fix_index. wp_bind. wp_bind. iApply wp_in_bounds; [apply Hk|].
      destruct (Z.eqb_spec (Z.of_nat k) fsi); [lia|]. destruct (Z.ltb_spec (Z.of_nat k) fsi); [lia|].
      wp_ret. iApply (wp_fix_split with "Ht"); [apply Hk|]. iIntros "Ht".
      assert (∀ x x', set_path (ps ++ ctx_path F ++ x' :: rest) k x = ps ++ ctx_path F ++ x :: rest) as Hset.
      { intros. rewrite /set_path !app_assoc insert_app_r_alt; rewrite length_app length_fmap; [|lia].
        by rewrite (_ : (k - _)%nat = 0%nat); [|lia]. }
      destruct (_ <=? _); rewrite Hset; by iApply "Hnext".
    + wp_bind. wp_ret. by iApply "Hnext".
  - iDestruct "Hres" as "[%Hlen Ht]". iDestruct "HΦ" as "[HΦ _]".
    set (t1 := TNode (f_loc f) (ins_es f e) (ins_ts f A B)).
    iAssert (is_tree Hs (plug F t1)) with "[HF Ht]" as "Ht".
    { rewrite is_tree_plug_ok; [|exact HctxF]. iFrame. }
    iSpecialize ("HΦ" $! (plug F t1) (ctx_path F ++ frame_path f :: rest) with "[%] Ht").
    { split_and!.
      - eapply wf_plug; [done|]. by eapply ins_wf.
      - rewrite plug_snoc !ptr_plug. by destruct F.
      - rewrite !length_app length_fmap /=. lia.
      - intros b. by eapply pending_snoc_stop. }
    destruct rc.
    + wp_bind. rewrite /fix_index. wp_bind. wp_bind. iApply wp_in_bounds; [apply Hk|].
      destruct (Z.eqb_spec (Z.of_nat k) fsi); [lia|]. destruct (Z.ltb_spec (Z.of_nat k) fsi); [lia|].
      wp_ret. wp_ret. destruct (Z.ltb_spec fsi (Z.of_nat k)); [|lia]. iApply "HΦ".
    + wp_bind. wp_ret. iApply "HΦ".
Qed.

End push_proof.
