(* ===== verification/FigTrack.v ===== *)
(** * The path of the left continuation

    While the right continuation is inserted, the nodes on the shared part of
    the path may split.  The hole of the left continuation is tracked through
    these splits: its gap stays the same, and [path]/[pathIndices] describe its
    position when the insertion is done. *)
From S2P Require Import Prelude.
From S2P Require Import Interval.
From S2P Require Import Types.
From S2P Require Import Heap.
From S2P Require Import FigNode.
From S2P Require Import FigTree.
From S2P Require Import FigSpec.
From S2P Require Import FigNodeProof.
From S2P Require Import FigInsert.
From S2P Require Import FigDescend.
From S2P Require Import FigPush.

#[local] Open Scope Z_scope.

Definition side_of (s : bool) (e : ft_ent) (b : Z) : Prop :=
  if s then rgt e < b else b < lft e.

(** The hole with the subtree [TL] and the gap [G] is below the left or the
    right subtree of a pending insertion ... *)
Record tracked (G : Z → Prop) (h : nat) (TL : ftree) (hL : nat) (F : list frame)
    (A : ftree) (e : ft_ent) (B : ftree) (s : bool) (Fh : list frame) : Prop := Tracked {
  tr_hole : (if s then B else A) = plug Fh TL;
  tr_ne : Fh ≠ [];
  tr_ctx : ctx_ok h hL Fh;
  tr_gap b : G b ↔ gap F b ∧ side_of s e b ∧ gap Fh b;
  tr_nested : nested (λ b, gap F b ∧ side_of s e b) Fh;
}.

(** ... or below the node of the frame [g]. *)
Record node_tracked (G : Z → Prop) (h : nat) (hL : nat) (F : list frame) (g : frame)
    (Fh : list frame) : Prop := NodeTracked {
  nt_ctx : ctx_ok h hL Fh;
  nt_lenL : length (f_tsL g) = length (f_esL g);
  nt_lenR : length (f_tsR g) = length (f_esR g);
  nt_gap b : G b ↔ gap F b ∧ gap1 g b ∧ gap Fh b;
  nt_nested : nested (gap F) (g :: Fh);
}.

(** The frame of the half of a split node that contains the hole. *)
Definition half_frame (a b : loc) (g : frame) : frame :=
  let i := length (f_esL g) in
  if (i <=? FT_ORDER)%nat then
    mkFrame a (f_esL g) (f_tsL g) (take (FT_ORDER - i) (f_esR g)) (take (FT_ORDER - i) (f_tsR g))
  else
    mkFrame b (drop (S FT_ORDER) (f_esL g)) (drop (S FT_ORDER) (f_tsL g)) (f_esR g) (f_tsR g).

Definition in_right_half (g : frame) : bool := negb (length (f_esL g) <=? FT_ORDER)%nat.

Section half_frame.
Context (a b : loc) (g : frame) (c : ftree) (h : nat).
#[local] Abbreviation es := (f_esL g ++ f_esR g).
#[local] Abbreviation ts := (f_tsL g ++ c :: f_tsR g).

Lemma half_frame_plug :
  length (f_tsL g) = length (f_esL g) → length (f_tsR g) = length (f_esR g) →
  (if in_right_half g then half_r b es ts else half_l a es ts) = plug1 (half_frame a b g) c.
Proof.
  intros HlL HlR. unfold in_right_half, half_frame, half_l, half_r.
  destruct (Nat.leb_spec (length (f_esL g)) FT_ORDER) as [Hi|Hi]; simpl negb; cbn iota.
  - rewrite /plug1 /=. rewrite !take_app !(take_ge (f_esL g)) ?(take_ge (f_tsL g)) //; [|lia..].
    rewrite HlL. f_equal. f_equal.
    by rewrite (_ : (S FT_ORDER - length (f_esL g))%nat = S (FT_ORDER - length (f_esL g))); [|lia].
  - rewrite /plug1 /=. rewrite !drop_app_le //; lia.
Qed.

Lemma half_frame_ok :
  length (f_tsL g) = length (f_esL g) → length (f_tsR g) = length (f_esR g) →
  es_ok es → length es = FT_SPLITLIMIT → Forall (wf h) ts →
  frame_ok h (half_frame a b g).
Proof.
  intros HlL HlR Hok Hlen Hwf. unfold half_frame. rewrite length_app in Hlen.
  apply Forall_app in Hwf as [HwL [_ HwR]%Forall_cons].
  destruct (Nat.leb_spec (length (f_esL g)) FT_ORDER) as [Hi|Hi].
  - split_and!; simpl.
    + rewrite <-(take_drop (FT_ORDER - length (f_esL g)) (f_esR g)) in Hok.
      rewrite app_assoc in Hok. by apply es_ok_app in Hok as (? & _).
    + rewrite length_app length_take. unfold FT_SPLITLIMIT, FT_ORDER in *. lia.
    + done.
    + rewrite !length_take. lia.
    + done.
    + by apply Forall_take.
  - split_and!; simpl.
    + rewrite <-(take_drop (S FT_ORDER) (f_esL g)) in Hok.
      rewrite -app_assoc in Hok. by apply es_ok_app in Hok as (_ & ? & _).
    + rewrite length_app length_drop. unfold FT_SPLITLIMIT, FT_ORDER in *. lia.
    + rewrite !length_drop. lia.
    + done.
    + by apply Forall_drop.
    + done.
Qed.

Lemma half_frame_gap m x :
  es_ok es → es !! FT_ORDER = Some m →
  gap1 g x ↔ side_of (in_right_half g) m x ∧ gap1 (half_frame a b g) x.
Proof.
  intros Hok Hm. unfold half_frame, in_right_half.
  destruct (Nat.leb_spec (length (f_esL g)) FT_ORDER) as [Hi|Hi];
    unfold gap1, gapLR; simpl.
  - rewrite lookup_app_r // in Hm. set (n := (FT_ORDER - length (f_esL g))%nat) in *.
    assert (f_esR g = take n (f_esR g) ++ m :: drop (S n) (f_esR g)) as HR by (by apply lookup_split).
    rewrite {1}HR Forall_app Forall_cons.
    pose proof Hok as (_ & HokR & _)%es_ok_app. rewrite HR in HokR.
    apply es_ok_app in HokR as (_ & Hm' & _).
    apply es_ok_cons in Hm' as ((_&_&?&_) & Hs & _).
    split; [tauto|]. intros (?&?&?). split_and!; try done.
    eapply Forall_impl; [exact Hs|]. unfold before. intros e He. lia.
  - rewrite lookup_app_l // in Hm.
    assert (f_esL g = take FT_ORDER (f_esL g) ++ m :: drop (S FT_ORDER) (f_esL g)) as HL
      by (by apply lookup_split).
    rewrite {1}HL Forall_app Forall_cons.
    apply es_ok_app in Hok as (HokL & _ & _). rewrite HL in HokL.
    apply es_ok_app in HokL as (Ht & Hm' & Hlt).
    apply es_ok_cons in Hm' as ((_&_&?&_) & _ & _).
    split; [tauto|]. intros (?&?&?). split_and!; try done.
    apply Forall_forall. intros e He. specialize (Hlt e m He ltac:(set_solver)).
    unfold before in Hlt. lia.
Qed.

Lemma half_frame_elem m e :
  es_ok es → es !! FT_ORDER = Some m →
  e ∈ f_esL (half_frame a b g) ++ f_esR (half_frame a b g) →
  e ∈ es ∧ side_of (in_right_half g) m (lft e) ∧ side_of (in_right_half g) m (rgt e).
Proof.
  intros Hok Hm. unfold half_frame, in_right_half.
  destruct (Nat.leb_spec (length (f_esL g)) FT_ORDER) as [Hi|Hi]; simpl.
  - rewrite lookup_app_r // in Hm. set (n := (FT_ORDER - length (f_esL g))%nat) in *.
    assert (f_esR g = take n (f_esR g) ++ m :: drop (S n) (f_esR g)) as HR by (by apply lookup_split).
    intros He. assert (e ∈ f_esL g ++ f_esR g) as He'.
    { rewrite HR app_assoc. set_solver. }
    split; [done|]. pose proof (es_ok_ent _ _ Hok He') as (_&_&?&_).
    rewrite HR app_assoc in Hok. apply es_ok_app in Hok as (_ & _ & Hlt).
    specialize (Hlt e m He ltac:(set_solver)). unfold before, side_of in *. lia.
  - rewrite lookup_app_l // in Hm.
    assert (f_esL g = take FT_ORDER (f_esL g) ++ m :: drop (S FT_ORDER) (f_esL g)) as HL
      by (by apply lookup_split).
    intros He. assert (e ∈ f_esL g ++ f_esR g) as He'.
    { rewrite HL. set_solver. }
    split; [done|]. pose proof (es_ok_ent _ _ Hok He') as (_&_&?&_).
    rewrite HL -app_assoc /= in Hok. apply es_ok_app in Hok as (_ & Hok & _).
    apply es_ok_cons in Hok as (_ & Hs & _). rewrite Forall_forall in Hs.
    specialize (Hs e He). unfold before, side_of in *. lia.
Qed.
End half_frame.

(** A split keeps track of the hole. *)
Lemma node_tracked_split G h TL hL F g Fh m a b :
  node_tracked G h hL F g Fh →
  es_ok (f_esL g ++ f_esR g) → length (f_esL g ++ f_esR g) = FT_SPLITLIMIT →
  Forall (wf h) (f_tsL g ++ plug Fh TL :: f_tsR g) →
  (f_esL g ++ f_esR g) !! FT_ORDER = Some m →
  tracked G (S h) TL hL F
    (half_l a (f_esL g ++ f_esR g) (f_tsL g ++ plug Fh TL :: f_tsR g)) m
    (half_r b (f_esL g ++ f_esR g) (f_tsL g ++ plug Fh TL :: f_tsR g))
    (in_right_half g) (half_frame a b g :: Fh).
Proof.
  intros [Hctx HlL HlR Hgap Hnest] Hok Hlen Hwf Hm.
  pose proof (λ x, half_frame_gap a b g m x Hok Hm) as Hhalf.
  split.
  - rewrite half_frame_plug //.
  - done.
  - exists h. split_and!; [done| |done]. by eapply half_frame_ok.
  - intros x. rewrite Hgap Hhalf. unfold gap at 4. rewrite Forall_cons. unfold gap. tauto.
  - apply nested_cons_inv in Hnest as [Hg Hnest]. apply nested_cons.
    + intros e He. destruct (half_frame_elem a b g m e Hok Hm He) as (He' & ? & ?).
      destruct (Hg e He'). auto.
    + eapply nested_impl; [|exact Hnest]. intros x [? Hx]. apply Hhalf in Hx. tauto.
Qed.

(** The hole below the node into which the pending insertion goes. *)
Definition tracked_frame (s : bool) (f : frame) (A : ftree) (e : ft_ent) (B : ftree) : frame :=
  if s then mkFrame (f_loc f) (f_esL f ++ [e]) (f_tsL f ++ [A]) (f_esR f) (f_tsR f)
  else mkFrame (f_loc f) (f_esL f) (f_tsL f) (e :: f_esR f) (B :: f_tsR f).

Lemma tracked_frame_plug (s : bool) f A e B c :
  (if s then B else A) = c →
  TNode (f_loc f) (ins_es f e) (ins_ts f A B) = plug1 (tracked_frame s f A e B) c.
Proof.
  intros <-. destruct s; unfold plug1, ins_es, ins_ts; simpl; by rewrite -?app_assoc.
Qed.

Lemma tracked_frame_gap s f A e B x :
  ent_ok e → gap1 f (lft e) → gap1 f (rgt e) →
  gap1 (tracked_frame s f A e B) x ↔ gap1 f x ∧ side_of s e x.
Proof.
  intros _ _ _. destruct s; unfold gap1, gapLR; simpl; rewrite ?Forall_app ?Forall_cons; naive_solver.
Qed.

Lemma tracked_insert G H h TL hL F f A e B s Fh :
  ctx_ok H h (F ++ [f]) → nested (λ _, True) (F ++ [f]) →
  triple_ok (λ _, True) h (F ++ [f]) A e B →
  tracked G h TL hL (F ++ [f]) A e B s Fh →
  node_tracked G h hL F (tracked_frame s f A e B) Fh.
Proof.
  intros Hctx Hnest Ht [Hhole Hne Hc Hgap Hn]. destruct (triple_ok_snoc _ _ _ _ _ _ _ Ht) as [Hl Hr].
  destruct Ht as (_ & _ & He & [_ Hgl] & [_ Hgr]). apply gap_snoc in Hgl as [Hgl _], Hgr as [Hgr _].
  apply ctx_ok_snoc in Hctx as [_ (_ & _ & H1 & H2 & _)].
  split; [done|..].
  - destruct s; simpl; rewrite ?length_app /=; lia.
  - destruct s; simpl; lia.
  - intros x. rewrite Hgap gap_snoc tracked_frame_gap //. tauto.
  - apply nested_cons.
    + intros e' He'. assert (e' = e ∨ e' ∈ f_esL f ++ f_esR f) as [->|Hin].
      { destruct s; simpl in He'; set_solver. } { done. }
      destruct (Hnest F f [] e' eq_refl Hin) as [[??] [??]]. done.
    + eapply nested_impl; [|exact Hn]. intros x [Hx ?]. rewrite tracked_frame_gap //.
      apply gap_snoc in Hx. tauto.
Qed.

Lemma half_frame_path a b g :
  frame_path (half_frame a b g) =
  if Z.of_nat (length (f_esL g)) <=? Z.of_nat FT_ORDER
  then (a, Z.of_nat (length (f_esL g)))
  else (b, Z.of_nat (length (f_esL g)) - (Z.of_nat FT_ORDER + 1)).
Proof.
  unfold half_frame, frame_path.
  destruct (Nat.leb_spec (length (f_esL g)) FT_ORDER) as [Hi|Hi];
    destruct (Z.leb_spec (Z.of_nat (length (f_esL g))) (Z.of_nat FT_ORDER)); try lia; simpl; [done|].
  rewrite length_drop. f_equal. unfold FT_ORDER in *. lia.
Qed.

Lemma fmap_if {A B} (f : A → B) (c : bool) x y : f (if c then x else y) = if c then f x else f y.
Proof. by destruct c. Qed.

Section track_proof.
Context `{HG : !heapG ft_node Σ} `{AL : !Allocator}.
Variable log : gdpfs_log.

Lemma set_path_middle F (p q : loc * Z) (l : ftpath) :
  set_path (ctx_path F ++ p :: l) (length F) q = ctx_path F ++ q :: l.
Proof.
  rewrite /set_path insert_app_r_alt length_fmap; [|done]. by rewrite Nat.sub_diag.
Qed.

Lemma path_middle F (p : loc * Z) (l : ftpath) :
  (ctx_path F ++ p :: l) !! length F = Some p.
Proof. apply list_lookup_middle. by rewrite length_fmap. Qed.

(** The tree that results from a right continuation, with the hole of the left
    continuation at the end of [path]. *)
Definition track_stop (G : Z → Prop) (H hL : nat) (TL : ftree) (look : Z → option Z)
    (root : option loc) (rest : ftpath) (Φ : ftpath * option (option loc) → iProp Σ) : iProp Σ :=
  ∀ F', ⌜ctx_ok H hL F' ∧ (∀ b, G b ↔ gap F' b) ∧ nested (λ _, True) F' ∧ ptr (plug F' TL) = root ∧
    ∀ b, lookup_tree H (plug F' TL) b = look b⌝ -∗
    is_tree H (plug F' TL) -∗ Φ (ctx_path F' ++ rest, None).

(** After the insertion into a shared node. *)
Lemma wp_push_after fsi G H TL hL F f g Fh A e B h c rest rv Φ :
  ctx_ok H h (F ++ [f]) → nested (λ _, True) (F ++ [f]) →
  triple_ok (λ _, True) h (F ++ [f]) A e B → (Z.of_nat (length F) ≤ fsi)%Z →
  node_tracked G h hL F g Fh →
  TNode (f_loc f) (ins_es f e) (ins_ts f A B) = plug1 g (plug Fh TL) →
  insert_res h f e A B rv -∗ is_ctx (S h) F (Some (f_loc f)) -∗
  ( track_stop G H hL TL (pending H h (F ++ [f]) A e B c) (ptr (plug (F ++ [f]) c)) rest Φ ∧
    (∀ A' e' B' l s Fh',
      ⌜triple_ok (λ _, True) (S h) F A' e' B' ∧ tracked G (S h) TL hL F A' e' B' s Fh' ∧
       ∀ b, pending H (S h) F A' e' B' (plug1 f c) b = pending H h (F ++ [f]) A e B c b⌝ -∗
      is_triple (S h) A' e' B' (Some l) -∗ is_ctx (S h) F (Some (f_loc f)) -∗
      wp (ins_push log (length F) true fsi (ctx_path F ++ ctx_path Fh' ++ rest)
            e' (ptr A') (ptr B') (Some l)) Φ) ) -∗
  wp (fix_split log (ctx_path F ++ frame_path g :: ctx_path Fh ++ rest) (length F)
        (Z.of_nat (length (f_esL g))) rv)
     (λ path, wp
        (match rv with
         | None =>
             path ← (if true && (fsi <? Z.of_nat (length F)) then path_decrement fsi path
                     else mret path);
             mret (path, None)
         | Some top =>
             node ← load top;
             ent ← in_bounds (entries node !! 0%nat);
             lft ← subtree_get log top 0;
             rgt ← subtree_get log top 1;
             ins_push log (length F) true fsi path ent lft rgt (Some top)
         end) Φ).
Proof.
  iIntros (Hctx Hnest Ht Hk Hnt Hplug) "Hres HF HΦ".
  pose proof Hctx as [HctxF Hf]%ctx_ok_snoc. pose proof Ht as (HA & HB & He & _ & _).
  destruct (triple_ok_snoc _ _ _ _ _ _ _ Ht) as [Hl Hr].
  assert (ins_es f e = f_esL g ++ f_esR g ∧ ins_ts f A B = f_tsL g ++ plug Fh TL :: f_tsR g ∧
    f_loc f = f_loc g) as (Hes & Hts & Hloc) by (rewrite /plug1 in Hplug; by simplify_eq).
  destruct rv as [top|].
  - iDestruct "Hres" as (a b m (-> & Hlen & Hm)) "Ht".
    iAssert (is_triple (S h) (half_l a (ins_es f e) (ins_ts f A B)) m
      (half_r b (ins_es f e) (ins_ts f A B)) (Some (f_loc f))) with "Ht" as "Ht".
    assert (tracked G (S h) TL hL F (half_l a (ins_es f e) (ins_ts f A B)) m
      (half_r b (ins_es f e) (ins_ts f A B)) (in_right_half g) (half_frame a b g :: Fh)) as Htr.
    { rewrite Hes Hts. apply (node_tracked_split G h); rewrite -?Hes -?Hts //.
      - by eapply ins_es_ok.
      - by eapply ins_ts_wf. }
    iApply (wp_fix_split with "Ht"); [apply path_middle|]. iIntros "Ht".
    iApply (wp_push_next with "Ht"). iIntros "Ht". iDestruct "HΦ" as "[_ HΦ]".
    iSpecialize ("HΦ" with "[%] Ht HF").
    { split_and!; [by eapply triple_ok_split|exact Htr|]. intros x. by eapply pending_snoc_split. }
    rewrite !set_path_middle -(fmap_if (λ p, ctx_path F ++ p :: ctx_path Fh ++ rest)) -half_frame_path.
    iApply "HΦ".
  - iDestruct "Hres" as "[%Hlen Ht]". rewrite /fix_split. wp_ret.
    destruct (Z.ltb_spec fsi (Z.of_nat (length F))); [lia|]. simpl. wp_bind. wp_ret. wp_ret.
    iDestruct "HΦ" as "[HΦ _]".
    assert (plug (F ++ g :: Fh) TL = plug F (TNode (f_loc f) (ins_es f e) (ins_ts f A B))) as Heq.
    { by rewrite plug_app Hplug. }
    iSpecialize ("HΦ" $! (F ++ g :: Fh) with "[%] [HF Ht]").
    + split_and!.
      * apply ctx_ok_app. exists (S h). split; [done|]. exists h.
        destruct Hnt as [Hc HlL HlR _ _]. split_and!; [done| |done].
        pose proof (ins_wf h f A e B Hf HA HB He Hl Hr Hlen) as (Hok & Hlt & _ & Hwf).
        rewrite Hes in Hok Hlt. rewrite Hts in Hwf.
        apply Forall_app in Hwf as [? [??]%Forall_cons]. by split_and!.
      * intros x. rewrite (nt_gap _ _ _ _ _ _ Hnt) gap_app /gap Forall_cons. done.
      * apply nested_app; [by apply nested_app_inv in Hnest as [??]|].
        eapply nested_impl; [|exact (nt_nested _ _ _ _ _ _ Hnt)]. done.
      * rewrite !ptr_plug. destruct F; by rewrite /= ?Hloc.
      * intros x. rewrite Heq. by eapply pending_snoc_stop.
    + rewrite Heq is_tree_plug_ok; [|exact HctxF]. iFrame.
    + rewrite /ctx_path fmap_app -app_assoc. iApply "HΦ".
Qed.

Lemma is_triple_ptr_ne h A e B top x :
  ptr A = Some x → is_triple h A e B top -∗ ⌜ptr B ≠ Some x⌝.
Proof.
  iIntros (HA) "Ht". destruct top as [l|]; simpl.
  - iDestruct "Ht" as (sps d) "(_ & _ & TA & TB & _)". iIntros (HB).
    by iDestruct (is_tree_ptr_ne with "TA TB") as %?.
  - iDestruct "Ht" as %(_ & -> & _). done.
Qed.

(** The rest of the shared path. *)
Lemma wp_push_shared fsi G H TL hL F : ∀ Fh s A e B h c p rest l Φ,
  ctx_ok H h F → nested (λ _, True) F → triple_ok (λ _, True) h F A e B →
  (Z.of_nat (length F) ≤ fsi)%Z → tracked G h TL hL F A e B s Fh →
  is_ctx h F p -∗ is_triple h A e B (Some l) -∗
  ( track_stop G H hL TL (pending H h F A e B c) (ptr (plug F c)) rest Φ ∧
    (∀ A' e' B' l' s' Fh',
      ⌜triple_ok (λ _, True) H [] A' e' B' ∧ tracked G H TL hL [] A' e' B' s' Fh' ∧
       ∀ b, pending H H [] A' e' B' (plug F c) b = pending H h F A e B c b⌝ -∗
      is_triple H A' e' B' (Some l') -∗ Φ (ctx_path Fh' ++ rest, Some (Some l'))) ) -∗
  wp (ins_push log (length F) true fsi (ctx_path F ++ ctx_path Fh ++ rest)
        e (ptr A) (ptr B) (Some l)) Φ.
Proof.
  induction F as [|f F IH] using rev_ind;
    intros Fh s A e B h c p rest l Φ Hctx Hnest Ht Hfsi Htr; iIntros "HF Ht HΦ".
  { destruct Hctx. cbn [ins_push length]. wp_ret. iDestruct "HΦ" as "[_ HΦ]".
    by iApply ("HΦ" with "[%] Ht"). }
  pose proof Hctx as [HctxF Hf]%ctx_ok_snoc. pose proof Ht as (HA & HB & He & _ & _).
  destruct (triple_ok_snoc _ _ _ _ _ _ _ Ht) as [Hl Hr].
  pose proof (tracked_insert _ _ _ _ _ _ _ _ _ _ _ _ Hctx Hnest Ht Htr) as Hnt.
  pose proof (tr_hole _ _ _ _ _ _ _ _ _ _ Htr) as Hhole.
  rewrite is_ctx_snoc. iDestruct "HF" as "[HF Hf]".
  rewrite length_app Nat.add_1_r in Hfsi |- *. cbn [ins_push].
  destruct Fh as [|fh Fh]; [by destruct (tr_ne _ _ _ _ _ _ _ _ _ _ Htr)|].
  iAssert ⌜bool_decide (Some (f_loc fh) = ptr B) = s⌝%I as %Hs.
  { destruct s; simpl in Hhole; rewrite Hhole; simpl plug.
    - by rewrite bool_decide_eq_true_2.
    - iDestruct (is_triple_ptr_ne _ _ _ _ _ (f_loc fh) with "Ht") as %Hne; [done|].
      iPureIntro. apply bool_decide_eq_false_2. congruence. }
  rewrite /ctx_path fmap_app -/(ctx_path F) -app_assoc. cbn [fmap list_fmap app].
  wp_bind. iApply wp_in_bounds; [apply path_middle|]. rewrite {1}/frame_path.
  iApply (wp_push_insert with "Hf Ht"); [done..|]. iIntros (rv) "Hres".
  wp_bind. wp_bind. rewrite /fix_index. wp_bind. iApply wp_in_bounds; [apply path_middle|].
  rewrite {1}/frame_path. destruct (Z.eqb_spec (Z.of_nat (length F)) fsi); [lia|].
  destruct (Z.ltb_spec (Z.of_nat (length F)) fsi); [|lia].
  wp_bind. iApply wp_in_bounds.
  { rewrite lookup_app_r length_fmap; [|lia].
    by rewrite (_ : (S (length F) - length F)%nat = 1%nat); [|lia]. }
  rewrite {1}/frame_path Hs.
  iAssert (wp (fix_split log
      (ctx_path F ++ frame_path (tracked_frame s f A e B) :: ctx_path (fh :: Fh) ++ rest) (length F)
      (Z.of_nat (length (f_esL (tracked_frame s f A e B)))) rv) (λ path, wp
        (match rv with
         | None =>
             path ← (if true && (fsi <? Z.of_nat (length F)) then path_decrement fsi path
                     else mret path);
             mret (path, None)
         | Some top =>
             node ← load top;
             ent ← in_bounds (entries node !! 0%nat);
             lft ← subtree_get log top 0;
             rgt ← subtree_get log top 1;
             ins_push log (length F) true fsi path ent lft rgt (Some top)
         end) Φ)) with "[Hres HF HΦ]" as "Hwp".
  { iApply (wp_push_after with "Hres HF"); [done..|lia|exact Hnt|by apply tracked_frame_plug|].
    iSplit; [by iDestruct "HΦ" as "[HΦ _]"|].
    iIntros (A' e' B' l' s' Fh' (Ht' & Htr' & Hpend)) "Ht HF".
    iApply (IH with "HF Ht"); [done|by apply nested_app_inv in Hnest as [??]|done|lia|done|].
    iSplit.
    - iIntros (F' (?&?&?&?&Hlook)) "Ht". iDestruct "HΦ" as "[HΦ _]". iApply ("HΦ" with "[%] Ht").
      split_and!; try done; [by rewrite plug_snoc|]. intros x. rewrite Hlook. apply Hpend.
    - iIntros (A2 e2 B2 l2 s2 F2 (?&?&Hlook)) "Ht". iDestruct "HΦ" as "[_ HΦ]".
      iApply ("HΦ" with "[%] Ht"). split_and!; try done. intros x.
      rewrite plug_snoc Hlook. apply Hpend. }
  destruct s; wp_ret.
  - rewrite set_path_middle /frame_path /= length_app Nat2Z.inj_add. iApply "Hwp".
  - iApply "Hwp".
Qed.

(** The two frames of a node whose new entry [eR] separates the subtree of the
    left continuation from that of the right continuation. *)
Definition left_frame (l : loc) (esL : list ft_ent) (tsL : list ftree) (eR : ft_ent) (tR : ftree)
    (esR : list ft_ent) (tsR : list ftree) : frame := mkFrame l esL tsL (eR :: esR) (tR :: tsR).
Definition right_frame (l : loc) (esL : list ft_ent) (tsL : list ftree) (tL : ftree) (eR : ft_ent)
    (esR : list ft_ent) (tsR : list ftree) : frame :=
  mkFrame l (esL ++ [eR]) (tsL ++ [tL]) esR tsR.

Definition left_gap (F : list frame) (esL : list ft_ent) (eR : ft_ent) (esR : list ft_ent) (b : Z)
    : Prop := gap F b ∧ gapLR esL (eR :: esR) b.

Lemma plug_left_right l esL tsL tL eR tR esR tsR :
  plug1 (left_frame l esL tsL eR tR esR tsR) tL = plug1 (right_frame l esL tsL tL eR esR tsR) tR.
Proof. unfold plug1, left_frame, right_frame. simpl. by rewrite -!app_assoc. Qed.

(** An insertion right of [eR] leaves the gap left of it alone. *)
Lemma first_tracked H h F l esL tsL tL eR esR tsR A e B :
  ctx_ok H h (F ++ [right_frame l esL tsL tL eR esR tsR]) →
  nested (λ _, True) (F ++ [right_frame l esL tsL tL eR esR tsR]) →
  triple_ok (λ _, True) h (F ++ [right_frame l esL tsL tL eR esR tsR]) A e B →
  node_tracked (left_gap F esL eR esR) h h F
    (mkFrame l esL tsL (eR :: e :: esR) (A :: B :: tsR)) [].
Proof.
  intros Hctx Hnest Ht. destruct (triple_ok_snoc _ _ _ _ _ _ _ Ht) as [[Hl _] _].
  apply Forall_app in Hl as [_ [Hl _]%Forall_cons].
  destruct Ht as (_ & _ & _ & [_ [Hgl _]%gap_snoc] & [_ [Hgr _]%gap_snoc]).
  apply ctx_ok_snoc in Hctx as [_ (Hok & _ & H1 & H2 & _)]. simpl in *.
  rewrite !length_app /= in H1. rewrite -app_assoc in Hok.
  apply es_ok_app in Hok as (_ & ((_&_&?&_) & _)%es_ok_cons & _).
  split; simpl; [done|lia|lia| |].
  - intros b. rewrite /left_gap /gap1 /gapLR /= !Forall_cons. split; [|tauto].
    intros (?&?&?&?). split_and!; try done; [|constructor]. lia.
  - apply nested_cons; [|apply nested_nil]. simpl. intros e' He'.
    assert (e' = e ∨ e' ∈ (esL ++ [eR]) ++ esR) as [->|Hin] by set_solver; [done|].
    by destruct (Hnest F _ [] e' eq_refl Hin) as [[??] [??]].
Qed.

(** The insertion into the node where the paths of the continuations part. *)
Lemma wp_push_first H h F l esL tsL tL eR esR tsR A e B c p top rest Φ :
  let g := right_frame l esL tsL tL eR esR tsR in
  ctx_ok H h (F ++ [g]) → nested (λ _, True) (F ++ [g]) →
  triple_ok (λ _, True) h (F ++ [g]) A e B →
  is_ctx h (F ++ [g]) p -∗ is_triple h A e B top -∗
  ( track_stop (left_gap F esL eR esR) H h tL
      (pending H h (F ++ [g]) A e B c) (ptr (plug (F ++ [g]) c)) rest Φ ∧
    (∀ A' e' B' l' s' Fh',
      ⌜triple_ok (λ _, True) H [] A' e' B' ∧
       tracked (left_gap F esL eR esR) H tL h [] A' e' B' s' Fh' ∧
       ∀ b, pending H H [] A' e' B' (plug (F ++ [g]) c) b = pending H h (F ++ [g]) A e B c b⌝ -∗
      is_triple H A' e' B' (Some l') -∗ Φ (ctx_path Fh' ++ rest, Some (Some l'))) ) -∗
  wp (ins_push log (S (length F)) true (Z.of_nat (length F)) (ctx_path F ++ frame_path g :: rest)
        e (ptr A) (ptr B) top) Φ.
Proof.
  iIntros (g Hctx Hnest Ht) "HF Ht HΦ".
  pose proof Hctx as [HctxF Hf]%ctx_ok_snoc. pose proof Ht as (HA & HB & He & _ & _).
  destruct (triple_ok_snoc _ _ _ _ _ _ _ Ht) as [Hl Hr].
  rewrite is_ctx_snoc. iDestruct "HF" as "[HF Hf]". cbn [ins_push].
  wp_bind. iApply wp_in_bounds; [apply path_middle|]. rewrite {1}/frame_path.
  iApply (wp_push_insert with "Hf Ht"); [done..|]. iIntros (rv) "Hres".
  wp_bind. wp_bind. rewrite /fix_index. wp_bind. iApply wp_in_bounds; [apply path_middle|].
  rewrite {1}/frame_path Z.eqb_refl. wp_ret. rewrite set_path_middle.
  rewrite (_ : Z.of_nat (length (f_esL g)) - 1 = Z.of_nat (length esL))%Z; last first.
  { rewrite /g /= length_app /=. lia. }
  iApply (wp_push_after (Z.of_nat (length F)) (left_gap F esL eR esR)
    H tL h F g (mkFrame l esL tsL (eR :: e :: esR) (A :: B :: tsR)) [] A e B h c rest
    with "Hres HF"); [done..|by eapply first_tracked| |].
  { rewrite /plug1 /ins_es /ins_ts /= -!app_assoc. done. }
  iSplit; [by iDestruct "HΦ" as "[HΦ _]"|].
  iIntros (A' e' B' l' s' Fh' (Ht' & Htr' & Hpend)) "Ht HF".
  iApply (wp_push_shared with "HF Ht"); [done|by apply nested_app_inv in Hnest as [??]|done|lia|done|].
  iSplit.
  - iIntros (F' (?&?&?&?&Hlook)) "Ht". iDestruct "HΦ" as "[HΦ _]". iApply ("HΦ" with "[%] Ht").
    split_and!; try done; [by rewrite plug_snoc|]. intros x. rewrite Hlook. apply Hpend.
  - iIntros (A2 e2 B2 l2 s2 F2 (?&?&Hlook)) "Ht". iDestruct "HΦ" as "[_ HΦ]".
    iApply ("HΦ" with "[%] Ht"). split_and!; try done. intros x.
    rewrite plug_snoc Hlook. apply Hpend.
Qed.

(** The new root. *)
Lemma wp_ins_newroot maxdepth G H TL hL A e B s Fh l fsi rest Φ :
  tracked G H TL hL [] A e B s Fh → (length (ctx_path Fh ++ rest) < maxdepth)%nat →
  is_triple H A e B (Some l) -∗
  (is_triple H A e B (Some l) -∗
   Φ (ctx_path (tracked_frame s (mkFrame l [] [] [] []) A e B :: Fh) ++ rest, fsi + 1)) -∗
  wp (ins_newroot log maxdepth fsi (ctx_path Fh ++ rest) (Some l)) Φ.
Proof.
  iIntros (Htr Hlen) "Ht HΦ". pose proof (tr_hole _ _ _ _ _ _ _ _ _ _ Htr) as Hhole.
  destruct Fh as [|fh Fh]; [by destruct (tr_ne _ _ _ _ _ _ _ _ _ _ Htr)|].
  iAssert ⌜bool_decide (Some (f_loc fh) = ptr B) = s⌝%I as %Hs.
  { destruct s; simpl in Hhole; rewrite Hhole; simpl plug.
    - by rewrite bool_decide_eq_true_2.
    - iDestruct (is_triple_ptr_ne _ _ _ _ _ (f_loc fh) with "Ht") as %Hne; [done|].
      iPureIntro. apply bool_decide_eq_false_2. congruence. }
  rewrite /ins_newroot. wp_bind. iApply wp_deref. wp_bind. iApply wp_in_bounds; [done|].
  rewrite {1}/frame_path. wp_bind. iApply (wp_subtree_get_tree with "Ht"); [done|]. iIntros "Ht".
  rewrite Hs. wp_bind. apply Nat.ltb_lt in Hlen. destruct s; [wp_ret|].
  - rewrite Hlen. wp_ret. by iApply "HΦ".
  - wp_bind. iApply (wp_subtree_get_tree with "Ht"); [done|]. iIntros "Ht".
    wp_bind. iApply wp_assert.
    { apply bool_decide_eq_true_2. simpl in Hhole. by rewrite Hhole. }
    wp_ret. rewrite Hlen. wp_ret. by iApply "HΦ".
Qed.

End track_proof.
