(* ===== verification/FigWrite.v ===== *)
(** * Correctness of [ft_write]

    [ft_write] sets the bytes of its range to the value and leaves every other
    byte as it was. *)
From S2P Require Import Prelude.
From S2P Require Import Interval.
From S2P Require Import Types.
From S2P Require Import Heap.
From S2P Require Import FigNode.
From S2P Require Import FigTree.
From S2P Require Import FigSpec.
From S2P Require Import FigNodeProof.
From S2P Require Import FigPrune.
From S2P Require Import FigInsert.
From S2P Require Import FigDescend.
From S2P Require Import FigPush.
From S2P Require Import FigTrack.

#[local] Open Scope Z_scope.

Abbreviation any := (λ _ : Z, True).

(** ** Inserting into an empty place *)

Lemma range_ok_ent R v : range_ok R → ent_ok (mkEnt R v).
Proof. done. Qed.

Lemma pending_leaf H F R v b :
  ctx_ok H 0 F → (∀ b, b ∈ R → gap F b) →
  pending H 0 F TNull (mkEnt R v) TNull TNull b =
  if decide (b ∈ R) then Some v else lookup_tree H (plug F TNull) b.
Proof.
  intros Hctx HR. rewrite /pending. destruct (decide (gap F b)) as [Hg|Hg].
  - rewrite (lookup_plug_gap _ _ _ _ _ Hctx Hg) /look3 /lft /rgt /=.
    destruct (decide (b ∈ R)) as [Hb|Hb]; rewrite elem_of_interval in Hb.
    + destruct (Z.ltb_spec b (i_left R)); [lia|]. by destruct (Z.leb_spec b (i_right R)); [|lia].
    + destruct (Z.ltb_spec b (i_left R)); [done|]. by destruct (Z.leb_spec b (i_right R)); [lia|].
  - by rewrite decide_False; [|intros Hb; by apply Hg, HR].
Qed.

(** An insertion whose descent ended at an empty place below the context [F]. *)
Lemma leaf_triple_ok F R v :
  range_ok R → (∀ b, b ∈ R → gap F b) →
  triple_ok any 0 F TNull (mkEnt R v) TNull.
Proof.
  intros HR Hgap. pose proof HR as (_&_&?&_).
  split_and!; try done; apply Hgap; unfold lft, rgt; simpl; rewrite elem_of_interval; lia.
Qed.

Lemma gap_iff_app F1 F2 b : gap (F1 ++ F2) b ↔ gap F1 b ∧ gap F2 b.
Proof. apply gap_app. Qed.

(** The descent into the hole of a context. *)
Section hole.
Context (H h : nat) (F : list frame) (c : ftree) (a : insertargs).
Context (Hctx : ctx_ok H h F) (Hnest : nested any F).
Context (Hhole : hole_ok (λ b, byte_index b ∧ gap F b) h c a).
Context (F2 : list frame).
Context (Hd : descended (ia_range a) (ia_valid a) h c 0 F2 TNull).

Lemma hole_ctx : ctx_ok H 0 (F ++ F2).
Proof. apply ctx_ok_app. exists h. split; [done|]. apply Hd. Qed.

Lemma hole_gap b : b ∈ ia_range a → gap (F ++ F2) b.
Proof.
  intros Hb. apply gap_app. split; [by apply (hole_range_gap _ _ _ _ Hhole)|by apply (desc_gap _ _ _ _ _ _ _ Hd)].
Qed.

Lemma hole_nested : nested any (F ++ F2).
Proof.
  apply nested_app; [done|]. eapply nested_impl; [|exact (desc_nested _ _ _ _ _ _ _ Hd)].
  intros b [Hb Hnb]. by destruct (hole_valid_gap _ _ _ _ Hhole b Hb Hnb).
Qed.

Lemma hole_look b :
  byte_index b → b ∉ ia_range a →
  lookup_tree H (plug (F ++ F2) TNull) b = lookup_tree H (plug F c) b.
Proof.
  intros Hb Hn. rewrite plug_app. destruct (decide (gap F b)) as [Hg|Hg].
  - rewrite !(lookup_plug_gap _ _ _ _ _ Hctx Hg). apply Hd.
    by destruct (hole_cover _ _ _ _ Hhole b (conj Hb Hg)) as [?|[?|?]]; auto.
  - by eapply lookup_plug_out.
Qed.

Lemma hole_pending b v :
  byte_index b →
  pending H 0 (F ++ F2) TNull (mkEnt (ia_range a) v) TNull TNull b =
  if decide (b ∈ ia_range a) then Some v else lookup_tree H (plug F c) b.
Proof.
  intros Hb. rewrite pending_leaf; [|apply hole_ctx|apply hole_gap].
  case_decide; [done|]. by apply hole_look.
Qed.
End hole.

(** ** The residual ranges *)

Definition cont_look (ic : insertcont) (f : Z → option Z) (b : Z) : option Z :=
  match ic_leftc ic with
  | Some a => if decide (b ∈ ia_range a) then Some (ia_value a) else
      match ic_rightc ic with
      | Some a => if decide (b ∈ ia_range a) then Some (ia_value a) else f b
      | None => f b
      end
  | None =>
      match ic_rightc ic with
      | Some a => if decide (b ∈ ia_range a) then Some (ia_value a) else f b
      | None => f b
      end
  end.

(** Looking up a byte in a node whose entries [X ++ [p]] or [e :: es] have been
    replaced by [R]. *)
Lemma look_hit F es1 p es2 ts1 t ts2 b :
  length ts1 = length es1 → Forall ent_ok es1 → Forall (λ e, rgt e < b) es1 →
  lft p ≤ b ≤ rgt p →
  look F (es1 ++ p :: es2) (ts1 ++ t :: ts2) b = Some (ent_value p).
Proof.
  intros Hlen Hok Hlt Hb. rewrite look_app_l //. simpl.
  destruct (Z.ltb_spec b (lft p)); [lia|]. by destruct (Z.leb_spec b (rgt p)); [|lia].
Qed.

Lemma look_left_side F esL e es tsL tL ts R v esR ts' b :
  length tsL = length esL → es_ok (esL ++ e :: es) → i_left R ≤ rgt e → b < i_left R →
  look F (esL ++ e :: es) (tsL ++ tL :: ts) b =
  if lft e <=? b then Some (ent_value e)
  else look F (esL ++ mkEnt R v :: esR) (tsL ++ tL :: ts') b.
Proof.
  intros Hlen (HokL & _ & Hlt)%es_ok_app Ho Hb. destruct (Z.leb_spec (lft e) b).
  - apply look_hit; [done|apply HokL| |lia]. apply Forall_forall. intros e' He'.
    specialize (Hlt e' e He' ltac:(set_solver)). unfold before in Hlt. lia.
  - apply look_congr; [done|]. intros _. simpl. destruct (Z.ltb_spec b (lft e)); [|lia].
    by destruct (Z.ltb_spec b (lft (mkEnt R v))); [|unfold lft in *; simpl in *; lia].
Qed.

Lemma look_right_side F X p esR tX t tR tsR esL R v tsL tL b :
  length tX = length X → length tsL = length esL → es_ok (X ++ p :: esR) → Forall ent_ok esL →
  range_ok R → left_of R esL → lft p ≤ i_right R → i_right R < b →
  look F (X ++ p :: esR) (tX ++ t :: tR :: tsR) b =
  if b <=? rgt p then Some (ent_value p)
  else look F (esL ++ mkEnt R v :: esR) (tsL ++ tL :: tR :: tsR) b.
Proof.
  intros HlX HlL (HokX & (Hpok & _)%es_ok_cons & Hlt)%es_ok_app HokL HR HL Hpl Hb.
  pose proof HR as (_&_&?&_). pose proof Hpok as (_&_&?&_).
  assert (Forall (λ e, rgt e < lft p) X) as HX.
  { apply Forall_forall. intros e He. by apply (Hlt e p He ltac:(set_solver)). }
  destruct (Z.leb_spec b (rgt p)).
  - apply look_hit; [done|apply HokX| |lia]. eapply Forall_impl; [exact HX|]. simpl. intros; lia.
  - rewrite (cons_middle p) (cons_middle t) (cons_middle (mkEnt R v)) (cons_middle tL) !app_assoc.
    rewrite !look_app_l; [done|..]; rewrite ?length_app ?Forall_app ?Forall_singleton /=;
      try (split; [done || apply HokX|done]); try lia.
    + split; [|unfold rgt; simpl; lia]. eapply Forall_impl; [exact HL|]. simpl. intros; lia.
    + split; [|done]. eapply Forall_impl; [exact HX|]. simpl. intros; lia.
Qed.

Lemma replaced_elem h V R v es ts es2 ts2 idx ic (P : ft_ent → Prop) :
  (∀ e, e ∈ es → P e) → P (mkEnt R v) → replaced h V R v es ts es2 ts2 idx ic →
  ∀ e, e ∈ es2 → P e.
Proof.
  intros Hes HPR Hrep e'. destruct Hrep as [esL e esM p esR]. intros He'.
  assert (e' = mkEnt R v ∨ e' ∈ esL ++ esR) as [->|Hin] by set_solver; [done|].
  apply Hes. set_solver.
Qed.

Section replaced_facts.
Context (h : nat) (V R : interval) (v : Z) (es : list ft_ent) (ts : list ftree).
Context (Hpr : pruned h V es ts es ts) (HR : range_ok R) (HRV : ∀ b, b ∈ R → b ∈ V).

Lemma replaced_wf l es2 ts2 idx ic :
  (length es < FT_SPLITLIMIT)%nat → replaced h V R v es ts es2 ts2 idx ic →
  wf (S h) (TNode l es2 ts2).
Proof.
  intros Hlt Hrep. destruct Hpr as (Hok & _ & Hlen & Hwf & _).
  destruct Hrep as [esL e esM p esR tsL tL tsM tR tsR ic H1 H2 H3 HL HRr Ho1 Ho2 HM Hlast Hlc Hrc].
  rewrite app_comm_cons in Hok.
  apply es_ok_app in Hok as (HokL & (HokM & HokR & _)%es_ok_app & HLR).
  rewrite !length_app /= length_app in Hlt.
  apply Forall_app in Hwf as [HwL [HwtL [HwM [HwtR HwR]%Forall_cons]%Forall_app]%Forall_cons].
  split_and!.
  - apply es_ok_insert; [| | |].
    + apply es_ok_app. split_and!; [done|done|]. intros e1 e2 He1 He2. apply HLR; set_solver.
    + done.
    + eapply left_right_gap; [done..|]. unfold lft. simpl. rewrite elem_of_interval.
      destruct HR as (_&_&?&_). lia.
    + eapply left_right_gap; [done..|]. unfold rgt. simpl. rewrite elem_of_interval.
      destruct HR as (_&_&?&_). lia.
  - rewrite length_app /=. lia.
  - rewrite !length_app /=. lia.
  - apply Forall_app. split; [done|]. by repeat constructor.
Qed.

Lemma replaced_look F es2 ts2 idx ic b :
  replaced h V R v es ts es2 ts2 idx ic →
  cont_look ic (look F es2 ts2) b = if decide (b ∈ R) then Some v else look F es ts b.
Proof.
  intros Hrep. destruct Hpr as (Hok & _).
  destruct Hrep as [esL e esM p esR tsL tL tsM tR tsR ic H1 H2 H3 HL HRr Ho1 Ho2 HM Hlast Hlc Hrc].
  pose proof HR as (_&_&HRlr&_).
  assert (lft p ≤ i_right R) as Hpl.
  { apply last_Some_elem_of in Hlast as [->|Hp]%elem_of_cons; [done|].
    rewrite Forall_forall in HM. by apply HM. }
  assert (∃ X tX t, esL ++ e :: esM ++ esR = X ++ p :: esR ∧
    tsL ++ tL :: tsM ++ tR :: tsR = tX ++ t :: tR :: tsR ∧ length tX = length X)
    as (X & tX & t & Hes & Hts & HlX).
  { apply last_Some in Hlast as [esP Hep].
    pose proof (f_equal length Hep) as HlenP. rewrite length_app /= in HlenP.
    destruct (split_at (tsL ++ tL :: tsM) (length (esL ++ esP))) as (tX & t & tY & Heq & HlX).
    { rewrite !length_app /=. lia. }
    pose proof (f_equal length Heq) as Hl. rewrite !length_app /= in Hl. rewrite length_app in HlX.
    destruct tY; [|simpl in Hl; lia]. exists (esL ++ esP), tX, t.
    rewrite (app_comm_cons esM) Hep -!app_assoc. split_and!; [done| |rewrite length_app; lia].
    by rewrite (app_comm_cons tsM) app_assoc Heq -app_assoc. }
  destruct (decide (b ∈ R)) as [Hb|Hb]; rewrite elem_of_interval in Hb.
  - assert (look F (esL ++ mkEnt R v :: esR) (tsL ++ tL :: tR :: tsR) b = Some v) as Hhit.
    { apply (look_hit F _ (mkEnt R v)); [done|by apply es_ok_app in Hok as [[??] _]| |done].
      eapply Forall_impl; [exact HL|]. simpl. intros; lia. }
    unfold cont_look. destruct (ic_leftc ic) as [a|].
    + destruct Hlc as (_&_&Hin&_). rewrite decide_False; [|rewrite Hin; lia].
      destruct (ic_rightc ic) as [a'|]; [|done]. destruct Hrc as (_&_&Hin'&_).
      by rewrite decide_False; [|rewrite Hin'; lia].
    + destruct (ic_rightc ic) as [a'|]; [|done]. destruct Hrc as (_&_&Hin'&_).
      by rewrite decide_False; [|rewrite Hin'; lia].
  - destruct (Z_lt_le_dec b (i_left R)) as [Hbl|Hbl].
    + rewrite (look_left_side F esL e (esM ++ esR) tsL tL (tsM ++ tR :: tsR) R v esR (tR :: tsR)) //.
      unfold cont_look. destruct (ic_leftc ic) as [a|].
      * destruct Hlc as (_&Hv&Hin&_). case_decide as Hc; rewrite Hin in Hc.
        { destruct (Z.leb_spec (lft e) b); [by rewrite Hv|lia]. }
        destruct (Z.leb_spec (lft e) b); [lia|].
        destruct (ic_rightc ic) as [a'|]; [|done]. destruct Hrc as (_&_&Hin'&_).
        by rewrite decide_False; [|rewrite Hin'; lia].
      * simpl in Hlc. destruct (Z.leb_spec (lft e) b); [lia|].
        destruct (ic_rightc ic) as [a'|]; [|done]. destruct Hrc as (_&_&Hin'&_).
        by rewrite decide_False; [|rewrite Hin'; lia].
    + pose proof Hok as [[HokL _] _]%es_ok_app. rewrite Hes in Hok.
      rewrite Hes Hts (look_right_side F X p esR tX t tR tsR esL R v tsL tL) //; [|lia].
      unfold cont_look.
      assert ((match ic_rightc ic with
        | Some a => if decide (b ∈ ia_range a) then Some (ia_value a)
                    else look F (esL ++ mkEnt R v :: esR) (tsL ++ tL :: tR :: tsR) b
        | None => look F (esL ++ mkEnt R v :: esR) (tsL ++ tL :: tR :: tsR) b end) =
        if b <=? rgt p then Some (ent_value p)
        else look F (esL ++ mkEnt R v :: esR) (tsL ++ tL :: tR :: tsR) b) as ->.
      { destruct (ic_rightc ic) as [a'|].
        - destruct Hrc as (_&Hv&Hin'&_). case_decide as Hc; rewrite Hin' in Hc;
            (destruct (Z.leb_spec b (rgt p)); [try by rewrite Hv|]); done || lia.
        - simpl in Hrc. destruct (Z.leb_spec b (rgt p)); [lia|done]. }
      destruct (ic_leftc ic) as [a|]; [|done]. destruct Hlc as (_&_&Hin&_).
      by rewrite decide_False; [|rewrite Hin; lia].
Qed.

End replaced_facts.

Section write_proof.
Context `{HG : !heapG ft_node Σ} `{AL : !Allocator}.
Variable log : gdpfs_log.

(** The tree after an insertion loop that ran through the root. *)
Lemma triple_tree H A e B top :
  (0 < H)%nat → triple_ok any H [] A e B →
  is_triple H A e B top -∗ ∃ l, ⌜top = Some l ∧ wf (S H) (TNode l [e] [A; B]) ∧
    ∀ b, lookup_tree (S H) (TNode l [e] [A; B]) b = look3 (λ c, lookup_tree H c b) A e B b⌝ ∗
    is_tree (S H) (TNode l [e] [A; B]).
Proof.
  iIntros (HH (HA & HB & He & _)) "Ht". destruct top as [l|]; simpl.
  - iExists l. iFrame. iPureIntro. split_and!; try done.
    + apply es_ok_cons. split_and!; [done|done|apply es_ok_nil].
    + unfold FT_SPLITLIMIT, FT_ORDER; simpl; lia.
    + by repeat constructor.
  - iDestruct "Ht" as %(-> & _). lia.
Qed.

Lemma pending_nil H A e B c b :
  pending H H [] A e B c b = look3 (λ c, lookup_tree H c b) A e B b.
Proof. unfold pending. destruct (decide (gap [] b)) as [|Hn]; [done|]. destruct Hn. constructor. Qed.

(** Inserting an entry into an empty place, without a path to maintain. *)
Lemma wp_push_plain H F R v fsi Φ :
  (0 < H)%nat → ctx_ok H 0 F → nested any F → range_ok R → (∀ b, b ∈ R → gap F b) →
  is_tree H (plug F TNull) -∗
  (∀ path r t' H',
     ⌜wf H' t' ∧ match r with None => ptr t' = ptr (plug F TNull) | Some r => r = ptr t' end ∧
      (0 < H')%nat ∧ ∀ b, lookup_tree H' t' b =
        if decide (b ∈ R) then Some v else lookup_tree H (plug F TNull) b⌝ -∗
     is_tree H' t' -∗ Φ (path, r)) -∗
  wp (ins_push log (length (ctx_path F)) false fsi (ctx_path F) (mkEnt R v) None None None) Φ.
Proof.
  iIntros (HH Hctx Hnest HR Hgap) "Ht HΦ". rewrite (is_tree_plug_ok _ _ _ _ Hctx).
  iDestruct "Ht" as "[HF _]".
  pose proof (leaf_triple_ok F R v HR Hgap) as Ht.
  iPoseProof (wp_push_low log false fsi [] [] H any TNull 0 F TNull (mkEnt R v) TNull None None [] Φ
    with "HF [//]") as "Hpush"; [done..|].
  rewrite app_nil_r /= length_fmap. iApply "Hpush". iSplit.
  - iIntros (t' rest (Hwf & Hptr & _ & Hlook)) "Ht". wp_bind. wp_ret. wp_ret.
    iApply ("HΦ" with "[%] Ht"). split_and!; try done. intros b. rewrite Hlook. by apply pending_leaf.
  - iIntros (A e B top rest (Ht' & _ & Hlook)) "Ht". cbn [ins_push]. wp_ret.
    iDestruct (triple_tree with "Ht") as (l) "[(-> & Hwf & %Hl) Ht]"; [done..|].
    iDestruct "Hwf" as %Hwf. iApply ("HΦ" with "[%] Ht"). split_and!; [done|done|lia|].
    intros b. rewrite Hl -(pending_nil H A e B (plug F TNull)) Hlook. by apply pending_leaf.
Qed.

(** A continuation never meets an entry that overlaps its range. *)
Lemma beside_contra (R V V' : interval) h t (P : Z → Prop) :
  range_ok R → beside R V h t → (∀ b, b ∈ V' ↔ b ∈ V ∧ P b) → (∀ b, b ∈ R → b ∈ V') →
  ¬ blank h t → False.
Proof.
  intros (_&_&HR&_) Hside Hin HRV Hnb. destruct Hside as [Hs|[Hs|Hs]]; [| |done].
  - specialize (HRV (i_left R) ltac:(rewrite elem_of_interval; lia)).
    apply Hin in HRV as [HRV _]. specialize (Hs _ HRV). lia.
  - specialize (HRV (i_right R) ltac:(rewrite elem_of_interval; lia)).
    apply Hin in HRV as [HRV _]. specialize (Hs _ HRV). lia.
Qed.

(** ** The left continuation *)

Lemma wp_ft_insert_hole maxdepth H h F c a Φ :
  (0 < H)%nat → ctx_ok H h F → nested any F → wf h c →
  hole_ok (λ b, byte_index b ∧ gap F b) h c a → (H ≤ maxdepth)%nat →
  is_tree H (plug F c) -∗
  (∀ path t' H',
     ⌜wf H' t' ∧ (0 < H')%nat ∧ ∀ b, byte_index b → lookup_tree H' t' b =
        if decide (b ∈ ia_range a) then Some (ia_value a) else lookup_tree H (plug F c) b⌝ -∗
     is_tree H' t' -∗ Φ (mkFigtree (ptr t'), path, no_cont)) -∗
  wp (_ft_insert log maxdepth (mkFigtree (ptr (plug F c))) a (ctx_path F) false) Φ.
Proof.
  iIntros (HH Hctx Hnest Hwf Hhole Hmax) "Ht HΦ". rewrite (is_tree_plug_ok _ _ _ _ Hctx).
  iDestruct "Ht" as "[HF Hc]". rewrite /_ft_insert. wp_bind.
  destruct (Hhole) as [-> HR HV HRgap Hside Hcover HVgap].
  pose proof (ctx_ok_length _ _ _ Hctx) as HlenF.
  iApply (wp_ins_descend log with "Hc"); [done|done|done|by right|lia| |].
  { rewrite length_fmap. lia. }
  iSplit.
  - iIntros (F2 Hd) "Hc". rewrite /ctx_path -fmap_app -/(ctx_path _). wp_bind. wp_bind.
    assert (ptr (plug F c) = ptr (plug (F ++ F2) TNull)) as ->.
    { rewrite plug_app (ptr_plug F) (ptr_plug F (plug F2 TNull)) (desc_ptr _ _ _ _ _ _ _ Hd). done. }
    iApply (wp_push_plain H (F ++ F2) with "[HF Hc]"); [done|by eapply hole_ctx|
      by eapply hole_nested|done|by eapply hole_gap| |].
    { rewrite plug_app (is_tree_plug_ok _ _ _ _ Hctx) (desc_ptr _ _ _ _ _ _ _ Hd). iFrame. }
    iIntros (path r t' H' (Hwf' & Hptr & HH' & Hlook)) "Ht".
    assert (∀ b, byte_index b → lookup_tree H' t' b =
      if decide (b ∈ ia_range a) then Some (ia_value a) else lookup_tree H (plug F c) b) as Hlook'.
    { intros b Hb. rewrite Hlook. case_decide; [done|]. by eapply hole_look. }
    destruct r as [r|].
    + wp_bind. wp_ret. wp_ret. wp_ret. rewrite Hptr. by iApply ("HΦ" with "[%] Ht").
    + wp_ret. wp_ret. rewrite -Hptr. by iApply ("HΦ" with "[%] Ht").
  - iIntros (F2 hl l es ts es2 ts2 V' idx ic Hd (_ & Hin & HRV & Hnb & _)) "_". exfalso.
    by eapply beside_contra.
Qed.

(** ** The right continuation *)

(** Pushing below the shared part of the path and pushing the whole path agree. *)
Lemma pending_app H h F F2 e x f b :
  ctx_ok H h F → ctx_ok h 0 F2 →
  f b = pending h 0 F2 TNull e TNull TNull b →
  (if decide (gap F b) then f b else lookup_tree H (plug F x) b) =
  pending H 0 (F ++ F2) TNull e TNull TNull b.
Proof.
  intros Hctx Hctx2 ->. rewrite /pending plug_app.
  destruct (decide (gap F b)) as [Hg|Hg].
  - rewrite (lookup_plug_gap _ _ _ _ _ Hctx Hg). destruct (decide (gap F2 b)) as [Hg2|Hg2].
    + rewrite decide_True //. by apply gap_app.
    + rewrite decide_False // gap_app. tauto.
  - rewrite decide_False; [|rewrite gap_app; tauto]. by eapply lookup_plug_out.
Qed.

(** The trees that remain for the left continuation: a hole at the end of the
    path with an unchanged gap, and the range of the right continuation written. *)
Definition right_done (maxdepth : nat) (G : Z → Prop) (h : nat) (tL : ftree) (a : insertargs)
    (look : Z → option Z) (Φ : figtree * ftpath * insertcont → iProp Σ) : iProp Σ :=
  ∀ H' F', ⌜ctx_ok H' h F' ∧ (∀ b, G b ↔ gap F' b) ∧ nested any F' ∧ (0 < H' ≤ maxdepth)%nat ∧
      ∀ b, byte_index b → lookup_tree H' (plug F' tL) b =
        if decide (b ∈ ia_range a) then Some (ia_value a) else look b⌝ -∗
    is_tree H' (plug F' tL) -∗ Φ (mkFigtree (ptr (plug F' tL)), ctx_path F', no_cont).

Lemma take_ctx_path (F : list frame) (rest : ftpath) :
  take (length F) (ctx_path F ++ rest) = ctx_path F.
Proof. apply take_app_length'. by rewrite length_fmap. Qed.

Lemma frame_decrement l esL tsL tL tR eR esR tsR F rest Φ :
  Φ (ctx_path (F ++ [left_frame l esL tsL eR tR esR tsR]) ++ rest) -∗
  wp (path_decrement (Z.of_nat (length F))
        (ctx_path (F ++ [right_frame l esL tsL tL eR esR tsR]) ++ rest)) Φ.
Proof.
  iIntros "HΦ". rewrite /path_decrement. destruct (Z.ltb_spec (Z.of_nat (length F)) 0); [lia|].
  rewrite Nat2Z.id /ctx_path !fmap_app -!(app_assoc (frame_path <$> F)) /=.
  wp_bind. iApply wp_in_bounds; [apply path_middle|]. rewrite {1}/frame_path. wp_ret.
  rewrite -/(ctx_path F) set_path_middle /left_frame /right_frame /frame_path /= length_app /=.
  by rewrite (_ : Z.of_nat (length esL + 1) - 1 = Z.of_nat (length esL)); [|lia].
Qed.

(** The frame of the left continuation next to a right subtree [t]. *)
Section left_frame.
Context (H h : nat) (F : list frame) (l : loc) (esL : list ft_ent) (tsL : list ftree).
Context (tL t : ftree) (eR : ft_ent) (esR : list ft_ent) (tsR : list ftree).

Lemma left_ctx :
  ctx_ok H h (F ++ [right_frame l esL tsL tL eR esR tsR]) → wf h t →
  ctx_ok H h (F ++ [left_frame l esL tsL eR t esR tsR]).
Proof.
  rewrite !ctx_ok_snoc. intros [HF (Hok & Hlen & H1 & H2 & H3 & H4)] Ht. split; [done|].
  simpl in *. rewrite -app_assoc in Hok, Hlen. rewrite !length_app /= in H1.
  apply Forall_app in H3 as [? _]. split_and!; simpl; try done; try lia. by constructor.
Qed.

Lemma left_gap_snoc b :
  left_gap F esL eR esR b ↔ gap (F ++ [left_frame l esL tsL eR t esR tsR]) b.
Proof. by rewrite gap_snoc. Qed.

Lemma left_nested :
  nested any (F ++ [right_frame l esL tsL tL eR esR tsR]) →
  nested any (F ++ [left_frame l esL tsL eR t esR tsR]).
Proof.
  intros [HF Hg]%nested_app_inv. apply nested_app; [done|].
  apply nested_cons_inv in Hg as [Hg _]. apply nested_cons; [|apply nested_nil].
  simpl in *. intros e He. apply Hg. rewrite -app_assoc. done.
Qed.
End left_frame.

(** The frame of the new root above the shared path. *)
Section newroot.
Context (G : Z → Prop) (H h : nat) (TL A B : ftree) (e : ft_ent) (s : bool) (Fh : list frame) (l : loc).
Context (Htr : tracked G H TL h [] A e B s Fh) (Ht : triple_ok any H [] A e B).

Lemma newroot_ctx : ctx_ok (S H) h (tracked_frame s (mkFrame l [] [] [] []) A e B :: Fh).
Proof.
  destruct Ht as (HA & HB & He & _). exists H. split_and!; [done| |apply Htr].
  assert (es_ok [e]) as Hok by (apply es_ok_cons; split_and!; [done|done|apply es_ok_nil]).
  destruct s; split_and!; simpl; try done; try (by repeat constructor); unfold FT_SPLITLIMIT, FT_ORDER; simpl; lia.
Qed.

Lemma newroot_gap b : G b ↔ gap (tracked_frame s (mkFrame l [] [] [] []) A e B :: Fh) b.
Proof.
  destruct Ht as (_&_&He&_). rewrite (tr_gap _ _ _ _ _ _ _ _ _ _ Htr) /gap Forall_cons.
  rewrite tracked_frame_gap //. unfold gap1, gapLR. simpl.
  rewrite !Forall_nil. tauto.
Qed.

Lemma newroot_nested : nested any (tracked_frame s (mkFrame l [] [] [] []) A e B :: Fh).
Proof. apply nested_cons; [done|]. eapply nested_impl; [|apply Htr].
  destruct Ht as (_&_&He&_). intros b [_ Hb]. split; [done|].
  by rewrite tracked_frame_gap.
Qed.
End newroot.

Section right.
Context (maxdepth H h : nat) (F : list frame) (l : loc) (esL : list ft_ent) (tsL : list ftree).
Context (tL : ftree) (eR : ft_ent) (esR : list ft_ent) (tsR : list ftree) (c : ftree) (a : insertargs).
Let g := right_frame l esL tsL tL eR esR tsR.
Context (Hctx : ctx_ok H h (F ++ [g])) (Hnest : nested any (F ++ [g])).
Context (HwL : wf h tL) (Hwf : wf h c).
Context (Hhole : hole_ok (λ b, byte_index b ∧ gap (F ++ [g]) b) h c a).
Context (Hmax : maxdepth = S H).

(** The loop for the right continuation, followed by the end of [_ft_insert]. *)
Lemma wp_right_tail F2 root Φ :
  descended (ia_range a) (ia_valid a) h c 0 F2 TNull → root = ptr (plug (F ++ [g]) c) →
  is_ctx h (F ++ [g]) (ptr c) -∗ is_tree h (plug F2 TNull) -∗
  right_done maxdepth (left_gap F esL eR esR) h tL a (lookup_tree H (plug (F ++ [g]) c)) Φ -∗
  wp ('(path, top) ← ins_push log (length (ctx_path ((F ++ [g]) ++ F2))) true (Z.of_nat (length F))
         (ctx_path ((F ++ [g]) ++ F2)) (mkEnt (ia_range a) (ia_value a)) None None None;
      match top with
      | None => mret (mkFigtree root, path, Z.of_nat (length F), no_cont)
      | Some top =>
          '(path, fsi) ← ins_newroot log maxdepth (Z.of_nat (length F)) path top;
          mret (mkFigtree top, path, fsi, no_cont)
      end) (λ '(this, path, fsi, ic), Φ (this, take (Z.to_nat (fsi + 1)) path, ic)).
Proof.
  iIntros (Hd ->) "HF Hc HΦ". pose proof Hd as [Hctx2 _ Hptr2 Hgap2 Hnest2 _].
  pose proof (ctx_ok_length _ _ _ Hctx) as HlenF. rewrite length_app /= in HlenF.
  rewrite (is_tree_plug_ok _ _ _ _ Hctx2). iDestruct "Hc" as "[HF2 _]".
  assert (∀ b, b ∈ ia_range a → gap (F ++ [g]) b) as HRg by (intros b Hb; by apply (hole_range_gap _ _ _ _ Hhole b)).
  assert (range_ok (ia_range a)) as HR by apply Hhole.
  assert (∀ x f b, byte_index b →
    f b = pending h 0 F2 TNull (mkEnt (ia_range a) (ia_value a)) TNull TNull b →
    (if decide (gap (F ++ [g]) b) then f b else lookup_tree H (plug (F ++ [g]) x) b) =
    if decide (b ∈ ia_range a) then Some (ia_value a) else lookup_tree H (plug (F ++ [g]) c) b) as Hsem.
  { intros x f b Hb Hf. rewrite (pending_app H h (F ++ [g]) F2 _ x f b Hctx Hctx2 Hf).
    by eapply hole_pending. }
  assert (triple_ok (gap (F ++ [g])) 0 F2 TNull (mkEnt (ia_range a) (ia_value a)) TNull) as Ht.
  { destruct (leaf_triple_ok F2 (ia_range a) (ia_value a) HR Hgap2) as (?&?&?&[??]&[??]).
    destruct HR as (_&_&?&_).
    split_and!; try done; apply HRg; unfold lft, rgt; simpl; rewrite elem_of_interval; lia. }
  assert (nested (gap (F ++ [g])) F2) as Hn2.
  { eapply nested_impl; [|exact Hnest2]. intros b [Hb Hnb]. by apply (hole_valid_gap _ _ _ _ Hhole b). }
  wp_bind.
  iPoseProof (wp_push_low log true (Z.of_nat (length F)) (F ++ [g]) (ctx_path (F ++ [g])) h
    (gap (F ++ [g])) TNull 0 F2 TNull (mkEnt (ia_range a) (ia_value a)) TNull None None []
    with "HF2 [//]") as "Hpush"; [|by rewrite length_fmap|done..|].
  { rewrite length_fmap length_app /=. lia. }
  rewrite app_nil_r /ctx_path -fmap_app -/(ctx_path _) length_fmap (length_app (F ++ [g])).
  iApply "Hpush". iSplit.
  - iIntros (t' rest (Hwf' & Hptr' & _ & Hlook)) "Ht'". wp_bind.
    iApply (frame_decrement l esL tsL tL t' eR esR tsR F rest). wp_ret. wp_ret.
    assert (plug (F ++ [left_frame l esL tsL eR t' esR tsR]) tL = plug (F ++ [g]) t') as Heq.
    { by rewrite !plug_snoc plug_left_right. }
    rewrite (_ : Z.to_nat (Z.of_nat (length F) + 1) =
      length (F ++ [left_frame l esL tsL eR t' esR tsR])); [|rewrite length_app /=; lia].
    rewrite take_ctx_path.
    rewrite (_ : ptr (plug (F ++ [g]) c) = ptr (plug (F ++ [left_frame l esL tsL eR t' esR tsR]) tL));
      [|rewrite !ptr_plug; by destruct F].
    iApply ("HΦ" with "[%] [HF Ht']").
    + split_and!; [by eapply left_ctx|by intros; apply left_gap_snoc|by eapply left_nested|lia|lia|].
      intros b Hb. rewrite Heq -(Hsem t' (lookup_tree h t') b Hb (Hlook b)).
      case_decide as Hg; [by rewrite (lookup_plug_gap _ _ _ _ _ Hctx Hg)|done].
    + rewrite Heq (is_tree_plug_ok _ _ _ _ Hctx) Hptr' Hptr2. iFrame.
  - iIntros (A e B top rest (Ht' & Hlr & Hlook)) "Ht". simpl in Hlr. rewrite Nat.add_0_r in Hlr.
    assert (∀ b, byte_index b → pending H h (F ++ [g]) A e B (plug F2 TNull) b =
      if decide (b ∈ ia_range a) then Some (ia_value a) else lookup_tree H (plug (F ++ [g]) c) b)
      as Hsem'.
    { intros b Hb. rewrite -(Hsem (plug F2 TNull) (λ b, look3 (λ c, lookup_tree h c b) A e B b) b Hb) //.
      by rewrite -(pending_nil h A e B (plug F2 TNull)) Hlook. }
    rewrite (length_app F) Nat.add_1_r /ctx_path fmap_app -app_assoc /=.
    iApply (wp_push_first log H h F l esL tsL tL eR esR tsR A e B (plug F2 TNull) with "HF Ht");
      [done|done| |].
    { destruct Ht' as (?&?&?&[??]&[??]). by split_and!. }
    iSplit.
    + iIntros (F' (HctxF' & HgapF' & HnestF' & Hptr & HlookF')) "Ht". wp_ret.
      rewrite (_ : Z.to_nat (Z.of_nat (length F) + 1) = length F'); last first.
      { pose proof (ctx_ok_length _ _ _ HctxF'). lia. }
      rewrite take_ctx_path.
      rewrite (_ : ptr (plug (F ++ [g]) c) = ptr (plug F' tL)); last first.
      { rewrite Hptr !ptr_plug. by destruct F. }
      iApply ("HΦ" with "[%] Ht"). split_and!; try done; [lia|lia|].
      intros b Hb. rewrite HlookF'. by apply Hsem'.
    + iIntros (A' e' B' l' s' Fh' (Ht2 & Htr & Hpend)) "Ht".
      pose proof (ctx_ok_length _ _ _ (tr_ctx _ _ _ _ _ _ _ _ _ _ Htr)) as HlenFh.
      wp_bind. iApply (wp_ins_newroot with "Ht"); [exact Htr| |].
      { rewrite length_app length_fmap Hlr. pose proof (ctx_ok_length _ _ _ Hctx2). lia. }
      iIntros "Ht". wp_ret.
      pose proof (tracked_frame_plug s' (mkFrame l' [] [] [] []) A' e' B' _
        (tr_hole _ _ _ _ _ _ _ _ _ _ Htr)) as Hplug.
      set (F' := tracked_frame s' (mkFrame l' [] [] [] []) A' e' B' :: Fh') in *.
      rewrite (_ : mkFigtree (Some l') = mkFigtree (ptr (plug F' tL))); [|by destruct s'].
      rewrite (_ : Z.to_nat (Z.of_nat (length F) + 1 + 1) = length F'); [|simpl; lia].
      rewrite take_ctx_path.
      iDestruct (triple_tree with "Ht") as (l2) "[(%Hl2 & %Hwf2 & %Hlook2) Ht]"; [lia|done|].
      injection Hl2 as <-. cbn [f_loc] in Hplug.
      assert (plug F' tL = TNode l' [e'] [A'; B']) as Heq by done.
      iApply ("HΦ" $! (S H) with "[%] [Ht]"); [|by rewrite Heq].
      split_and!; [by eapply newroot_ctx|by eapply newroot_gap|by eapply newroot_nested|lia|lia|].
      intros b Hb. rewrite Heq Hlook2 -(pending_nil H A' e' B' (plug (F ++ [g]) (plug F2 TNull))).
      rewrite Hpend. by apply Hsem'.
Qed.
Lemma wp_ft_insert_right Φ :
  is_tree H (plug (F ++ [g]) c) -∗
  right_done maxdepth (left_gap F esL eR esR) h tL a (lookup_tree H (plug (F ++ [g]) c)) Φ -∗
  wp (_ft_insert log maxdepth (mkFigtree (ptr (plug (F ++ [g]) c))) a (ctx_path (F ++ [g])) true) Φ.
Proof.
  iIntros "Ht HΦ". rewrite (is_tree_plug_ok _ _ _ _ Hctx).
  iDestruct "Ht" as "[HF Hc]". rewrite /_ft_insert. wp_bind.
  destruct (Hhole) as [-> HR HV HRgap Hside Hcover HVgap].
  pose proof (ctx_ok_length _ _ _ Hctx) as HlenF.
  iApply (wp_ins_descend log with "Hc"); [done|done|done|by right|lia| |].
  { rewrite length_fmap. lia. }
  rewrite (_ : Z.of_nat (length (ctx_path (F ++ [g]))) - 1 = Z.of_nat (length F)); last first.
  { rewrite length_fmap length_app /=. lia. }
  iSplit.
  - iIntros (F2 Hd) "Hc". rewrite {1 2}/ctx_path -fmap_app -/(ctx_path _). wp_bind.
    iApply (wp_mono with "[HF Hc HΦ]").
    { iApply (wp_right_tail F2 _ (λ r, Φ r) with "HF Hc HΦ"); done. }
    iIntros ([[[this path] fsi] ic]) "HΦ". by wp_ret.
  - iIntros (F2 hl l' es ts es2 ts2 V' idx ic Hd (_ & Hin & HRV & Hnb & _)) "_". exfalso.
    by eapply beside_contra.
Qed.
End right.

(** ** The primary insertion *)

Lemma hole_ok_iff (G G' : Z → Prop) h c a :
  (∀ b, G b ↔ G' b) → hole_ok G h c a → hole_ok G' h c a.
Proof.
  intros HGG [H1 H2 H3 H4 H5 H6 H7]. split; try done.
  - intros b Hb. by apply HGG, H4.
  - intros b Hb. by apply H6, HGG.
  - intros b Hb Hn. by apply HGG, H7.
Qed.

Definition all_bytes : interval := i_init BYTE_INDEX_MIN BYTE_INDEX_MAX.

Lemma elem_of_all b : b ∈ all_bytes ↔ byte_index b.
Proof. done. Qed.

(** The state after the primary insertion when it replaced entries. *)
Record primary_done (R : interval) (v : Z) (H : nat) (t : ftree) (F : list frame) (hl : nat) (l : loc)
    (es2 : list ft_ent) (ts2 : list ftree) (idx : Z) (ic : insertcont) (V' : interval)
    (es : list ft_ent) (ts : list ftree) : Prop := PrimaryDone {
  pd_desc : descended R all_bytes H t (S hl) F (TNode l es ts);
  pd_wf : interval_wf V';
  pd_valid b : b ∈ V' ↔ byte_index b ∧ gap F b;
  pd_range b : b ∈ R → b ∈ V';
  pd_pruned : pruned hl V' es ts es ts;
  pd_replaced : replaced hl V' R v es ts es2 ts2 idx ic;
}.

Lemma wp_ft_insert_primary R v h t at_ Φ :
  wf (S h) t → range_ok R → at_ = ptr t →
  is_tree (S h) t -∗
  ( (∀ path t' H',
       ⌜wf H' t' ∧ (0 < H')%nat ∧ ∀ b, byte_index b → lookup_tree H' t' b =
          if decide (b ∈ R) then Some v else lookup_tree (S h) t b⌝ -∗
       is_tree H' t' -∗ Φ (mkFigtree (ptr t'), path, no_cont)) ∧
    (∀ F hl l es2 ts2 idx ic V' es ts,
       ⌜primary_done R v (S h) t F hl l es2 ts2 idx ic V' es ts⌝ -∗
       is_tree (S h) (plug F (TNode l es2 ts2)) -∗
       Φ (mkFigtree (ptr t), ctx_path F ++ [(l, idx)], ic)) ) -∗
  wp (_ft_insert log (S (S h)) (mkFigtree (ptr t)) (mkArgs R v at_ all_bytes) [] false) Φ.
Proof.
  iIntros (Hwf HR ->) "Ht HΦ". rewrite /_ft_insert. wp_bind. cbn [ia_range ia_value ia_at ia_valid].
  iApply (wp_ins_descend log with "Ht"); [done|done|done| |lia|simpl; lia|].
  { left. intros b. rewrite !elem_of_interval. destruct HR as (_&?&?&?). simpl.
    unfold BYTE_INDEX_MIN, BYTE_INDEX_MAX in *. lia. }
  iSplit.
  - iIntros (F Hd) "Ht". iDestruct "HΦ" as "[HΦ _]". wp_bind. wp_bind.
    destruct Hd as [Hctx Hwf2 Hptr Hgap Hnest Hlook].
    iApply (wp_push_plain (S h) F R v with "Ht"); [lia|done| |done|done|].
    { by eapply nested_impl; [|exact Hnest]. }
    iIntros (path r t' H' (Hwf' & Hr & HH' & Hlook')) "Ht".
    assert (∀ b, byte_index b → lookup_tree H' t' b =
      if decide (b ∈ R) then Some v else lookup_tree (S h) t b) as Hres.
    { intros b Hb. rewrite Hlook' Hlook //. by left. }
    destruct r as [r|].
    + wp_bind. wp_ret. wp_ret. wp_ret. rewrite Hr. by iApply ("HΦ" with "[%] Ht").
    + wp_ret. wp_ret. rewrite -Hptr -Hr. by iApply ("HΦ" with "[%] Ht").
  - iIntros (F hl l es ts es2 ts2 V' idx ic Hd (HV' & Hin & HRV & _ & Hpr & Hrep)) "Ht".
    iDestruct "HΦ" as "[_ HΦ]". wp_bind. wp_ret. wp_ret. by iApply ("HΦ" with "[%] Ht").
Qed.

(** The context of a hole next to the new entry. *)
Lemma replaced_frames R v H t F hl l esL tsL tL tR esR tsR idx ic V' es ts :
  wf H t → range_ok R →
  primary_done R v H t F hl l (esL ++ mkEnt R v :: esR) (tsL ++ tL :: tR :: tsR) idx ic V' es ts →
  length tsL = length esL → length tsR = length esR →
  let g := right_frame l esL tsL tL (mkEnt R v) esR tsR in
  ctx_ok H hl (F ++ [g]) ∧ nested any (F ++ [g]) ∧ wf hl tL ∧ wf hl tR ∧
  plug F (TNode l (esL ++ mkEnt R v :: esR) (tsL ++ tL :: tR :: tsR)) = plug (F ++ [g]) tR ∧
  plug F (TNode l (esL ++ mkEnt R v :: esR) (tsL ++ tL :: tR :: tsR)) =
    plug (F ++ [left_frame l esL tsL (mkEnt R v) tR esR tsR]) tL.
Proof.
  intros Hwft HR [Hd HV' Hin HRV Hpr Hrep] HlL HlR g. destruct Hd as [Hctx (_ & Hlen & _) _ _ Hnest _].
  assert (wf (S hl) (TNode l (esL ++ mkEnt R v :: esR) (tsL ++ tL :: tR :: tsR)))
    as (Hok & Hlen2 & Hlt & Hwf) by (by eapply replaced_wf).
  apply Forall_app in Hwf as [HwL [HwtL [HwtR HwR]%Forall_cons]%Forall_cons].
  split_and!; [| |done|done| |].
  - apply ctx_ok_snoc. split; [done|]. split_and!; simpl; rewrite -?app_assoc; try done.
    + rewrite !length_app /=. lia.
    + apply Forall_app. split; [done|]. by apply Forall_singleton.
  - apply nested_app; [by eapply nested_impl; [|exact Hnest]|].
    apply nested_cons; [|apply nested_nil]. simpl. rewrite -app_assoc.
    eapply (replaced_elem hl V' R v es ts _ _ idx ic
      (λ e, (True ∧ gap F (lft e)) ∧ (True ∧ gap F (rgt e)))); [| |exact Hrep].
    + intros e He. destruct Hpr as (Hoke & _ & _ & _ & Hw & _). rewrite Forall_forall in Hw.
      destruct (within_elem V' e (es_ok_ent _ _ Hoke He) (Hw e He)) as [Hl Hr].
      apply Hin in Hl as [_ Hl], Hr as [_ Hr]. done.
    + destruct HR as (_&_&?&_). repeat split; apply Hin, HRV;
        unfold lft, rgt; simpl; rewrite elem_of_interval; lia.
  - rewrite plug_snoc /plug1 /= -!app_assoc. done.
  - by rewrite plug_snoc.
Qed.

(** Writing the residual ranges back completes the update. *)
Lemma primary_look R v H t F hl l es2 ts2 idx ic V' es ts b :
  primary_done R v H t F hl l es2 ts2 idx ic V' es ts → range_ok R → byte_index b →
  cont_look ic (lookup_tree H (plug F (TNode l es2 ts2))) b =
  if decide (b ∈ R) then Some v else lookup_tree H t b.
Proof.
  intros [Hd HV' Hin HRV Hpr Hrep] HR Hb. destruct Hd as [Hctx _ _ Hgap _ Hlook].
  rewrite -Hlook; [|by left]. destruct (decide (gap F b)) as [Hg|Hg].
  - rewrite (lookup_plug_gap _ _ _ _ _ Hctx Hg).
    pose proof (replaced_look hl V' R v es ts Hpr HR (λ c, lookup_tree hl c b) es2 ts2 idx ic b Hrep)
      as Hr. cbn [lookup_tree]. rewrite -Hr /cont_look.
    by rewrite (lookup_plug_gap _ _ _ _ _ Hctx Hg).
  - rewrite decide_False; [|intros HbR; by apply Hg, Hgap].
    rewrite (lookup_plug_out _ _ _ _ (TNode l es2 ts2) _ Hctx Hg) /cont_look.
    destruct Hrep as [esL e esM p esR tsL tL tsM tR tsR ic _ _ _ _ _ _ _ _ _ Hlc Hrc].
    assert (∀ a, ic_leftc ic = Some a → b ∉ ia_range a) as HnL.
    { intros a Ha Hba. rewrite Ha in Hlc. destruct Hlc as (_&_&_&Hh).
      apply Hg. apply (hole_range_gap _ _ _ _ Hh) in Hba as [Hba _]. by apply Hin. }
    assert (∀ a, ic_rightc ic = Some a → b ∉ ia_range a) as HnR.
    { intros a Ha Hba. rewrite Ha in Hrc. destruct Hrc as (_&_&_&Hh).
      apply Hg. apply (hole_range_gap _ _ _ _ Hh) in Hba as [Hba _]. by apply Hin. }
    destruct (ic_leftc ic) as [a|], (ic_rightc ic) as [a'|];
      rewrite ?(decide_False (P:=b ∈ ia_range a)) ?(decide_False (P:=b ∈ ia_range a')); auto.
Qed.

(** The end of [ft_write]: the left continuation, if there is one. *)
Lemma wp_write_left maxdepth H h F c (lc : option insertargs) Φ :
  (0 < H ≤ maxdepth)%nat → ctx_ok H h F → nested any F → wf h c →
  match lc with
  | Some a => hole_ok (λ b, byte_index b ∧ gap F b) h c a
  | None => True
  end →
  is_tree H (plug F c) -∗
  (∀ t' h',
     ⌜wf (S h') t' ∧ ∀ b, byte_index b → lookup_tree (S h') t' b =
        match lc with
        | Some a => if decide (b ∈ ia_range a) then Some (ia_value a) else lookup_tree H (plug F c) b
        | None => lookup_tree H (plug F c) b
        end⌝ -∗
     is_tree (S h') t' -∗ Φ (mkFigtree (ptr t'))) -∗
  wp (match lc with
      | None => mret (mkFigtree (ptr (plug F c)))
      | Some leftc =>
          '(this, path, newstar) ← _ft_insert log maxdepth (mkFigtree (ptr (plug F c))) leftc
                                     (ctx_path F) false;
          assert (no_more newstar);;
          mret this
      end) Φ.
Proof.
  iIntros (HH Hctx Hnest Hwf Hlc) "Ht HΦ". destruct lc as [a|].
  - wp_bind. iApply (wp_ft_insert_hole with "Ht"); [lia|done..|lia|].
    iIntros (path t' [|h'] (Hwf' & HH' & Hlook)) "Ht"; [lia|].
    wp_bind. iApply wp_assert; [done|]. wp_ret. by iApply ("HΦ" with "[%] Ht").
  - wp_ret. destruct H as [|H]; [lia|]. iApply ("HΦ" with "[%] Ht").
    split; [by eapply wf_plug|done].
Qed.

Lemma wp_ft_write h t s e v Φ :
  wf (S h) t → BYTE_INDEX_MIN ≤ s → s ≤ e → e < BYTE_INDEX_MAX →
  is_tree (S h) t -∗
  (∀ h' t', ⌜wf (S h') t' ∧ ∀ b, byte_index b → lookup_tree (S h') t' b =
       if decide (s ≤ b ≤ e) then Some v else lookup_tree (S h) t b⌝ -∗
     is_tree (S h') t' -∗ Φ (mkFigtree (ptr t'))) -∗
  wp (ft_write log (mkFigtree (ptr t)) s e v) Φ.
Proof.
  iIntros (Hwf Hs Hse He) "Ht HΦ". rewrite /ft_write. cbn [ft_root].
  destruct t as [|l0 es0 ts0]; [done|]. set (t := TNode l0 es0 ts0) in *.
  wp_bind. iApply wp_deref. wp_bind. iApply (wp_load_tree with "Ht"). iIntros (sps d _) "Ht".
  cbn [HEIGHT]. rewrite (_ : Z.to_nat (Z.of_nat h + 2) = S (S h)); [|lia].
  assert (range_ok (i_init s e)) as HR by done.
  wp_bind. iApply (wp_ft_insert_primary (i_init s e) v h t with "Ht"); [done..|].
  iSplit.
  { iIntros (path t' [|H'] (Hwf' & HH & Hlook)) "Ht"; [lia|]. cbn [ic_leftc ic_rightc no_cont].
    wp_bind. wp_ret. wp_ret. by iApply ("HΦ" with "[%] Ht"). }
  iIntros (F hl l es2 ts2 idx ic V' es ts Hp) "Ht".
  pose proof (λ b, primary_look _ _ _ _ _ _ _ _ _ _ _ _ _ _ b Hp HR) as Hlook.
  pose proof (pd_replaced _ _ _ _ _ _ _ _ _ _ _ _ _ _ Hp) as Hrep.
  pose proof (pd_valid _ _ _ _ _ _ _ _ _ _ _ _ _ _ Hp) as Hin.
  pose proof (desc_ptr _ _ _ _ _ _ _ (pd_desc _ _ _ _ _ _ _ _ _ _ _ _ _ _ Hp)) as Hptr.
  destruct Hrep as [esL e' esM p esR tsL tL tsM tR tsR ic HlL _ HlR _ _ _ _ _ _ Hlc Hrc].
  destruct (replaced_frames _ _ _ _ _ _ _ _ _ _ _ _ _ _ _ _ _ _ Hwf HR Hp HlL HlR)
    as (Hctx & Hnest & HwL & HwR & HeqR & HeqL).
  set (gR := right_frame l esL tsL tL (mkEnt (i_init s e) v) esR tsR) in *.
  set (gL := left_frame l esL tsL (mkEnt (i_init s e) v) tR esR tsR) in *.
  assert (match ic_leftc ic with
    | Some a => hole_ok (λ b, byte_index b ∧ left_gap F esL (mkEnt (i_init s e) v) esR b) hl tL a
    | None => True end) as HholeL.
  { destruct (ic_leftc ic) as [a|]; [|done]. destruct Hlc as (_&_&_&Hh).
    eapply hole_ok_iff; [|exact Hh]. intros b. simpl. rewrite Hin. unfold left_gap. tauto. }
  assert (∀ (f : Z → option Z) H' t', (0 < S H')%nat → (∀ b, byte_index b → lookup_tree (S H') t' b =
      cont_look ic (lookup_tree (S h) (plug (F ++ [gR]) tR)) b) →
    ∀ b, byte_index b → lookup_tree (S H') t' b =
      if decide (s ≤ b ≤ e) then Some v else lookup_tree (S h) t b) as Hfinal.
  { intros _ H' t' _ Ht' b Hb. rewrite Ht' // -HeqR Hlook //. }
  rewrite HeqR.
  assert (ptr t = ptr (plug (F ++ [gR]) tR)) as ->.
  { rewrite -Hptr -HeqR !ptr_plug. by destruct F. }
  destruct (ic_rightc ic) as [ar|] eqn:Hright.
  - rewrite (_ : ctx_path F ++ [(l, Z.of_nat (length esL) + 1)] = ctx_path (F ++ [gR])); last first.
    { rewrite /ctx_path fmap_app /gR /frame_path /= length_app Nat2Z.inj_add. done. }
    destruct Hrc as (_&_&_&Hh). wp_bind. wp_bind.
    iApply (wp_ft_insert_right (S (S h)) (S h) hl F l esL tsL tL _ esR tsR tR ar with "Ht");
      [done|done|done| |done|].
    { eapply hole_ok_iff; [|exact Hh]. intros b. simpl. rewrite Hin gap_snoc. unfold gap1. simpl. tauto. }
    iIntros (H' F' (Hctx' & Hgap' & Hnest' & HH' & Hlook')) "Ht".
    wp_bind. iApply wp_assert; [done|]. wp_ret.
    iApply (wp_write_left with "Ht"); [done..| |].
    { destruct (ic_leftc ic) as [a|]; [|done]. eapply hole_ok_iff; [|exact HholeL].
      intros b. simpl. by rewrite Hgap'. }
    iIntros (t' h' (Hwf' & Hl')) "Ht". iApply ("HΦ" with "[%] Ht"). split; [done|].
    apply (Hfinal (λ _, None)); [lia|]. intros b Hb. rewrite Hl' // /cont_look Hright.
    by destruct (ic_leftc ic); rewrite Hlook'.
  - rewrite (_ : ctx_path F ++ [(l, Z.of_nat (length esL) + 0)] = ctx_path (F ++ [gL])); last first.
    { rewrite /ctx_path fmap_app /gL /frame_path /= Z.add_0_r. done. }
    wp_bind. wp_ret. rewrite -HeqR HeqL.
    iApply (wp_write_left with "Ht"); [lia|by eapply left_ctx|by eapply left_nested|done| |].
    { destruct (ic_leftc ic) as [a|]; [|done]. eapply hole_ok_iff; [|exact HholeL].
      intros b. simpl. by rewrite (left_gap_snoc F l esL tsL tR (mkEnt (i_init s e) v) esR tsR). }
    iIntros (t' h' (Hwf' & Hl')) "Ht". iApply ("HΦ" with "[%] Ht"). split; [done|].
    apply (Hfinal (λ _, None)); [lia|]. intros b Hb. rewrite Hl' // /cont_look Hright -HeqR HeqL.
    by destruct (ic_leftc ic).
Qed.

End write_proof.
