(* ===== verification/FigTheorems.v ===== *)
(** * The FIG tree as a byte map

    The contract of the FIG tree: after any sequence of writes, a lookup of a
    byte returns the value of the last write that covers it. *)
From S2P Require Import Prelude.
From S2P Require Import Interval.
From S2P Require Import Types.
From S2P Require Import Heap.
From S2P Require Import FigNode.
From S2P Require Import FigTree.
From S2P Require Import FigSpec.
From S2P Require Import FigNodeProof.
From S2P Require Import FigDescend.
From S2P Require Import FigWrite.

#[local] Open Scope Z_scope.

(** ** The abstract byte map *)

Definition byte_map := Z → option Z.

Definition bm_empty : byte_map := λ _, None.
Definition bm_write (m : byte_map) (s e v : Z) : byte_map :=
  λ b, if decide (s ≤ b ≤ e) then Some v else m b.

(** A sequence of writes [(start, end, value)]. *)
Definition bm_writes (ws : list (Z * Z * Z)) (m : byte_map) : byte_map :=
  foldl (λ m '(s, e, v), bm_write m s e v) m ws.

Definition write_ok (w : Z * Z * Z) : Prop :=
  let '(s, e, _) := w in BYTE_INDEX_MIN ≤ s ∧ s ≤ e ∧ e < BYTE_INDEX_MAX.

#[export] Instance write_ok_dec w : Decision (write_ok w).
Proof. destruct w as [[s e] v]. unfold write_ok. apply _. Defined.

Lemma bm_writes_ext ws m m' b :
  m b = m' b → bm_writes ws m b = bm_writes ws m' b.
Proof.
  revert m m'. induction ws as [|[[s e] v] ws IH]; intros m m' Hm; simpl; [done|].
  apply IH. unfold bm_write. by case_decide.
Qed.

(** ** Lookup *)

Lemma lookup_entries_spec F es ts b i :
  length ts = S (length es) →
  match lookup_entries es b i with
  | inl v => look F es ts b = Some v
  | inr j => ∃ k c, j = (i + k)%nat ∧ ts !! k = Some c ∧ look F es ts b = F c
  end.
Proof.
  revert ts i. induction es as [|e es IH]; intros [|c ts] i Hlen; simplify_eq/=.
  { exists 0%nat, c. by rewrite Nat.add_0_r. }
  unfold i_contains_val. fold (lft e) (rgt e).
  destruct (Z.leb_spec (lft e) b); destruct (Z.ltb_spec b (lft e)); try lia; simpl.
  - destruct (Z.leb_spec b (rgt e)); [done|]. specialize (IH ts (S i) Hlen).
    destruct (lookup_entries es b (S i)); [done|]. destruct IH as (k & c' & -> & ? & ?).
    exists (S k), c'. split_and!; [lia|done|done].
  - exists 0%nat, c. split_and!; [lia|done|done].
Qed.

Section lookup_proof.
Context `{HG : !heapG ft_node Σ} `{AL : !Allocator}.
Variable log : gdpfs_log.

Lemma wp_ft_lookup_rec b h : ∀ t fuel Φ,
  wf h t → (h < fuel)%nat →
  is_tree h t -∗ (is_tree h t -∗ Φ (lookup_tree h t b)) -∗
  wp (ft_lookup_rec log fuel (ptr t) b) Φ.
Proof.
  induction h as [|h IH]; intros t [|fuel] Φ Hwf Hfuel; try lia; iIntros "Ht HΦ";
    destruct t as [|l es ts]; try done; cbn [ft_lookup_rec ptr].
  { wp_ret. by iApply "HΦ". }
  destruct Hwf as (_ & _ & Hlen & Hwf).
  wp_bind. iApply (wp_load_tree with "Ht"). iIntros (sps d _) "Ht". cbn [entries].
  pose proof (lookup_entries_spec (λ c, lookup_tree h c b) es ts b 0 Hlen) as Hl.
  destruct (lookup_entries es b 0) as [v|j].
  - wp_ret. cbn [lookup_tree]. rewrite Hl. by iApply "HΦ".
  - destruct Hl as (k & c & -> & Hc & Hl). cbn [Nat.add].
    wp_bind. iApply (wp_subtree_get_tree with "Ht"); [done|]. iIntros "Ht".
    pose proof (list_elem_of_split_length _ _ _ Hc) as (tsL & tsR & -> & ->).
    cbn [lookup_tree]. rewrite Hl. iDestruct "Ht" as (sps' d') "(Hl & Hs & Hts)".
    rewrite big_sepL_app big_sepL_cons. iDestruct "Hts" as "(HL & Hc & HR)".
    apply Forall_app in Hwf as [_ [Hwf _]%Forall_cons].
    iApply (IH with "Hc"); [done|lia|]. iIntros "Hc". iApply "HΦ".
    simpl. iExists sps', d'. rewrite big_sepL_app big_sepL_cons. iFrame.
Qed.

Lemma wp_ft_lookup h t b Φ :
  wf (S h) t →
  is_tree (S h) t -∗ (is_tree (S h) t -∗ Φ (lookup_tree (S h) t b)) -∗
  wp (ft_lookup log (mkFigtree (ptr t)) b) Φ.
Proof.
  iIntros (Hwf) "Ht HΦ". destruct t as [|l es ts]; [done|]. rewrite /ft_lookup. cbn [ft_root ptr].
  wp_bind. iApply (wp_load_tree with "Ht"). iIntros (sps d _) "Ht". cbn [HEIGHT].
  rewrite (_ : (Z.to_nat (Z.of_nat h) + 2)%nat = S (S h)); [|lia].
  iApply (wp_ft_lookup_rec b (S h) (TNode l es ts) with "Ht HΦ"); [done|lia].
Qed.

Lemma wp_ft_init Φ :
  (∀ t, ⌜wf 1 t ∧ ∀ b, lookup_tree 1 t b = None⌝ -∗ is_tree 1 t -∗ Φ (mkFigtree (ptr t))) -∗
  wp ft_init Φ.
Proof.
  iIntros "HΦ". rewrite /ft_init. wp_bind. iApply wp_mono; [iApply (wp_ftn_new 0)|].
  iIntros (l) "(%t & [%Hptr %Hb] & Ht)". wp_ret. rewrite -Hptr. iApply ("HΦ" with "[%] Ht").
  split; [by apply blank_wf|]. intros b. by apply lookup_tree_blank.
Qed.

(** Running a sequence of writes. *)
Fixpoint ft_writes (this : figtree) (ws : list (Z * Z * Z)) : node_prog figtree :=
  match ws with
  | [] => mret this
  | (s, e, v) :: ws => this ← ft_write log this s e v; ft_writes this ws
  end.

Lemma wp_ft_writes ws : ∀ h t Φ,
  Forall write_ok ws → wf (S h) t →
  is_tree (S h) t -∗
  (∀ h' t', ⌜wf (S h') t' ∧ ∀ b, byte_index b →
      lookup_tree (S h') t' b = bm_writes ws (lookup_tree (S h) t) b⌝ -∗
     is_tree (S h') t' -∗ Φ (mkFigtree (ptr t'))) -∗
  wp (ft_writes (mkFigtree (ptr t)) ws) Φ.
Proof.
  induction ws as [|[[s e] v] ws IH]; iIntros (h t Φ Hws Hwf) "Ht HΦ"; cbn [ft_writes].
  { wp_ret. by iApply ("HΦ" with "[%] Ht"). }
  apply Forall_cons in Hws as [(Hs & Hse & He) Hws].
  wp_bind. iApply (wp_ft_write with "Ht"); [done..|].
  iIntros (h1 t1 (Hwf1 & Hl1)) "Ht". iApply (IH with "Ht"); [done..|].
  iIntros (h2 t2 (Hwf2 & Hl2)) "Ht". iApply ("HΦ" with "[%] Ht"). split; [done|].
  intros b Hb. rewrite Hl2 //. simpl bm_writes. apply bm_writes_ext. by apply Hl1.
Qed.

(** A client of the tree: create it, write, look up a byte. *)
Definition ft_session (ws : list (Z * Z * Z)) (b : Z) : node_prog (option Z) :=
  this ← ft_init;
  this ← ft_writes this ws;
  ft_lookup log this b.

End lookup_proof.

(** C6: the FIG tree is a byte map.  For every allocator and every sequence of
    writes to ranges that end below [BYTE_INDEX_MAX], the run of [ft_init], the
    [ft_write]s and an [ft_lookup] neither fails an assertion nor touches memory
    that is not allocated, it terminates, and it returns the value of the last
    write that covers the byte. *)
Theorem ft_session_correct `{AL : !Allocator} log ws b
    (Hws : Forall write_ok ws) (Hb : byte_index b) :
  ∃ σ, ft_session log ws b ∅ = Ok (bm_writes ws bm_empty b, σ).
Proof.
  destruct (wp_adequacy (ft_session log ws b) ∅ (λ r, r = bm_writes ws bm_empty b))
    as (r & σ & Hrun & ->); [|by exists σ].
  iIntros (Σ HG) "_". rewrite /ft_session. wp_bind. iApply wp_ft_init.
  iIntros (t (Hwf & Hl)) "Ht". wp_bind. iApply (wp_ft_writes with "Ht"); [done..|].
  iIntros (h' t' (Hwf' & Hl')) "Ht". iApply (wp_ft_lookup with "Ht"); [done|].
  iIntros "_". iPureIntro. rewrite Hl' //. apply bm_writes_ext, Hl.
Qed.

Lemma ft_session_correct_witness :
  Forall write_ok [(0, 99, 1); (20, 29, 2); (25, 120, 3)] ∧
  ∃ σ, ft_session (λ _, None) [(0, 99, 1); (20, 29, 2); (25, 120, 3)] 27 ∅ = Ok (Some 3, σ).
Proof.
  split.
  - repeat constructor; vm_compute; congruence.
  - apply (ft_session_correct (λ _, None) [(0, 99, 1); (20, 29, 2); (25, 120, 3)] 27).
    + repeat constructor; vm_compute; congruence.
    + split; vm_compute; congruence.
Defined.
