(* ===== verification/Bitmap.v ===== *)
(** * Bitmaps ([src/bitmap.c])

    A bitmap hands out the numbers [0 .. size - 1]; the file layer uses one for
    its open file handles.  The flexible array member [data] is a list of bytes
    with checked accesses, [NULL] is [None], and a locked region is one step.  A
    [uint64_t] result of [-1] is [2^64 - 1]. *)
From S2P Require Import Prelude.

(** ** Data and operations *)

Record bitmap := mkBitmap {
  bm_size : Z;
  bm_data : list Z;
}.

Definition UINT64_MINUS_1 : Z := 2 ^ 64 - 1.

Definition byte_size (bit_size : Z) : Z := wrap64 (1 + wrap64 (bit_size - 1) / 8).

(** [mutex_err] is the result of [ep_thr_mutex_init]; [ep_mem_zalloc] aborts
    instead of returning [NULL]. *)
Definition bitmap_create (size mutex_err : Z) : option bitmap :=
  if mutex_err =? 0 then Some (mkBitmap size (replicate (Z.to_nat (byte_size size)) 0))
  else None.

Definition read_byte (data : list Z) (byte : Z) : res Z :=
  match data !! Z.to_nat byte with
  | Some field => if 0 <=? byte then Ok field else Fault OutOfBounds
  | None => Fault OutOfBounds
  end.

Definition write_byte (b : bitmap) (byte field : Z) : bitmap :=
  mkBitmap (bm_size b) (<[Z.to_nat byte := wrap8 field]> (bm_data b)).

(** [for (byte = 0; data[byte] == 0xFF && byte < byte_size(size); byte++)] *)
Fixpoint skip_full (data : list Z) (byte limit : Z) : res Z :=
  match data with
  | [] => Fault OutOfBounds
  | d :: data => if (d =? 255) && (byte <? limit) then skip_full data (byte + 1) limit else Ok byte
  end.

(** [for (bit = 0; bit < bit_lim; bit++)], looking for a clear bit. *)
Fixpoint find_clear (field bit : Z) (n : nat) : option Z :=
  match n with
  | O => None
  | S n =>
      if Z.land (Z.shiftr field bit) 1 =? 0 then Some bit else find_clear field (bit + 1) n
  end.

Definition bit_lim (size byte : Z) : Z :=
  if byte =? byte_size size - 1 then (size - 1) mod 8 + 1
  else if byte =? byte_size size then 0
  else 8.

Definition bitmap_reserve (bmp : option bitmap) : res (Z * option bitmap) :=
  match bmp with
  | None => Ok (UINT64_MINUS_1, None)
  | Some b =>
      byte ← skip_full (bm_data b) 0 (byte_size (bm_size b));
      let lim := bit_lim (bm_size b) byte in
      if lim =? 0 then Ok (UINT64_MINUS_1, Some b) else
      field ← read_byte (bm_data b) byte;
      match find_clear field 0 (Z.to_nat lim) with
      | Some bit =>
          Ok (byte * 8 + bit, Some (write_byte b byte (Z.lor field (Z.shiftl 1 bit))))
      | None => Ok (UINT64_MINUS_1, Some b)
      end
  end.

Definition bitmap_release (bmp : option bitmap) (val : Z) : res (Z * option bitmap) :=
  match bmp with
  | None => Ok (-1, None)
  | Some b =>
      if bm_size b <? val then Ok (-1, Some b) else
      let byte := val / 8 in
      let bit := val mod 8 in
      field ← read_byte (bm_data b) byte;
      if negb (Z.land (Z.shiftr field bit) 1 =? 1) then Ok (-1, Some b)
      else Ok (0, Some (write_byte b byte (Z.land field (Z.lnot (Z.shiftl 1 bit)))))
  end.

Definition bitmap_set (bmp : option bitmap) (val : Z) : res (Z * option bitmap) :=
  match bmp with
  | None => Ok (-1, None)
  | Some b =>
      if bm_size b <? val then Ok (-1, Some b) else
      let byte := val / 8 in
      let bit := val mod 8 in
      field ← read_byte (bm_data b) byte;
      if negb (Z.land (Z.shiftr field bit) 1 =? 0) then Ok (-1, Some b)
      else Ok (0, Some (write_byte b byte (Z.lor field (Z.shiftl 1 bit))))
  end.

Definition bitmap_is_set (bmp : option bitmap) (val : Z) : res Z :=
  match bmp with
  | None => Ok (-1)
  | Some b =>
      if bm_size b <? val then Ok (-1) else
      field ← read_byte (bm_data b) (val / 8);
      Ok (Z.land (Z.shiftr field (val mod 8)) 1)
  end.

(** ** Meaning *)

(** Whether number [i] is handed out. *)
Definition bit_at (data : list Z) (i : Z) : bool :=
  match data !! Z.to_nat (i / 8) with Some field => Z.testbit field (i mod 8) | None => false end.

(** The representation invariant. *)
Definition bitmap_wf (b : bitmap) : Prop :=
  0 < bm_size b < 2 ^ 63 ∧ Z.of_nat (length (bm_data b)) = byte_size (bm_size b) ∧
  Forall (in_width 8) (bm_data b).

(** [b] represents the set of numbers [S]; the bits beyond [size] in the last byte
    are clear. *)
Definition represents (b : bitmap) (S : gset Z) : Prop :=
  bitmap_wf b ∧ (∀ i, i ∈ S → 0 ≤ i < bm_size b) ∧
  ∀ i, 0 ≤ i < 8 * Z.of_nat (length (bm_data b)) → bit_at (bm_data b) i = bool_decide (i ∈ S).

(** ** Bits *)

Lemma byte_size_eq size : 0 < size < 2 ^ 63 → byte_size size = (size - 1) / 8 + 1.
Proof.
  intros H. unfold byte_size, wrap.
  rewrite (Z.mod_small (size - 1)) by lia. rewrite Z.mod_small; [lia|].
  pose proof (Z.div_pos (size - 1) 8). pose proof (Z.div_le_upper_bound (size - 1) 8 (2 ^ 63)). lia.
Qed.

Lemma land_1_testbit field bit :
  0 ≤ bit → Z.land (Z.shiftr field bit) 1 = Z.b2z (Z.testbit field bit).
Proof.
  intros H. change 1 with (Z.ones 1). rewrite Z.land_ones by lia.
  rewrite <-Z.bit0_mod, Z.shiftr_spec by lia. by rewrite Z.add_0_l.
Qed.

Lemma in_width_8_testbit z i : in_width 8 z → 8 ≤ i → Z.testbit z i = false.
Proof.
  intros [H0 H1] Hi. destruct (Z.eq_dec z 0) as [->|Hz]; [apply Z.bits_0|].
  apply Z.bits_above_log2; [lia|]. apply Z.log2_lt_pow2; [lia|].
  apply Z.lt_le_trans with (2 ^ 8); [done|]. apply Z.pow_le_mono_r; lia.
Qed.

Lemma testbit_wrap8 z i : 0 ≤ i < 8 → Z.testbit (wrap8 z) i = Z.testbit z i.
Proof. intros H. unfold wrap. apply Z.mod_pow2_bits_low. lia. Qed.

Lemma testbit_set field bit i :
  0 ≤ bit < 8 → 0 ≤ i < 8 →
  Z.testbit (wrap8 (Z.lor field (Z.shiftl 1 bit))) i = (i =? bit) || Z.testbit field i.
Proof.
  intros Hb Hi. rewrite testbit_wrap8, Z.lor_spec by done.
  rewrite Z.shiftl_1_l, Z.pow2_bits_eqb by lia. rewrite (Z.eqb_sym bit). apply orb_comm.
Qed.

Lemma testbit_clear field bit i :
  0 ≤ bit < 8 → 0 ≤ i < 8 →
  Z.testbit (wrap8 (Z.land field (Z.lnot (Z.shiftl 1 bit)))) i = negb (i =? bit) && Z.testbit field i.
Proof.
  intros Hb Hi. rewrite testbit_wrap8, Z.land_spec, Z.lnot_spec by lia.
  rewrite Z.shiftl_1_l, Z.pow2_bits_eqb by lia. rewrite (Z.eqb_sym bit). apply andb_comm.
Qed.

(** All bits of [0xFF] are set, and no other byte has this property. *)
Lemma full_byte field :
  in_width 8 field → field = 255 ↔ ∀ i, 0 ≤ i < 8 → Z.testbit field i = true.
Proof.
  intros H. split.
  - intros -> i Hi. change 255 with (Z.ones 8). apply Z.ones_spec_low. lia.
  - intros Hall. change 255 with (Z.ones 8). apply Z.bits_inj'. intros i Hi.
    destruct (Z_lt_le_dec i 8).
    + rewrite Hall, Z.ones_spec_low by lia. done.
    + rewrite in_width_8_testbit, Z.ones_spec_high by lia || done. done.
Qed.

Lemma find_clear_spec field bit n :
  0 ≤ bit →
  match find_clear field bit n with
  | Some k => bit ≤ k < bit + Z.of_nat n ∧ Z.testbit field k = false ∧
      ∀ i, bit ≤ i < k → Z.testbit field i = true
  | None => ∀ i, bit ≤ i < bit + Z.of_nat n → Z.testbit field i = true
  end.
Proof.
  revert bit. induction n as [|n IH]; intros bit Hbit; simpl find_clear.
  { intros i Hi. lia. }
  rewrite land_1_testbit by done.
  destruct (Z.testbit field bit) eqn:Hb; simpl.
  - specialize (IH (bit + 1) ltac:(lia)). destruct (find_clear field (bit + 1) n) as [k|].
    + destruct IH as (? & ? & Hall). split_and!; [lia|lia|done|].
      intros i Hi. destruct (Z.eq_dec i bit) as [->|]; [done|]. apply Hall. lia.
    + intros i Hi. destruct (Z.eq_dec i bit) as [->|]; [done|]. apply IH. lia.
  - split_and!; [lia|lia|done|]. intros i Hi. lia.
Qed.

Lemma skip_full_spec data byte limit :
  Forall (in_width 8) data → byte + Z.of_nat (length data) ≤ limit →
  match skip_full data byte limit with
  | Ok k => byte ≤ k < byte + Z.of_nat (length data) ∧
      (∃ d, data !! Z.to_nat (k - byte) = Some d ∧ d ≠ 255) ∧
      ∀ j, byte ≤ j < k → data !! Z.to_nat (j - byte) = Some 255
  | Fault f => f = OutOfBounds ∧ ∀ j, (j < length data)%nat → data !! j = Some 255
  end.
Proof.
  revert byte. induction data as [|d data IH]; intros byte Hw Hlim; simpl.
  { split; [done|]. intros j Hj. lia. }
  apply Forall_cons in Hw as [Hd Hw]. simpl in Hlim.
  destruct (Z.eqb_spec d 255) as [->|Hne]; simpl.
  - destruct (Z.ltb_spec byte limit); [|lia].
    specialize (IH (byte + 1) Hw ltac:(lia)). destruct (skip_full data (byte + 1) limit) as [k|f].
    + destruct IH as (? & (d' & Hd' & Hne) & Hall). split_and!; [lia|lia| |].
      * exists d'. replace (Z.to_nat (k - byte)) with (S (Z.to_nat (k - (byte + 1)))) by lia. done.
      * intros j Hj. destruct (Z.eq_dec j byte) as [->|]; [by rewrite Z.sub_diag|].
        replace (Z.to_nat (j - byte)) with (S (Z.to_nat (j - (byte + 1)))) by lia. apply Hall. lia.
    + destruct IH as [-> Hall]. split; [done|]. intros [|j] Hj; [done|]. apply Hall. lia.
  - split_and!; [lia|lia| |].
    + exists d. rewrite Z.sub_diag. done.
    + intros j Hj. lia.
Qed.

(** ** Reading and writing one number *)

Lemma read_byte_ok data byte :
  0 ≤ byte < Z.of_nat (length data) →
  ∃ field, read_byte data byte = Ok field ∧ data !! Z.to_nat byte = Some field.
Proof.
  intros H. destruct (lookup_lt_is_Some_2 data (Z.to_nat byte) ltac:(lia)) as [field Hf].
  exists field. unfold read_byte. rewrite Hf. by destruct (Z.leb_spec 0 byte); [|lia].
Qed.

Lemma read_byte_oob data byte :
  Z.of_nat (length data) ≤ byte → read_byte data byte = Fault OutOfBounds.
Proof. intros H. unfold read_byte. by rewrite lookup_ge_None_2 by lia. Qed.

Lemma bit_at_lookup data i field :
  data !! Z.to_nat (i / 8) = Some field → bit_at data i = Z.testbit field (i mod 8).
Proof. unfold bit_at. by intros ->. Qed.

Lemma bit_at_write data byte field i :
  0 ≤ byte < Z.of_nat (length data) → 0 ≤ i →
  bit_at (<[Z.to_nat byte := wrap8 field]> data) i =
  if i / 8 =? byte then Z.testbit (wrap8 field) (i mod 8) else bit_at data i.
Proof.
  intros Hb Hi. unfold bit_at. pose proof (Z.div_pos i 8 Hi ltac:(lia)).
  destruct (Z.eqb_spec (i / 8) byte) as [->|Hne].
  - by rewrite list_lookup_insert_eq by lia.
  - by rewrite list_lookup_insert_ne by lia.
Qed.

Lemma same_number i val : 0 ≤ i → 0 ≤ val → i / 8 = val / 8 → i mod 8 = val mod 8 → i = val.
Proof.
  intros _ _ Hd Hm. rewrite (Z.div_mod i 8), (Z.div_mod val 8) by lia. congruence.
Qed.

Section numbers.
Context (b : bitmap) (S : gset Z) (Hb : represents b S).

Lemma rep_index val : 0 ≤ val < bm_size b → 0 ≤ val / 8 < Z.of_nat (length (bm_data b)).
Proof.
  destruct Hb as ((Hs & Hl & _) & _). intros Hv. rewrite Hl, byte_size_eq by done.
  split; [apply Z.div_pos; lia|]. pose proof (Z.div_le_mono val (bm_size b - 1) 8). lia.
Qed.

Lemma rep_pad : bm_size b ≤ 8 * Z.of_nat (length (bm_data b)).
Proof.
  destruct Hb as ((Hs & Hl & _) & _). rewrite Hl, byte_size_eq by done.
  pose proof (Z.div_mod (bm_size b - 1) 8). pose proof (Z.mod_pos_bound (bm_size b - 1) 8). lia.
Qed.

(** The byte that holds the bit of [val]. *)
Lemma rep_read val : 0 ≤ val < bm_size b →
  ∃ field, read_byte (bm_data b) (val / 8) = Ok field ∧
    Z.land (Z.shiftr field (val mod 8)) 1 = Z.b2z (bool_decide (val ∈ S)) ∧
    in_width 8 field ∧ bm_data b !! Z.to_nat (val / 8) = Some field.
Proof.
  intros Hv. destruct (read_byte_ok (bm_data b) (val / 8) (rep_index val Hv)) as (field & Hr & Hf).
  exists field. split; [done|]. pose proof (Z.mod_pos_bound val 8). pose proof rep_pad.
  destruct Hb as ((_ & _ & Hw) & _ & Hbits). split_and!; [|by eapply Forall_lookup_1|done].
  rewrite land_1_testbit by lia. f_equal. rewrite <-(bit_at_lookup _ _ _ Hf). apply Hbits. lia.
Qed.

Lemma write_wf byte field : bitmap_wf (write_byte b byte field).
Proof.
  destruct Hb as ((Hs & Hl & Hw) & _). unfold write_byte. split_and!; simpl; [lia|lia| |].
  - by rewrite length_insert.
  - apply Forall_insert; [done|]. apply wrap_bound. lia.
Qed.

(** Setting and clearing the bit of a number. *)
Lemma rep_set val field :
  0 ≤ val < bm_size b → bm_data b !! Z.to_nat (val / 8) = Some field →
  represents (write_byte b (val / 8) (Z.lor field (Z.shiftl 1 (val mod 8)))) ({[val]} ∪ S).
Proof.
  intros Hv Hf. pose proof (rep_index val Hv). destruct Hb as (_ & HS & Hbits).
  split_and!; [apply write_wf|set_solver|]. simpl. rewrite length_insert. intros i Hi.
  rewrite bit_at_write by lia. pose proof (Z.mod_pos_bound val 8). pose proof (Z.mod_pos_bound i 8).
  destruct (Z.eqb_spec (i / 8) (val / 8)) as [Heq|Hne].
  - rewrite testbit_set by lia.
    assert (Z.testbit field (i mod 8) = bool_decide (i ∈ S)) as ->.
    { rewrite <-Hbits by lia. symmetry. apply bit_at_lookup. by rewrite Heq. }
    destruct (Z.eqb_spec (i mod 8) (val mod 8)); simpl.
    + rewrite bool_decide_true; [done|]. assert (i = val) by (apply same_number; lia). set_solver.
    + apply bool_decide_ext. assert (i ≠ val) by congruence. set_solver.
  - rewrite Hbits by lia. apply bool_decide_ext. assert (i ≠ val) by congruence. set_solver.
Qed.

Lemma rep_clear val field :
  0 ≤ val < bm_size b → bm_data b !! Z.to_nat (val / 8) = Some field →
  represents (write_byte b (val / 8) (Z.land field (Z.lnot (Z.shiftl 1 (val mod 8))))) (S ∖ {[val]}).
Proof.
  intros Hv Hf. pose proof (rep_index val Hv). destruct Hb as (_ & HS & Hbits).
  split_and!; [apply write_wf|set_solver|]. simpl. rewrite length_insert. intros i Hi.
  rewrite bit_at_write by lia. pose proof (Z.mod_pos_bound val 8). pose proof (Z.mod_pos_bound i 8).
  destruct (Z.eqb_spec (i / 8) (val / 8)) as [Heq|Hne].
  - rewrite testbit_clear by lia.
    assert (Z.testbit field (i mod 8) = bool_decide (i ∈ S)) as ->.
    { rewrite <-Hbits by lia. symmetry. apply bit_at_lookup. by rewrite Heq. }
    destruct (Z.eqb_spec (i mod 8) (val mod 8)); simpl.
    + rewrite bool_decide_false; [done|]. assert (i = val) by (apply same_number; lia). set_solver.
    + apply bool_decide_ext. assert (i ≠ val) by congruence. set_solver.
  - rewrite Hbits by lia. apply bool_decide_ext. assert (i ≠ val) by congruence. set_solver.
Qed.
End numbers.

(** ** Correctness of the operations *)

(** A new bitmap has no number reserved. *)
Lemma bitmap_create_spec size (Hsize : 0 < size < 2 ^ 63) :
  ∃ b, bitmap_create size 0 = Some b ∧ bm_size b = size ∧ represents b ∅.
Proof.
  eexists. split; [done|]. split; [done|]. pose proof (byte_size_eq size Hsize) as Hbs.
  pose proof (Z.div_pos (size - 1) 8).
  split_and!; simpl; [split_and!; simpl|set_solver|].
  - lia.
  - lia.
  - rewrite length_replicate. lia.
  - apply Forall_replicate. unfold in_width. lia.
  - rewrite length_replicate. intros i Hi. unfold bit_at.
    rewrite lookup_replicate_2 by (pose proof (Z.div_lt_upper_bound i 8 (byte_size size)); lia).
    rewrite bool_decide_false by set_solver. apply Z.bits_0.
Qed.

(** The search for a clear bit. *)
Lemma bit_at_index data k r :
  0 ≤ r < 8 →
  bit_at data (8 * k + r) = match data !! Z.to_nat k with Some f => Z.testbit f r | None => false end.
Proof.
  intros Hr. unfold bit_at. rewrite (Z.mul_comm 8), Z.div_add_l, (Z.div_small r), Z.add_0_r by lia.
  by rewrite (Z.add_comm (k * 8)), Z_mod_plus_full, Z.mod_small by lia.
Qed.

Section least.
Context (data : list Z) (n : Z) (Hall : Forall (in_width 8) data) (Hn : 0 ≤ n).
Context (Hidx : n / 8 < Z.of_nat (length data)).
Context (Hclear : bit_at data n = false) (Hset : ∀ i, 0 ≤ i < n → bit_at data i = true).

Lemma least_skip : skip_full data 0 (Z.of_nat (length data)) = Ok (n / 8).
Proof.
  pose proof (Z.mod_pos_bound n 8). pose proof (Z.div_mod n 8). pose proof (Z.div_pos n 8).
  assert (data !! Z.to_nat (n / 8) ≠ Some 255) as Hnf.
  { intros Hf. rewrite (Z.div_mod n 8), bit_at_index, Hf in Hclear by lia.
    change 255 with (Z.ones 8) in Hclear. rewrite Z.ones_spec_low in Hclear by lia. done. }
  pose proof (skip_full_spec data 0 (Z.of_nat (length data)) Hall ltac:(lia)) as Hskip.
  destruct (skip_full data 0 (Z.of_nat (length data))) as [k|f].
  - destruct Hskip as (Hk & (d & Hd & Hne) & Hfull). rewrite Z.sub_0_r in Hd. f_equal.
    destruct (Z.lt_trichotomy k (n / 8)) as [Hlt|[?|Hlt]]; [|done|].
    + destruct Hne. apply full_byte; [by eapply Forall_lookup_1|]. intros i Hi.
      specialize (Hset (8 * k + i) ltac:(lia)). by rewrite bit_at_index, Hd in Hset.
    + specialize (Hfull (n / 8) ltac:(lia)). by rewrite Z.sub_0_r in Hfull.
  - destruct Hskip as [-> Hfull]. destruct Hnf. apply Hfull. lia.
Qed.

(** Within the byte, the search stops at the bit unless the limit is before it. *)
Lemma least_find field lim :
  data !! Z.to_nat (n / 8) = Some field → 0 ≤ lim →
  find_clear field 0 (Z.to_nat lim) = if n mod 8 <? lim then Some (n mod 8) else None.
Proof.
  intros Hf Hlim. pose proof (Z.mod_pos_bound n 8). pose proof (Z.div_mod n 8).
  assert (Z.testbit field (n mod 8) = false) as Hc by (by rewrite <-(bit_at_lookup _ _ _ Hf)).
  assert (∀ i, 0 ≤ i < n mod 8 → Z.testbit field i = true) as Hs.
  { intros i Hi. specialize (Hset (8 * (n / 8) + i)). rewrite bit_at_index, Hf in Hset by lia.
    apply Hset. pose proof (Z.div_pos n 8). lia. }
  pose proof (find_clear_spec field 0 (Z.to_nat lim) ltac:(lia)) as Hfind.
  destruct (find_clear field 0 _) as [bit|].
  - destruct Hfind as (Hbit & Hbc & Hbelow).
    assert (bit = n mod 8) as ->.
    { destruct (Z.lt_trichotomy bit (n mod 8)) as [Hlt|[?|Hlt]]; [|done|].
      - rewrite Hs in Hbc by lia. done.
      - rewrite Hbelow in Hc by lia. done. }
    destruct (Z.ltb_spec (n mod 8) lim); [done|lia].
  - destruct (Z.ltb_spec (n mod 8) lim); [|done]. rewrite Hfind in Hc by lia. done.
Qed.
End least.

Lemma bit_lim_eq size n :
  0 < size < 2 ^ 63 → 0 ≤ n ≤ size → n / 8 < byte_size size →
  bit_lim size (n / 8) = if n / 8 =? (size - 1) / 8 then (size - 1) mod 8 + 1 else 8.
Proof.
  intros Hs Hn Hi. unfold bit_lim. rewrite byte_size_eq in * by done.
  rewrite Z.add_simpl_r. destruct (Z.eqb_spec (n / 8) ((size - 1) / 8)); [done|].
  destruct (Z.eqb_spec (n / 8) ((size - 1) / 8 + 1)); [lia|done].
Qed.

(** [bitmap_reserve] returns the least number that is not reserved, and
    reserves it. *)
Lemma bitmap_reserve_spec b S n (Hb : represents b S) (Hn : 0 ≤ n < bm_size b)
    (Hfree : n ∉ S) (Hleast : ∀ j, 0 ≤ j < n → j ∈ S) :
  ∃ b', bitmap_reserve (Some b) = Ok (n, Some b') ∧ bm_size b' = bm_size b ∧
    represents b' ({[n]} ∪ S).
Proof.
  pose proof (rep_pad b S Hb) as Hpad. pose proof Hb as ((Hs & Hl & Hall) & _ & Hbits).
  destruct (rep_read b S Hb n Hn) as (field & Hread & _ & _ & Hfield).
  pose proof (rep_index b S Hb n Hn) as Hidx.
  assert (bit_at (bm_data b) n = false) as Hclear.
  { rewrite Hbits by lia. by apply bool_decide_false. }
  assert (∀ i, 0 ≤ i < n → bit_at (bm_data b) i = true) as Hset.
  { intros i Hi. rewrite Hbits by lia. by apply bool_decide_true, Hleast. }
  pose proof (Z.mod_pos_bound n 8). pose proof (Z.div_mod n 8).
  pose proof (Z.mod_pos_bound (bm_size b - 1) 8). pose proof (Z.div_mod (bm_size b - 1) 8).
  simpl. rewrite <-Hl, (least_skip _ n) by (done || lia). simpl.
  rewrite bit_lim_eq by lia. set (lim := if n / 8 =? _ then _ else _).
  assert (n mod 8 < lim) as Hlim.
  { subst lim. destruct (Z.eqb_spec (n / 8) ((bm_size b - 1) / 8)); lia. }
  destruct (Z.eqb_spec lim 0); [lia|]. rewrite Hread. simpl.
  rewrite (least_find _ n) by (done || lia). destruct (Z.ltb_spec (n mod 8) lim); [|lia].
  eexists. split; [|split; [|by apply rep_set]]; [|done]. do 3 f_equal. lia.
Qed.

(** Reserving from a full bitmap fails if there are padding bits. *)
Lemma bitmap_reserve_full b S :
  represents b S → (∀ j, 0 ≤ j < bm_size b → j ∈ S) → bm_size b mod 8 ≠ 0 →
  bitmap_reserve (Some b) = Ok (UINT64_MINUS_1, Some b).
Proof.
  intros Hb Hfull Hmod. pose proof (rep_pad b S Hb) as Hp.
  pose proof Hb as ((Hs & Hl & Hall) & HS & Hbits). set (n := bm_size b) in *.
  pose proof (Z.div_mod n 8). pose proof (Z.mod_pos_bound n 8).
  pose proof (Z.mod_pos_bound (n - 1) 8). pose proof (Z.div_mod (n - 1) 8).
  assert ((n - 1) / 8 = n / 8) as Hq by (symmetry; apply Z.div_unique with (n mod 8 - 1); lia).
  assert (n / 8 < Z.of_nat (length (bm_data b))) as Hidx by (rewrite Hl, byte_size_eq; lia).
  assert (bit_at (bm_data b) n = false) as Hclear.
  { rewrite Hbits by lia. apply bool_decide_false. intros Hin%HS. lia. }
  assert (∀ i, 0 ≤ i < n → bit_at (bm_data b) i = true) as Hset.
  { intros i Hi. rewrite Hbits by lia. by apply bool_decide_true, Hfull. }
  destruct (read_byte_ok (bm_data b) (n / 8)) as (field & Hread & Hfield).
  { pose proof (Z.div_pos n 8). lia. }
  simpl. fold n. rewrite <-Hl, (least_skip _ n) by (done || lia). simpl.
  rewrite bit_lim_eq by lia. rewrite Hq, Z.eqb_refl.
  destruct (Z.eqb_spec ((n - 1) mod 8 + 1) 0); [lia|]. rewrite Hread. simpl.
  rewrite (least_find _ n) by (done || lia).
  destruct (Z.ltb_spec (n mod 8) ((n - 1) mod 8 + 1)); [lia|done].
Qed.

(** Releasing a number that is reserved. *)
Lemma bitmap_release_spec b S v :
  represents b S → v ∈ S →
  ∃ b', bitmap_release (Some b) v = Ok (0, Some b') ∧ bm_size b' = bm_size b ∧
    represents b' (S ∖ {[v]}).
Proof.
  intros Hb Hv. pose proof Hb as (_ & Hin & _). specialize (Hin v Hv).
  destruct (rep_read b S Hb v Hin) as (field & Hread & Hbit & _ & Hf). simpl.
  destruct (Z.ltb_spec (bm_size b) v); [lia|]. rewrite Hread. simpl.
  rewrite Hbit, bool_decide_true by done. simpl.
  eexists. split; [done|]. split; [done|]. by apply rep_clear.
Qed.

(** ** The abstract allocator and the refinement *)

Inductive bm_op :=
  | Reserve
  | Release (val : Z)
  | SetBit (val : Z)
  | IsSet (val : Z).

Definition bm_step (b : bitmap) (op : bm_op) : res (Z * option bitmap) :=
  match op with
  | Reserve => bitmap_reserve (Some b)
  | Release v => bitmap_release (Some b) v
  | SetBit v => bitmap_set (Some b) v
  | IsSet v => r ← bitmap_is_set (Some b) v; Ok (r, Some b)
  end.

Fixpoint bm_run (b : bitmap) (ops : list bm_op) : res (list Z * bitmap) :=
  match ops with
  | [] => Ok ([], b)
  | op :: ops =>
      '(r, b') ← bm_step b op;
      match b' with
      | None => Fault NullDeref
      | Some b' => '(rs, b'') ← bm_run b' ops; Ok (r :: rs, b'')
      end
  end.

(** The least number below [size] outside of [X]. *)
Definition least_free (size : Z) (X : gset Z) : option Z :=
  head (filter (λ n, n ∉ X) (seqZ 0 size)).

(** The specification: a set of numbers. *)
Definition abs_step (size : Z) (X : gset Z) (op : bm_op) : Z * gset Z :=
  match op with
  | Reserve =>
      match least_free size X with
      | Some n => (n, {[n]} ∪ X)
      | None => (UINT64_MINUS_1, X)
      end
  | Release v => if decide (v ∈ X) then (0, X ∖ {[v]}) else (-1, X)
  | SetBit v => if decide (v ∈ X) then (-1, X) else (0, {[v]} ∪ X)
  | IsSet v => (if decide (v ∈ X) then 1 else 0, X)
  end.

Fixpoint abs_run (size : Z) (X : gset Z) (ops : list bm_op) : list Z * gset Z :=
  match ops with
  | [] => ([], X)
  | op :: ops =>
      let '(r, X) := abs_step size X op in
      let '(rs, X) := abs_run size X ops in (r :: rs, X)
  end.

Definition op_in_range (size : Z) (op : bm_op) : Prop :=
  match op with
  | Reserve => True
  | Release v | SetBit v | IsSet v => 0 ≤ v < size
  end.

Lemma least_free_spec size X :
  0 ≤ size →
  match least_free size X with
  | Some n => 0 ≤ n < size ∧ n ∉ X ∧ ∀ j, 0 ≤ j < n → j ∈ X
  | None => ∀ j, 0 ≤ j < size → j ∈ X
  end.
Proof.
  intros Hs. unfold least_free. destruct (filter (λ n, n ∉ X) (seqZ 0 size)) as [|n l] eqn:Hf; simpl.
  - intros j Hj. destruct (decide (j ∈ X)) as [|Hn]; [done|].
    assert (j ∈ filter (λ n, n ∉ X) (seqZ 0 size)) as Hin.
    { apply list_elem_of_filter. rewrite elem_of_seqZ. split; [done|lia]. }
    rewrite Hf in Hin. by apply not_elem_of_nil in Hin.
  - assert (n ∈ filter (λ n, n ∉ X) (seqZ 0 size)) as Hin by (rewrite Hf; set_solver).
    apply list_elem_of_filter in Hin as [Hn Hin]. apply elem_of_seqZ in Hin.
    split_and!; [lia|lia|done|]. intros j Hj.
    destruct (decide (j ∈ X)) as [|Hjn]; [done|]. exfalso.
    replace size with (n + (size - n)) in Hf by lia.
    rewrite seqZ_app, filter_app in Hf by lia.
    assert (j ∈ filter (λ n, n ∉ X) (seqZ 0 n)) as Hjin.
    { apply list_elem_of_filter. rewrite elem_of_seqZ. split; [done|lia]. }
    destruct (filter (λ n, n ∉ X) (seqZ 0 n)) as [|k l'] eqn:Hk; [by apply not_elem_of_nil in Hjin|].
    simplify_eq/=. assert (n ∈ filter (λ n, n ∉ X) (seqZ 0 n)) as Hbad by (rewrite Hk; set_solver).
    apply list_elem_of_filter in Hbad as [_ Hbad%elem_of_seqZ]. lia.
Qed.

Lemma bm_step_refines b X op :
  represents b X → op_in_range (bm_size b) op → bm_size b mod 8 ≠ 0 →
  ∃ b', bm_step b op = Ok ((abs_step (bm_size b) X op).1, Some b') ∧
    bm_size b' = bm_size b ∧ represents b' (abs_step (bm_size b) X op).2.
Proof.
  intros Hb Hop Hmod. pose proof Hb as ((Hs & _) & _).
  destruct op as [|v|v|v]; simpl in Hop.
  - unfold abs_step. pose proof (least_free_spec (bm_size b) X ltac:(lia)) as Hl.
    destruct (least_free (bm_size b) X) as [n|].
    + destruct Hl as (Hn & Hfree & Hleast). by apply bitmap_reserve_spec.
    + exists b. split; [by eapply bitmap_reserve_full|done].
  - destruct (rep_read b X Hb v Hop) as (field & Hread & Hbit & _ & Hf). simpl.
    destruct (Z.ltb_spec (bm_size b) v); [lia|]. rewrite Hread. simpl. rewrite Hbit.
    destruct (decide (v ∈ X)); [rewrite bool_decide_true by done|rewrite bool_decide_false by done];
      simpl; eexists; (split; [done|]); (split; [done|]); [by apply rep_clear|done].
  - destruct (rep_read b X Hb v Hop) as (field & Hread & Hbit & _ & Hf). simpl.
    destruct (Z.ltb_spec (bm_size b) v); [lia|]. rewrite Hread. simpl. rewrite Hbit.
    destruct (decide (v ∈ X)); [rewrite bool_decide_true by done|rewrite bool_decide_false by done];
      simpl; eexists; (split; [done|]); (split; [done|]); [done|by apply rep_set].
  - destruct (rep_read b X Hb v Hop) as (field & Hread & Hbit & _ & _). simpl.
    destruct (Z.ltb_spec (bm_size b) v); [lia|]. rewrite Hread. simpl. rewrite Hbit.
    exists b. split; [|done]. repeat f_equal.
    destruct (decide (v ∈ X)); [by rewrite bool_decide_true|by rewrite bool_decide_false].
Qed.

Lemma bm_run_refines ops : ∀ b X,
  represents b X → Forall (op_in_range (bm_size b)) ops → bm_size b mod 8 ≠ 0 →
  ∃ b', bm_run b ops = Ok ((abs_run (bm_size b) X ops).1, b') ∧
    represents b' (abs_run (bm_size b) X ops).2.
Proof.
  induction ops as [|op ops IH]; intros b X Hb Hops Hmod; simpl.
  { by exists b. }
  apply Forall_cons in Hops as [Hop Hops].
  destruct (bm_step_refines b X op Hb Hop Hmod) as (b1 & Hstep & Hsize & Hb1).
  rewrite Hstep. destruct (abs_step (bm_size b) X op) as [r X1]. simpl in *.
  rewrite <-Hsize in Hops, Hmod. destruct (IH b1 X1 Hb1 Hops Hmod) as (b2 & Hrun & Hb2).
  rewrite Hrun. simpl. rewrite <-Hsize. destruct (abs_run (bm_size b1) X1 ops) as [rs X2].
  by exists b2.
Qed.



(** ** Numbers beyond the end *)

(** C31: if [size] is a multiple of 8, the number [size] itself passes the check
    and every operation on it accesses the byte behind the bitmap; so does
    [bitmap_reserve] on a full bitmap. *)
Theorem bitmap_out_of_bounds b X (Hb : represents b X) (Hmod : bm_size b mod 8 = 0) :
  bitmap_release (Some b) (bm_size b) = Fault OutOfBounds ∧
  bitmap_set (Some b) (bm_size b) = Fault OutOfBounds ∧
  bitmap_is_set (Some b) (bm_size b) = Fault OutOfBounds ∧
  ((∀ i, 0 ≤ i < bm_size b → i ∈ X) → bitmap_reserve (Some b) = Fault OutOfBounds).
Proof.
  pose proof Hb as ((Hs & Hl & Hall) & _ & Hbits). pose proof (Z.div_mod (bm_size b) 8).
  assert (Z.of_nat (length (bm_data b)) = bm_size b / 8) as Hlen.
  { rewrite Hl, byte_size_eq by done.
    rewrite <-(Z.div_unique (bm_size b - 1) 8 (bm_size b / 8 - 1) 7); lia. }
  assert (read_byte (bm_data b) (bm_size b / 8) = Fault OutOfBounds) as Hr.
  { apply read_byte_oob. lia. }
  unfold bitmap_release, bitmap_set, bitmap_is_set. rewrite Z.ltb_irrefl, Hr.
  split_and!; [done|done|done|]. intros Hfull. simpl.
  pose proof (skip_full_spec (bm_data b) 0 (byte_size (bm_size b)) Hall ltac:(lia)) as Hskip.
  destruct (skip_full (bm_data b) 0 (byte_size (bm_size b))) as [k|f]; [|by destruct Hskip as [-> _]].
  destruct Hskip as (Hk & (d & Hd & Hne) & _). rewrite Z.sub_0_r in Hd. destruct Hne.
  apply full_byte; [by eapply Forall_lookup_1|]. intros i Hi.
  pose proof (Hbits (8 * k + i) ltac:(lia)) as Hb'.
  rewrite bit_at_index, Hd in Hb' by lia. rewrite Hb'. apply bool_decide_true, Hfull. lia.
Qed.

Lemma bitmap_out_of_bounds_witness :
  bitmap_release (Some (mkBitmap 16 [0; 0])) 16 = Fault OutOfBounds ∧
  bitmap_set (Some (mkBitmap 16 [0; 0])) 16 = Fault OutOfBounds ∧
  bitmap_is_set (Some (mkBitmap 16 [0; 0])) 16 = Fault OutOfBounds ∧
  ((∀ i, 0 ≤ i < 16 → i ∈ (∅ : gset Z)) → bitmap_reserve (Some (mkBitmap 16 [0; 0])) = Fault OutOfBounds).
Proof.
  apply (bitmap_out_of_bounds (mkBitmap 16 [0; 0]) ∅); [|done].
  destruct (bitmap_create_spec 16 ltac:(lia)) as (b & Hc & _ & Hb).
  vm_compute in Hc. by simplify_eq.
Defined.
