(* ===== verification/DList.v ===== *)
(** * Doubly linked lists ([src/list.c])

    A list is a pair of sentinels, [head] and [tail]; the elements are embedded
    [struct list_elem]s.  A call of a comparison function [less (a, b, aux)] is a
    function of the two elements.  Loops carry fuel; the specifications say that
    the number of elements is enough. *)
From S2P Require Import Prelude.
From S2P Require Import Heap.

#[local] Open Scope Z_scope.

(** ** Data *)

Record list_elem := mkElem {
  le_prev : option loc;
  le_next : option loc;
}.

(** The addresses of the two sentinels of a [struct list]. *)
Record dlist := mkList {
  l_head : loc;
  l_tail : loc;
}.

#[export] Instance list_elem_eq_dec : EqDecision list_elem.
Proof. solve_decision. Defined.

Abbreviation list_prog := (prog list_elem).

Definition get_next (e : loc) : list_prog (option loc) := n ← load e; mret (le_next n).
Definition get_prev (e : loc) : list_prog (option loc) := n ← load e; mret (le_prev n).
Definition set_next (e : loc) (v : option loc) : list_prog unit :=
  n ← load e; store e (mkElem (le_prev n) v).
Definition set_prev (e : loc) (v : option loc) : list_prog unit :=
  n ← load e; store e (mkElem v (le_next n)).

(** ** Operations *)

Definition is_some {A} (o : option A) : bool := match o with Some _ => true | None => false end.

Definition is_head (n : list_elem) : bool := negb (is_some (le_prev n)) && is_some (le_next n).
Definition is_interior (n : list_elem) : bool := is_some (le_prev n) && is_some (le_next n).
Definition is_tail (n : list_elem) : bool := is_some (le_prev n) && negb (is_some (le_next n)).

Definition list_init (list : dlist) : list_prog unit :=
  set_prev (l_head list) None;;
  set_next (l_head list) (Some (l_tail list));;
  set_prev (l_tail list) (Some (l_head list));;
  set_next (l_tail list) None.

Definition list_begin (list : dlist) : list_prog loc := p ← get_next (l_head list); deref p.

Definition list_next (elem : loc) : list_prog loc :=
  n ← load elem;
  assert (is_head n || is_interior n);;
  deref (le_next n).

Definition list_end (list : dlist) : loc := l_tail list.

Definition list_rbegin (list : dlist) : list_prog loc := p ← get_prev (l_tail list); deref p.

Definition list_prev (elem : loc) : list_prog loc :=
  n ← load elem;
  assert (is_interior n || is_tail n);;
  deref (le_prev n).

Definition list_rend (list : dlist) : loc := l_head list.
Definition list_head (list : dlist) : loc := l_head list.
Definition list_tail (list : dlist) : loc := l_tail list.

Definition list_insert (before elem : loc) : list_prog unit :=
  n ← load before;
  assert (is_interior n || is_tail n);;
  p ← get_prev before;
  set_prev elem p;;
  set_next elem (Some before);;
  p ← get_prev before;
  prev ← deref p;
  set_next prev (Some elem);;
  set_prev before (Some elem).

Definition list_splice (before first last : loc) : list_prog unit :=
  n ← load before;
  assert (is_interior n || is_tail n);;
  if bool_decide (first = last) then mret tt else
  last ← list_prev last;
  n ← load first;
  assert (is_interior n);;
  n ← load last;
  assert (is_interior n);;
  (* remove FIRST...LAST from its current list *)
  p ← get_prev first; p ← deref p;
  n ← get_next last;
  set_next p n;;
  n ← deref n;
  p ← get_prev first;
  set_prev n p;;
  (* splice FIRST...LAST into the new list *)
  p ← get_prev before;
  set_prev first p;;
  set_next last (Some before);;
  p ← get_prev before; p ← deref p;
  set_next p (Some first);;
  set_prev before (Some last).

Definition list_push_front (list : dlist) (elem : loc) : list_prog unit :=
  b ← list_begin list; list_insert b elem.

Definition list_push_back (list : dlist) (elem : loc) : list_prog unit :=
  list_insert (list_end list) elem.

Definition list_remove (elem : loc) : list_prog loc :=
  n ← load elem;
  assert (is_interior n);;
  prev ← deref (le_prev n);
  set_next prev (le_next n);;
  n ← load elem;
  next ← deref (le_next n);
  set_prev next (le_prev n);;
  n ← get_next elem;
  deref n.

Definition list_empty (list : dlist) : list_prog bool :=
  b ← list_begin list;
  mret (bool_decide (b = list_end list)).

Definition list_front (list : dlist) : list_prog loc :=
  e ← list_empty list;
  assert (negb e);;
  p ← get_next (l_head list);
  deref p.

Definition list_back (list : dlist) : list_prog loc :=
  e ← list_empty list;
  assert (negb e);;
  p ← get_prev (l_tail list);
  deref p.

Definition list_pop_front (list : dlist) : list_prog loc :=
  front ← list_front list;
  list_remove front;;
  mret front.

Definition list_pop_back (list : dlist) : list_prog loc :=
  back ← list_back list;
  list_remove back;;
  mret back.

(** [for (e = list_begin (list); e != list_end (list); e = list_next (e)) cnt++;] *)
Fixpoint size_loop (fuel : nat) (list : dlist) (e : loc) (cnt : Z) : list_prog Z :=
  match fuel with
  | O => fail OutOfFuel
  | S fuel =>
      if bool_decide (e = list_end list) then mret cnt else
      e ← list_next e;
      size_loop fuel list e (wrap64 (cnt + 1))
  end.

Definition list_size (fuel : nat) (list : dlist) : list_prog Z :=
  e ← list_begin list;
  size_loop fuel list e 0.

(** [swap (&e->prev, &e->next)] *)
Definition swap_links (e : loc) : list_prog unit :=
  n ← load e;
  store e (mkElem (le_next n) (le_prev n)).

Fixpoint reverse_loop (fuel : nat) (list : dlist) (e : loc) : list_prog unit :=
  match fuel with
  | O => fail OutOfFuel
  | S fuel =>
      if bool_decide (e = list_end list) then mret tt else
      swap_links e;;
      p ← get_prev e;
      e ← deref p;
      reverse_loop fuel list e
  end.

Definition list_reverse (fuel : nat) (list : dlist) : list_prog unit :=
  b ← list_empty list;
  if (b : bool) then mret tt else
  e ← list_begin list;
  reverse_loop fuel list e;;
  (* swap (&list->head.next, &list->tail.prev) *)
  hn ← get_next (l_head list);
  tp ← get_prev (l_tail list);
  set_next (l_head list) tp;;
  set_prev (l_tail list) hn;;
  (* swap (&list->head.next->prev, &list->tail.prev->next) *)
  f ← get_next (l_head list); f ← deref f;
  b ← get_prev (l_tail list); b ← deref b;
  fp ← get_prev f;
  bn ← get_next b;
  set_prev f bn;;
  set_next b fp.

Section less.
Variable less : loc → loc → bool.

Fixpoint insert_ordered_loop (fuel : nat) (list : dlist) (elem e : loc) : list_prog loc :=
  match fuel with
  | O => fail OutOfFuel
  | S fuel =>
      if bool_decide (e = list_end list) then mret e
      else if less elem e then mret e
      else e ← list_next e; insert_ordered_loop fuel list elem e
  end.

Definition list_insert_ordered (fuel : nat) (list : dlist) (elem : loc) : list_prog unit :=
  e ← list_begin list;
  e ← insert_ordered_loop fuel list elem e;
  list_insert e elem.

Fixpoint unique_loop (fuel : nat) (list : dlist) (duplicates : option dlist) (elem : loc)
    : list_prog unit :=
  match fuel with
  | O => fail OutOfFuel
  | S fuel =>
      next ← list_next elem;
      if bool_decide (next = list_end list) then mret tt
      else if negb (less elem next) && negb (less next elem) then
        list_remove next;;
        (match duplicates with Some d => list_push_back d next | None => mret tt end);;
        unique_loop fuel list duplicates elem
      else unique_loop fuel list duplicates next
  end.

Definition list_unique (fuel : nat) (list : dlist) (duplicates : option dlist) : list_prog unit :=
  b ← list_empty list;
  if (b : bool) then mret tt else
  elem ← list_begin list;
  unique_loop fuel list duplicates elem.

(** The common loop of [list_max] and [list_min]. *)
Fixpoint extreme_loop (better : loc → loc → bool) (fuel : nat) (list : dlist) (best e : loc)
    : list_prog loc :=
  match fuel with
  | O => fail OutOfFuel
  | S fuel =>
      if bool_decide (e = list_end list) then mret best
      else
        let best := if better best e then e else best in
        e ← list_next e;
        extreme_loop better fuel list best e
  end.

Definition list_max (fuel : nat) (list : dlist) : list_prog loc :=
  max ← list_begin list;
  if bool_decide (max = list_end list) then mret max else
  e ← list_next max;
  extreme_loop (λ max e, less max e) fuel list max e.

Definition list_min (fuel : nat) (list : dlist) : list_prog loc :=
  min ← list_begin list;
  if bool_decide (min = list_end list) then mret min else
  e ← list_next min;
  extreme_loop (λ min e, less e min) fuel list min e.

(** ** Sorting *)

Fixpoint is_sorted_loop (fuel : nat) (a b : loc) : list_prog bool :=
  match fuel with
  | O => fail OutOfFuel
  | S fuel =>
      a ← list_next a;
      if bool_decide (a = b) then mret true else
      p ← list_prev a;
      if less a p then mret false else is_sorted_loop fuel a b
  end.

Definition is_sorted (fuel : nat) (a b : loc) : list_prog bool :=
  if bool_decide (a = b) then mret true else is_sorted_loop fuel a b.

Fixpoint find_end_loop (fuel : nat) (a b : loc) : list_prog loc :=
  match fuel with
  | O => fail OutOfFuel
  | S fuel =>
      a ← list_next a;
      if bool_decide (a = b) then mret a else
      p ← list_prev a;
      if less a p then mret a else find_end_loop fuel a b
  end.

Definition find_end_of_run (fuel : nat) (a b : loc) : list_prog loc :=
  assert (negb (bool_decide (a = b)));;
  find_end_loop fuel a b.

Fixpoint merge_loop (fuel : nat) (a0 a1b0 b1 : loc) : list_prog unit :=
  match fuel with
  | O => fail OutOfFuel
  | S fuel =>
      if bool_decide (a0 = a1b0) || bool_decide (a1b0 = b1) then mret tt
      else if negb (less a1b0 a0) then
        a0 ← list_next a0;
        merge_loop fuel a0 a1b0 b1
      else
        a1b0 ← list_next a1b0;
        p ← list_prev a1b0;
        list_splice a0 p a1b0;;
        merge_loop fuel a0 a1b0 b1
  end.

Definition inplace_merge (fuel : nat) (a0 a1b0 b1 : loc) : list_prog unit :=
  s ← is_sorted fuel a0 a1b0;
  assert s;;
  s ← is_sorted fuel a1b0 b1;
  assert s;;
  merge_loop fuel a0 a1b0 b1.

(** One pass: the number of runs that it outputs. *)
Fixpoint sort_pass (fuel0 fuel : nat) (list : dlist) (a0 : loc) (output_run_cnt : Z)
    : list_prog Z :=
  match fuel with
  | O => fail OutOfFuel
  | S fuel =>
      if bool_decide (a0 = list_end list) then mret output_run_cnt else
      let output_run_cnt := wrap64 (output_run_cnt + 1) in
      a1b0 ← find_end_of_run fuel0 a0 (list_end list);
      if bool_decide (a1b0 = list_end list) then mret output_run_cnt else
      b1 ← find_end_of_run fuel0 a1b0 (list_end list);
      inplace_merge fuel0 a0 a1b0 b1;;
      sort_pass fuel0 fuel list b1 output_run_cnt
  end.

Fixpoint sort_loop (fuel0 fuel : nat) (list : dlist) : list_prog unit :=
  match fuel with
  | O => fail OutOfFuel
  | S fuel =>
      a0 ← list_begin list;
      output_run_cnt ← sort_pass fuel0 fuel0 list a0 0;
      if 1 <? output_run_cnt then sort_loop fuel0 fuel list else mret tt
  end.

Definition list_sort (fuel : nat) (list : dlist) : list_prog unit :=
  sort_loop fuel fuel list;;
  b ← list_begin list;
  s ← is_sorted fuel b (list_end list);
  assert s.

End less.
