(* ===== verification/DListProof.v ===== *)
(** * Correctness of the list operations

    [is_list L xs] is the ownership of the sentinels of [L] and of the elements
    [xs], linked in this order.  It is a chain of nodes each of which points to
    its neighbours. *)
From S2P Require Import Prelude.
From S2P Require Import Heap.
From S2P Require Import DList.

#[local] Open Scope Z_scope.

Definition hdo (xs : list loc) (n : option loc) : option loc :=
  match xs with x :: _ => Some x | [] => n end.
Definition lasto (xs : list loc) (p : option loc) : option loc :=
  match last xs with Some x => Some x | None => p end.

Lemma lasto_snoc xs x p : lasto (xs ++ [x]) p = Some x.
Proof. unfold lasto. by rewrite last_snoc. Qed.

Lemma lasto_cons x xs p : lasto (x :: xs) p = lasto xs (Some x).
Proof. unfold lasto. rewrite last_cons. by destruct (last xs). Qed.

Lemma hdo_app xs ys n : hdo (xs ++ ys) n = hdo xs (hdo ys n).
Proof. by destruct xs. Qed.

Lemma lasto_app xs ys p : lasto (xs ++ ys) p = lasto ys (lasto xs p).
Proof. unfold lasto. rewrite last_app. by destruct (last ys). Qed.

Section list_proof.
Context `{HG : !heapG list_elem Σ}.

Fixpoint chain (p : option loc) (xs : list loc) (n : option loc) : iProp Σ :=
  match xs with
  | [] => True
  | x :: xs => x ↦ mkElem p (hdo xs n) ∗ chain (Some x) xs n
  end.

Lemma chain_app p xs ys n :
  chain p (xs ++ ys) n ⊣⊢ chain p xs (hdo ys n) ∗ chain (lasto xs p) ys n.
Proof.
  revert p. induction xs as [|x xs IH]; intros p; simpl.
  - by rewrite left_id.
  - by rewrite IH hdo_app lasto_cons assoc.
Qed.

Lemma chain_snoc p xs x n : chain p (xs ++ [x]) n ⊣⊢ chain p xs (Some x) ∗ x ↦ mkElem (lasto xs p) n.
Proof. by rewrite chain_app /= right_id. Qed.

Definition nodes (L : dlist) (xs : list loc) : list loc := l_head L :: xs ++ [l_tail L].
Definition is_list (L : dlist) (xs : list loc) : iProp Σ := chain None (nodes L xs) None.

(** A detached element. *)
Definition detached (e : loc) : iProp Σ := ∃ n, e ↦ n.

Lemma chain_ne p xs n y v : chain p xs n -∗ y ↦ v -∗ ⌜y ∉ xs⌝.
Proof.
  iIntros "Hc Hy". iInduction xs as [|x xs IH] forall (p); simpl.
  { iPureIntro. apply not_elem_of_nil. }
  iDestruct "Hc" as "[Hx Hc]". iDestruct (points_to_ne with "Hy Hx") as %Hne.
  iDestruct ("IH" with "Hc Hy") as %Hni. iPureIntro. by apply not_elem_of_cons.
Qed.

Lemma chain_NoDup p xs n : chain p xs n -∗ ⌜NoDup xs⌝.
Proof.
  iIntros "Hc". iInduction xs as [|x xs IH] forall (p); simpl.
  { iPureIntro. constructor. }
  iDestruct "Hc" as "[Hx Hc]". iDestruct (chain_ne with "Hc Hx") as %Hni.
  iDestruct ("IH" with "Hc") as %Hnd. iPureIntro. by constructor.
Qed.

Lemma is_list_NoDup L xs : is_list L xs -∗ ⌜NoDup (nodes L xs)⌝.
Proof. apply chain_NoDup. Qed.

(** Membership in a list implies that an element is not the tail. *)
Lemma is_list_ne_tail L xs x : x ∈ xs → is_list L xs -∗ ⌜x ≠ l_tail L⌝.
Proof.
  iIntros (Hx) "Hl". iDestruct (is_list_NoDup with "Hl") as %Hnd. iPureIntro.
  unfold nodes in Hnd. apply NoDup_cons in Hnd as [_ Hnd].
  apply NoDup_app in Hnd as (_ & Hnd & _). intros ->. apply (Hnd _ Hx). set_solver.
Qed.

(** ** Field accesses *)

Lemma wp_get_next e p n Φ : e ↦ mkElem p n -∗ (e ↦ mkElem p n -∗ Φ n) -∗ wp (get_next e) Φ.
Proof. iIntros "He HΦ". wp_bind. wp_load "He". wp_ret. by iApply "HΦ". Qed.
Lemma wp_get_prev e p n Φ : e ↦ mkElem p n -∗ (e ↦ mkElem p n -∗ Φ p) -∗ wp (get_prev e) Φ.
Proof. iIntros "He HΦ". wp_bind. wp_load "He". wp_ret. by iApply "HΦ". Qed.
Lemma wp_set_next e p n v Φ : e ↦ mkElem p n -∗ (e ↦ mkElem p v -∗ Φ tt) -∗ wp (set_next e v) Φ.
Proof. iIntros "He HΦ". wp_bind. wp_load "He". wp_store "He". by iApply "HΦ". Qed.
Lemma wp_set_prev e p n v Φ : e ↦ mkElem p n -∗ (e ↦ mkElem v n -∗ Φ tt) -∗ wp (set_prev e v) Φ.
Proof. iIntros "He HΦ". wp_bind. wp_load "He". wp_store "He". by iApply "HΦ". Qed.

Lemma wp_list_init L n1 n2 Φ :
  l_head L ↦ n1 -∗ l_tail L ↦ n2 -∗ (is_list L [] -∗ Φ tt) -∗ wp (list_init L) Φ.
Proof.
  iIntros "Hh Ht HΦ". destruct n1, n2. rewrite /list_init.
  wp_bind. iApply (wp_set_prev with "Hh"). iIntros "Hh".
  wp_bind. iApply (wp_set_next with "Hh"). iIntros "Hh".
  wp_bind. iApply (wp_set_prev with "Ht"). iIntros "Ht".
  iApply (wp_set_next with "Ht"). iIntros "Ht". iApply "HΦ". rewrite /is_list /=. by iFrame.
Qed.

(** ** Navigation, for a node anywhere in a chain *)

Lemma wp_list_next A x y B p n Φ :
  chain p (A ++ x :: y :: B) n -∗ (chain p (A ++ x :: y :: B) n -∗ Φ y) -∗ wp (list_next x) Φ.
Proof.
  iIntros "Hc HΦ". rewrite chain_app /=. iDestruct "Hc" as "(HA & Hx & Hc)".
  rewrite /list_next. wp_bind. wp_load "Hx". wp_bind. iApply wp_assert.
  { rewrite /is_head /is_interior /=. by destruct (lasto A p). }
  iApply wp_deref. iApply "HΦ". iFrame.
Qed.

Lemma wp_list_prev A x y B p n Φ :
  chain p (A ++ x :: y :: B) n -∗ (chain p (A ++ x :: y :: B) n -∗ Φ x) -∗ wp (list_prev y) Φ.
Proof.
  iIntros "Hc HΦ". rewrite (app_assoc A [x] (y :: B)) chain_app lasto_snoc /=.
  iDestruct "Hc" as "(HA & Hy & Hc)".
  rewrite /list_prev. wp_bind. wp_load "Hy". wp_bind. iApply wp_assert.
  { rewrite /is_interior /is_tail /=. by destruct (hdo B n). }
  iApply wp_deref. iApply "HΦ". iFrame.
Qed.

Lemma wp_list_begin L xs Φ :
  is_list L xs -∗ (is_list L xs -∗ Φ (default (l_tail L) (head xs))) -∗ wp (list_begin L) Φ.
Proof.
  iIntros "[Hh Hc] HΦ". wp_bind. iApply (wp_get_next with "Hh"). iIntros "Hh".
  rewrite hdo_app. destruct xs as [|x xs]; simpl; iApply wp_deref; iApply "HΦ"; iFrame.
Qed.

Lemma lasto_default xs d : lasto xs (Some d) = Some (default d (last xs)).
Proof. unfold lasto. by destruct (last xs). Qed.

Lemma wp_list_rbegin L xs Φ :
  is_list L xs -∗ (is_list L xs -∗ Φ (default (l_head L) (last xs))) -∗ wp (list_rbegin L) Φ.
Proof.
  rewrite /is_list /nodes. iIntros "Hc HΦ". rewrite app_comm_cons chain_snoc lasto_cons lasto_default.
  iDestruct "Hc" as "[Hc Ht]". wp_bind. iApply (wp_get_prev with "Ht"). iIntros "Ht".
  iApply wp_deref. iApply "HΦ". iFrame.
Qed.

Lemma head_ne_tail L xs : NoDup (nodes L xs) →
  (default (l_tail L) (head xs) = l_tail L ↔ xs = []) ∧
  (default (l_head L) (last xs) = l_head L ↔ xs = []).
Proof.
  unfold nodes. intros [Hh Hnd]%NoDup_cons. apply NoDup_app in Hnd as (_ & Hnd & _). split.
  - destruct xs as [|x xs]; [done|]. simpl. split; [|done]. intros ->.
    destruct (Hnd (l_tail L)); set_solver.
  - destruct xs as [|x xs _] using rev_ind; [done|]. rewrite last_snoc /=. split.
    + intros ->. destruct Hh. set_solver.
    + intros Hxs. by apply app_nil in Hxs as [_ ?].
Qed.

Lemma wp_list_empty L xs Φ :
  is_list L xs -∗ (is_list L xs -∗ Φ (bool_decide (xs = []))) -∗ wp (list_empty L) Φ.
Proof.
  iIntros "Hl HΦ". iDestruct (is_list_NoDup with "Hl") as %[Hnd _]%head_ne_tail.
  wp_bind. iApply (wp_list_begin with "Hl"). iIntros "Hl". wp_ret.
  rewrite (bool_decide_ext _ _ Hnd). by iApply "HΦ".
Qed.

(** ** Insertion and removal, for a node anywhere in a chain *)

Lemma wp_list_insert A a b B e p n Φ :
  chain p (A ++ a :: b :: B) n -∗ detached e -∗
  (chain p (A ++ a :: e :: b :: B) n -∗ Φ tt) -∗ wp (list_insert b e) Φ.
Proof.
  iIntros "Hc [%ne He] HΦ". destruct ne as [pe nxe]. rewrite !chain_app /=.
  iDestruct "Hc" as "(HA & Ha & Hb & HB)". rewrite /list_insert.
  wp_bind. wp_load "Hb". wp_bind. iApply wp_assert.
  { rewrite /is_interior /is_tail /=. by destruct (hdo B n). }
  wp_bind. iApply (wp_get_prev with "Hb"). iIntros "Hb".
  wp_bind. iApply (wp_set_prev with "He"). iIntros "He".
  wp_bind. iApply (wp_set_next with "He"). iIntros "He".
  wp_bind. iApply (wp_get_prev with "Hb"). iIntros "Hb". wp_bind. iApply wp_deref.
  wp_bind. iApply (wp_set_next with "Ha"). iIntros "Ha".
  iApply (wp_set_prev with "Hb"). iIntros "Hb". iApply "HΦ". iFrame.
Qed.

Lemma wp_list_remove A a e b B p n Φ :
  chain p (A ++ a :: e :: b :: B) n -∗
  (chain p (A ++ a :: b :: B) n -∗ detached e -∗ Φ b) -∗ wp (list_remove e) Φ.
Proof.
  iIntros "Hc HΦ". rewrite !chain_app /=. iDestruct "Hc" as "(HA & Ha & He & Hb & HB)".
  rewrite /list_remove. wp_bind. wp_load "He". wp_bind. iApply wp_assert; [done|].
  wp_bind. iApply wp_deref. wp_bind. iApply (wp_set_next with "Ha"). iIntros "Ha".
  wp_bind. wp_load "He". wp_bind. iApply wp_deref. wp_bind.
  iApply (wp_set_prev with "Hb"). iIntros "Hb".
  wp_bind. iApply (wp_get_next with "He"). iIntros "He". iApply wp_deref.
  iApply ("HΦ" with "[HA Ha Hb HB] [He]"); [iFrame|by iExists _].
Qed.

(** ** The list operations *)

(** The neighbour before a position of a list. *)
Lemma nodes_split L xs ys :
  ∃ A a, nodes L (xs ++ ys) = A ++ a :: ys ++ [l_tail L] ∧ l_head L :: xs = A ++ [a].
Proof.
  destruct (exists_last (l:=l_head L :: xs)) as (A & a & Heq); [done|].
  exists A, a. split; [|done]. unfold nodes. by rewrite -app_assoc app_comm_cons Heq -app_assoc.
Qed.

Lemma wp_insert_at L xs ys e Φ :
  is_list L (xs ++ ys) -∗ detached e -∗ (is_list L (xs ++ e :: ys) -∗ Φ tt) -∗
  wp (list_insert (default (l_tail L) (head ys)) e) Φ.
Proof.
  iIntros "Hl He HΦ". rewrite /is_list.
  destruct (nodes_split L xs ys) as (A & a & Heq & HA).
  assert (nodes L (xs ++ e :: ys) = A ++ a :: e :: ys ++ [l_tail L]) as Heq'.
  { unfold nodes. by rewrite -app_assoc app_comm_cons HA -app_assoc. }
  rewrite Heq Heq'. destruct ys as [|y ys]; simpl;
    iApply (wp_list_insert with "Hl He"); iIntros "Hl"; by iApply "HΦ".
Qed.

Lemma wp_remove_at L xs x ys Φ :
  is_list L (xs ++ x :: ys) -∗
  (is_list L (xs ++ ys) -∗ detached x -∗ Φ (default (l_tail L) (head ys))) -∗
  wp (list_remove x) Φ.
Proof.
  iIntros "Hl HΦ". rewrite /is_list.
  destruct (nodes_split L xs ys) as (A & a & Heq & HA).
  assert (nodes L (xs ++ x :: ys) = A ++ a :: x :: ys ++ [l_tail L]) as Heq'.
  { unfold nodes. by rewrite -app_assoc app_comm_cons HA -app_assoc. }
  rewrite Heq Heq'. destruct ys as [|y ys]; simpl;
    iApply (wp_list_remove with "Hl"); iIntros "Hl Hx"; by iApply ("HΦ" with "Hl Hx").
Qed.

Lemma wp_push_front L xs e Φ :
  is_list L xs -∗ detached e -∗ (is_list L (e :: xs) -∗ Φ tt) -∗ wp (list_push_front L e) Φ.
Proof.
  iIntros "Hl He HΦ". rewrite /list_push_front. wp_bind. iApply (wp_list_begin with "Hl").
  iIntros "Hl". by iApply (wp_insert_at L [] xs with "Hl He").
Qed.

Lemma wp_push_back L xs e Φ :
  is_list L xs -∗ detached e -∗ (is_list L (xs ++ [e]) -∗ Φ tt) -∗ wp (list_push_back L e) Φ.
Proof.
  iIntros "Hl He HΦ". rewrite /list_push_back -{1}(app_nil_r xs).
  by iApply (wp_insert_at L xs [] with "Hl He").
Qed.

Lemma wp_list_front L x xs Φ :
  is_list L (x :: xs) -∗ (is_list L (x :: xs) -∗ Φ x) -∗ wp (list_front L) Φ.
Proof.
  iIntros "Hl HΦ". rewrite /list_front. wp_bind. iApply (wp_list_empty with "Hl"). iIntros "Hl".
  wp_bind. iApply wp_assert; [done|]. by iApply (wp_list_begin with "Hl").
Qed.

Lemma wp_list_back L x xs Φ :
  is_list L (xs ++ [x]) -∗ (is_list L (xs ++ [x]) -∗ Φ x) -∗ wp (list_back L) Φ.
Proof.
  iIntros "Hl HΦ". rewrite /list_back. wp_bind. iApply (wp_list_empty with "Hl"). iIntros "Hl".
  wp_bind. iApply wp_assert. { by destruct xs. }
  iApply (wp_list_rbegin with "Hl"). rewrite last_snoc. iApply "HΦ".
Qed.

Lemma wp_pop_front L x xs Φ :
  is_list L (x :: xs) -∗ (is_list L xs -∗ detached x -∗ Φ x) -∗ wp (list_pop_front L) Φ.
Proof.
  iIntros "Hl HΦ". rewrite /list_pop_front. wp_bind. iApply (wp_list_front with "Hl").
  iIntros "Hl". wp_bind. iApply (wp_remove_at L [] x xs with "Hl"). iIntros "Hl Hx".
  wp_ret. by iApply ("HΦ" with "Hl Hx").
Qed.

Lemma wp_pop_back L x xs Φ :
  is_list L (xs ++ [x]) -∗ (is_list L xs -∗ detached x -∗ Φ x) -∗ wp (list_pop_back L) Φ.
Proof.
  iIntros "Hl HΦ". rewrite /list_pop_back. wp_bind. iApply (wp_list_back with "Hl").
  iIntros "Hl". wp_bind. iApply (wp_remove_at L xs x [] with "Hl"). rewrite app_nil_r.
  iIntros "Hl Hx". wp_ret. by iApply ("HΦ" with "Hl Hx").
Qed.

(** Stepping through a list. *)
Lemma wp_next_at L xs x ys Φ :
  is_list L (xs ++ x :: ys) -∗ (is_list L (xs ++ x :: ys) -∗ Φ (default (l_tail L) (head ys))) -∗
  wp (list_next x) Φ.
Proof.
  iIntros "Hl HΦ". rewrite /is_list /nodes -app_assoc app_comm_cons.
  destruct ys as [|y ys]; simpl; iApply (wp_list_next (l_head L :: xs) x with "Hl"); iApply "HΦ".
Qed.

Lemma tail_test L xs ys :
  NoDup (nodes L (xs ++ ys)) → (default (l_tail L) (head ys) = l_tail L ↔ ys = []).
Proof.
  unfold nodes. intros [_ Hnd]%NoDup_cons. rewrite -app_assoc in Hnd.
  apply NoDup_app in Hnd as (_ & _ & Hnd).
  destruct ys as [|y ys]; [done|]. simpl. split; [|done]. intros ->.
  apply NoDup_cons in Hnd as [Hnd _]. set_solver.
Qed.

Lemma wp_size_loop L ys : ∀ xs fuel cnt Φ,
  (length ys < fuel)%nat →
  is_list L (xs ++ ys) -∗
  (is_list L (xs ++ ys) -∗ Φ (foldl (λ c _, wrap64 (c + 1)) cnt ys)) -∗
  wp (size_loop fuel L (default (l_tail L) (head ys)) cnt) Φ.
Proof.
  induction ys as [|y ys IH]; intros xs [|fuel] cnt Φ Hfuel; simpl in Hfuel; try lia;
    iIntros "Hl HΦ"; cbn [size_loop]; iDestruct (is_list_NoDup with "Hl") as %Hnd;
    rewrite (bool_decide_ext _ _ (tail_test _ _ _ Hnd)).
  - wp_ret. by iApply "HΦ".
  - wp_bind. iApply (wp_next_at with "Hl"). iIntros "Hl".
    rewrite (cons_middle y xs ys) (app_assoc xs). iApply (IH with "Hl"); [lia|]. iApply "HΦ".
Qed.

Lemma wp_list_size L xs fuel Φ :
  (length xs < fuel)%nat → in_width 64 (Z.of_nat (length xs)) →
  is_list L xs -∗ (is_list L xs -∗ Φ (Z.of_nat (length xs))) -∗ wp (list_size fuel L) Φ.
Proof.
  iIntros (Hfuel Hw) "Hl HΦ". rewrite /list_size. wp_bind. iApply (wp_list_begin with "Hl").
  iIntros "Hl". iApply (wp_size_loop L xs [] with "Hl"); [done|].
  rewrite (_ : foldl _ 0 xs = Z.of_nat (length xs)); [done|].
  clear -Hw. induction xs as [|x xs IH] using rev_ind; [done|].
  rewrite length_app Nat.add_1_r /= in Hw |- *. rewrite foldl_app /= IH.
  - rewrite wrap_small; unfold in_width in *; lia.
  - unfold in_width in *. lia.
Qed.

(** ** Reversal *)

(** A chain whose links have been swapped. *)
Fixpoint rchain (p : option loc) (xs : list loc) (n : option loc) : iProp Σ :=
  match xs with
  | [] => True
  | x :: xs => x ↦ mkElem (hdo xs n) p ∗ rchain (Some x) xs n
  end.

Lemma lasto_reverse xs n : lasto (reverse xs) n = hdo xs n.
Proof. destruct xs as [|x xs]; [done|]. by rewrite reverse_cons lasto_snoc. Qed.

Lemma rchain_reverse p xs n : rchain p xs n ⊣⊢ chain n (reverse xs) p.
Proof.
  revert p. induction xs as [|x xs IH]; intros p; simpl; [done|].
  by rewrite reverse_cons chain_snoc IH lasto_reverse comm.
Qed.

Lemma wp_reverse_loop L xs : ∀ p fuel Φ,
  (length xs < fuel)%nat → l_tail L ∉ xs →
  chain p xs (Some (l_tail L)) -∗ (rchain p xs (Some (l_tail L)) -∗ Φ tt) -∗
  wp (reverse_loop fuel L (default (l_tail L) (head xs))) Φ.
Proof.
  induction xs as [|x xs IH]; intros p [|fuel] Φ Hfuel Ht; simpl in Hfuel; try lia;
    iIntros "Hc HΦ"; cbn [reverse_loop default head].
  - rewrite bool_decide_eq_true_2 //. wp_ret. by iApply "HΦ".
  - apply not_elem_of_cons in Ht as [Hne Ht].
    rewrite bool_decide_eq_false_2; [|done]. iDestruct "Hc" as "[Hx Hc]".
    wp_bind. rewrite /swap_links. wp_bind. wp_load "Hx". wp_store "Hx". simpl.
    wp_bind. iApply (wp_get_prev with "Hx"). iIntros "Hx".
    wp_bind. assert (hdo xs (Some (l_tail L)) = Some (default (l_tail L) (head xs))) as Hh by (by destruct xs).
    rewrite Hh. iApply wp_deref. rewrite -Hh. iApply (IH with "Hc"); [lia|done|]. iIntros "Hc".
    iApply "HΦ". simpl. iFrame.
Qed.

(** Exchanging the outer links of a chain. *)
Lemma wp_swap_ends f b ys p q Φ :
  hdo ys None = Some f → lasto ys None = Some b →
  chain p ys q -∗ (chain q ys p -∗ Φ tt) -∗
  wp (fp ← get_prev f; bn ← get_next b; set_prev f bn;; set_next b fp) Φ.
Proof.
  iIntros (Hf Hb) "Hc HΦ". destruct ys as [|y ys]; [done|]. simpl in Hf. simplify_eq.
  destruct ys as [|z ys _] using rev_ind.
  - rewrite /lasto /= in Hb. simplify_eq. simpl. iDestruct "Hc" as "[Hy _]".
    wp_bind. iApply (wp_get_prev with "Hy"). iIntros "Hy".
    wp_bind. iApply (wp_get_next with "Hy"). iIntros "Hy".
    wp_bind. iApply (wp_set_prev with "Hy"). iIntros "Hy".
    iApply (wp_set_next with "Hy"). iIntros "Hy". iApply "HΦ". by iFrame.
  - rewrite app_comm_cons lasto_snoc in Hb. simplify_eq. rewrite app_comm_cons !chain_snoc /=.
    iDestruct "Hc" as "[[Hy Hc] Hz]".
    wp_bind. iApply (wp_get_prev with "Hy"). iIntros "Hy".
    wp_bind. iApply (wp_get_next with "Hz"). iIntros "Hz".
    wp_bind. iApply (wp_set_prev with "Hy"). iIntros "Hy".
    iApply (wp_set_next with "Hz"). iIntros "Hz". iApply "HΦ". rewrite !lasto_cons. iFrame.
Qed.

Lemma wp_list_reverse L xs fuel Φ :
  (length xs < fuel)%nat →
  is_list L xs -∗ (is_list L (reverse xs) -∗ Φ tt) -∗ wp (list_reverse fuel L) Φ.
Proof.
  iIntros (Hfuel) "Hl HΦ". rewrite /list_reverse. wp_bind. iApply (wp_list_empty with "Hl").
  iIntros "Hl". destruct (bool_decide_reflect (xs = [])) as [->|Hne].
  { wp_ret. by iApply "HΦ". }
  iDestruct (is_list_NoDup with "Hl") as %Hnd.
  wp_bind. iApply (wp_list_begin with "Hl"). iIntros "Hl".
  rewrite /is_list /nodes. cbn [chain]. rewrite !hdo_app !chain_snoc.
  iDestruct "Hl" as "(Hh & Hc & Ht)".
  wp_bind. iApply (wp_reverse_loop with "Hc"); [done| |].
  { unfold nodes in Hnd. apply NoDup_cons in Hnd as [_ Hnd].
    apply NoDup_app in Hnd as (_ & Hnd & _). intros Hx. apply (Hnd _ Hx). set_solver. }
  iIntros "Hc". rewrite rchain_reverse.
  wp_bind. iApply (wp_get_next with "Hh"). iIntros "Hh".
  wp_bind. iApply (wp_get_prev with "Ht"). iIntros "Ht".
  wp_bind. iApply (wp_set_next with "Hh"). iIntros "Hh".
  wp_bind. iApply (wp_set_prev with "Ht"). iIntros "Ht".
  wp_bind. iApply (wp_get_next with "Hh"). iIntros "Hh".
  assert (∃ f, hdo (reverse xs) None = Some f ∧ lasto xs (Some (l_head L)) = Some f ∧
    hdo (reverse xs) (Some (l_tail L)) = Some f) as (f & Hf1 & Hf2 & Hf3).
  { destruct xs as [|x xs' _] using rev_ind; [done|]. exists x.
    by rewrite reverse_app lasto_snoc. }
  assert (∃ b, lasto (reverse xs) None = Some b ∧ hdo xs (hdo [l_tail L] None) = Some b ∧
    lasto (reverse xs) (Some (l_head L)) = Some b) as (b & Hb1 & Hb2 & Hb3).
  { destruct xs as [|x xs']; [done|]. exists x. by rewrite !lasto_reverse. }
  rewrite Hf2 Hb2. wp_bind. iApply wp_deref.
  wp_bind. iApply (wp_get_prev with "Ht"). iIntros "Ht". wp_bind. iApply wp_deref.
  iApply (wp_swap_ends f b with "Hc"); [done..|]. iIntros "Hc". iApply "HΦ".
  rewrite Hf3 Hb3. iFrame.
Qed.

(** ** Ordered insertion, extrema and duplicates *)

Section less.
Variable less : loc → loc → bool.

(** The elements that an ordered insertion skips. *)
Fixpoint ordered_split (e : loc) (xs : list loc) : list loc * list loc :=
  match xs with
  | [] => ([], [])
  | x :: xs =>
      if less e x then ([], x :: xs)
      else let '(l, r) := ordered_split e xs in (x :: l, r)
  end.

Definition insert_sorted (e : loc) (xs : list loc) : list loc :=
  let '(l, r) := ordered_split e xs in l ++ e :: r.

Lemma ordered_split_app e xs : xs = (ordered_split e xs).1 ++ (ordered_split e xs).2.
Proof.
  induction xs as [|x xs IH]; [done|]. simpl. destruct (less e x); [done|].
  destruct (ordered_split e xs). simpl in *. by rewrite IH.
Qed.

Lemma wp_insert_ordered_loop L e ys : ∀ xs fuel Φ,
  (length ys < fuel)%nat →
  is_list L (xs ++ ys) -∗
  (is_list L (xs ++ ys) -∗ Φ (default (l_tail L) (head (ordered_split e ys).2))) -∗
  wp (insert_ordered_loop less fuel L e (default (l_tail L) (head ys))) Φ.
Proof.
  induction ys as [|y ys IH]; intros xs [|fuel] Φ Hfuel; simpl in Hfuel; try lia;
    iIntros "Hl HΦ"; cbn [insert_ordered_loop]; iDestruct (is_list_NoDup with "Hl") as %Hnd;
    rewrite (bool_decide_ext _ _ (tail_test _ _ _ Hnd)).
  - wp_ret. by iApply "HΦ".
  - simpl. destruct (less e y); [wp_ret; by iApply "HΦ"|].
    wp_bind. iApply (wp_next_at with "Hl"). iIntros "Hl".
    rewrite (cons_middle y xs ys) (app_assoc xs). iApply (IH with "Hl"); [lia|].
    by destruct (ordered_split e ys).
Qed.

Lemma wp_list_insert_ordered L xs e fuel Φ :
  (length xs < fuel)%nat →
  is_list L xs -∗ detached e -∗ (is_list L (insert_sorted e xs) -∗ Φ tt) -∗
  wp (list_insert_ordered less fuel L e) Φ.
Proof.
  iIntros (Hfuel) "Hl He HΦ". rewrite /list_insert_ordered. wp_bind.
  iApply (wp_list_begin with "Hl"). iIntros "Hl".
  wp_bind. iApply (wp_insert_ordered_loop L e xs [] with "Hl"); [done|]. iIntros "Hl".
  simpl. iAssert (is_list L ((ordered_split e xs).1 ++ (ordered_split e xs).2))
    with "[Hl]" as "Hl"; [by rewrite -ordered_split_app|].
  iApply (wp_insert_at L (ordered_split e xs).1 with "Hl He").
  iIntros "Hl". iApply "HΦ". rewrite /insert_sorted. by destruct (ordered_split e xs).
Qed.

Definition extreme (better : loc → loc → bool) (best : loc) (xs : list loc) : loc :=
  foldl (λ best e, if better best e then e else best) best xs.

Lemma wp_extreme_loop better L ys : ∀ xs best fuel Φ,
  (length ys < fuel)%nat →
  is_list L (xs ++ ys) -∗ (is_list L (xs ++ ys) -∗ Φ (extreme better best ys)) -∗
  wp (extreme_loop better fuel L best (default (l_tail L) (head ys))) Φ.
Proof.
  induction ys as [|y ys IH]; intros xs best [|fuel] Φ Hfuel; simpl in Hfuel; try lia;
    iIntros "Hl HΦ"; cbn [extreme_loop]; iDestruct (is_list_NoDup with "Hl") as %Hnd;
    rewrite (bool_decide_ext _ _ (tail_test _ _ _ Hnd)).
  - wp_ret. by iApply "HΦ".
  - simpl. wp_bind. iApply (wp_next_at with "Hl"). iIntros "Hl".
    rewrite (cons_middle y xs ys) (app_assoc xs). iApply (IH with "Hl"); [lia|done].
Qed.

Lemma wp_list_max L x xs fuel Φ :
  (length xs < fuel)%nat →
  is_list L (x :: xs) -∗
  (is_list L (x :: xs) -∗ Φ (extreme (λ max e, less max e) x xs)) -∗
  wp (list_max less fuel L) Φ.
Proof.
  iIntros (Hfuel) "Hl HΦ". rewrite /list_max. wp_bind. iApply (wp_list_begin with "Hl").
  iIntros "Hl". iDestruct (is_list_ne_tail L _ x with "Hl") as %Hne; [set_solver|].
  simpl. rewrite bool_decide_eq_false_2 //.
  wp_bind. iApply (wp_next_at L [] with "Hl"). iIntros "Hl".
  iApply (wp_extreme_loop _ L xs [x] with "Hl"); [done|]. iApply "HΦ".
Qed.

Lemma wp_list_min L x xs fuel Φ :
  (length xs < fuel)%nat →
  is_list L (x :: xs) -∗
  (is_list L (x :: xs) -∗ Φ (extreme (λ min e, less e min) x xs)) -∗
  wp (list_min less fuel L) Φ.
Proof.
  iIntros (Hfuel) "Hl HΦ". rewrite /list_min. wp_bind. iApply (wp_list_begin with "Hl").
  iIntros "Hl". iDestruct (is_list_ne_tail L _ x with "Hl") as %Hne; [set_solver|].
  simpl. rewrite bool_decide_eq_false_2 //.
  wp_bind. iApply (wp_next_at L [] with "Hl"). iIntros "Hl".
  iApply (wp_extreme_loop _ L xs [x] with "Hl"); [done|]. iApply "HΦ".
Qed.

(** The elements that stay and the elements that go to [duplicates]. *)
Fixpoint unique_from (x : loc) (xs : list loc) : list loc * list loc :=
  match xs with
  | [] => ([x], [])
  | y :: ys =>
      if negb (less x y) && negb (less y x)
      then let '(k, d) := unique_from x ys in (k, y :: d)
      else let '(k, d) := unique_from y ys in (x :: k, d)
  end.

Definition is_dups (d : option dlist) (ds : list loc) : iProp Σ :=
  match d with Some d => is_list d ds | None => [∗ list] x ∈ ds, detached x end.

Lemma wp_unique_loop L dup ys : ∀ xs x ds fuel Φ,
  (length ys < fuel)%nat →
  is_list L (xs ++ x :: ys) -∗ is_dups dup ds -∗
  (is_list L (xs ++ (unique_from x ys).1) -∗ is_dups dup (ds ++ (unique_from x ys).2) -∗ Φ tt) -∗
  wp (unique_loop less fuel L dup x) Φ.
Proof.
  induction ys as [|y ys IH]; intros xs x ds [|fuel] Φ Hfuel; simpl in Hfuel; try lia;
    iIntros "Hl Hd HΦ"; cbn [unique_loop unique_from]; wp_bind;
    iApply (wp_next_at with "Hl"); iIntros "Hl".
  - rewrite bool_decide_eq_true_2 //. wp_ret. rewrite app_nil_r. iApply ("HΦ" with "Hl Hd").
  - simpl. iDestruct (is_list_ne_tail L _ y with "Hl") as %Hne; [set_solver|].
    rewrite bool_decide_eq_false_2 //.
    destruct (negb (less x y) && negb (less y x)).
    + wp_bind. rewrite (cons_middle x xs) app_assoc. iApply (wp_remove_at L (xs ++ [x]) y ys with "Hl").
      iIntros "Hl Hy". rewrite -app_assoc /=. wp_bind.
      iAssert (wp (match dup with Some d => list_push_back d y | None => mret tt end)
        (λ _, is_dups dup (ds ++ [y]))) with "[Hd Hy]" as "Hpush".
      { destruct dup as [d|]; simpl.
        - iApply (wp_push_back with "Hd Hy"). by iIntros "Hd".
        - wp_ret. rewrite big_sepL_app /=. by iFrame. }
      iApply (wp_mono with "Hpush"). iIntros (_) "Hd".
      iApply (IH with "Hl Hd"); [lia|]. destruct (unique_from x ys) as [k d]. simpl.
      rewrite -app_assoc /=. iApply "HΦ".
    + rewrite (cons_middle x xs) app_assoc. iApply (IH with "Hl Hd"); [lia|].
      destruct (unique_from y ys) as [k d]. simpl. rewrite -app_assoc /=. iApply "HΦ".
Qed.

Lemma wp_list_unique L dup x xs ds fuel Φ :
  (length xs < fuel)%nat →
  is_list L (x :: xs) -∗ is_dups dup ds -∗
  (is_list L (unique_from x xs).1 -∗ is_dups dup (ds ++ (unique_from x xs).2) -∗ Φ tt) -∗
  wp (list_unique less fuel L dup) Φ.
Proof.
  iIntros (Hfuel) "Hl Hd HΦ". rewrite /list_unique. wp_bind. iApply (wp_list_empty with "Hl").
  iIntros "Hl". simpl. wp_bind. iApply (wp_list_begin with "Hl"). iIntros "Hl".
  by iApply (wp_unique_loop L dup xs [] x with "Hl Hd").
Qed.
End less.

End list_proof.
