(* ===== verification/DListSort.v ===== *)
(** * Correctness of [list_sort]

    The natural merge sort of [list.c] returns a sorted, stable permutation, and
    its passes end because each pass at least halves the number of runs. *)
From S2P Require Import Prelude.
From S2P Require Import Heap.
From S2P Require Import DList.
From S2P Require Import DListProof.
From stdpp Require Import sorting.

#[local] Open Scope Z_scope.

(** ** The sort as a function on sequences *)
Section pure.
Variable less : loc → loc → bool.

(** [a] may come before [b]. *)
Definition leb (a b : loc) : bool := negb (less b a).

Fixpoint sortedb (x : loc) (xs : list loc) : bool :=
  match xs with
  | [] => true
  | y :: ys => if less y x then false else sortedb y ys
  end.

(** The longest nondecreasing prefix. *)
Fixpoint split_run (x : loc) (xs : list loc) : list loc * list loc :=
  match xs with
  | [] => ([x], [])
  | y :: ys =>
      if less y x then ([x], y :: ys)
      else let '(r, rest) := split_run y ys in (x :: r, rest)
  end.

Fixpoint merge (l1 : list loc) : list loc → list loc :=
  fix merge_aux (l2 : list loc) : list loc :=
    match l1, l2 with
    | [], _ => l2
    | _, [] => l1
    | x :: l1', y :: l2' => if less y x then y :: merge_aux l2' else x :: merge l1' l2
    end.

Fixpoint pass (n : nat) (xs : list loc) : list loc * nat :=
  match n, xs with
  | S n, x :: xs =>
      match split_run x xs with
      | (r1, []) => (r1, 1%nat)
      | (r1, y :: ys) =>
          let '(r2, rest) := split_run y ys in
          let '(out, c) := pass n rest in (merge r1 r2 ++ out, S c)
      end
  | _, _ => ([], 0%nat)
  end.

Fixpoint sort_fun (n : nat) (xs : list loc) : list loc :=
  match n with
  | O => xs
  | S n =>
      let '(out, c) := pass (length xs) xs in
      if (1 <? c)%nat then sort_fun n out else out
  end.

Lemma merge_nil_r l : merge l [] = l.
Proof. by destruct l. Qed.

Lemma merge_nil_l l : merge [] l = l.
Proof. by destruct l. Qed.

Lemma merge_cons x l1 y l2 :
  merge (x :: l1) (y :: l2) =
  if less y x then y :: merge (x :: l1) l2 else x :: merge l1 (y :: l2).
Proof. done. Qed.

Lemma merge_ind (P : list loc → list loc → Prop) :
  (∀ l2, P [] l2) → (∀ l1, P l1 []) →
  (∀ x l1 y l2, less y x = true → P (x :: l1) l2 → P (x :: l1) (y :: l2)) →
  (∀ x l1 y l2, less y x = false → P l1 (y :: l2) → P (x :: l1) (y :: l2)) →
  ∀ l1 l2, P l1 l2.
Proof.
  intros H1 H2 H3 H4. induction l1 as [|x l1 IH1]; [done|].
  induction l2 as [|y l2 IH2]; [done|]. destruct (less y x) eqn:Hl; auto.
Qed.

Lemma split_run_app x xs : x :: xs = (split_run x xs).1 ++ (split_run x xs).2.
Proof.
  revert x. induction xs as [|y ys IH]; intros x; simpl; [done|].
  destruct (less y x); [done|]. specialize (IH y). destruct (split_run y ys). simpl in *. congruence.
Qed.

Lemma split_run_hd x xs : ∃ r, (split_run x xs).1 = x :: r.
Proof. destruct xs as [|y ys]; simpl; [eauto|]. destruct (less y x); [eauto|]. destruct (split_run y ys). eauto. Qed.

Lemma split_run_sorted x xs r rest : split_run x xs = (x :: r, rest) → sortedb x r = true.
Proof.
  revert x r rest. induction xs as [|y ys IH]; intros x r rest; simpl.
  { by intros [= <- _]. }
  destruct (less y x) eqn:Hl; [by intros [= <- _]|].
  destruct (split_run_hd y ys) as [r' Hr']. destruct (split_run y ys) as [r0 rest0] eqn:Hsp.
  simpl in Hr'. subst r0. intros [= <- _]. simpl. rewrite Hl. by eapply IH.
Qed.

(** ** Permutation *)

Lemma merge_perm l1 l2 : merge l1 l2 ≡ₚ l1 ++ l2.
Proof.
  revert l1 l2. apply merge_ind.
  - intros l2. by rewrite merge_nil_l.
  - intros l1. by rewrite merge_nil_r app_nil_r.
  - intros x l1 y l2 Hl IH. rewrite merge_cons Hl IH. by rewrite Permutation_middle.
  - intros x l1 y l2 Hl IH. by rewrite merge_cons Hl IH.
Qed.

Lemma pass_perm n xs : (length xs ≤ n)%nat → (pass n xs).1 ≡ₚ xs.
Proof.
  revert xs. induction n as [|n IH]; intros [|x xs] Hn; simpl in *; try done; [lia|].
  pose proof (split_run_app x xs) as Hsp. destruct (split_run_hd x xs) as [r Hr].
  destruct (split_run x xs) as [r1 [|y ys]]; simpl in *; [by rewrite Hsp app_nil_r|].
  pose proof (split_run_app y ys) as Hsp2. destruct (split_run_hd y ys) as [r' Hr'].
  destruct (split_run y ys) as [r2 rest]. simpl in *.
  pose proof (f_equal length Hsp) as Hlen. pose proof (f_equal length Hsp2) as Hlen2.
  subst r1 r2. simpl in Hlen, Hlen2. rewrite length_app /= in Hlen. rewrite length_app /= in Hlen2.
  specialize (IH rest ltac:(lia)). destruct (pass n rest) as [out c]. cbn [fst] in *.
  by rewrite IH merge_perm Hsp Hsp2 -app_assoc.
Qed.

Lemma sort_fun_perm n xs : sort_fun n xs ≡ₚ xs.
Proof.
  revert xs. induction n as [|n IH]; intros xs; simpl; [done|].
  pose proof (pass_perm (length xs) xs ltac:(done)) as Hp. destruct (pass (length xs) xs) as [out c].
  destruct (1 <? c)%nat; simpl in *; [by rewrite IH|done].
Qed.

(** ** Order *)

(** [less] is a strict weak order. *)
Class StrictWeakOrder : Prop := {
  less_asym a b : less a b = true → less b a = false;
  leb_trans a b c : leb a b = true → leb b c = true → leb a c = true;
}.

Context {Hswo : StrictWeakOrder}.

Definition ordered (xs : list loc) : Prop := StronglySorted (λ a b, leb a b = true) xs.

Lemma sortedb_ordered x xs : sortedb x xs = true ↔ ordered (x :: xs).
Proof.
  revert x. unfold ordered. induction xs as [|y ys IH]; intros x; simpl.
  { split; [|done]. intros _. repeat constructor. }
  split.
  - destruct (less y x) eqn:Hl; [done|]. intros Hs. apply IH in Hs as Hs'.
    constructor; [done|]. apply StronglySorted_inv in Hs' as [_ Hy].
    assert (leb x y = true) as Hxy by (by rewrite /leb Hl). constructor; [done|].
    eapply Forall_impl; [exact Hy|]. intros z Hz. simpl in Hz. by eapply leb_trans.
  - intros [Hs Hx]%StronglySorted_inv. apply Forall_cons in Hx as [Hxy _].
    unfold leb in Hxy. destruct (less y x); [done|]. by apply IH.
Qed.

Lemma merge_ordered l1 l2 : ordered l1 → ordered l2 → ordered (merge l1 l2).
Proof.
  revert l1 l2. unfold ordered.
  apply (merge_ind (λ l1 l2, ordered l1 → ordered l2 → ordered (merge l1 l2))); unfold ordered.
  - intros l2 _ H. by rewrite merge_nil_l.
  - intros l1 H _. by rewrite merge_nil_r.
  - intros x l1 y l2 Hl IH H1 H2. rewrite merge_cons Hl.
    apply StronglySorted_inv in H2 as [H2 Hy]. constructor; [by apply IH|].
    rewrite merge_perm. apply Forall_app. split; [|done].
    apply StronglySorted_inv in H1 as [_ Hx].
    assert (leb y x = true) as Hyx by (by rewrite /leb (less_asym _ _ Hl)).
    constructor; [done|]. eapply Forall_impl; [exact Hx|]. intros z Hz. simpl in Hz. by eapply leb_trans.
  - intros x l1 y l2 Hl IH H1 H2. rewrite merge_cons Hl.
    apply StronglySorted_inv in H1 as [H1 Hx]. constructor; [by apply IH|].
    rewrite merge_perm. apply Forall_app. split; [done|].
    apply StronglySorted_inv in H2 as [_ Hy].
    assert (leb x y = true) as Hxy by (by rewrite /leb Hl).
    constructor; [done|]. eapply Forall_impl; [exact Hy|]. intros z Hz. simpl in Hz. by eapply leb_trans.
Qed.

(** ** Runs *)

(** The number of maximal runs. *)
Fixpoint descents (x : loc) (xs : list loc) : nat :=
  match xs with
  | [] => 0%nat
  | y :: ys => ((if less y x then 1 else 0) + descents y ys)%nat
  end.
Definition nruns (xs : list loc) : nat :=
  match xs with [] => 0%nat | x :: xs => S (descents x xs) end.

Lemma descents_sorted x xs : descents x xs = 0%nat ↔ sortedb x xs = true.
Proof.
  revert x. induction xs as [|y ys IH]; intros x; simpl; [done|].
  destruct (less y x); [split; [lia|done]|]. apply IH.
Qed.

Lemma nruns_app xs ys : (nruns (xs ++ ys) ≤ nruns xs + nruns ys)%nat.
Proof.
  destruct xs as [|x xs]; [done|]. simpl. apply le_n_S. revert x.
  induction xs as [|z xs IH]; intros x; simpl.
  - destruct ys as [|y ys]; simpl; [lia|]. destruct (less y x); lia.
  - specialize (IH z). destruct (less z x); lia.
Qed.

Lemma nruns_ordered xs : ordered xs → (nruns xs ≤ 1)%nat.
Proof. destruct xs as [|x xs]; simpl; [lia|]. intros Hs%sortedb_ordered%descents_sorted. lia. Qed.

Lemma nruns_split x xs r rest :
  split_run x xs = (r, rest) → nruns (x :: xs) = S (nruns rest).
Proof.
  revert x r rest. induction xs as [|y ys IH]; intros x r rest; simpl; [by intros [= _ <-]|].
  destruct (less y x) eqn:Hl; [by intros [= _ <-]|].
  destruct (split_run y ys) as [r0 rest0] eqn:Hsp. intros [= _ <-]. by apply (IH y r0 rest0).
Qed.

Lemma pass_runs n xs :
  (length xs ≤ n)%nat →
  (nruns (pass n xs).1 ≤ (pass n xs).2)%nat ∧ (2 * (pass n xs).2 ≤ S (nruns xs))%nat.
Proof.
  revert xs. induction n as [|n IH]; intros [|x xs] Hn; simpl in Hn; simpl pass; try (simpl; lia).
  pose proof (split_run_app x xs) as Hsp. destruct (split_run_hd x xs) as [r Hr].
  destruct (split_run x xs) as [r1 rest1] eqn:Hs1. simpl in Hr, Hsp. subst r1.
  pose proof (split_run_sorted _ _ _ _ Hs1) as Ho1. apply sortedb_ordered in Ho1.
  rewrite (nruns_split _ _ _ _ Hs1). pose proof (nruns_ordered _ Ho1).
  destruct rest1 as [|y ys]; [cbn [fst snd]; simpl nruns at 2; lia|].
  pose proof (split_run_app y ys) as Hsp2. destruct (split_run_hd y ys) as [r' Hr'].
  destruct (split_run y ys) as [r2 rest] eqn:Hs2. simpl in Hr', Hsp2. subst r2.
  pose proof (split_run_sorted _ _ _ _ Hs2) as Ho2. apply sortedb_ordered in Ho2.
  rewrite (nruns_split _ _ _ _ Hs2).
  pose proof (f_equal length Hsp) as Hlen. pose proof (f_equal length Hsp2) as Hlen2.
  simpl in Hlen, Hlen2. rewrite length_app /= in Hlen. rewrite length_app in Hlen2.
  destruct (IH rest ltac:(lia)) as [IH1 IH2]. destruct (pass n rest) as [out c]. cbn [fst snd] in *.
  pose proof (nruns_app (merge (x :: r) (y :: r')) out).
  pose proof (nruns_ordered _ (merge_ordered _ _ Ho1 Ho2)). lia.
Qed.

Lemma sort_fun_ordered n xs : (nruns xs ≤ n)%nat → ordered (sort_fun n xs).
Proof.
  revert xs. induction n as [|n IH]; intros xs Hn; simpl.
  { destruct xs; [constructor|simpl in Hn; lia]. }
  destruct (pass_runs (length xs) xs ltac:(done)) as [H1 H2].
  destruct (pass (length xs) xs) as [out c]. simpl in *.
  destruct (Nat.ltb_spec 1 c); [apply IH; lia|].
  destruct out as [|x out]; [constructor|]. apply sortedb_ordered, descents_sorted.
  simpl in H1. lia.
Qed.

Lemma nruns_length xs : (nruns xs ≤ length xs)%nat.
Proof.
  destruct xs as [|x xs]; simpl; [lia|]. apply le_n_S. revert x.
  induction xs as [|y ys IH]; intros x; simpl; [lia|]. specialize (IH y). destruct (less y x); lia.
Qed.

(** ** Stability *)

(** Elements of equal rank. *)
Definition eqv (k x : loc) : bool := leb k x && leb x k.
Definition rank (k : loc) (xs : list loc) : list loc := filter (λ x, eqv k x = true) xs.

Lemma rank_app k xs ys : rank k (xs ++ ys) = rank k xs ++ rank k ys.
Proof. apply filter_app. Qed.

Lemma rank_cons k x xs : rank k (x :: xs) = if eqv k x then x :: rank k xs else rank k xs.
Proof. unfold rank. rewrite filter_cons. by destruct (eqv k x). Qed.

Lemma rank_none k x xs :
  ordered (x :: xs) → less k x = true → rank k (x :: xs) = [].
Proof.
  intros [_ Hx]%StronglySorted_inv Hl. unfold rank.
  assert (leb x k = false) as Hxk by (by rewrite /leb Hl).
  assert (Forall (λ y, eqv k y = false) (x :: xs)) as Hall.
  { constructor; [by rewrite /eqv Hxk andb_false_r|]. eapply Forall_impl; [exact Hx|].
    intros y Hy. simpl in Hy. apply andb_false_iff. right. destruct (leb y k) eqn:Hyk; [|done].
    by rewrite (leb_trans x y k Hy Hyk) in Hxk. }
  generalize dependent (x :: xs). intros l. induction 1 as [|y l Hy Hl' IH]; [done|].
  rewrite filter_cons Hy /=. exact IH.
Qed.

Lemma eqv_less k y x : eqv k y = true → less y x = true → less k x = true.
Proof.
  unfold eqv, leb. intros [H1 H2]%andb_true_iff Hl. destruct (less k x) eqn:Hkx; [done|].
  (* x ≤ k ≤ y, so x ≤ y *)
  assert (leb x y = true) as Hxy.
  { apply (leb_trans x k y); unfold leb; by rewrite ?Hkx. }
  unfold leb in Hxy. by rewrite Hl in Hxy.
Qed.

Lemma merge_rank k l1 l2 : ordered l1 → rank k (merge l1 l2) = rank k l1 ++ rank k l2.
Proof.
  revert l1 l2. apply (merge_ind (λ l1 l2, ordered l1 → rank k (merge l1 l2) = rank k l1 ++ rank k l2)).
  - intros l2 _. by rewrite merge_nil_l.
  - intros l1 _. by rewrite merge_nil_r app_nil_r.
  - intros x l1 y l2 Hl IH H1. rewrite merge_cons Hl !(rank_cons k y) IH //.
    destruct (eqv k y) eqn:Hky; [|done].
    by rewrite (rank_none k x l1 H1 (eqv_less k y x Hky Hl)).
  - intros x l1 y l2 Hl IH H1. rewrite merge_cons Hl !(rank_cons k x) IH.
    + by destruct (eqv k x).
    + by apply StronglySorted_inv in H1 as [? _].
Qed.

Lemma pass_rank k n xs : (length xs ≤ n)%nat → rank k (pass n xs).1 = rank k xs.
Proof.
  revert xs. induction n as [|n IH]; intros [|x xs] Hn; simpl in Hn; simpl pass; try done; [lia|].
  pose proof (split_run_app x xs) as Hsp. destruct (split_run_hd x xs) as [r Hr].
  destruct (split_run x xs) as [r1 rest1] eqn:Hs1. simpl in Hr, Hsp. subst r1.
  pose proof (split_run_sorted _ _ _ _ Hs1) as Ho1. apply sortedb_ordered in Ho1.
  destruct rest1 as [|y ys]; [by rewrite Hsp app_nil_r|].
  pose proof (split_run_app y ys) as Hsp2. destruct (split_run_hd y ys) as [r' Hr'].
  destruct (split_run y ys) as [r2 rest] eqn:Hs2. simpl in Hr', Hsp2. subst r2.
  pose proof (f_equal length Hsp) as Hlen. pose proof (f_equal length Hsp2) as Hlen2.
  simpl in Hlen, Hlen2. rewrite length_app /= in Hlen. rewrite length_app in Hlen2.
  specialize (IH rest ltac:(lia)). destruct (pass n rest) as [out c]. cbn [fst] in *.
  by rewrite rank_app merge_rank // IH Hsp Hsp2 !rank_app app_assoc.
Qed.

Lemma sort_fun_rank k n xs : rank k (sort_fun n xs) = rank k xs.
Proof.
  revert xs. induction n as [|n IH]; intros xs; simpl; [done|].
  pose proof (pass_rank k (length xs) xs ltac:(done)) as Hp. destruct (pass (length xs) xs) as [out c].
  destruct (1 <? c)%nat; simpl in *; [by rewrite IH|done].
Qed.

End pure.

(** ** The sort in memory *)
Section sort_proof.
Context `{HG : !heapG list_elem Σ}.
Variable less : loc → loc → bool.

(** The first and the last node of a chain. *)
Lemma wp_load_first x M p n Φ :
  chain p (x :: M) n -∗ (∀ e, ⌜le_prev e = p⌝ -∗ chain p (x :: M) n -∗ Φ e) -∗ wp (load x) Φ.
Proof.
  iIntros "[Hx HM] HΦ". wp_load "Hx". iApply ("HΦ" $! (mkElem p (hdo M n)) with "[//]"). iFrame.
Qed.

Lemma wp_get_prev_first x M p n Φ :
  chain p (x :: M) n -∗ (chain p (x :: M) n -∗ Φ p) -∗ wp (get_prev x) Φ.
Proof.
  iIntros "[Hx HM] HΦ". iApply (wp_get_prev with "Hx"). iIntros "Hx". iApply "HΦ". iFrame.
Qed.

Lemma wp_set_prev_first x M p n v Φ :
  chain p (x :: M) n -∗ (chain v (x :: M) n -∗ Φ tt) -∗ wp (set_prev x v) Φ.
Proof.
  iIntros "[Hx HM] HΦ". iApply (wp_set_prev with "Hx"). iIntros "Hx". iApply "HΦ". iFrame.
Qed.

Lemma wp_set_next_last M w p n v Φ :
  chain p (M ++ [w]) n -∗ (chain p (M ++ [w]) v -∗ Φ tt) -∗ wp (set_next w v) Φ.
Proof.
  iIntros "Hc HΦ". rewrite !chain_snoc. iDestruct "Hc" as "[HM Hw]".
  iApply (wp_set_next with "Hw"). iIntros "Hw". iApply "HΦ". iFrame.
Qed.

Lemma wp_prev_at L xs x ys Φ :
  is_list L (xs ++ x :: ys) -∗ (is_list L (xs ++ x :: ys) -∗ Φ x) -∗
  wp (list_prev (default (l_tail L) (head ys))) Φ.
Proof.
  iIntros "Hl HΦ". rewrite /is_list /nodes -app_assoc app_comm_cons.
  destruct ys as [|y ys]; simpl; iApply (wp_list_prev (l_head L :: xs) x with "Hl"); iApply "HΦ".
Qed.

(** Moving the element [y] before [x], in a chain. *)
Lemma wp_splice_chain A a x M y z B p n Φ :
  NoDup (A ++ a :: (x :: M) ++ y :: z :: B) →
  chain p (A ++ a :: (x :: M) ++ y :: z :: B) n -∗
  (chain p (A ++ a :: y :: (x :: M) ++ z :: B) n -∗ Φ tt) -∗
  wp (list_splice x y z) Φ.
Proof.
  iIntros (Hnd) "Hc HΦ". rewrite /list_splice.
  assert (y ≠ z) as Hyz.
  { intros ->. apply NoDup_app in Hnd as (_ & _ & Hnd). apply NoDup_cons in Hnd as [_ Hnd].
    apply NoDup_app in Hnd as (_ & _ & Hnd). apply NoDup_cons in Hnd as [Hnd _]. set_solver. }
  assert (∃ M' w, x :: M = M' ++ [w]) as (M' & w & Hw).
  { destruct (exists_last (l:=x :: M)) as (M' & w & Hw); [done|]. eauto. }
  rewrite !(chain_app p A). cbn [chain].
  rewrite !(chain_app _ (x :: M)) Hw !lasto_snoc -Hw. cbn [hdo app]. rewrite Hw. cbn [chain hdo].
  iDestruct "Hc" as "(HA & Ha & HW & Hy & Hz & HB)". rewrite -Hw.
  wp_bind. iApply (wp_load_first with "HW"). iIntros (e He) "HW".
  wp_bind. iApply wp_assert. { rewrite /is_interior /is_tail He /=. by destruct (le_next e). }
  rewrite bool_decide_eq_false_2 //.
  wp_bind. rewrite /list_prev. wp_bind. wp_load "Hz". wp_bind. iApply wp_assert.
  { rewrite /is_interior /is_tail /=. by destruct (hdo B n). }
  iApply wp_deref.
  wp_bind. wp_load "Hy". wp_bind. iApply wp_assert; [done|].
  wp_bind. wp_load "Hy". wp_bind. iApply wp_assert; [done|].
  wp_bind. iApply (wp_get_prev with "Hy"). iIntros "Hy". wp_bind. iApply wp_deref.
  wp_bind. iApply (wp_get_next with "Hy"). iIntros "Hy".
  wp_bind. rewrite Hw. iApply (wp_set_next_last with "HW"). iIntros "HW".
  wp_bind. iApply wp_deref. wp_bind. iApply (wp_get_prev with "Hy"). iIntros "Hy".
  wp_bind. iApply (wp_set_prev with "Hz"). iIntros "Hz". rewrite -Hw.
  wp_bind. iApply (wp_get_prev_first with "HW"). iIntros "HW".
  wp_bind. iApply (wp_set_prev with "Hy"). iIntros "Hy".
  wp_bind. iApply (wp_set_next with "Hy"). iIntros "Hy".
  wp_bind. iApply (wp_get_prev_first with "HW"). iIntros "HW". wp_bind. iApply wp_deref.
  wp_bind. iApply (wp_set_next with "Ha"). iIntros "Ha".
  iApply (wp_set_prev_first with "HW"). iIntros "HW". iApply "HΦ". simpl. iFrame.
Qed.

Lemma wp_splice_at L P x M y Q Φ :
  is_list L (P ++ (x :: M) ++ y :: Q) -∗
  (is_list L (P ++ y :: (x :: M) ++ Q) -∗ Φ tt) -∗
  wp (list_splice x y (default (l_tail L) (head Q))) Φ.
Proof.
  iIntros "Hl HΦ". iDestruct (is_list_NoDup with "Hl") as %Hnd. rewrite /is_list.
  destruct (nodes_split L P ((x :: M) ++ y :: Q)) as (A & a & Heq & HA).
  assert (nodes L (P ++ y :: (x :: M) ++ Q) = A ++ a :: y :: (x :: M) ++ Q ++ [l_tail L]) as Heq'.
  { unfold nodes. rewrite -app_assoc app_comm_cons HA -app_assoc /=. by rewrite -app_assoc. }
  rewrite Heq in Hnd |- *. rewrite Heq'. rewrite -app_assoc in Hnd |- *.
  destruct Q as [|z Q]; simpl; iApply (wp_splice_chain with "Hl"); try done;
    iIntros "Hl"; by iApply "HΦ".
Qed.

(** The end of a range of a list is told apart from its other elements. *)
Lemma range_end L P xs Q :
  NoDup (nodes L (P ++ xs ++ Q)) →
  (default (l_tail L) (head (xs ++ Q)) = default (l_tail L) (head Q) ↔ xs = []).
Proof.
  unfold nodes. intros [_ Hnd]%NoDup_cons. rewrite -!app_assoc in Hnd.
  apply NoDup_app in Hnd as (_ & _ & Hnd).
  destruct xs as [|x xs]; [done|]. simpl. split; [|done]. intros Heq.
  apply NoDup_cons in Hnd as [Hnd _]. destruct Hnd. rewrite Heq.
  destruct Q; simpl; set_solver.
Qed.

Lemma wp_is_sorted_loop L X : ∀ P x Q fuel Φ,
  (length X < fuel)%nat →
  is_list L (P ++ x :: X ++ Q) -∗ (is_list L (P ++ x :: X ++ Q) -∗ Φ (sortedb less x X)) -∗
  wp (is_sorted_loop less fuel x (default (l_tail L) (head Q))) Φ.
Proof.
  induction X as [|y X IH]; intros P x Q [|fuel] Φ Hfuel; simpl in Hfuel; try lia;
    iIntros "Hl HΦ"; cbn [is_sorted_loop sortedb]; iDestruct (is_list_NoDup with "Hl") as %Hnd;
    rewrite (cons_middle x) (app_assoc P) in Hnd; apply range_end in Hnd;
    wp_bind; iApply (wp_next_at with "Hl"); iIntros "Hl"; rewrite (bool_decide_ext _ _ Hnd).
  - wp_ret. by iApply "HΦ".
  - wp_bind. iApply (wp_prev_at L P x ((y :: X) ++ Q) with "Hl"). iIntros "Hl". simpl.
    destruct (less y x); [wp_ret; by iApply "HΦ"|].
    rewrite (cons_middle x) (app_assoc P). iApply (IH with "Hl"); [lia|done].
Qed.

Definition sorted_seq (X : list loc) : bool :=
  match X with [] => true | x :: X => sortedb less x X end.

Lemma wp_is_sorted L P X Q fuel Φ :
  (length X < fuel)%nat →
  is_list L (P ++ X ++ Q) -∗ (is_list L (P ++ X ++ Q) -∗ Φ (sorted_seq X)) -∗
  wp (is_sorted less fuel (default (l_tail L) (head (X ++ Q))) (default (l_tail L) (head Q))) Φ.
Proof.
  iIntros (Hfuel) "Hl HΦ". rewrite /is_sorted. iDestruct (is_list_NoDup with "Hl") as %Hnd.
  apply range_end in Hnd. rewrite (bool_decide_ext _ _ Hnd). destruct X as [|x X].
  - wp_ret. by iApply "HΦ".
  - simpl. iApply (wp_is_sorted_loop with "Hl"); [simpl in Hfuel; lia|done].
Qed.

Lemma wp_find_end_loop L X : ∀ P x fuel Φ,
  (length X < fuel)%nat →
  is_list L (P ++ x :: X) -∗
  (is_list L (P ++ x :: X) -∗ Φ (default (l_tail L) (head (split_run less x X).2))) -∗
  wp (find_end_loop less fuel x (l_tail L)) Φ.
Proof.
  induction X as [|y X IH]; intros P x [|fuel] Φ Hfuel; simpl in Hfuel; try lia;
    iIntros "Hl HΦ"; cbn [find_end_loop split_run]; iDestruct (is_list_NoDup with "Hl") as %Hnd;
    rewrite (cons_middle x) (app_assoc P) in Hnd; apply tail_test in Hnd;
    wp_bind; iApply (wp_next_at with "Hl"); iIntros "Hl"; rewrite (bool_decide_ext _ _ Hnd).
  - wp_ret. by iApply "HΦ".
  - wp_bind. iApply (wp_prev_at L P x (y :: X) with "Hl"). iIntros "Hl". simpl.
    destruct (less y x); [wp_ret; by iApply "HΦ"|].
    rewrite (cons_middle x) (app_assoc P). iApply (IH with "Hl"); [lia|].
    by destruct (split_run less y X).
Qed.

Lemma wp_find_end_of_run L P x X fuel Φ :
  (length X < fuel)%nat →
  is_list L (P ++ x :: X) -∗
  (is_list L (P ++ x :: X) -∗ Φ (default (l_tail L) (head (split_run less x X).2))) -∗
  wp (find_end_of_run less fuel x (l_tail L)) Φ.
Proof.
  iIntros (Hfuel) "Hl HΦ". rewrite /find_end_of_run.
  iDestruct (is_list_ne_tail L _ x with "Hl") as %Hne; [set_solver|].
  wp_bind. iApply wp_assert; [by rewrite bool_decide_eq_false_2|].
  iApply (wp_find_end_loop with "Hl"); done.
Qed.

Lemma wp_merge_loop L fuel : ∀ P X Y Q Φ,
  (length X + length Y < fuel)%nat →
  is_list L (P ++ X ++ Y ++ Q) -∗ (is_list L (P ++ merge less X Y ++ Q) -∗ Φ tt) -∗
  wp (merge_loop less fuel (default (l_tail L) (head (X ++ Y ++ Q)))
        (default (l_tail L) (head (Y ++ Q))) (default (l_tail L) (head Q))) Φ.
Proof.
  induction fuel as [|fuel IH]; intros P X Y Q Φ Hfuel; [lia|]. iIntros "Hl HΦ".
  cbn [merge_loop]. iDestruct (is_list_NoDup with "Hl") as %Hnd.
  rewrite (bool_decide_ext _ _ (range_end L P X (Y ++ Q) Hnd)).
  rewrite (app_assoc P) in Hnd. rewrite (bool_decide_ext _ _ (range_end L (P ++ X) Y Q Hnd)).
  destruct X as [|x X]; [rewrite merge_nil_l; simpl; wp_ret; by iApply "HΦ"|].
  destruct Y as [|y Y]; [rewrite merge_nil_r; simpl; wp_ret; by iApply "HΦ"|].
  rewrite merge_cons. simpl. destruct (less y x); simpl.
  - wp_bind. rewrite (app_comm_cons X) (app_assoc P).
    iApply (wp_next_at L (P ++ x :: X) y (Y ++ Q) with "Hl"). iIntros "Hl".
    wp_bind. iApply (wp_prev_at L (P ++ x :: X) y (Y ++ Q) with "Hl"). iIntros "Hl".
    rewrite -app_assoc. wp_bind. iApply (wp_splice_at L P x X y (Y ++ Q) with "Hl"). iIntros "Hl".
    rewrite (cons_middle y P ((x :: X) ++ Y ++ Q)) (app_assoc P [y]).
    iApply (IH (P ++ [y]) (x :: X) Y Q with "Hl"); [simpl in *; lia|].
    rewrite -app_assoc. iApply "HΦ".
  - wp_bind. iApply (wp_next_at L P x (X ++ y :: Y ++ Q) with "Hl"). iIntros "Hl".
    rewrite (cons_middle x P (X ++ y :: Y ++ Q)) (app_assoc P [x]).
    iApply (IH (P ++ [x]) X (y :: Y) Q with "Hl"); [simpl in *; lia|].
    rewrite -app_assoc. iApply "HΦ".
Qed.

Lemma wp_inplace_merge L fuel P X Y Q Φ :
  (length X + length Y < fuel)%nat → sorted_seq X = true → sorted_seq Y = true →
  is_list L (P ++ X ++ Y ++ Q) -∗ (is_list L (P ++ merge less X Y ++ Q) -∗ Φ tt) -∗
  wp (inplace_merge less fuel (default (l_tail L) (head (X ++ Y ++ Q)))
        (default (l_tail L) (head (Y ++ Q))) (default (l_tail L) (head Q))) Φ.
Proof.
  iIntros (Hfuel HX HY) "Hl HΦ". rewrite /inplace_merge.
  wp_bind. iApply (wp_is_sorted L P X (Y ++ Q) with "Hl"); [lia|]. iIntros "Hl".
  wp_bind. iApply wp_assert; [done|]. rewrite (app_assoc P X (Y ++ Q)).
  wp_bind. iApply (wp_is_sorted L (P ++ X) Y Q with "Hl"); [lia|]. iIntros "Hl".
  wp_bind. iApply wp_assert; [done|]. rewrite -(app_assoc P X).
  iApply (wp_merge_loop with "Hl HΦ"). lia.
Qed.

Lemma wp_sort_pass L fuel0 n : ∀ P xs cnt fuel Φ,
  (length xs ≤ n)%nat → (length xs < fuel)%nat → (length xs < fuel0)%nat →
  in_width 64 (Z.of_nat (cnt + length xs)) →
  is_list L (P ++ xs) -∗
  (is_list L (P ++ (pass less n xs).1) -∗ Φ (Z.of_nat (cnt + (pass less n xs).2))) -∗
  wp (sort_pass less fuel0 fuel L (default (l_tail L) (head xs)) (Z.of_nat cnt)) Φ.
Proof.
  induction n as [|n IH]; intros P xs cnt [|fuel] Φ Hn Hfuel Hfuel0 Hw; try lia;
    iIntros "Hl HΦ"; iDestruct (is_list_NoDup with "Hl") as %Hnd; cbn [sort_pass pass];
    rewrite (bool_decide_ext _ _ (tail_test _ _ _ Hnd)).
  { destruct xs; [|simpl in Hn; lia]. wp_ret. rewrite Nat.add_0_r. by iApply "HΦ". }
  destruct xs as [|x xs].
  { wp_ret. rewrite Nat.add_0_r. by iApply "HΦ". }
  cbn [default head]. simpl length in *.
  wp_bind. iApply (wp_find_end_of_run with "Hl"); [lia|]. iIntros "Hl".
  pose proof (split_run_app less x xs) as Hsp. destruct (split_run_hd less x xs) as [r Hr].
  destruct (split_run less x xs) as [r1 rest1] eqn:Hs1. cbn [fst snd] in *. subst r1.
  rewrite (_ : wrap64 (Z.of_nat cnt + 1) = Z.of_nat (S cnt)); last first.
  { rewrite wrap_small; unfold in_width in *; lia. }
  rewrite Hsp app_assoc in Hnd. rewrite (bool_decide_ext _ _ (tail_test _ _ _ Hnd)).
  destruct rest1 as [|y ys].
  { simpl. wp_ret. rewrite Hsp app_nil_r Nat.add_1_r. by iApply "HΦ". }
  pose proof (split_run_app less y ys) as Hsp2. destruct (split_run_hd less y ys) as [r' Hr'].
  simpl. wp_bind. rewrite Hsp (app_assoc P).
  iApply (wp_find_end_of_run with "Hl").
  { pose proof (f_equal length Hsp) as Hlen. rewrite !length_app /= in Hlen. lia. }
  iIntros "Hl". destruct (split_run less y ys) as [r2 rest] eqn:Hs2. cbn [fst snd] in *. subst r2.
  pose proof (split_run_sorted _ _ _ _ _ Hs1) as Ho1. pose proof (split_run_sorted _ _ _ _ _ Hs2) as Ho2.
  pose proof (f_equal length Hsp) as Hlen. pose proof (f_equal length Hsp2) as Hlen2.
  simpl in Hlen, Hlen2. rewrite length_app /= in Hlen. rewrite length_app in Hlen2.
  rewrite -app_assoc Hsp2. wp_bind.
  iApply (wp_inplace_merge L fuel0 P (x :: r) (y :: r') rest with "Hl"); [simpl; lia|done|done|].
  iIntros "Hl". rewrite app_assoc.
  iApply (IH (P ++ merge less (x :: r) (y :: r')) rest (S cnt) with "Hl"); [lia|lia|lia| |].
  { unfold in_width in *. lia. }
  destruct (pass less n rest) as [out c]. cbn [fst snd]. rewrite -app_assoc Nat.add_succ_r. iApply "HΦ".
Qed.
Lemma wp_sort_loop `{Hswo : !StrictWeakOrder less} L fuel0 n : ∀ xs fuel Φ,
  (nruns less xs ≤ n)%nat → (n < fuel)%nat → (length xs < fuel0)%nat →
  in_width 64 (Z.of_nat (length xs)) →
  is_list L xs -∗ (is_list L (sort_fun less n xs) -∗ Φ tt) -∗
  wp (sort_loop less fuel0 fuel L) Φ.
Proof.
  induction n as [|n IH]; intros xs [|fuel] Φ Hruns Hfuel Hfuel0 Hw; try lia; iIntros "Hl HΦ";
    cbn [sort_loop sort_fun]; wp_bind; iApply (wp_list_begin with "Hl"); iIntros "Hl";
    wp_bind; iApply (wp_sort_pass L fuel0 (length xs) [] xs 0 with "Hl"); try done; iIntros "Hl".
  - destruct xs; [|simpl in Hruns; lia]. simpl. wp_ret. by iApply "HΦ".
  - destruct (pass_runs less (length xs) xs ltac:(done)) as [H1 H2].
    pose proof (pass_perm less (length xs) xs ltac:(done)) as Hperm%Permutation_length.
    destruct (pass less (length xs) xs) as [out c]. cbn [fst snd] in *. simpl app.
    assert ((1 <? Z.of_nat (0 + c)) = (1 <? c)%nat) as ->.
    { destruct (Z.ltb_spec 1 (Z.of_nat (0 + c))), (Nat.ltb_spec 1 c); lia. }
    destruct (Nat.ltb_spec 1 c); [|wp_ret; by iApply "HΦ"].
    iApply (IH with "Hl"); [lia|lia|lia|by rewrite Hperm|done].
Qed.

Lemma wp_list_sort `{Hswo : !StrictWeakOrder less} L xs fuel Φ :
  (S (length xs) < fuel)%nat → in_width 64 (Z.of_nat (length xs)) →
  is_list L xs -∗ (is_list L (sort_fun less (length xs) xs) -∗ Φ tt) -∗
  wp (list_sort less fuel L) Φ.
Proof.
  iIntros (Hfuel Hw) "Hl HΦ". rewrite /list_sort. wp_bind.
  iApply (wp_sort_loop L fuel (length xs) xs with "Hl"); [apply nruns_length|lia|lia|done|].
  iIntros "Hl". wp_bind. iApply (wp_list_begin with "Hl"). iIntros "Hl".
  set (ys := sort_fun less (length xs) xs).
  assert (length ys = length xs) as Hlen by (apply Permutation_length, sort_fun_perm).
  assert (ordered less ys) as Hord by (apply: sort_fun_ordered; apply: nruns_length).
  rewrite -(app_nil_r ys). wp_bind.
  iApply (wp_is_sorted L [] ys [] with "Hl"); [lia|]. iIntros "Hl".
  iApply wp_assert.
  { destruct ys as [|y ys]; [done|]. by apply sortedb_ordered. }
  iApply "HΦ". by rewrite app_nil_r.
Qed.

End sort_proof.

(** ** A client: build a list, sort it, read it *)

Section session.
Context `{AL : !Allocator}.

Fixpoint alloc_elems (n : nat) : list_prog (list loc) :=
  match n with
  | O => mret []
  | S n => e ← alloc (mkElem None None); es ← alloc_elems n; mret (e :: es)
  end.

Fixpoint push_all (L : dlist) (es : list loc) : list_prog unit :=
  match es with
  | [] => mret tt
  | e :: es => list_push_back L e;; push_all L es
  end.

(** [for (e = list_begin (list); e != list_end (list); e = list_next (e))] *)
Fixpoint read_loop (fuel : nat) (L : dlist) (e : loc) : list_prog (list loc) :=
  match fuel with
  | O => fail OutOfFuel
  | S fuel =>
      if bool_decide (e = list_end L) then mret [] else
      n ← list_next e;
      es ← read_loop fuel L n;
      mret (e :: es)
  end.

Definition read_list (fuel : nat) (L : dlist) : list_prog (list loc) :=
  e ← list_begin L; read_loop fuel L e.

(** The elements in the order of insertion, the sorted list, the sorted list
    reversed, and its size. *)
Definition list_session (less : loc → loc → bool) (n fuel : nat)
    : list_prog (list loc * list loc * list loc * Z) :=
  h ← alloc (mkElem None None);
  t ← alloc (mkElem None None);
  let L := mkList h t in
  list_init L;;
  es ← alloc_elems n;
  push_all L es;;
  list_sort less fuel L;;
  sorted ← read_list fuel L;
  list_reverse fuel L;;
  reversed ← read_list fuel L;
  size ← list_size fuel L;
  mret (es, sorted, reversed, size).

Section proof.
Context `{HG : !heapG list_elem Σ}.

Lemma wp_alloc_elems n Φ :
  (∀ es, ⌜length es = n⌝ -∗ ([∗ list] e ∈ es, detached e) -∗ Φ es) -∗ wp (alloc_elems n) Φ.
Proof.
  iIntros "HΦ". iInduction n as [|n IH] forall (Φ); simpl.
  - wp_ret. by iApply "HΦ".
  - wp_bind. wp_alloc e as "He". wp_bind. iApply "IH". iIntros (es Hlen) "Hes". wp_ret.
    iApply ("HΦ" with "[%]"); [simpl; lia|]. simpl. iFrame.
Qed.

Lemma wp_push_all L es : ∀ xs Φ,
  is_list L xs -∗ ([∗ list] e ∈ es, detached e) -∗ (is_list L (xs ++ es) -∗ Φ tt) -∗
  wp (push_all L es) Φ.
Proof.
  induction es as [|e es IH]; iIntros (xs Φ) "Hl Hes HΦ"; simpl.
  - wp_ret. rewrite app_nil_r. by iApply "HΦ".
  - iDestruct "Hes" as "[He Hes]". wp_bind. iApply (wp_push_back with "Hl He"). iIntros "Hl".
    iApply (IH with "Hl Hes"). rewrite -app_assoc. iApply "HΦ".
Qed.

Lemma wp_read_loop L ys : ∀ xs fuel Φ,
  (length ys < fuel)%nat →
  is_list L (xs ++ ys) -∗ (is_list L (xs ++ ys) -∗ Φ ys) -∗
  wp (read_loop fuel L (default (l_tail L) (head ys))) Φ.
Proof.
  induction ys as [|y ys IH]; intros xs [|fuel] Φ Hfuel; simpl in Hfuel; try lia;
    iIntros "Hl HΦ"; cbn [read_loop]; iDestruct (is_list_NoDup with "Hl") as %Hnd;
    rewrite (bool_decide_ext _ _ (tail_test _ _ _ Hnd)).
  - wp_ret. by iApply "HΦ".
  - wp_bind. iApply (wp_next_at with "Hl"). iIntros "Hl".
    rewrite (cons_middle y xs ys) (app_assoc xs [y]). wp_bind. iApply (IH with "Hl"); [lia|].
    iIntros "Hl". wp_ret. by iApply "HΦ".
Qed.

Lemma wp_read_list L xs fuel Φ :
  (length xs < fuel)%nat → is_list L xs -∗ (is_list L xs -∗ Φ xs) -∗ wp (read_list fuel L) Φ.
Proof.
  iIntros (Hfuel) "Hl HΦ". rewrite /read_list. wp_bind. iApply (wp_list_begin with "Hl").
  iIntros "Hl". by iApply (wp_read_loop L xs [] with "Hl").
Qed.

Lemma wp_list_session less `{!StrictWeakOrder less} n fuel Φ :
  (S n < fuel)%nat → in_width 64 (Z.of_nat n) →
  (∀ es, ⌜length es = n⌝ -∗
     Φ (es, sort_fun less n es, reverse (sort_fun less n es), Z.of_nat n)) -∗
  wp (list_session less n fuel) Φ.
Proof.
  iIntros (Hfuel Hw) "HΦ". rewrite /list_session.
  wp_bind. wp_alloc h as "Hh". wp_bind. wp_alloc t as "Ht".
  wp_bind. iApply (wp_list_init (mkList h t) with "Hh Ht"). iIntros "Hl".
  wp_bind. iApply wp_alloc_elems. iIntros (es Hlen) "Hes".
  wp_bind. iApply (wp_push_all with "Hl Hes"). iIntros "Hl". simpl app.
  wp_bind. iApply (wp_list_sort with "Hl"); [lia|by rewrite Hlen|]. rewrite Hlen.
  assert (length (sort_fun less n es) = n) as Hl by (rewrite -Hlen; apply Permutation_length, sort_fun_perm).
  iIntros "Hl". wp_bind. iApply (wp_read_list with "Hl"); [lia|]. iIntros "Hl".
  wp_bind. iApply (wp_list_reverse with "Hl"); [lia|]. iIntros "Hl".
  assert (length (reverse (sort_fun less n es)) = n) as Hlr by (by rewrite length_reverse).
  wp_bind. iApply (wp_read_list with "Hl"); [lia|]. iIntros "Hl".
  wp_bind. iApply (wp_list_size with "Hl"); [lia|by rewrite Hlr|]. iIntros "Hl".
  wp_ret. rewrite Hlr. by iApply "HΦ".
Qed.
End proof.
End session.

(** C27: [list_sort] terminates and sorts.  A list of [n] elements that is built
    with [list_push_back] is reordered into a stable sorted permutation;
    [list_reverse] then yields the reversed list and [list_size] its length.
    Fuel [n + 2] is enough for every loop. *)
Theorem list_sort_correct `{AL : !Allocator} less `{!StrictWeakOrder less} n fuel
    (Hfuel : (S n < fuel)%nat) (Hn : in_width 64 (Z.of_nat n)) :
  ∃ es ys σ, list_session less n fuel ∅ = Ok (es, ys, reverse ys, Z.of_nat n, σ) ∧
    length es = n ∧ ys ≡ₚ es ∧ ordered less ys ∧ ∀ k, rank less k ys = rank less k es.
Proof.
  destruct (wp_adequacy (list_session less n fuel) ∅
    (λ r, ∃ es, length es = n ∧ r = (es, sort_fun less n es, reverse (sort_fun less n es), Z.of_nat n)))
    as (r & σ & Hrun & es & Hlen & ->).
  { iIntros (Σ HG) "_". iApply wp_list_session; [done..|]. iIntros (es Hlen). iPureIntro. by exists es. }
  exists es, (sort_fun less n es), σ. split_and!; [done|done|apply sort_fun_perm| |].
  - apply: sort_fun_ordered. rewrite -Hlen. apply: nruns_length.
  - intros k. apply: sort_fun_rank.
Qed.

Definition pos_less (a b : loc) : bool := (b <? a)%positive.

Lemma pos_less_swo : StrictWeakOrder pos_less.
Proof. split; unfold leb, pos_less; intros; lia. Qed.

Lemma list_sort_correct_witness :
  ∃ es ys σ, list_session pos_less 3 5 ∅ = Ok (es, ys, reverse ys, 3, σ) ∧
    length es = 3%nat ∧ ys ≡ₚ es ∧ ordered pos_less ys ∧ ∀ k, rank pos_less k ys = rank pos_less k es.
Proof.
  apply (@list_sort_correct bump_allocator pos_less pos_less_swo 3 5); [lia|].
  unfold in_width. lia.
Defined.
