(* ===== verification/DListRefine.v ===== *)
(** * Lists as sequences

    The contract of [list.c]: under any sequence of operations a list behaves
    like a mathematical sequence of elements. *)
From S2P Require Import Prelude.
From S2P Require Import Heap.
From S2P Require Import DList.
From S2P Require Import DListProof.
From S2P Require Import DListSort.

#[local] Open Scope Z_scope.

Section refine.
Context `{AL : !Allocator}.
Variable less : loc → loc → bool.

(** ** Commands *)

Inductive list_cmd :=
  | PushFront | PushBack | InsertOrdered   (* of a new element *)
  | PopFront | PopBack | RemoveNth (i : nat)
  | Front | Back | Max | Min | Size | Reverse | Sort.

Inductive list_out :=
  | OutElem (e : loc)
  | OutSize (n : Z)
  | OutUnit.

Definition new_elem : list_prog loc := alloc (mkElem None None).

Definition exec (fuel : nat) (L : dlist) (c : list_cmd) : list_prog list_out :=
  match c with
  | PushFront => e ← new_elem; list_push_front L e;; mret (OutElem e)
  | PushBack => e ← new_elem; list_push_back L e;; mret (OutElem e)
  | InsertOrdered => e ← new_elem; list_insert_ordered less fuel L e;; mret (OutElem e)
  | PopFront => e ← list_pop_front L; mret (OutElem e)
  | PopBack => e ← list_pop_back L; mret (OutElem e)
  | RemoveNth i =>
      es ← read_list fuel L;
      e ← in_bounds (es !! i);
      list_remove e;;
      mret (OutElem e)
  | Front => e ← list_front L; mret (OutElem e)
  | Back => e ← list_back L; mret (OutElem e)
  | Max => e ← list_max less fuel L; mret (OutElem e)
  | Min => e ← list_min less fuel L; mret (OutElem e)
  | Size => n ← list_size fuel L; mret (OutSize n)
  | Reverse => list_reverse fuel L;; mret OutUnit
  | Sort => list_sort less fuel L;; mret OutUnit
  end.

Fixpoint exec_all (fuel : nat) (L : dlist) (cs : list list_cmd) : list_prog (list list_out) :=
  match cs with
  | [] => mret []
  | c :: cs => o ← exec fuel L c; os ← exec_all fuel L cs; mret (o :: os)
  end.

(** A run on a new list, followed by reading it. *)
Definition list_run (fuel : nat) (cs : list list_cmd) : list_prog (list list_out * list loc) :=
  h ← new_elem;
  t ← new_elem;
  list_init (mkList h t);;
  os ← exec_all fuel (mkList h t) cs;
  xs ← read_list fuel (mkList h t);
  mret (os, xs).

(** ** The specification *)

Inductive seq_step : list loc → list_cmd → list_out → list loc → Prop :=
  | sq_push_front xs e : e ∉ xs → seq_step xs PushFront (OutElem e) (e :: xs)
  | sq_push_back xs e : e ∉ xs → seq_step xs PushBack (OutElem e) (xs ++ [e])
  | sq_insert_ordered xs e :
      e ∉ xs → seq_step xs InsertOrdered (OutElem e) (insert_sorted less e xs)
  | sq_pop_front xs e : seq_step (e :: xs) PopFront (OutElem e) xs
  | sq_pop_back xs e : seq_step (xs ++ [e]) PopBack (OutElem e) xs
  | sq_remove xs e ys : seq_step (xs ++ e :: ys) (RemoveNth (length xs)) (OutElem e) (xs ++ ys)
  | sq_front xs e : seq_step (e :: xs) Front (OutElem e) (e :: xs)
  | sq_back xs e : seq_step (xs ++ [e]) Back (OutElem e) (xs ++ [e])
  | sq_max x xs :
      seq_step (x :: xs) Max (OutElem (extreme (λ max e, less max e) x xs)) (x :: xs)
  | sq_min x xs :
      seq_step (x :: xs) Min (OutElem (extreme (λ min e, less e min) x xs)) (x :: xs)
  | sq_size xs : seq_step xs Size (OutSize (Z.of_nat (length xs))) xs
  | sq_reverse xs : seq_step xs Reverse OutUnit (reverse xs)
  | sq_sort xs ys :
      ys ≡ₚ xs → ordered less ys → (∀ k, rank less k ys = rank less k xs) →
      seq_step xs Sort OutUnit ys.

Inductive seq_steps : list loc → list list_cmd → list list_out → list loc → Prop :=
  | sqs_nil xs : seq_steps xs [] [] xs
  | sqs_cons xs c o ys cs os zs :
      seq_step xs c o ys → seq_steps ys cs os zs → seq_steps xs (c :: cs) (o :: os) zs.

(** Commands that take an element need one.  The argument is the length. *)
Fixpoint cmds_ok (n : nat) (cs : list list_cmd) : bool :=
  match cs with
  | [] => true
  | (PushFront | PushBack | InsertOrdered) :: cs => cmds_ok (S n) cs
  | (PopFront | PopBack) :: cs => match n with S n => cmds_ok n cs | O => false end
  | RemoveNth i :: cs => (i <? n)%nat && cmds_ok (pred n) cs
  | (Front | Back | Max | Min) :: cs => (0 <? n)%nat && cmds_ok n cs
  | (Size | Reverse | Sort) :: cs => cmds_ok n cs
  end.

(** How long the list can get. *)
Fixpoint max_length (n : nat) (cs : list list_cmd) : nat :=
  match cs with
  | [] => n
  | (PushFront | PushBack | InsertOrdered) :: cs => max_length (S n) cs
  | _ :: cs => max_length n cs
  end.

Lemma max_length_ge n cs : (n ≤ max_length n cs)%nat.
Proof.
  revert n. induction cs as [|[] cs IH]; intros n; simpl; try done;
    try (specialize (IH (S n))); lia || apply IH.
Qed.

Lemma max_length_mono n m cs : (n ≤ m)%nat → (max_length n cs ≤ max_length m cs)%nat.
Proof.
  revert n m. induction cs as [|[] cs IH]; intros n m H; simpl; try done; apply IH; lia.
Qed.

Section proof.
Context `{HG : !heapG list_elem Σ} `{Hswo : !StrictWeakOrder less}.

Lemma is_list_fresh L xs e n : is_list L xs -∗ e ↦ n -∗ ⌜e ∉ xs⌝.
Proof.
  iIntros "Hl He". iDestruct (chain_ne with "Hl He") as %Hne. iPureIntro.
  unfold nodes in Hne. set_solver.
Qed.

Lemma insert_sorted_length e xs : length (insert_sorted less e xs) = S (length xs).
Proof.
  unfold insert_sorted. pose proof (f_equal length (ordered_split_app less e xs)) as H.
  rewrite length_app in H. destruct (ordered_split less e xs). rewrite length_app /=. simpl in H. lia.
Qed.

(** One command. *)
Lemma wp_exec fuel L xs c cs Φ :
  cmds_ok (length xs) (c :: cs) = true → (S (max_length (length xs) (c :: cs)) < fuel)%nat →
  in_width 64 (Z.of_nat fuel) →
  is_list L xs -∗
  (∀ o ys, ⌜seq_step xs c o ys ∧ cmds_ok (length ys) cs = true ∧
      (S (max_length (length ys) cs) < fuel)%nat⌝ -∗ is_list L ys -∗ Φ o) -∗
  wp (exec fuel L c) Φ.
Proof.
  iIntros (Hok Hfuel Hw) "Hl HΦ".
  assert (length xs ≤ max_length (length xs) (c :: cs))%nat as Hlen by apply max_length_ge.
  pose proof (max_length_ge (S (length xs)) cs) as Hlen'.
  destruct c; simpl in Hok, Hfuel, Hlen; cbn [exec].
  - wp_bind. wp_alloc e as "He". iDestruct (is_list_fresh with "Hl He") as %Hf.
    wp_bind. iApply (wp_push_front with "Hl [He]"); [by iExists _|]. iIntros "Hl". wp_ret.
    iApply ("HΦ" with "[%] Hl"). split; [by constructor|done].
  - wp_bind. wp_alloc e as "He". iDestruct (is_list_fresh with "Hl He") as %Hf.
    wp_bind. iApply (wp_push_back with "Hl [He]"); [by iExists _|]. iIntros "Hl". wp_ret.
    iApply ("HΦ" with "[%] Hl"). rewrite length_app Nat.add_1_r. split; [by constructor|done].
  - wp_bind. wp_alloc e as "He". iDestruct (is_list_fresh with "Hl He") as %Hf.
    wp_bind. iApply (wp_list_insert_ordered with "Hl [He]"); [lia|by iExists _|]. iIntros "Hl".
    wp_ret. iApply ("HΦ" with "[%] Hl"). rewrite insert_sorted_length. split; [by constructor|done].
  - destruct xs as [|x xs]; [done|]. wp_bind. iApply (wp_pop_front with "Hl"). iIntros "Hl _".
    wp_ret. iApply ("HΦ" with "[%] Hl"). split_and!; [constructor|done|].
    eapply Nat.le_lt_trans; [|exact Hfuel]. apply le_n_S, max_length_mono. simpl. lia.
  - destruct xs as [|x xs _] using rev_ind; [done|]. rewrite length_app Nat.add_1_r in Hok, Hfuel.
    wp_bind. iApply (wp_pop_back with "Hl"). iIntros "Hl _".
    wp_ret. iApply ("HΦ" with "[%] Hl"). split_and!; [constructor|done|].
    eapply Nat.le_lt_trans; [|exact Hfuel]. apply le_n_S, max_length_mono. lia.
  - apply andb_true_iff in Hok as [Hi%Nat.ltb_lt Hok].
    destruct (split_at xs i Hi) as (ys & e & zs & -> & <-).
    wp_bind. iApply (wp_read_list with "Hl"); [lia|]. iIntros "Hl".
    wp_bind. iApply wp_in_bounds; [by apply list_lookup_middle|].
    wp_bind. iApply (wp_remove_at with "Hl"). iIntros "Hl _". wp_ret.
    rewrite length_app /= in Hok, Hfuel. rewrite Nat.add_succ_r /= in Hok, Hfuel.
    iApply ("HΦ" with "[%] Hl"). rewrite length_app. split_and!; [constructor|done|].
    eapply Nat.le_lt_trans; [|exact Hfuel]. apply le_n_S, max_length_mono. lia.
  - apply andb_true_iff in Hok as [Hi Hok]. destruct xs as [|x xs]; [done|].
    wp_bind. iApply (wp_list_front with "Hl"). iIntros "Hl". wp_ret.
    iApply ("HΦ" with "[%] Hl"). split; [constructor|done].
  - apply andb_true_iff in Hok as [Hi Hok]. destruct xs as [|x xs _] using rev_ind; [done|].
    wp_bind. iApply (wp_list_back with "Hl"). iIntros "Hl". wp_ret.
    iApply ("HΦ" with "[%] Hl"). split; [constructor|done].
  - apply andb_true_iff in Hok as [Hi Hok]. destruct xs as [|x xs]; [done|]. simpl in Hlen, Hfuel, Hok, Hlen'.
    wp_bind. iApply (wp_list_max with "Hl"); [lia|]. iIntros "Hl". wp_ret.
    iApply ("HΦ" with "[%] Hl"). split; [constructor|done].
  - apply andb_true_iff in Hok as [Hi Hok]. destruct xs as [|x xs]; [done|]. simpl in Hlen, Hfuel, Hok, Hlen'.
    wp_bind. iApply (wp_list_min with "Hl"); [lia|]. iIntros "Hl". wp_ret.
    iApply ("HΦ" with "[%] Hl"). split; [constructor|done].
  - wp_bind. iApply (wp_list_size with "Hl"); [lia|unfold in_width in *; lia|]. iIntros "Hl". wp_ret.
    iApply ("HΦ" with "[%] Hl"). split; [constructor|done].
  - wp_bind. iApply (wp_list_reverse with "Hl"); [lia|]. iIntros "Hl". wp_ret.
    iApply ("HΦ" with "[%] Hl"). rewrite length_reverse. split; [constructor|done].
  - wp_bind. iApply (wp_list_sort with "Hl"); [lia|unfold in_width in *; lia|]. iIntros "Hl". wp_ret.
    iApply ("HΦ" with "[%] Hl").
    rewrite (Permutation_length (sort_fun_perm less (length xs) xs)).
    split; [|done]. constructor; [apply: sort_fun_perm| |intros k; apply: sort_fun_rank].
    apply: sort_fun_ordered. apply: nruns_length.
Qed.

Lemma wp_exec_all fuel L cs : ∀ xs Φ,
  cmds_ok (length xs) cs = true → (S (max_length (length xs) cs) < fuel)%nat →
  in_width 64 (Z.of_nat fuel) →
  is_list L xs -∗
  (∀ os ys, ⌜seq_steps xs cs os ys ∧ (length ys < fuel)%nat⌝ -∗ is_list L ys -∗ Φ os) -∗
  wp (exec_all fuel L cs) Φ.
Proof.
  induction cs as [|c cs IH]; iIntros (xs Φ Hok Hfuel Hw) "Hl HΦ".
  - cbn [exec_all]. wp_ret. iApply ("HΦ" with "[%] Hl"). split; [constructor|simpl in Hfuel; lia].
  - cbn [exec_all]. wp_bind. iApply (wp_exec with "Hl"); [done..|].
    iIntros (o ys (Hstep & Hok' & Hfuel')) "Hl". wp_bind. iApply (IH with "Hl"); [done..|].
    iIntros (os zs (Hsteps & Hlt)) "Hl". wp_ret. iApply ("HΦ" with "[%] Hl").
    split; [by econstructor|done].
Qed.
End proof.

(** C7: a list refines a sequence.  Every sequence of operations that takes an
    element only from a nonempty list runs without a fault, terminates, and gives
    the results of the specification [seq_step]; reading the list at the end
    yields the sequence.  One more than the maximal length plus one is enough
    fuel. *)
Theorem list_refines `{Hswo : !StrictWeakOrder less} cs fuel
    (Hok : cmds_ok 0 cs = true) (Hfuel : (S (max_length 0 cs) < fuel)%nat)
    (Hw : in_width 64 (Z.of_nat fuel)) :
  ∃ os xs σ, list_run fuel cs ∅ = Ok (os, xs, σ) ∧ seq_steps [] cs os xs.
Proof.
  destruct (wp_adequacy (list_run fuel cs) ∅ (λ r, seq_steps [] cs r.1 r.2))
    as ([os xs] & σ & Hrun & Hsteps); [|by exists os, xs, σ].
  iIntros (Σ HG) "_". rewrite /list_run. wp_bind. wp_alloc h as "Hh". wp_bind. wp_alloc t as "Ht".
  wp_bind. iApply (wp_list_init (mkList h t) with "Hh Ht"). iIntros "Hl".
  wp_bind. iApply (wp_exec_all with "Hl"); [done..|]. iIntros (os xs (Hsteps & Hlt)) "Hl".
  wp_bind. iApply (wp_read_list with "Hl"); [done|]. iIntros "Hl". by wp_ret.
Qed.

End refine.

Lemma list_refines_witness :
  ∃ os xs σ,
    list_run pos_less 6 [PushBack; PushFront; PushBack; PopBack; Sort; Reverse; Max; Size] ∅ =
      Ok (os, xs, σ) ∧
    seq_steps pos_less [] [PushBack; PushFront; PushBack; PopBack; Sort; Reverse; Max; Size] os xs.
Proof.
  apply (@list_refines bump_allocator pos_less pos_less_swo
    [PushBack; PushFront; PushBack; PopBack; Sort; Reverse; Max; Size] 6).
  - reflexivity.
  - simpl. lia.
  - unfold in_width. lia.
Defined.
