(* ===== verification/LogQueue.v ===== *)
(** * The queue of precreated logs ([src/gdpfs_log.c])

    Creating a log is slow, so a producer thread keeps a ring of up to
    [PRECREATED_MAX - 1] names of logs that were already created;
    [gdpfs_log_get_precreated] takes the next one.  The two sides share one mutex
    and one condition variable.

    The model is a transition system: the program counters of the producer and of
    any number of consumers, and one step per region that holds
    [precreated_mutex] (a waiting thread has released it).  The scheduler, the
    thread that [ep_thr_cond_signal] wakes, spurious wakeups, and the outcome of
    [gdp_gcl_create] are the events of a run. *)
From S2P Require Import Prelude.

Definition PRECREATED_MAX : Z := 1024.

Section queue.
(** [gdp_name_t], and the value of a zero-initialised one. *)
Context {name : Type} (zero_name : name).

(** ** State *)

Inductive producer_pc :=
  | PCheck    (* about to lock the mutex and test for a free slot *)
  | PWait     (* in [ep_thr_cond_wait] *)
  | PCreate   (* about to run [_precreate_log(precreated_back)] *)
  | PPublish. (* about to advance [precreated_back] *)

Inductive consumer_pc :=
  | CIdle     (* not in [gdpfs_log_get_precreated] *)
  | CCheck    (* about to lock the mutex and test for a name *)
  | CWait.    (* in [ep_thr_cond_wait] *)

#[export] Instance producer_pc_eq_dec : EqDecision producer_pc.
Proof. solve_decision. Defined.
#[export] Instance consumer_pc_eq_dec : EqDecision consumer_pc.
Proof. solve_decision. Defined.

Record queue := mkQueue {
  precreated_front : Z;
  precreated_back : Z;
  precreated_logs : list name;
  q_producer : producer_pc;
  q_consumers : list consumer_pc;
}.

Definition init_queue (consumers : nat) : queue :=
  mkQueue 0 0 (replicate (Z.to_nat PRECREATED_MAX) zero_name) PCheck (replicate consumers CIdle).

Inductive thread := Producer | Consumer (i : nat).

Inductive event :=
  | EvProducer                    (* the producer's first locked region *)
  | EvCreate (r : option name)    (* [_precreate_log]; [None] is a failed creation *)
  | EvPublish                     (* the producer's second locked region *)
  | EvCall (i : nat)              (* consumer [i] calls [gdpfs_log_get_precreated] *)
  | EvTake (i : nat) (w : option thread)  (* its locked region; it may signal [w] *)
  | EvSpurious (w : thread).

(** ** Operations *)

Definition next (i : Z) : Z := (i + 1) mod PRECREATED_MAX.

Definition is_full (q : queue) : bool := precreated_front q =? next (precreated_back q).
Definition is_empty (q : queue) : bool := precreated_front q =? precreated_back q.

Definition slot (q : queue) (i : Z) : name := default zero_name (precreated_logs q !! Z.to_nat i).

Definition set_producer (pc : producer_pc) (q : queue) : queue :=
  mkQueue (precreated_front q) (precreated_back q) (precreated_logs q) pc (q_consumers q).

Definition set_consumer (i : nat) (pc : consumer_pc) (q : queue) : queue :=
  mkQueue (precreated_front q) (precreated_back q) (precreated_logs q) (q_producer q)
    (<[i := pc]> (q_consumers q)).

Definition waiting (w : thread) (q : queue) : bool :=
  match w with
  | Producer => bool_decide (q_producer q = PWait)
  | Consumer i => bool_decide (q_consumers q !! i = Some CWait)
  end.

(** A woken thread tests its loop condition again. *)
Definition wake (w : thread) (q : queue) : queue :=
  match w with
  | Producer => set_producer PCheck q
  | Consumer i => set_consumer i CCheck q
  end.

Definition wake_consumer (pc : consumer_pc) : consumer_pc :=
  match pc with CWait => CCheck | _ => pc end.

Definition broadcast (q : queue) : queue :=
  mkQueue (precreated_front q) (precreated_back q) (precreated_logs q)
    (match q_producer q with PWait => PCheck | pc => pc end)
    (wake_consumer <$> q_consumers q).

Definition no_waiter (q : queue) : bool :=
  negb (waiting Producer q) && forallb (λ pc, negb (bool_decide (pc = CWait))) (q_consumers q).

(** [ep_thr_cond_signal] wakes one waiting thread, if there is one. *)
Definition signal (w : option thread) (q : queue) : option queue :=
  match w with
  | Some w => if waiting w q then Some (wake w q) else None
  | None => if no_waiter q then Some q else None
  end.

Definition _precreate_log (index : Z) (r : option name) (q : queue) : queue :=
  match r with
  | Some n =>
      mkQueue (precreated_front q) (precreated_back q)
        (<[Z.to_nat index := n]> (precreated_logs q)) (q_producer q) (q_consumers q)
  | None => q   (* GDPFS_STAT_CREATE_FAILED, which the caller ignores *)
  end.

(** [while (front == (back + 1) % MAX) wait;] *)
Definition producer_lock (q : queue) : queue :=
  if is_full q then set_producer PWait q else set_producer PCreate q.

Definition producer_publish (q : queue) : queue :=
  let q := mkQueue (precreated_front q) (next (precreated_back q)) (precreated_logs q)
             (q_producer q) (q_consumers q) in
  if precreated_back q =? next (precreated_front q) then broadcast q else q.

(** The locked region of [gdpfs_log_get_precreated] of consumer [i]; it yields
    the name, or [None] if the thread waits. *)
Definition gdpfs_log_get_precreated (i : nat) (w : option thread) (q : queue) :
    option (queue * option name) :=
  if is_empty q then
    match w with None => Some (set_consumer i CWait q, None) | Some _ => None end
  else
    let log_iname := slot q (precreated_front q) in
    q' ← signal w (mkQueue (next (precreated_front q)) (precreated_back q) (precreated_logs q)
                     (q_producer q) (q_consumers q));
    Some (set_consumer i CIdle q', Some log_iname).

(** One event; [None] if it cannot happen. *)
Definition step (q : queue) (ev : event) : option (queue * option name) :=
  match ev with
  | EvProducer =>
      if decide (q_producer q = PCheck) then Some (producer_lock q, None) else None
  | EvCreate r =>
      if decide (q_producer q = PCreate)
      then Some (set_producer PPublish (_precreate_log (precreated_back q) r q), None) else None
  | EvPublish =>
      if decide (q_producer q = PPublish)
      then Some (set_producer PCheck (producer_publish q), None) else None
  | EvCall i =>
      if decide (q_consumers q !! i = Some CIdle) then Some (set_consumer i CCheck q, None)
      else None
  | EvTake i w =>
      if decide (q_consumers q !! i = Some CCheck) then gdpfs_log_get_precreated i w q else None
  | EvSpurious w => if waiting w q then Some (wake w q, None) else None
  end.

(** A run, with the names that were handed out. *)
Fixpoint run (q : queue) (evs : list event) : option (queue * list name) :=
  match evs with
  | [] => Some (q, [])
  | ev :: evs =>
      '(q, o) ← step q ev;
      '(q, os) ← run q evs;
      Some (q, option_list o ++ os)
  end.

(** The names of the logs that were created in a run. *)
Definition created_by (ev : event) : list name :=
  match ev with EvCreate (Some n) => [n] | _ => [] end.
Definition created (evs : list event) : list name := evs ≫= created_by.

Definition creation_failed (ev : event) : bool :=
  match ev with EvCreate None => true | _ => false end.

(** ** Meaning *)

Definition length_of (q : queue) : nat :=
  Z.to_nat ((precreated_back q - precreated_front q) mod PRECREATED_MAX).

(** The names in the queue, oldest first. *)
Definition contents (q : queue) : list name :=
  (λ k, slot q ((precreated_front q + Z.of_nat k) mod PRECREATED_MAX)) <$> seq 0 (length_of q).

(** The name that was created but is not visible to the consumers yet. *)
Definition pending (q : queue) : list name :=
  match q_producer q with PPublish => [slot q (precreated_back q)] | _ => [] end.

Definition in_ring (i : Z) : Prop := 0 ≤ i < PRECREATED_MAX.

(** The invariant: indices are in range, a producer that writes or publishes a
    slot has a free one, and a thread waits only for what is not the case. *)
Record queue_ok (q : queue) : Prop := {
  ok_front : in_ring (precreated_front q);
  ok_back : in_ring (precreated_back q);
  ok_logs : length (precreated_logs q) = Z.to_nat PRECREATED_MAX;
  ok_room : q_producer q = PCreate ∨ q_producer q = PPublish → is_full q = false;
  ok_prod_wait : q_producer q = PWait → is_full q = true;
  ok_cons_wait : ∀ i, q_consumers q !! i = Some CWait → is_empty q = true;
}.
End queue.

Arguments queue : clear implicits.
Arguments event : clear implicits.

(** ** Ring arithmetic *)

#[local] Ltac ring_lia :=
  unfold is_full, is_empty, length_of, in_ring, next, PRECREATED_MAX in *;
  cbn [precreated_front precreated_back] in *;
  Z.to_euclidean_division_equations; lia.

Lemma next_in_ring i : in_ring (next i).
Proof. unfold in_ring, next, PRECREATED_MAX. apply Z.mod_pos_bound. lia. Qed.

Section proofs.
Context {name : Type} (zero_name : name).
Implicit Types (q : queue name) (evs : list (event name)).

Lemma length_publish q :
  in_ring (precreated_front q) → in_ring (precreated_back q) → is_full q = false →
  Z.to_nat ((next (precreated_back q) - precreated_front q) mod PRECREATED_MAX) = S (length_of q).
Proof. intros. ring_lia. Qed.

Lemma length_take q :
  in_ring (precreated_front q) → in_ring (precreated_back q) → is_empty q = false →
  length_of q = S (Z.to_nat ((precreated_back q - next (precreated_front q)) mod PRECREATED_MAX)).
Proof. intros. ring_lia. Qed.

Lemma back_position q :
  in_ring (precreated_front q) → in_ring (precreated_back q) →
  (precreated_front q + Z.of_nat (length_of q)) mod PRECREATED_MAX = precreated_back q.
Proof. intros. ring_lia. Qed.

Lemma position_ne_back q k :
  in_ring (precreated_front q) → in_ring (precreated_back q) → (k < length_of q)%nat →
  Z.to_nat ((precreated_front q + Z.of_nat k) mod PRECREATED_MAX) ≠ Z.to_nat (precreated_back q).
Proof. intros. ring_lia. Qed.

Lemma position_next q k :
  (precreated_front q + Z.of_nat (S k)) mod PRECREATED_MAX =
  (next (precreated_front q) + Z.of_nat k) mod PRECREATED_MAX.
Proof.
  unfold next. rewrite Zplus_mod_idemp_l. f_equal. lia.
Qed.

Lemma length_le q : (length_of q < Z.to_nat PRECREATED_MAX)%nat.
Proof. ring_lia. Qed.

Lemma is_empty_length q :
  in_ring (precreated_front q) → in_ring (precreated_back q) → is_empty q = bool_decide (length_of q = 0%nat).
Proof. intros. case_bool_decide; ring_lia. Qed.

(** ** What the steps do to the contents *)

Lemma contents_ext q q' :
  precreated_front q = precreated_front q' → precreated_back q = precreated_back q' →
  precreated_logs q = precreated_logs q' → contents zero_name q = contents zero_name q'.
Proof. unfold contents, length_of, slot. by intros -> -> ->. Qed.

Lemma contents_publish q q' :
  queue_ok q → is_full q = false →
  precreated_front q' = precreated_front q → precreated_back q' = next (precreated_back q) →
  precreated_logs q' = precreated_logs q →
  contents zero_name q' = contents zero_name q ++ [slot zero_name q (precreated_back q)].
Proof.
  intros [] Hroom Hf Hb Hl. unfold contents, slot. rewrite Hf, Hl.
  replace (length_of q') with (S (length_of q))
    by (unfold length_of; rewrite Hf, Hb; symmetry; by apply length_publish).
  rewrite seq_S, fmap_app. simpl. by rewrite back_position.
Qed.

Lemma contents_take q q' :
  queue_ok q → is_empty q = false →
  precreated_front q' = next (precreated_front q) → precreated_back q' = precreated_back q →
  precreated_logs q' = precreated_logs q →
  contents zero_name q = slot zero_name q (precreated_front q) :: contents zero_name q'.
Proof.
  intros [] Hroom Hf Hb Hl. unfold contents, slot. rewrite Hf, Hl, length_take by done.
  replace (length_of q') with
    (Z.to_nat ((precreated_back q - next (precreated_front q)) mod PRECREATED_MAX))
    by (unfold length_of; by rewrite Hf, Hb).
  rewrite <-cons_seq, fmap_cons. f_equal.
  - rewrite Z.add_0_r. by rewrite Z.mod_small by (unfold in_ring in *; lia).
  - rewrite <-fmap_S_seq, <-list_fmap_compose. apply list_fmap_ext. intros _ k _. simpl.
    by rewrite position_next.
Qed.

Lemma contents_create q q' n :
  queue_ok q →
  precreated_front q' = precreated_front q → precreated_back q' = precreated_back q →
  precreated_logs q' = <[Z.to_nat (precreated_back q) := n]> (precreated_logs q) →
  contents zero_name q' = contents zero_name q.
Proof.
  intros [] Hf Hb Hl. unfold contents, slot, length_of. rewrite Hf, Hb, Hl.
  apply list_fmap_ext. intros i k [-> Hk]%lookup_seq. simpl in *.
  rewrite list_lookup_insert_ne; [done|]. apply not_eq_sym, position_ne_back; done.
Qed.

(** ** Steps that leave the ring alone *)

Definition same_ring q q' : Prop :=
  precreated_front q' = precreated_front q ∧ precreated_back q' = precreated_back q ∧
  precreated_logs q' = precreated_logs q.

Lemma same_ring_wake w q : same_ring q (wake w q).
Proof. by destruct w. Qed.

Lemma same_ring_empty q q' : same_ring q q' → is_empty q' = is_empty q.
Proof. unfold is_empty. by intros (-> & -> & _). Qed.

Lemma same_ring_full q q' : same_ring q q' → is_full q' = is_full q.
Proof. unfold is_full. by intros (-> & -> & _). Qed.

Lemma same_ring_contents q q' :
  same_ring q q' → contents zero_name q' = contents zero_name q.
Proof. intros (? & ? & ?). by apply contents_ext. Qed.

Lemma wake_waiting_pending w q :
  waiting w q = true → pending zero_name (wake w q) = pending zero_name q.
Proof. unfold pending. destruct w; simpl; [intros ->%bool_decide_eq_true_1|]; done. Qed.

Lemma signal_ring w q q' :
  signal w q = Some q' → same_ring q q' ∧ pending zero_name q' = pending zero_name q.
Proof.
  destruct w as [w|]; simpl; [|case_match; by intros [= <-]].
  destruct (waiting w q) eqn:Hw; intros [= <-].
  split; [apply same_ring_wake|by apply wake_waiting_pending].
Qed.

Lemma broadcast_pending q : pending zero_name (broadcast q) = pending zero_name q.
Proof. unfold pending. simpl. by destruct (q_producer q). Qed.

(** ** The invariant *)

(** Waking threads and changes of program counters that respect the conditions
    keep the invariant. *)
Lemma queue_ok_same q q' :
  queue_ok q → same_ring q q' →
  (q_producer q' = q_producer q ∨ q_producer q' = PCheck ∨
   q_producer q' = PWait ∧ is_full q = true ∨ q_producer q' = PCreate ∧ is_full q = false) →
  (∀ i, q_consumers q' !! i = Some CWait →
     q_consumers q !! i = Some CWait ∨ is_empty q = true) →
  queue_ok q'.
Proof.
  intros [] Hs Hp Hc. pose proof (same_ring_full q q' Hs) as Hf.
  pose proof (same_ring_empty q q' Hs) as He. destruct Hs as (Hs1 & Hs2 & Hs3).
  constructor; rewrite ?Hs1, ?Hs2, ?Hs3, ?Hf, ?He; try done.
  - destruct Hp as [->|[->|[[-> ?]|[-> ?]]]]; naive_solver.
  - destruct Hp as [->|[->|[[-> ?]|[-> ?]]]]; naive_solver.
  - naive_solver.
Qed.

Lemma set_consumer_waits i pc q j :
  pc ≠ CWait → q_consumers (set_consumer i pc q) !! j = Some CWait →
  q_consumers q !! j = Some CWait.
Proof.
  intros Hpc. simpl. rewrite list_lookup_insert_Some. naive_solver.
Qed.

Lemma wake_ok w q : queue_ok q → waiting w q = true → queue_ok (wake w q).
Proof.
  intros Hq Hw. apply (queue_ok_same q); [done|apply same_ring_wake|..].
  - destruct w; simpl; auto.
  - destruct w; simpl; [auto|]. intros j Hj. left. by apply set_consumer_waits in Hj.
Qed.

Lemma signal_ok w q q' : queue_ok q → signal w q = Some q' → queue_ok q'.
Proof.
  intros Hq. destruct w as [w|]; simpl; [|case_match; by intros [= <-]].
  destruct (waiting w q) eqn:Hw; intros [= <-]. by apply wake_ok.
Qed.

Lemma wake_consumer_lookup q j : q_consumers (broadcast q) !! j ≠ Some CWait.
Proof.
  simpl. rewrite list_lookup_fmap. by destruct (q_consumers q !! j) as [[]|].
Qed.

Lemma full_not_empty q : queue_ok q → is_full q = true → is_empty q = false.
Proof. intros []. ring_lia. Qed.

(** After a take a slot is free and, unless it took the last one, no consumer waits. *)
Lemma take_ok q :
  queue_ok q → is_empty q = false → q_producer q ≠ PWait →
  queue_ok (mkQueue (next (precreated_front q)) (precreated_back q) (precreated_logs q)
    (q_producer q) (q_consumers q)).
Proof.
  intros [] He Hw. constructor; simpl; try done.
  - apply next_in_ring.
  - intros _. ring_lia.
  - intros i Hi%ok_cons_wait0. congruence.
Qed.

Lemma publish_ok q :
  queue_ok q → q_producer q = PPublish → queue_ok (set_producer PCheck (producer_publish q)).
Proof.
  intros Hq Hp. pose proof Hq as []. unfold producer_publish. simpl.
  destruct (next (precreated_back q) =? next (precreated_front q)) eqn:Hb.
  - constructor; simpl; try done; [apply next_in_ring|naive_solver|].
    intros i Hi. by apply wake_consumer_lookup in Hi.
  - constructor; simpl; try done; [apply next_in_ring|naive_solver|].
    intros i Hi%ok_cons_wait0. exfalso. clear -Hi Hb ok_front0 ok_back0. ring_lia.
Qed.

(** The locked region that takes a name, with its signal. *)
Lemma take_signal_ok w q q' :
  queue_ok q → is_empty q = false →
  signal w (mkQueue (next (precreated_front q)) (precreated_back q) (precreated_logs q)
    (q_producer q) (q_consumers q)) = Some q' →
  queue_ok q' ∧ (q_producer q = PWait → w = Some Producer).
Proof.
  intros Hq He Hs. destruct (decide (q_producer q = PWait)) as [Hw|Hw].
  - assert (w = Some Producer) as ->.
    { destruct w as [[|i]|]; simpl in Hs; [done| |].
      - case_bool_decide as Hi; [|done]. apply (ok_cons_wait _ Hq) in Hi. congruence.
      - unfold no_waiter in Hs. simpl in Hs. by rewrite bool_decide_eq_true_2 in Hs by done. }
    split; [|done]. simpl in Hs. case_bool_decide; [|done]. injection Hs as <-.
    apply (take_ok (set_producer PCheck q)); [|done..].
    apply (queue_ok_same q); simpl; auto; done.
  - split; [|done]. by eapply signal_ok, Hs; apply take_ok.
Qed.

Lemma step_ok q ev q' o : queue_ok q → step zero_name q ev = Some (q', o) → queue_ok q'.
Proof.
  intros Hq. pose proof Hq as [].
  destruct ev as [|r| |i|i w|w]; simpl; try (destruct (decide _) as [Hpc|]; [|done]).
  - intros [= <- <-]. unfold producer_lock. destruct (is_full q) eqn:Hf.
    + apply (queue_ok_same q); simpl; auto; done.
    + apply (queue_ok_same q); simpl; auto 6; done.
  - intros [= <- <-]. constructor; destruct r; simpl; try done; rewrite ?length_insert; auto.
  - intros [= <- <-]. by apply publish_ok.
  - intros [= <- <-]. apply (queue_ok_same q); [done..|by left|].
    intros j Hj. left. by apply set_consumer_waits in Hj.
  - unfold gdpfs_log_get_precreated. destruct (is_empty q) eqn:He.
    + destruct w; [done|]. intros [= <- <-]. apply (queue_ok_same q); auto; done.
    + intros (q1 & Hs & [= <- <-])%bind_Some. apply take_signal_ok in Hs as [Hq1 _]; [|done..].
      apply (queue_ok_same q1); [done..|by left|].
      intros j Hj. left. by apply set_consumer_waits in Hj.
  - destruct (waiting w q) eqn:Hw; [|done]. intros [= <- <-]. by apply wake_ok.
Qed.

Lemma init_ok consumers : queue_ok (init_queue zero_name consumers).
Proof.
  constructor; simpl; rewrite ?length_replicate; done.
Qed.

Lemma run_ok evs : ∀ q q' os,
  queue_ok q → run zero_name q evs = Some (q', os) → queue_ok q'.
Proof.
  induction evs as [|ev evs IH]; intros q q' os Hq; simpl; [by intros [= <- <-]|].
  intros ([q1 o] & Hs & ([q2 os'] & Hr & [= <- <-])%bind_Some)%bind_Some.
  eapply IH, Hr. by eapply step_ok.
Qed.

(** ** First in, first out *)

Lemma step_fifo q ev q' o :
  queue_ok q → step zero_name q ev = Some (q', o) → creation_failed ev = false →
  contents zero_name q ++ pending zero_name q ++ created_by ev =
  option_list o ++ contents zero_name q' ++ pending zero_name q'.
Proof.
  intros Hq. pose proof Hq as [].
  destruct ev as [|r| |i|i w|w]; simpl; try (destruct (decide _) as [Hpc|]; [|done]).
  - intros [= <- <-] _. unfold pending at 1. rewrite Hpc. simpl.
    rewrite (same_ring_contents q (producer_lock q)) by (unfold producer_lock; by case_match).
    unfold pending, producer_lock. by destruct (is_full q).
  - destruct r as [n|]; [|done]. intros [= <- <-] _. unfold pending at 1. rewrite Hpc.
    match goal with |- _ = _ ++ contents _ ?q' ++ _ => rewrite (contents_create q q' n) by done end. simpl. f_equal.
    unfold pending, slot. simpl. rewrite list_lookup_insert_eq; [done|].
    rewrite ok_logs0. unfold in_ring in *. lia.
  - intros [= <- <-] _. unfold pending. simpl. rewrite Hpc, !app_nil_r.
    symmetry. apply contents_publish; [done|auto|..]; unfold producer_publish; simpl; by case_match.
  - intros [= <- <-] _. by rewrite (same_ring_contents q (set_consumer i CCheck q)), app_nil_r.
  - unfold gdpfs_log_get_precreated. destruct (is_empty q) eqn:He.
    + destruct w; [done|]. intros [= <- <-] _. by rewrite (same_ring_contents q (set_consumer i CWait q)), app_nil_r.
    + intros (q1 & Hs & [= <- <-])%bind_Some _. simpl. apply signal_ring in Hs as [Hs Hp].
      rewrite (contents_take q (set_consumer i CIdle q1)) by (done || apply Hs).
      simpl. rewrite app_nil_r. do 2 f_equal. symmetry. exact Hp.
  - destruct (waiting w q) eqn:Hw; [|done]. intros [= <- <-] _.
    rewrite (same_ring_contents q (wake w q)) by apply same_ring_wake.
    by rewrite wake_waiting_pending, app_nil_r.
Qed.

Lemma run_fifo evs : ∀ q q' os,
  queue_ok q → run zero_name q evs = Some (q', os) → existsb creation_failed evs = false →
  contents zero_name q ++ pending zero_name q ++ created evs =
  os ++ contents zero_name q' ++ pending zero_name q'.
Proof.
  induction evs as [|ev evs IH]; intros q q' os Hq; simpl.
  - intros [= <- <-] _. by rewrite app_nil_r.
  - intros ([q1 o] & Hs & ([q2 os'] & Hr & [= <- <-])%bind_Some)%bind_Some.
    intros [Hf Hfs]%orb_false_iff.
    change (created (ev :: evs)) with (created_by ev ++ created evs).
    pose proof (step_fifo _ _ _ _ Hq Hs Hf) as H1.
    pose proof (IH _ _ _ (step_ok _ _ _ _ Hq Hs) Hr Hfs) as H2.
    rewrite <-(assoc_L (++)), <-H2. rewrite !(assoc_L (++)) in H1 |- *.
    rewrite H1. by rewrite <-!(assoc_L (++)).
Qed.

(** ** Progress *)

Definition spurious (ev : event name) : bool :=
  match ev with EvSpurious _ => true | _ => false end.

Lemma empty_not_full q : queue_ok q → is_empty q = true → is_full q = false.
Proof. intros []. ring_lia. Qed.

(** Signalling always has a possible outcome. *)
Lemma signal_exists q : ∃ w q', signal w q = Some q'.
Proof.
  destruct (no_waiter q) eqn:Hn; [exists None; simpl; rewrite Hn; eauto|].
  unfold no_waiter in Hn. apply andb_false_iff in Hn as [Hn|Hn].
  - apply negb_false_iff in Hn. exists (Some Producer). simpl in *. rewrite Hn. eauto.
  - destruct (decide (CWait ∈ q_consumers q)) as [[i Hi]%list_elem_of_lookup|Hni].
    + exists (Some (Consumer i)). simpl. rewrite bool_decide_eq_true_2 by done. eauto.
    + exfalso. apply not_true_iff_false in Hn. apply Hn, forallb_forall.
      intros pc Hpc%list_elem_of_In. rewrite bool_decide_eq_false_2 by (intros ->; done). done.
Qed.

(** A consumer about to test a nonempty queue takes the oldest name. *)
Lemma take_enabled q i x xs :
  queue_ok q → q_consumers q !! i = Some CCheck → contents zero_name q = x :: xs →
  ∃ w q', run zero_name q [EvTake i w] = Some (q', [x]).
Proof.
  intros Hq Hi Hx. assert (is_empty q = false) as He.
  { rewrite is_empty_length by apply Hq. apply bool_decide_eq_false_2. intros Hl.
    unfold contents in Hx. by rewrite Hl in Hx. }
  set (q1 := mkQueue (next (precreated_front q)) (precreated_back q) (precreated_logs q)
    (q_producer q) (q_consumers q)).
  destruct (signal_exists q1) as (w & q2 & Hs).
  exists w, (set_consumer i CIdle q2). simpl. rewrite decide_True by done.
  unfold gdpfs_log_get_precreated. rewrite He. fold q1. rewrite Hs. simpl.
  rewrite (contents_take q q1) in Hx by done. by injection Hx as -> _.
Qed.

Lemma contents_empty q : queue_ok q → is_empty q = true → contents zero_name q = [].
Proof.
  intros [] He. rewrite is_empty_length in He by done. apply bool_decide_eq_true in He.
  unfold contents. by rewrite He.
Qed.

(** On an empty queue publishing wakes every consumer. *)
Lemma publish_enabled q i pc :
  queue_ok q → is_empty q = true → q_producer q = PPublish →
  q_consumers q !! i = Some pc → pc ≠ CIdle →
  ∃ q', step zero_name q EvPublish = Some (q', None) ∧
    q_consumers q' !! i = Some CCheck ∧ contents zero_name q' = [slot zero_name q (precreated_back q)].
Proof.
  intros Hq He Hp Hi Hpc. simpl. rewrite decide_True by done. eexists. split; [done|].
  assert (next (precreated_back q) =? next (precreated_front q) = true) as Heq.
  { unfold is_empty in He. apply Z.eqb_eq in He. rewrite He. apply Z.eqb_refl. }
  unfold producer_publish. simpl. rewrite Heq. simpl. split.
  - rewrite list_lookup_fmap, Hi. by destruct pc.
  - rewrite (contents_publish q), contents_empty; try done. apply Hq; auto.
Qed.

Lemma run_cons q ev evs q1 o q2 os :
  step zero_name q ev = Some (q1, o) → run zero_name q1 evs = Some (q2, os) →
  run zero_name q (ev :: evs) = Some (q2, option_list o ++ os).
Proof. intros Hs Hr. cbn [run]. rewrite Hs. cbn [mbind option_bind]. by rewrite Hr. Qed.

(** The creation the producer is about to do or has done, up to its publication. *)
Definition produce (pc : producer_pc) (n : name) : list (event name) :=
  match pc with
  | PCheck => [EvProducer; EvCreate (Some n); EvPublish]
  | PCreate => [EvCreate (Some n); EvPublish]
  | _ => [EvPublish]
  end.

Lemma produce_enabled q n i pc :
  queue_ok q → is_empty q = true → q_consumers q !! i = Some pc → pc ≠ CIdle →
  ∃ q' x, run zero_name q (produce (q_producer q) n) = Some (q', []) ∧
    q_consumers q' !! i = Some CCheck ∧ contents zero_name q' = [x].
Proof.
  intros Hq He Hi Hpc. pose proof (empty_not_full _ Hq He) as Hf.
  assert (∀ q0, queue_ok q0 → is_empty q0 = true → q_consumers q0 !! i = Some pc →
    q_producer q0 = PPublish → ∃ q' x, run zero_name q0 [EvPublish] = Some (q', []) ∧
    q_consumers q' !! i = Some CCheck ∧ contents zero_name q' = [x]) as Hpub.
  { intros q0 Hq0 He0 Hi0 Hp0. destruct (publish_enabled q0 i pc) as (q' & Hs & ? & ?); [done..|].
    exists q'. eexists. split_and!; [|done..]. by apply (run_cons _ _ _ _ _ _ _ Hs). }
  assert (∀ q0, queue_ok q0 → is_empty q0 = true → q_consumers q0 !! i = Some pc →
    q_producer q0 = PCreate →
    ∃ q' x, run zero_name q0 [EvCreate (Some n); EvPublish] = Some (q', []) ∧
    q_consumers q' !! i = Some CCheck ∧ contents zero_name q' = [x]) as Hcr.
  { intros q0 Hq0 He0 Hi0 Hp0.
    assert (step zero_name q0 (EvCreate (Some n)) = Some (set_producer PPublish
      (_precreate_log (precreated_back q0) (Some n) q0), None)) as Hs.
    { simpl. by rewrite decide_True by done. }
    destruct (Hpub _ (step_ok _ _ _ _ Hq0 Hs)) as (q' & x & Hr & ?); [done..|].
    exists q', x. split; [|done]. by apply (run_cons _ _ _ _ _ _ _ Hs Hr). }
  destruct (q_producer q) eqn:Hp; cbn [produce]; [|by apply (ok_prod_wait _ Hq) in Hp; congruence|auto..].
  assert (step zero_name q EvProducer = Some (set_producer PCreate q, None)) as Hs.
  { simpl. rewrite decide_True by done. unfold producer_lock. by rewrite Hf. }
  destruct (Hcr (set_producer PCreate q)) as (q' & x & Hr & ?); [by eapply step_ok|done..|].
  exists q', x. split; [|done]. by apply (run_cons _ _ _ _ _ _ _ Hs Hr).
Qed.

Lemma run_app evs1 evs2 q q1 os1 q2 os2 :
  run zero_name q evs1 = Some (q1, os1) → run zero_name q1 evs2 = Some (q2, os2) →
  run zero_name q (evs1 ++ evs2) = Some (q2, os1 ++ os2).
Proof.
  revert q os1. induction evs1 as [|ev evs1 IH]; intros q os1; cbn [run app]; [by intros [= -> <-]|].
  intros ([q3 o] & -> & ([q4 os'] & Hr & [= <- <-])%bind_Some)%bind_Some Hr2. simpl.
  rewrite (IH _ _ Hr Hr2). simpl. by rewrite (assoc_L (++)).
Qed.

End proofs.

(** ** Properties *)

(** C9: names are handed out first in, first out.  If every creation succeeded,
    then in every interleaving of the producer and the consumers the names handed
    out so far, followed by the ring's contents and the name not published yet,
    are the created names in order of creation: none is lost, repeated or
    reordered, and the ring never holds [PRECREATED_MAX] names. *)
Theorem log_queue_fifo {name} (zero : name) consumers evs q os
    (Hrun : run zero (init_queue zero consumers) evs = Some (q, os))
    (Hsucc : existsb creation_failed evs = false) :
  created evs = os ++ contents zero q ++ pending zero q ∧
  (length (contents zero q) < Z.to_nat PRECREATED_MAX)%nat.
Proof.
  split.
  - by apply run_fifo in Hrun; [|apply init_ok|].
  - unfold contents. rewrite length_fmap, length_seq. apply length_le.
Qed.

Lemma log_queue_fifo_witness :
  let evs := [EvCall 0; EvTake 0 None; EvProducer; EvCreate (Some 7); EvPublish; EvTake 0 None;
              EvProducer; EvCreate (Some 8); EvPublish; EvProducer; EvCreate (Some 9)] in
  ∃ q, run 0 (init_queue 0 2) evs = Some (q, [7]) ∧
    created evs = [7] ++ contents 0 q ++ pending 0 q ∧
    (length (contents 0%Z q) < Z.to_nat PRECREATED_MAX)%nat.
Proof.
  eexists. split; [vm_compute; reflexivity|].
  eapply (log_queue_fifo 0 2); [vm_compute; reflexivity|reflexivity].
Defined.



(** The run of one consumer that takes each name at once. *)
Definition create_and_take (r : option Z) : list (event Z) :=
  [EvProducer; EvCreate r; EvPublish; EvCall 0; EvTake 0 None].

