(* ===== verification/FigIter.v ===== *)
(** * The FIG tree iterator ([src/figtree/figtree.c])

    [ft_read] starts an iteration over a range of bytes and [fti_next] yields the
    ranges of bytes with their values, in order.  The array of
    [figtree_iterstate]s up to [depth] is a list whose head is the current state
    (so [depth == -1] is the empty list); pushing checks the size of the array. *)
From S2P Require Import Prelude.
From S2P Require Import Interval.
From S2P Require Import Types.
From S2P Require Import Heap.
From S2P Require Import FigNode.
From S2P Require Import FigTree.

#[local] Open Scope Z_scope.

(** ** Data *)

Record fig := mkFig {
  fig_irange : interval;
  fig_value : Z;
}.

Record iterstate := mkIter {
  it_node : option loc;
  it_pos : Z;
  it_valid : interval;
}.

Record figtree_iter := mkFigiter {
  iter_size : nat;              (* capacity of the array of states *)
  iter_states : list iterstate;
}.

#[export] Instance fig_eq_dec : EqDecision fig.
Proof. solve_decision. Defined.

Section operations.
Context `{!Allocator}.
Variable log : gdpfs_log.

(** ** Starting an iteration *)

Definition ft_iterstate_init (node : option loc) (valid : interval) : iterstate :=
  mkIter node (-1) valid.

(** [iterstates[++depth] = rs] *)
Definition iter_push (size : nat) (rs : iterstate) (states : list iterstate)
    : node_prog (list iterstate) :=
  if (length states <? size)%nat then mret (rs :: states) else fail OutOfBounds.

(** The scan of one node: the entry that contains [start], or the subtree to
    descend into. *)
Fixpoint read_scan (es : list ft_ent) (start : Z) (i : nat) : nat + nat :=
  match es with
  | [] => inr i
  | e :: es =>
      if i_contains_val (irange e) start then inl i
      else if i_rightOf_val (irange e) start then inr i
      else read_scan es start (S i)
  end.

Fixpoint read_descend (fuel size : nat) (start : Z) (states : list iterstate)
    : node_prog (list iterstate) :=
  match fuel, states with
  | S fuel, rs :: below =>
    match it_node rs with
    | None => mret states
    | Some l =>
        node ← load l;
        match read_scan (entries node) start 0 with
        | inl i => mret (mkIter (Some l) (Z.of_nat i) (it_valid rs) :: below)
        | inr i =>
            st ← subtree_get log l i;
            v ← lift_res (i_restrict_range (it_valid rs) (after_prev (entries node) i)
                            (before_next (entries node) i) false);
            states ← iter_push size (ft_iterstate_init st v)
                       (mkIter (Some l) (Z.of_nat i) (it_valid rs) :: below);
            read_descend fuel size start states
        end
    end
  | _, _ => fail OutOfFuel
  end.

(** [pos == entries_len || valid is left of entries[pos]] *)
Definition exhausted (node : ft_node) (pos : Z) (valid : interval) : node_prog bool :=
  if pos =? Z.of_nat (length (entries node)) then mret true else
  entry ← in_bounds (if 0 <=? pos then entries node !! Z.to_nat pos else None);
  mret (i_leftOf_int valid (irange entry)).

(** The last loop of [ft_read]. *)
Fixpoint read_backtrack (states : list iterstate) : node_prog (list iterstate) :=
  match states with
  | [] => mret []
  | rs :: below =>
      match it_node rs with
      | None => read_backtrack below
      | Some l =>
          node ← load l;
          done ← exhausted node (it_pos rs) (it_valid rs);
          if done : bool then read_backtrack below else mret states
      end
  end.

Definition ft_read (this : figtree) (start end_ : Z) : node_prog figtree_iter :=
  root ← deref (ft_root this);
  node ← load root;
  let size := Z.to_nat (HEIGHT node + 2) in
  states ← iter_push size (ft_iterstate_init (Some root) (i_init start end_)) [];
  states ← read_descend (S size) size start states;
  states ← read_backtrack states;
  mret (mkFigiter size states).

(** ** The next range *)

(** Skip entries to the left of the valid interval. *)
Fixpoint skip_leftOf (es : list ft_ent) (valid : interval) : nat :=
  match es with
  | e :: es => if i_leftOf_int (irange e) valid then S (skip_leftOf es valid) else 0%nat
  | [] => 0%nat
  end.

(** The loop that drills down a subtree. *)
Fixpoint next_drill (fuel size : nat) (subtree : option loc) (leftlimit rightlimit : Z)
    (oldvalid : interval) (states : list iterstate) : node_prog (list iterstate) :=
  match fuel with
  | O => fail OutOfFuel
  | S fuel =>
    match subtree with
    | None => mret states
    | Some l =>
        valid ← lift_res (i_restrict_range oldvalid leftlimit rightlimit false);
        node ← load l;
        let es := entries node in
        let pos := skip_leftOf es valid in
        states ← iter_push size (mkIter (Some l) (Z.of_nat pos) valid) states;
        match es !! pos with
        | None =>
            st ← subtree_get log l pos;
            next_drill fuel size st (after_prev es pos) BYTE_INDEX_MAX valid states
        | Some e =>
            if i_leftOverlaps valid (irange e) then mret states else
            st ← subtree_get log l pos;
            next_drill fuel size st (after_prev es pos) (wrap32 (i_left (irange e) - 1)) valid states
        end
    end
  end.

(** The second phase: back up to the next entry. *)
Fixpoint next_backtrack (states : list iterstate) : node_prog (list iterstate) :=
  match states with
  | [] => mret []
  | rs :: below =>
      l ← deref (it_node rs);
      node ← load l;
      done ← exhausted node (it_pos rs) (it_valid rs);
      if done : bool then next_backtrack below else mret states
  end.

(** [None] is the return value [false]. *)
Definition fti_next (this : figtree_iter) : node_prog (option fig * figtree_iter) :=
  match iter_states this with
  | [] => mret (None, this)
  | rs :: below =>
      let size := iter_size this in
      l ← deref (it_node rs);
      node ← load l;
      let es := entries node in
      assert (it_pos rs <? Z.of_nat (length es));;
      entry ← in_bounds (if 0 <=? it_pos rs then es !! Z.to_nat (it_pos rs) else None);
      irange_ ← lift_res (i_restrict_int (irange entry) (it_valid rs) false);
      states ←
        (if i_right (it_valid rs) <=? i_right (irange entry) then
           mret (mkIter (Some l) (Z.of_nat (length es)) (it_valid rs) :: below)
         else
           let leftlimit := wrap32 (i_right (irange entry) + 1) in
           let pos := S (Z.to_nat (it_pos rs)) in
           let rightlimit := before_next es pos in
           let states := mkIter (Some l) (Z.of_nat pos) (it_valid rs) :: below in
           if leftlimit <=? rightlimit then
             st ← subtree_get log l pos;
             next_drill (S size) size st leftlimit rightlimit (it_valid rs) states
           else mret states);
      states ← next_backtrack states;
      mret (Some (mkFig irange_ (ent_value entry)), mkFigiter size states)
  end.

(** A client's loop [while (fti_next (it, &fig, log))]. *)
Fixpoint fti_all (fuel : nat) (this : figtree_iter) : node_prog (list fig) :=
  match fuel with
  | O => fail OutOfFuel
  | S fuel =>
      '(next, this) ← fti_next this;
      match next with
      | None => mret []
      | Some f => fs ← fti_all fuel this; mret (f :: fs)
      end
  end.

End operations.
