(* ===== verification/FigRanges.v ===== *)
(** * The ranges of a FIG tree

    The list of ranges that an iteration over a tree yields, as a function on
    trees, and the byte map that such a list denotes. *)
From S2P Require Import Prelude.
From S2P Require Import Interval.
From S2P Require Import Types.
From S2P Require Import Heap.
From S2P Require Import FigNode.
From S2P Require Import FigTree.
From S2P Require Import FigSpec.
From S2P Require Import FigIter.

#[local] Open Scope Z_scope.

(** ** Definitions *)

(** An entry restricted to the bytes [lo .. hi]. *)
Definition clip (e : ft_ent) (lo hi : Z) : list fig :=
  if Z.max lo (lft e) <=? Z.min hi (rgt e)
  then [mkFig (mkInterval (Z.max (lft e) lo) (Z.min (rgt e) hi) true) (ent_value e)] else [].

Definition within (F : ftree → Z → Z → list fig) (c : ftree) (lo hi : Z) : list fig :=
  if lo <=? hi then F c lo hi else [].

(** The ranges of a node between [lo] and [hi], given those of its subtrees. *)
Fixpoint node_figs (F : ftree → Z → Z → list fig) (es : list ft_ent) (ts : list ftree)
    (lo hi : Z) : list fig :=
  match ts, es with
  | [], _ => []
  | c :: _, [] => within F c lo hi
  | c :: ts, e :: es =>
      within F c lo (Z.min hi (lft e - 1)) ++ clip e lo hi ++
      node_figs F es ts (Z.max lo (rgt e + 1)) hi
  end.

Fixpoint tree_figs (h : nat) (t : ftree) (lo hi : Z) : list fig :=
  match h, t with
  | S h, TNode _ es ts => node_figs (tree_figs h) es ts lo hi
  | _, _ => []
  end.

(** The value of a byte in a list of ranges. *)
Fixpoint figs_at (fs : list fig) (b : Z) : option Z :=
  match fs with
  | [] => None
  | f :: fs => if decide (b ∈ fig_irange f) then Some (fig_value f) else figs_at fs b
  end.

(** Nonempty ranges, in order, inside [lo .. hi]. *)
Fixpoint figs_in (lo hi : Z) (fs : list fig) : Prop :=
  match fs with
  | [] => True
  | f :: fs =>
      i_nonempty (fig_irange f) = true ∧
      lo ≤ i_left (fig_irange f) ∧ i_left (fig_irange f) ≤ i_right (fig_irange f) ∧
      i_right (fig_irange f) ≤ hi ∧ figs_in (i_right (fig_irange f) + 1) hi fs
  end.

(** ** Lists of ranges *)

Lemma figs_in_weaken lo lo' hi hi' fs :
  lo' ≤ lo → hi ≤ hi' → figs_in lo hi fs → figs_in lo' hi' fs.
Proof.
  revert lo lo'. induction fs as [|f fs IH]; intros lo lo' Hlo Hhi; simpl; [done|].
  intros (?&?&?&?&?). split_and!; [done|lia|lia|lia|]. eapply IH; [|done|done]. lia.
Qed.

Lemma figs_in_app lo m hi fs1 fs2 :
  m ≤ hi → figs_in lo m fs1 → figs_in (m + 1) hi fs2 → lo ≤ m + 1 → figs_in lo hi (fs1 ++ fs2).
Proof.
  revert lo. induction fs1 as [|f fs1 IH]; intros lo Hm; simpl.
  - intros _ Hin2 Hlo. by eapply figs_in_weaken, Hin2; lia.
  - intros (?&?&?&?&?) Hin2 Hlo. split_and!; [done..|lia|]. apply IH; try done. lia.
Qed.

Lemma figs_at_out lo hi fs b : figs_in lo hi fs → ¬ (lo ≤ b ≤ hi) → figs_at fs b = None.
Proof.
  revert lo. induction fs as [|f fs IH]; intros lo; simpl; [done|].
  intros (?&?&?&?&?) Hb. rewrite decide_False.
  - eapply IH; [done|]. lia.
  - rewrite elem_of_interval. lia.
Qed.

Lemma figs_at_app fs1 fs2 b :
  figs_at (fs1 ++ fs2) b = match figs_at fs1 b with Some v => Some v | None => figs_at fs2 b end.
Proof. induction fs1 as [|f fs1 IH]; simpl; [done|]. by case_decide. Qed.

(** ** The ranges of a tree denote its byte map *)
Section node.
Context (F : ftree → Z → Z → list fig).

Lemma within_empty c lo hi : hi < lo → within F c lo hi = [].
Proof. intros H. unfold within. by destruct (Z.leb_spec lo hi); [lia|]. Qed.

Lemma clip_empty e lo hi : Z.min hi (rgt e) < Z.max lo (lft e) → clip e lo hi = [].
Proof. intros H. unfold clip. by destruct (Z.leb_spec (Z.max lo (lft e)) (Z.min hi (rgt e))); [lia|]. Qed.

Lemma clip_some e lo hi :
  Z.max lo (lft e) ≤ Z.min hi (rgt e) →
  clip e lo hi =
    [mkFig (mkInterval (Z.max (lft e) lo) (Z.min (rgt e) hi) true) (ent_value e)].
Proof. intros H. unfold clip. by destruct (Z.leb_spec (Z.max lo (lft e)) (Z.min hi (rgt e))); [|lia]. Qed.

Lemma node_figs_empty es : ∀ ts lo hi, hi < lo → node_figs F es ts lo hi = [].
Proof.
  induction es as [|e es IH]; intros [|c ts] lo hi H; simpl; try done.
  - by apply within_empty.
  - rewrite within_empty; [|lia]. rewrite clip_empty; [|lia]. rewrite IH; [done|lia].
Qed.

(** Entries that end before [lo] can be skipped. *)
Lemma node_figs_skip k : ∀ es ts lo hi,
  Forall (λ e, rgt e < lo) (take k es) → Forall ent_ok (take k es) → (k ≤ length es)%nat →
  length ts = S (length es) →
  node_figs F es ts lo hi = node_figs F (drop k es) (drop k ts) lo hi.
Proof.
  induction k as [|k IH]; intros [|e es] [|c ts] lo hi Hlt Hok Hk Hlen; simplify_eq/=; try done; try lia.
  apply Forall_cons in Hlt as [He Hlt]. apply Forall_cons in Hok as [(?&?&?&?) Hok].
  rewrite within_empty; [|lia]. rewrite clip_empty; [|lia]. simpl.
  rewrite Z.max_l; [|lia]. apply IH; [done..|lia|lia].
Qed.

Lemma node_figs_in es : ∀ ts lo hi,
  (∀ c lo hi, c ∈ ts → lo ≤ hi → figs_in lo hi (F c lo hi)) →
  es_ok es → figs_in lo hi (node_figs F es ts lo hi).
Proof.
  induction es as [|e es IH]; intros [|c ts] lo hi HF Hok; simpl; try done.
  - unfold within. destruct (Z.leb_spec lo hi); [|done]. apply HF; [set_solver|done].
  - apply es_ok_cons in Hok as ((?&?&?&?) & _ & Hok).
    assert (figs_in (Z.max lo (rgt e + 1)) hi (node_figs F es ts (Z.max lo (rgt e + 1)) hi)) as Hrest.
    { apply IH; [|done]. intros c' ? ? ?. apply HF. set_solver. }
    assert (figs_in (Z.max lo (lft e)) hi
      (clip e lo hi ++ node_figs F es ts (Z.max lo (rgt e + 1)) hi)) as Hclip.
    { unfold clip. destruct (Z.leb_spec (Z.max lo (lft e)) (Z.min hi (rgt e))); simpl.
      - split_and!; [done|lia..|]. destruct (Z.le_gt_cases hi (rgt e)).
        + by rewrite node_figs_empty; [|lia].
        + eapply figs_in_weaken, Hrest; lia.
      - destruct (Z.le_gt_cases lo hi).
        + destruct (Z.le_gt_cases lo (rgt e)).
          * by rewrite node_figs_empty; [|lia].
          * eapply figs_in_weaken, Hrest; lia.
        + by rewrite node_figs_empty; [|lia]. }
    unfold within. destruct (Z.leb_spec lo (Z.min hi (lft e - 1))); simpl.
    + apply (figs_in_app _ (Z.min hi (lft e - 1))); [lia| | |lia].
      * apply HF; [set_solver|done].
      * destruct (Z.le_gt_cases hi (lft e - 1)).
        -- rewrite clip_empty; [|lia]. by rewrite node_figs_empty; [|lia].
        -- eapply figs_in_weaken, Hclip; lia.
    + eapply figs_in_weaken, Hclip; lia.
Qed.

(** Bytes to the left of a node's range, or beyond it, are in none of its ranges. *)
Lemma clip_at e lo hi b :
  lo ≤ b ≤ hi →
  figs_at (clip e lo hi) b = if decide (lft e ≤ b ≤ rgt e) then Some (ent_value e) else None.
Proof.
  intros Hb. unfold clip. destruct (Z.leb_spec (Z.max lo (lft e)) (Z.min hi (rgt e))); simpl.
  - repeat case_decide; unfold_interval; try done; lia.
  - case_decide; [lia|done].
Qed.

Lemma node_figs_at G es : ∀ ts lo hi b,
  (∀ c lo hi, c ∈ ts → lo ≤ hi → figs_in lo hi (F c lo hi)) →
  (∀ c lo hi, c ∈ ts → lo ≤ b ≤ hi → figs_at (F c lo hi) b = G c) →
  es_ok es → length ts = S (length es) → lo ≤ b ≤ hi →
  figs_at (node_figs F es ts lo hi) b = look G es ts b.
Proof.
  induction es as [|e es IH]; intros [|c ts] lo hi b HF HG' Hok Hlen Hb; simplify_eq/=.
  - unfold within. destruct (Z.leb_spec lo hi); [|lia]. apply HG'; [set_solver|done].
  - apply es_ok_cons in Hok as ((?&?&?&?) & Hs & Hok). rewrite !figs_at_app clip_at; [|done].
    assert (∀ c', c' ∈ ts → c' ∈ c :: ts) as Hin by set_solver.
    assert (¬ (rgt e < b) → figs_at (node_figs F es ts (Z.max lo (rgt e + 1)) hi) b = None) as Hnone.
    { intros Hle. eapply figs_at_out; [apply node_figs_in; auto|]. lia. }
    destruct (Z.ltb_spec b (lft e)).
    + rewrite decide_False; [|lia]. unfold within. destruct (Z.leb_spec lo (Z.min hi (lft e - 1))); [|lia].
      rewrite HG'; [|set_solver|lia]. destruct (G c); [done|]. apply Hnone. lia.
    + assert (figs_at (within F c lo (Z.min hi (lft e - 1))) b = None) as ->.
      { unfold within. destruct (Z.leb_spec lo (Z.min hi (lft e - 1))); [|done].
        eapply figs_at_out; [apply HF; [set_solver|done]|]. lia. }
      destruct (Z.leb_spec b (rgt e)).
      * by rewrite decide_True.
      * rewrite decide_False; [|lia]. apply IH; [| |done|done|lia].
        -- intros. apply HF; [auto|done].
        -- intros. apply HG'; [auto|done].
Qed.
End node.

Lemma tree_figs_in h : ∀ t lo hi, wf h t → lo ≤ hi → figs_in lo hi (tree_figs h t lo hi).
Proof.
  induction h as [|h IH]; intros [|l es ts] lo hi Hwf Hle; try done.
  destruct Hwf as (Hok & _ & _ & Hwf). simpl. apply node_figs_in; [|done].
  intros c ? ? Hc ?. apply IH; [|done]. by eapply Forall_forall.
Qed.

Lemma tree_figs_at h : ∀ t lo hi b,
  wf h t → lo ≤ b ≤ hi → figs_at (tree_figs h t lo hi) b = lookup_tree h t b.
Proof.
  induction h as [|h IH]; intros [|l es ts] lo hi b Hwf Hb; try done.
  destruct Hwf as (Hok & _ & Hlen & Hwf). simpl. apply node_figs_at; try done.
  - intros c ? ? Hc ?. apply tree_figs_in; [|done]. by eapply Forall_forall.
  - intros c ? ? Hc ?. apply IH; [|done]. by eapply Forall_forall.
Qed.
