(* ===== verification/FigIterProof.v ===== *)
(** * Correctness of the FIG tree iterator

    The states of an iterator represent the list of ranges that are still to be
    yielded; [ft_read] establishes the list of the whole tree and [fti_next]
    takes its head. *)
From S2P Require Import Prelude.
From S2P Require Import Interval.
From S2P Require Import Types.
From S2P Require Import Heap.
From S2P Require Import FigNode.
From S2P Require Import FigTree.
From S2P Require Import FigSpec.
From S2P Require Import FigNodeProof.
From S2P Require Import FigDescend.
From S2P Require Import FigIter.
From S2P Require Import FigRanges.

#[local] Open Scope Z_scope.

(** ** What the states stand for *)

(** The ranges that are left in a node whose entry [pos] is next. *)
Definition rest (h : nat) (es : list ft_ent) (ts : list ftree) (pos : nat) (lo hi : Z) : list fig :=
  match drop pos es with
  | [] => []
  | e :: es' => clip e lo hi ++ node_figs (tree_figs h) es' (drop (S pos) ts) (Z.max lo (rgt e + 1)) hi
  end.

(** What a state of the iterator means: a node of the tree, the next entry, and
    the bytes it is restricted to. *)
Record gstate := mkGstate {
  g_h : nat;
  g_loc : loc;
  g_es : list ft_ent;
  g_ts : list ftree;
  g_pos : nat;
  g_lo : Z;
  g_hi : Z;
}.

Definition concrete (g : gstate) : iterstate :=
  mkIter (Some (g_loc g)) (Z.of_nat (g_pos g)) (mkInterval (g_lo g) (g_hi g) true).

Definition remaining (g : gstate) : list fig :=
  rest (g_h g) (g_es g) (g_ts g) (g_pos g) (g_lo g) (g_hi g).

(** The current state has a next range. *)
Definition ready (gs : list gstate) : Prop :=
  match gs with
  | [] => True
  | g :: _ => ∃ e, g_es g !! g_pos g = Some e ∧ lft e ≤ g_hi g
  end.

Lemma rest_end h es ts lo hi : rest h es ts (length es) lo hi = [].
Proof. unfold rest. by rewrite drop_all. Qed.

Lemma rest_cons h es ts pos e lo hi :
  es !! pos = Some e →
  rest h es ts pos lo hi = clip e lo hi ++
    node_figs (tree_figs h) (drop (S pos) es) (drop (S pos) ts) (Z.max lo (rgt e + 1)) hi.
Proof. intros He. unfold rest. by rewrite (drop_S _ _ _ He). Qed.

(** A node whose next entry lies beyond its range has nothing left. *)
Lemma rest_beyond h es ts pos e lo hi :
  es !! pos = Some e → ent_ok e → hi < lft e → rest h es ts pos lo hi = [].
Proof.
  intros He (_&_&?&_) Hhi. rewrite (rest_cons _ _ _ _ _ _ _ He).
  rewrite clip_empty; [|lia]. by rewrite node_figs_empty; [|lia].
Qed.

(** The ranges of a node from its subtree [pos] on. *)
Lemma node_figs_at_pos h es ts pos c lo hi :
  es_ok es → length ts = S (length es) → ts !! pos = Some c →
  Forall (λ e, rgt e < lo) (take pos es) →
  node_figs (tree_figs h) es ts lo hi =
    within (tree_figs h) c lo
      (match es !! pos with Some e => Z.min hi (lft e - 1) | None => hi end) ++
    rest h es ts pos lo hi.
Proof.
  intros Hok Hlen Hc Hlt. assert (pos ≤ length es)%nat as Hpos by (apply lookup_lt_Some in Hc; lia).
  rewrite (node_figs_skip _ pos); [|done|by apply es_ok_take|done|done].
  rewrite (drop_S _ _ _ Hc). unfold rest. destruct (es !! pos) as [e|] eqn:He.
  - by rewrite (drop_S _ _ _ He).
  - apply lookup_ge_None in He. rewrite drop_ge //=. by rewrite app_nil_r.
Qed.

Lemma rest_none h es ts pos lo hi : es !! pos = None → rest h es ts pos lo hi = [].
Proof. intros Hpos%lookup_ge_None. unfold rest. by rewrite drop_ge. Qed.

Lemma es_ok_lookup_lt es i j e e' :
  es_ok es → es !! i = Some e → es !! j = Some e' → (i < j)%nat → rgt e < lft e'.
Proof.
  intros Hes He He' Hij. rewrite (lookup_split _ _ _ He) in Hes.
  apply es_ok_app in Hes as (_ & Hes & _). apply es_ok_cons in Hes as (_ & Hb & _).
  rewrite Forall_forall in Hb. apply Hb, list_elem_of_lookup. exists (j - S i)%nat.
  rewrite lookup_drop. by rewrite (_ : (S i + (j - S i))%nat = j); [|lia].
Qed.

(** Raising the lower limit up to the next entry changes nothing. *)
Lemma rest_lo h es ts pos lo lo' hi :
  lo ≤ lo' → Forall ent_ok es → (∀ e, es !! pos = Some e → lo' ≤ lft e) →
  rest h es ts pos lo' hi = rest h es ts pos lo hi.
Proof.
  intros Hlo Hes He. destruct (es !! pos) as [e|] eqn:Hpos.
  - specialize (He e eq_refl). destruct (Forall_lookup_1 _ _ _ _ Hes Hpos) as (_&?&?&_).
    rewrite !(rest_cons _ _ _ _ e) // (Z.max_r lo') ?(Z.max_r lo); [|lia..].
    f_equal. unfold clip. by rewrite !(Z.max_r _ (lft e)) ?(Z.max_l (lft e)); [|lia..].
  - unfold rest. apply lookup_ge_None in Hpos. by rewrite drop_ge.
Qed.

(** What is left of a node when an entry has been yielded. *)
Lemma remaining_next h es ts pos e c lo hi :
  es_ok es → length ts = S (length es) → es !! pos = Some e → ts !! S pos = Some c →
  lo ≤ rgt e → lft e ≤ hi → lo ≤ hi →
  rest h es ts pos lo hi =
    mkFig (mkInterval (Z.max (lft e) lo) (Z.min (rgt e) hi) true) (ent_value e) ::
    within (tree_figs h) c (rgt e + 1)
      (match es !! S pos with Some e' => Z.min hi (lft e' - 1) | None => hi end) ++
    rest h es ts (S pos) lo hi.
Proof.
  intros Hes Hts He Hc Hlo Hhi Hle.
  pose proof (es_ok_ent _ _ Hes (list_elem_of_lookup_2 _ _ _ He)) as (_&?&?&_).
  assert (Forall (λ e', rgt e' < rgt e + 1) (take (S pos) es)) as Hlt.
  { rewrite (take_S_r _ _ _ He). apply Forall_app. split; [|by repeat constructor; lia].
    apply Forall_forall. intros e' He'. rewrite (lookup_split _ _ _ He) in Hes.
    apply es_ok_app in Hes as (Hes1 & _ & Hb).
    specialize (Hb e' e He' ltac:(set_solver)). unfold before in Hb. lia. }
  assert (∀ e', es !! S pos = Some e' → rgt e + 1 ≤ lft e') as Hnext.
  { intros e' He'. assert (rgt e < lft e'); [|lia]. eapply es_ok_lookup_lt; [done..|lia]. }
  rewrite (rest_cons _ _ _ _ e) // clip_some; [|lia]. simpl. f_equal.
  rewrite Z.max_r; [|lia].
  rewrite -(node_figs_skip (tree_figs h) (S pos) es ts);
    [|done|by apply es_ok_take|apply lookup_lt_Some in He; lia|done].
  rewrite (node_figs_at_pos _ _ _ (S pos) c) //. f_equal.
  apply rest_lo; [lia|apply Hes|done].
Qed.

(** ** Scanning entries *)

Lemma skip_leftOf_spec es lo hi :
  Forall ent_ok es →
  let pos := skip_leftOf es (mkInterval lo hi true) in
  Forall (λ e, rgt e < lo) (take pos es) ∧ (pos ≤ length es)%nat ∧
  ∀ e, es !! pos = Some e → lo ≤ rgt e.
Proof.
  induction 1 as [|e es (Hne&_&_&_) Hes IH]; simpl; [by split_and!|].
  unfold i_leftOf_int, i_leftOf_val. rewrite Hne /=.
  destruct (Z.ltb_spec (i_right (irange e)) lo); simpl.
  - destruct IH as (?&?&?). split_and!; [by constructor|lia|done].
  - split_and!; [constructor|lia|]. intros ? [= <-]. done.
Qed.

Lemma read_scan_spec es lo n :
  Forall ent_ok es → BYTE_INDEX_MIN ≤ lo →
  match read_scan es lo n with
  | inl i => ∃ k e, i = (n + k)%nat ∧ es !! k = Some e ∧ lft e ≤ lo ∧ lo ≤ rgt e ∧
      Forall (λ e, rgt e < lo) (take k es)
  | inr i => ∃ k, i = (n + k)%nat ∧ (k ≤ length es)%nat ∧
      (∀ e, es !! k = Some e → lo < lft e) ∧ Forall (λ e, rgt e < lo) (take k es)
  end.
Proof.
  intros Hok Hlo. revert n. induction Hok as [|e es (Hne&?&?&?) Hes IH]; intros n; simpl.
  { exists 0%nat. split_and!; [lia|done|done|constructor]. }
  unfold i_contains_val, i_rightOf_val. rewrite Hne /=. fold (lft e) (rgt e).
  destruct (Z.leb_spec (lft e) lo); destruct (Z.leb_spec lo (rgt e)); simpl; try lia.
  - exists 0%nat, e. split_and!; [lia|done..|constructor].
  - destruct (Z.ltb_spec lo (lft e)); [lia|]. specialize (IH (S n)).
    destruct (read_scan es lo (S n)) as [i|i].
    + destruct IH as (k & e' & -> & ? & ? & ? & ?). exists (S k), e'.
      split_and!; [lia|done..|]. by constructor.
    + destruct IH as (k & -> & ? & ? & ?). exists (S k). split_and!; [lia|lia|done|]. by constructor.
  - destruct (Z.ltb_spec lo (lft e)); [|lia]. exists 0%nat.
    split_and!; [lia|lia| |constructor]. by intros ? [= <-].
Qed.

Lemma after_prev_le es pos lo :
  Forall ent_ok es → Forall (λ e, rgt e < lo) (take pos es) → BYTE_INDEX_MIN ≤ lo →
  after_prev es pos ≤ lo.
Proof.
  intros Hok Hlt Hlo. destruct pos as [|pos]; [done|]. simpl.
  destruct (es !! pos) as [e|] eqn:He; [|done].
  assert (rgt e < lo).
  { eapply (Forall_lookup_1 _ _ pos e Hlt). rewrite lookup_take_lt; [done|lia]. }
  destruct (Forall_lookup_1 _ _ _ _ Hok He) as (_&?&?&?).
  rewrite wrap_small; unfold in_width, lft, rgt, BYTE_INDEX_MIN, BYTE_INDEX_MAX in *; lia.
Qed.

(** ** Access to a tree

    An iteration reads nodes and follows subtree pointers.  [node_at w l h t] says
    that [l] is a node of the tree [t] of height [h] in the world [w]; following a
    pointer may load a node, which extends the world. *)
Class TreeAccess `{HG : !heapG ft_node Σ} `{AL : !Allocator} (log : gdpfs_log) (W : Type) := {
  own_tree : W → iProp Σ;
  world_le : relation W;
  node_at : W → loc → nat → ftree → Prop;
  world_le_preorder :: PreOrder world_le;
  node_at_mono w w' l h t : world_le w w' → node_at w l h t → node_at w' l h t;
  node_at_wf w l h t : node_at w l h t → (0 < h)%nat ∧ wf h t;
  access_load w l h lt es ts Φ :
    node_at w l (S h) (TNode lt es ts) →
    own_tree w -∗ (∀ sps d, own_tree w -∗ Φ (mkNode es sps (Z.of_nat h) d)) -∗ wp (load l) Φ;
  access_get w l h lt es ts i c Φ :
    node_at w l (S h) (TNode lt es ts) → ts !! i = Some c →
    own_tree w -∗
    (∀ w' p, ⌜world_le w w' ∧ match p with Some l' => node_at w' l' h c | None => h = 0%nat end⌝ -∗
       own_tree w' -∗ Φ p) -∗
    wp (subtree_get log l i) Φ;
}.

(** The pointer [p] leads to the tree [c]. *)
Definition points_at `{TreeAccess Σ log W} (w : W) (p : option loc) (h : nat) (c : ftree) : Prop :=
  match p with Some l => node_at w l h c | None => h = 0%nat end.

Section states.
Context `{HG : !heapG ft_node Σ} `{AL : !Allocator} `{TA : !TreeAccess log W}.

Record gstate_ok (H : nat) (w : W) (d : nat) (g : gstate) : Prop := {
  g_sub : ∃ lt, node_at w (g_loc g) (S (g_h g)) (TNode lt (g_es g) (g_ts g));
  g_depth : (d + S (g_h g) ≤ H)%nat;
  g_le : (g_pos g ≤ length (g_es g))%nat;
  g_wlo : byte_index (g_lo g);
  g_whi : byte_index (g_hi g);
  g_range : g_lo g ≤ g_hi g;
  g_next : ∀ e, g_es g !! g_pos g = Some e → g_lo g ≤ rgt e;
}.

Fixpoint gstates_ok (H : nat) (w : W) (gs : list gstate) : Prop :=
  match gs with
  | [] => True
  | g :: gs => gstate_ok H w (length gs) g ∧ gstates_ok H w gs
  end.

Lemma gstates_mono H w w' gs : world_le w w' → gstates_ok H w gs → gstates_ok H w' gs.
Proof.
  intros Hle. induction gs as [|g gs IH]; simpl; [done|]. intros [[[lt Hs] ??????] Hgs].
  split; [|by apply IH]. constructor; try done. exists lt. by eapply node_at_mono.
Qed.

Lemma gstate_wf H w d g : gstate_ok H w d g → es_ok (g_es g) ∧ length (g_ts g) = S (length (g_es g)).
Proof. intros [[lt Hs] _ _ _ _ _ _]. apply node_at_wf in Hs as (_ & ? & _ & ? & _). done. Qed.
End states.

Section proof.
Context `{HG : !heapG ft_node Σ} `{AL : !Allocator} (log : gdpfs_log) `{TA : !TreeAccess log W}.

Lemma wp_iter_push size rs states Φ :
  (length states < size)%nat → Φ (rs :: states) ⊢ wp (iter_push size rs states : node_prog _) Φ.
Proof.
  iIntros (Hlt) "HΦ". rewrite /iter_push. rewrite (proj2 (Nat.ltb_lt _ _) Hlt). by wp_ret.
Qed.

(** ** Backing up *)

Lemma wp_exhausted es sps h d pos lo hi Φ :
  (pos ≤ length es)%nat →
  Φ (match es !! pos with Some e => bool_decide (hi < lft e) | None => true end) ⊢
  wp (exhausted (mkNode es sps h d) (Z.of_nat pos) (mkInterval lo hi true) : node_prog _) Φ.
Proof.
  iIntros (Hpos) "HΦ". rewrite /exhausted. simpl entries.
  destruct (Z.eqb_spec (Z.of_nat pos) (Z.of_nat (length es))) as [Heq|Hne].
  - rewrite lookup_ge_None_2; [|lia]. by wp_ret.
  - destruct (lookup_lt_is_Some_2 es pos) as [e He]; [lia|]. rewrite He.
    wp_bind. iApply wp_in_bounds.
    { destruct (Z.leb_spec 0 (Z.of_nat pos)); [|lia]. by rewrite Nat2Z.id. }
    wp_ret. iEval (rewrite /i_leftOf_int /i_leftOf_val /=).
    rewrite (_ : (hi <? i_left (irange e)) = bool_decide (hi < lft e)); [done|].
    unfold lft. case_bool_decide; lia.
Qed.

Lemma wp_next_backtrack H w gs : ∀ Φ,
  gstates_ok H w gs →
  own_tree w -∗
  (∀ gs', ⌜gstates_ok H w gs' ∧ ready gs' ∧ gs' ≫= remaining = gs ≫= remaining⌝ -∗
     own_tree w -∗ Φ (concrete <$> gs')) -∗
  wp (next_backtrack (concrete <$> gs)) Φ.
Proof.
  induction gs as [|g gs IH]; iIntros (Φ Hok) "HT HΦ"; cbn [next_backtrack fmap list_fmap].
  { wp_ret. iApply ("HΦ" $! [] with "[//] HT"). }
  destruct Hok as [Hg Hgs]. wp_bind. iApply wp_deref. wp_bind. destruct (g_sub _ _ _ _ Hg) as [lt Hsub].
  iApply (access_load with "HT"); [exact Hsub|]. iIntros (sps d) "HT".
  wp_bind. iApply wp_exhausted; [apply Hg|].
  destruct (gstate_wf _ _ _ _ Hg) as [Hes _].
  destruct (g_es g !! g_pos g) as [e|] eqn:He.
  - case_bool_decide as Hhi.
    + iApply (IH with "HT"); [done..|]. iIntros (gs' (?&?&Heq)) "HT". iApply ("HΦ" with "[%] HT").
      split_and!; [done..|]. rewrite Heq /=. rewrite {2}/remaining (rest_beyond _ _ _ _ e) //.
      eapply es_ok_ent; [done|]. by eapply list_elem_of_lookup_2.
    + wp_ret. iApply ("HΦ" $! (g :: gs) with "[%] HT"). split_and!; [done..| |done].
      exists e. split; [done|lia].
  - iApply (IH with "HT"); [done..|]. iIntros (gs' (?&?&Heq)) "HT". iApply ("HΦ" with "[%] HT").
    split_and!; [done..|]. rewrite Heq /=. rewrite {2}/remaining.
    apply lookup_ge_None in He. pose proof (g_le _ _ _ _ Hg).
    rewrite (_ : g_pos g = length (g_es g)); [|lia]. by rewrite rest_end.
Qed.

(** ** Drilling down *)

Lemma wp_restrict olo ohi ll rl Φ :
  Z.max olo ll ≤ Z.min ohi rl →
  Φ (mkInterval (Z.max olo ll) (Z.min ohi rl) true) ⊢
  wp (lift_res (i_restrict_range (mkInterval olo ohi true) ll rl false) : node_prog _) Φ.
Proof.
  iIntros (Hle) "HΦ". iApply wp_lift_res; [|done].
  apply (i_restrict_range_nonempty (mkInterval olo ohi true) _ _ _ (Z.max olo ll));
    unfold_interval; lia.
Qed.

Lemma wp_next_drill H size : (H ≤ size)%nat → ∀ h fuel w p c ll rl olo ohi gs Φ,
  points_at w p h c → wf h c → (h < fuel)%nat → (length gs + h ≤ H)%nat → gstates_ok H w gs →
  byte_index (Z.max olo ll) → byte_index (Z.min ohi rl) → Z.max olo ll ≤ Z.min ohi rl →
  own_tree w -∗
  (∀ w' gs', ⌜world_le w w' ∧ gstates_ok H w' gs' ∧
      gs' ≫= remaining = tree_figs h c (Z.max olo ll) (Z.min ohi rl) ++ gs ≫= remaining⌝ -∗
     own_tree w' -∗ Φ (concrete <$> gs')) -∗
  wp (next_drill log fuel size p ll rl (mkInterval olo ohi true) (concrete <$> gs)) Φ.
Proof.
  intros Hsize. induction h as [|h IH];
    iIntros (fuel w p c ll rl olo ohi gs Φ Hp Hwfc Hfuel Hlen Hok Hlo Hhi Hle) "HT HΦ";
    (destruct fuel as [|fuel]; [lia|]); cbn [next_drill].
  { destruct p as [l|]; [by apply node_at_wf in Hp as [? _]; lia|]. destruct c; [|done]. wp_ret.
    by iApply ("HΦ" with "[%] HT"). }
  destruct p as [l|]; [|done]. destruct c as [|lt es ts]; [done|].
  destruct Hwfc as (Hes & _ & Hts & Hwfts). wp_bind. iApply wp_restrict; [done|].
  set (lo := Z.max olo ll) in *. set (hi := Z.min ohi rl) in *. clearbody lo hi.
  wp_bind. iApply (access_load with "HT"); [exact Hp|]. iIntros (sps d) "HT". cbn [entries].
  destruct (skip_leftOf_spec es lo hi (proj1 Hes)) as (Hskip & Hpos & Hnext).
  set (pos := skip_leftOf es (mkInterval lo hi true)) in *.
  assert (∃ c, ts !! pos = Some c) as [c Hc] by (apply lookup_lt_is_Some_2; lia).
  pose (g := mkGstate h l es ts pos lo hi).
  assert (gstates_ok H w (g :: gs)) as Hok'.
  { split; [|done]. constructor; simpl; try done. by exists lt. }
  wp_bind. iApply wp_iter_push; [rewrite length_fmap; lia|].
  pose proof (after_prev_le es pos lo (proj1 Hes) Hskip (proj1 Hlo)) as Hap.
  pose proof (node_figs_at_pos h es ts pos c lo hi Hes Hts Hc Hskip) as Hfigs.
  pose proof (Forall_lookup_1 _ _ _ _ Hwfts Hc) as Hwfc.
  assert (∀ rl', byte_index (Z.min hi rl') → lo ≤ Z.min hi rl' →
    own_tree w -∗
    (∀ w' gs', ⌜world_le w w' ∧ gstates_ok H w' gs' ∧
      gs' ≫= remaining = tree_figs h c lo (Z.min hi rl') ++ (g :: gs) ≫= remaining⌝ -∗
     own_tree w' -∗ Φ (concrete <$> gs')) -∗
    wp (subtree_get log l pos ≫= λ st, next_drill log fuel size st (after_prev es pos) rl'
      (mkInterval lo hi true) (concrete <$> g :: gs)) Φ) as Hrec.
  { intros rl' Hrl Hle'. iIntros "HT HΦ". wp_bind.
    iApply (access_get with "HT"); [done..|]. iIntros (w1 p1 [Hw1 Hp1]) "HT".
    iApply (IH fuel w1 p1 c (after_prev es pos) rl' lo hi (g :: gs) with "HT");
      rewrite ?(Z.max_l _ _ Hap); [done|done|lia|simpl; lia|by eapply gstates_mono|done..|].
    iIntros (w2 gs2 (? & ? & ?)) "HT". iApply ("HΦ" with "[%] HT"). split_and!; [by etrans|done..]. }
  destruct (es !! pos) as [e|] eqn:He.
  - pose proof (es_ok_ent _ _ Hes (list_elem_of_lookup_2 _ _ _ He)) as (_&?&?&?).
    specialize (Hnext e eq_refl).
    destruct (i_leftOverlaps (mkInterval lo hi true) (irange e)) eqn:Hov.
    + wp_ret. iApply ("HΦ" $! w (g :: gs) with "[%] HT"). split_and!; [done..|]. simpl.
      rewrite Hfigs within_empty //. unfold_interval. unfold lft. lia.
    + assert (lo < lft e) as Hlt by (unfold lft, rgt in *; unfold_interval; lia).
      rewrite wrap_small; [|unfold in_width, byte_index, lft, rgt, BYTE_INDEX_MIN, BYTE_INDEX_MAX in *; lia].
      iApply (Hrec with "HT"); [unfold lft, rgt in *; unfold_interval; lia|unfold lft in *; lia|].
      iIntros (w' gs' (? & ? & Heq)) "HT". iApply ("HΦ" with "[%] HT"). split_and!; [done..|].
      rewrite Heq. simpl. rewrite Hfigs /within. unfold lft in *.
      destruct (Z.leb_spec lo (Z.min hi (i_left (irange e) - 1))); [|lia]. by rewrite -assoc_L.
  - iApply (Hrec with "HT"); [unfold_interval; lia|unfold_interval; lia|].
    iIntros (w' gs' (? & ? & Heq)) "HT". iApply ("HΦ" with "[%] HT"). split_and!; [done..|].
    rewrite Heq. simpl. rewrite Hfigs /within. rewrite (Z.min_l hi); [|unfold_interval; lia].
    destruct (Z.leb_spec lo hi); [|lia]. by rewrite -assoc_L.
Qed.

(** ** The next range *)

Lemma wp_fti_next H w size gs Φ :
  (H ≤ size)%nat → gstates_ok H w gs → ready gs →
  own_tree w -∗
  (∀ next w' gs', ⌜world_le w w' ∧ gstates_ok H w' gs' ∧ ready gs' ∧
      gs ≫= remaining = option_list next ++ gs' ≫= remaining ∧ (next = None → gs' = [])⌝ -∗
     own_tree w' -∗ Φ (next, mkFigiter size (concrete <$> gs'))) -∗
  wp (fti_next log (mkFigiter size (concrete <$> gs))) Φ.
Proof.
  iIntros (Hsize Hok Hready) "HT HΦ". rewrite /fti_next. destruct gs as [|g gs]; cbn [iter_states fmap list_fmap].
  { wp_ret. by iApply ("HΦ" $! None w [] with "[%] HT"). }
  destruct Hok as [Hg Hgs]. destruct Hready as (e & He & Hhi). pose proof Hg as [].
  destruct (gstate_wf _ _ _ _ Hg) as [Hes Hts].
  assert (Forall (wf (g_h g)) (g_ts g)) as Hwfts.
  { destruct (g_sub _ _ _ _ Hg) as [lt Hs]. apply node_at_wf in Hs as (_ & _ & _ & _ & Hw). exact Hw. }
  pose proof (es_ok_ent _ _ Hes (list_elem_of_lookup_2 _ _ _ He)) as (?&?&?&?).
  specialize (g_next0 e He). pose proof (lookup_lt_Some _ _ _ He) as Hlt.
  destruct (lookup_lt_is_Some_2 (g_ts g) (S (g_pos g))) as [c Hc]; [lia|].
  pose proof (Forall_lookup_1 _ _ _ _ Hwfts Hc) as Hwfc.
  pose proof (remaining_next (g_h g) _ _ _ _ _ _ _ Hes Hts He Hc g_next0 Hhi g_range0) as Hrest.
  wp_bind. iApply wp_deref. wp_bind. destruct g_sub0 as [lt Hsub]. iApply (access_load with "HT"); [exact Hsub|].
  iIntros (sps d) "HT". cbn [entries concrete it_pos it_valid it_node iter_size].
  wp_bind. iApply wp_assert; [apply Z.ltb_lt; lia|].
  wp_bind. iApply wp_in_bounds.
  { rewrite (proj2 (Z.leb_le _ _)); [|lia]. by rewrite Nat2Z.id. }
  wp_bind. rewrite /i_restrict_int. iApply wp_lift_res.
  { apply (i_restrict_range_nonempty _ _ _ _ (Z.max (lft e) (g_lo g))); unfold lft, rgt in *;
      unfold_interval; lia. }
  iAssert (∀ w' gs', ⌜world_le w w' ∧ gstates_ok H w' gs' ∧ gs' ≫= remaining =
    within (tree_figs (g_h g)) c (rgt e + 1)
      (match g_es g !! S (g_pos g) with Some e' => Z.min (g_hi g) (lft e' - 1) | None => g_hi g end) ++
    rest (g_h g) (g_es g) (g_ts g) (S (g_pos g)) (g_lo g) (g_hi g) ++ gs ≫= remaining⌝ -∗
    own_tree w' -∗
    wp (next_backtrack (concrete <$> gs') ≫= λ states,
      mret (Some (mkFig (mkInterval (i_left (irange e) `max` g_lo g) (i_right (irange e) `min` g_hi g)
        (i_nonempty (irange e))) (ent_value e)), mkFigiter size states)) Φ)%I with "[HΦ]" as "Hback".
  { iIntros (w' gs' (Hw' & Hgs' & Hrem)) "HT". wp_bind. iApply (wp_next_backtrack with "HT"); [done..|].
    iIntros (gs2 (Hok2 & Hready2 & Hrem2)) "HT". wp_ret. iApply ("HΦ" with "[%] HT").
    split_and!; [done..| |done]. rewrite Hrem2 Hrem. cbn [mbind list_bind].
    rewrite {1}/remaining Hrest. simpl. rewrite assoc_L. by do 3 f_equal. }
  assert (∀ pos', (pos' ≤ length (g_es g))%nat → (∀ e', g_es g !! pos' = Some e' → g_lo g ≤ rgt e') →
    gstate_ok H w (length gs) (mkGstate (g_h g) (g_loc g) (g_es g) (g_ts g) pos' (g_lo g) (g_hi g))) as Hg'.
  { intros pos' ??. constructor; try done. by exists lt. }
  assert (∀ e', g_es g !! S (g_pos g) = Some e' → rgt e < lft e' ∧ ent_ok e') as Hnext.
  { intros e' He'. split.
    - apply (es_ok_lookup_lt _ _ _ _ _ Hes He He'). lia.
    - eapply es_ok_ent; [done|]. by eapply list_elem_of_lookup_2. }
  wp_bind. cbn [i_right].
  destruct (Z.leb_spec (g_hi g) (i_right (irange e))) as [Hend|Hmore].
  - wp_ret. iApply ("Hback" $! w (mkGstate (g_h g) (g_loc g) (g_es g) (g_ts g) (length (g_es g))
      (g_lo g) (g_hi g) :: gs) with "[%] HT").
    split; [done|]. split; [split; [|done]; apply Hg'; [done|]|].
    { intros e' He'. by rewrite lookup_ge_None_2 in He'. }
    simpl. rewrite {1}/remaining /= rest_end. rewrite within_empty; [|unfold rgt in *; case_match; lia].
    destruct (g_es g !! S (g_pos g)) as [e'|] eqn:He'.
    + destruct (Hnext e' eq_refl) as [? ?]. by rewrite (rest_beyond _ _ _ _ e') //; unfold rgt in *; lia.
    + rewrite (rest_none _ _ _ _ _ _ He'). done.
  - rewrite Nat2Z.id.
    set (g' := mkGstate (g_h g) (g_loc g) (g_es g) (g_ts g) (S (g_pos g)) (g_lo g) (g_hi g)).
    assert (gstates_ok H w (g' :: gs)) as Hok'.
    { split; [|done]. apply Hg'; [lia|]. intros e' He'%Hnext. destruct He' as [? (?&?&?&?)]. lia. }
    rewrite (wrap_small 32 (i_right (irange e) + 1));
      [|unfold in_width, lft, rgt, BYTE_INDEX_MIN, BYTE_INDEX_MAX in *; lia].
    assert (before_next (g_es g) (S (g_pos g)) =
      match g_es g !! S (g_pos g) with Some e' => lft e' - 1 | None => BYTE_INDEX_MAX end) as Hbn.
    { unfold before_next. destruct (g_es g !! S (g_pos g)) as [e'|] eqn:He'; [|done].
      destruct (Hnext e' eq_refl) as [? (?&?&?&?)].
      rewrite wrap_small //; unfold in_width, lft, rgt, BYTE_INDEX_MIN, BYTE_INDEX_MAX in *; lia. }
    assert (match g_es g !! S (g_pos g) with Some e' => Z.min (g_hi g) (lft e' - 1) | None => g_hi g end
      = Z.min (g_hi g) (before_next (g_es g) (S (g_pos g)))) as Hmin.
    { rewrite Hbn. destruct (g_es g !! S (g_pos g)); [done|]. unfold_interval. lia. }
    rewrite Hmin. change (i_right (irange e) + 1) with (rgt e + 1).
    destruct (Z.leb_spec (rgt e + 1) (before_next (g_es g) (S (g_pos g)))) as [Hle|Hgt].
    + wp_bind. iApply (access_get with "HT"); [exact Hsub|done|]. iIntros (w1 p1 [Hw1 Hp1]) "HT".
      iApply (wp_next_drill H size Hsize (g_h g) (S size) w1 p1 c _ _ _ _ (g' :: gs) with "HT");
        [done|done|lia|simpl; lia|by eapply gstates_mono|..].
      * unfold_interval. lia.
      * unfold_interval. unfold rgt in *. lia.
      * unfold rgt in *. lia.
      * iIntros (w2 gs' (Hw2 & Hgs' & Hrem)) "HT". iApply ("Hback" with "[%] HT").
        split_and!; [by etrans|done|].
        rewrite Hrem. simpl. rewrite {1}/remaining /=. rewrite (Z.max_r (g_lo g)); [|lia].
        rewrite /within. unfold rgt in *.
        by destruct (Z.leb_spec (i_right (irange e) + 1) (Z.min (g_hi g) (before_next (g_es g) (S (g_pos g))))); [|lia].
    + wp_ret. iApply ("Hback" $! w (g' :: gs) with "[%] HT"). split_and!; [done..|].
      rewrite within_empty; [done|]. lia.
Qed.

(** ** Starting an iteration *)

Lemma read_backtrack_concrete gs σ :
  read_backtrack (concrete <$> gs) σ = next_backtrack (concrete <$> gs) σ.
Proof.
  revert σ. induction gs as [|g gs IH]; intros σ; [done|]. cbn.
  unfold mbind, prog_bind, mret, prog_ret.
  destruct (load (g_loc g) σ) as [[node σ1]|]; [|done].
  destruct (exhausted _ _ _ σ1) as [[[] σ2]|]; [|done..]. apply IH.
Qed.

(** The states after the descent; the innermost one may be a NULL subtree. *)
Definition descended_to (states : list iterstate) (gs : list gstate) : Prop :=
  states = concrete <$> gs ∨ ∃ v, states = ft_iterstate_init None v :: (concrete <$> gs).

Lemma wp_read_descend H size lo : (H < size)%nat → byte_index lo →
  ∀ h fuel w p c hi gs Φ,
  points_at w p h c → wf h c → (h < fuel)%nat → (length gs + h ≤ H)%nat → gstates_ok H w gs →
  byte_index hi → lo ≤ hi →
  own_tree w -∗
  (∀ states w' gs', ⌜world_le w w' ∧ descended_to states gs' ∧ gstates_ok H w' gs' ∧
      gs' ≫= remaining = tree_figs h c lo hi ++ gs ≫= remaining⌝ -∗
     own_tree w' -∗ Φ states) -∗
  wp (read_descend log fuel size lo
    (ft_iterstate_init p (mkInterval lo hi true) :: (concrete <$> gs))) Φ.
Proof.
  intros Hsize Hlo.
  induction h as [|h IH]; iIntros (fuel w p c hi gs Φ Hp Hwfc Hfuel Hlen Hok Hhi Hle) "HT HΦ";
    (destruct fuel as [|fuel]; [lia|]); cbn [read_descend it_node ft_iterstate_init].
  { destruct p as [l|]; [by apply node_at_wf in Hp as [? _]; lia|]. destruct c; [|done]. wp_ret.
    iApply ("HΦ" with "[%] HT"). split_and!; [done|right; by eexists|done..]. }
  destruct p as [l|]; [|done]. destruct c as [|lt es ts]; [done|].
  destruct Hwfc as (Hes & _ & Hts & Hwfts).
  wp_bind. iApply (access_load with "HT"); [exact Hp|]. iIntros (sps d) "HT". cbn [entries it_valid].
  pose proof (read_scan_spec es lo 0 (proj1 Hes) (proj1 Hlo)) as Hscan.
  assert (∀ k, (k ≤ length es)%nat → (∀ e, es !! k = Some e → lo ≤ rgt e) →
    gstates_ok H w (mkGstate h l es ts k lo hi :: gs)) as Hok'.
  { intros k ??. split; [|done]. constructor; simpl; try done. by exists lt. }
  destruct (read_scan es lo 0) as [i|i].
  - destruct Hscan as (k & e & -> & He & ? & ? & Hlt). cbn [Nat.add]. wp_ret.
    pose proof (lookup_lt_Some _ _ _ He).
    destruct (lookup_lt_is_Some_2 ts k) as [c Hc]; [lia|].
    iApply ("HΦ" $! _ w (mkGstate h l es ts k lo hi :: gs) with "[%] HT"). split_and!.
    + done.
    + by left.
    + apply Hok'; [lia|]. intros e' He'. by simplify_eq.
    + simpl. rewrite (node_figs_at_pos _ _ _ k c) // He within_empty; [done|lia].
  - destruct Hscan as (k & -> & Hk & Hnext & Hlt). cbn [Nat.add].
    destruct (lookup_lt_is_Some_2 ts k) as [c Hc]; [lia|].
    assert (before_next es k = match es !! k with Some e => lft e - 1 | None => BYTE_INDEX_MAX end) as Hbn.
    { unfold before_next. destruct (es !! k) as [e|] eqn:He; [|done].
      pose proof (es_ok_ent _ _ Hes (list_elem_of_lookup_2 _ _ _ He)) as (?&?&?&?).
      specialize (Hnext e eq_refl).
      rewrite wrap_small //. unfold in_width, byte_index, lft, rgt, BYTE_INDEX_MIN, BYTE_INDEX_MAX in *. lia. }
    assert (lo ≤ before_next es k) as Hlb.
    { rewrite Hbn. destruct (es !! k) as [e|]; [specialize (Hnext e eq_refl); lia|apply Hlo]. }
    pose proof (after_prev_le es k lo (proj1 Hes) Hlt (proj1 Hlo)) as Hap.
    wp_bind. iApply (access_get with "HT"); [done..|]. iIntros (w1 p1 [Hw1 Hp1]) "HT".
    wp_bind. iApply wp_restrict; [lia|]. rewrite (Z.max_l lo); [|done].
    wp_bind. iApply wp_iter_push; [rewrite /= length_fmap; lia|].
    iApply (IH fuel w1 p1 c _ (mkGstate h l es ts k lo hi :: gs) with "HT"); [done| |lia|simpl; lia| | |lia|].
    + by eapply Forall_lookup_1.
    + eapply gstates_mono; [done|]. apply Hok'; [done|]. intros e He. specialize (Hnext e He).
      pose proof (es_ok_ent _ _ Hes (list_elem_of_lookup_2 _ _ _ He)) as (?&?&?&?). lia.
    + unfold_interval. lia.
    + iIntros (states w2 gs' (? & Hst & Hgs' & Hrem)) "HT". iApply ("HΦ" with "[%] HT").
      split_and!; [by etrans|done..|]. rewrite Hrem. simpl. rewrite assoc_L. f_equal.
      rewrite (node_figs_at_pos _ _ _ k c) //. f_equal. unfold within. rewrite Hbn.
      destruct (es !! k) as [e|].
      * by destruct (Z.leb_spec lo (Z.min hi (lft e - 1))); [|lia].
      * destruct (Z.leb_spec lo hi); [|lia]. rewrite Z.min_l; [done|apply Hhi].
Qed.

Lemma wp_ft_read_at w l h c lo hi Φ :
  node_at w l (S h) c → byte_index lo → byte_index hi → lo ≤ hi →
  own_tree w -∗
  (∀ w' gs, ⌜world_le w w' ∧ gstates_ok (S h) w' gs ∧ ready gs ∧ gs ≫= remaining = tree_figs (S h) c lo hi⌝ -∗
     own_tree w' -∗ Φ (mkFigiter (h + 2) (concrete <$> gs))) -∗
  wp (ft_read log (mkFigtree (Some l)) lo hi) Φ.
Proof.
  iIntros (Hn Hlo Hhi Hle) "HT HΦ". pose proof (node_at_wf _ _ _ _ Hn) as [_ Hwf].
  destruct c as [|lt es ts]; [done|]. rewrite /ft_read. cbn [ft_root].
  wp_bind. iApply wp_deref. wp_bind. iApply (access_load with "HT"); [done|]. iIntros (sps d) "HT".
  cbn [HEIGHT]. rewrite (_ : Z.to_nat (Z.of_nat h + 2) = (h + 2)%nat); [|lia].
  wp_bind. iApply wp_iter_push; [simpl; lia|]. wp_bind.
  iApply (wp_read_descend (S h) (h + 2) lo ltac:(lia) Hlo (S h) _ w (Some l) (TNode lt es ts) hi []
    with "HT"); [done|done|lia|simpl; lia|done..|].
  iIntros (states w' gs (Hw' & Hst & Hok & Hrem)) "HT". wp_bind. simpl in Hrem. rewrite app_nil_r in Hrem.
  iAssert (wp (next_backtrack (concrete <$> gs)) (λ states, wp (mret (mkFigiter (h + 2) states)) Φ))
    with "[HT HΦ]" as "Hwp".
  { iApply (wp_next_backtrack with "HT"); [done..|]. iIntros (gs' (?&?&Heq)) "HT". wp_ret.
    iApply ("HΦ" with "[%] HT"). split_and!; [done..|]. by rewrite Heq. }
  iApply wp_pure_step; [|iExact "Hwp"].
  intros σ. destruct Hst as [->|[v ->]]; apply read_backtrack_concrete.
Qed.

Lemma wp_fti_all H size : ∀ fuel w gs Φ,
  (H ≤ size)%nat → gstates_ok H w gs → ready gs → (length (gs ≫= remaining) < fuel)%nat →
  own_tree w -∗ (∀ w', ⌜world_le w w'⌝ -∗ own_tree w' -∗ Φ (gs ≫= remaining)) -∗
  wp (fti_all log fuel (mkFigiter size (concrete <$> gs))) Φ.
Proof.
  induction fuel as [|fuel IH]; iIntros (w gs Φ Hsize Hok Hready Hfuel) "HT HΦ"; [lia|].
  cbn [fti_all]. wp_bind. iApply (wp_fti_next with "HT"); [done..|].
  iIntros (next w1 gs' (Hw1 & Hok' & Hready' & Hrem & Hnone)) "HT". destruct next as [f|]; simpl.
  - wp_bind. iApply (IH with "HT"); [done..| |].
    { rewrite Hrem /= in Hfuel. lia. }
    iIntros (w2 Hw2) "HT". wp_ret. rewrite Hrem. iApply ("HΦ" with "[%] HT"). by etrans.
  - wp_ret. rewrite Hrem Hnone //. by iApply ("HΦ" with "[%] HT").
Qed.

End proof.

(** ** Subtrees *)

Inductive sub_at : nat → ftree → nat → ftree → Prop :=
  | sub_here h t : sub_at h t h t
  | sub_child h l es ts c h' t' :
      c ∈ ts → sub_at h c h' t' → sub_at (S h) (TNode l es ts) h' t'.

Lemma sub_at_child H T h l es ts c :
  sub_at H T (S h) (TNode l es ts) → c ∈ ts → sub_at H T h c.
Proof.
  intros Hs Hc. remember (S h) as h0 eqn:Hh. remember (TNode l es ts) as t0 eqn:Ht.
  induction Hs as [h1 t1|h1 l1 es1 ts1 c1 h' t' Hc1 Hs IH]; subst.
  - eapply sub_child; [done|constructor].
  - eapply sub_child; [done|]. by apply IH.
Qed.

Lemma sub_at_wf H T h t : sub_at H T h t → wf H T → wf h t.
Proof.
  induction 1 as [h t|h l es ts c h' t' Hc Hs IH]; [done|]. intros (_&_&_&Hwf).
  apply IH. by eapply Forall_forall.
Qed.

Lemma sub_at_height H T h t : sub_at H T h t → (h ≤ H)%nat.
Proof. induction 1; lia. Qed.

(** ** Trees in memory *)

Section in_memory.
Context `{HG : !heapG ft_node Σ} `{AL : !Allocator} (log : gdpfs_log).

Lemma is_tree_sub H T h t :
  sub_at H T h t → is_tree H T -∗ is_tree h t ∗ (is_tree h t -∗ is_tree H T).
Proof.
  iIntros (Hs) "HT". iInduction Hs as [h t|h l es ts c h' t' Hc Hs] "IH"; [by iFrame; iIntros|].
  iDestruct "HT" as (sps d) "(Hl & %Hslots & Hts)".
  apply list_elem_of_split in Hc as (ts1 & ts2 & ->).
  rewrite big_sepL_app big_sepL_cons. iDestruct "Hts" as "(H1 & Hc & H2)".
  iDestruct ("IH" with "Hc") as "[$ Hback]". iIntros "Ht". simpl. iExists sps, d. iFrame "Hl".
  iSplit; [done|]. rewrite big_sepL_app big_sepL_cons. iFrame. by iApply "Hback".
Qed.

(** The nodes are those of one tree; the world never changes. *)
Program Definition memory_access (H : nat) (T : ftree) (HT : wf H T) : TreeAccess log unit := {|
  own_tree _ := is_tree H T;
  world_le _ _ := True;
  node_at _ l h t := ptr t = Some l ∧ sub_at H T h t;
|}.
Next Obligation. intros H T HT [] [] l h t _ Hn. exact Hn. Qed.
Next Obligation.
  intros H T HT _ l h t [Hp Hs]. pose proof (sub_at_wf _ _ _ _ Hs HT) as Hw. split; [|done].
  destruct h; [|lia]. by destruct t.
Qed.
Next Obligation.
  iIntros (H T HT [] l h lt es ts Φ [[= ->] Hs]) "HT HΦ". iDestruct (is_tree_sub with "HT") as "[Ht Hback]"; [done|].
  iApply (wp_load_tree with "Ht"). iIntros (sps d _) "Ht". iApply "HΦ". by iApply "Hback".
Qed.
Next Obligation.
  iIntros (H T HT [] l h lt es ts i c Φ [[= ->] Hs] Hi) "HT HΦ".
  iDestruct (is_tree_sub with "HT") as "[Ht Hback]"; [done|].
  iApply (wp_subtree_get_tree with "Ht"); [done|]. iIntros "Ht". iApply ("HΦ" $! tt with "[%]"); [|by iApply "Hback"].
  split; [done|]. assert (sub_at H T h c) as Hc by (by eapply sub_at_child, list_elem_of_lookup_2).
  pose proof (sub_at_wf _ _ _ _ Hc HT) as Hw. destruct c; simpl; [by destruct h|done].
Qed.

End in_memory.
