(* ===== verification/FigReads.v ===== *)
(** * Reading a range of a FIG tree

    The contract of [ft_read] and [fti_next]: iterating over a range yields
    ordered, disjoint subranges that describe exactly the byte map of the tree
    on that range. *)
From S2P Require Import Prelude.
From S2P Require Import Interval.
From S2P Require Import Types.
From S2P Require Import Heap.
From S2P Require Import FigNode.
From S2P Require Import FigTree.
From S2P Require Import FigSpec.
From S2P Require Import FigNodeProof.
From S2P Require Import FigTheorems.
From S2P Require Import FigIter.
From S2P Require Import FigRanges.
From S2P Require Import FigIterProof.

#[local] Open Scope Z_scope.

(** Ranges are nonempty and disjoint, so there are at most as many as bytes. *)
Lemma figs_in_length fs : ∀ lo hi,
  figs_in lo hi fs → lo ≤ hi + 1 → Z.of_nat (length fs) ≤ hi - lo + 1.
Proof.
  induction fs as [|f fs IH]; simpl; intros lo hi; [lia|].
  intros (_&?&?&?&Hfs) Hle. specialize (IH _ _ Hfs). lia.
Qed.

Section session.
Context `{AL : !Allocator}.
Variable log : gdpfs_log.

(** Read the range [start .. end_] to the end. *)
Definition ft_read_all (fuel : nat) (this : figtree) (start end_ : Z) : node_prog (list fig) :=
  it ← ft_read log this start end_;
  fti_all log fuel it.

Definition ft_read_session (fuel : nat) (ws : list (Z * Z * Z)) (start end_ : Z)
    : node_prog (list fig) :=
  this ← ft_init;
  this ← ft_writes log this ws;
  ft_read_all fuel this start end_.

(** Over any access to a tree. *)
Lemma wp_ft_read_all_at `{HG : !heapG ft_node Σ} `{TA : !TreeAccess log W} w l h t lo hi fuel Φ :
  node_at w l (S h) t → byte_index lo → byte_index hi → lo ≤ hi → (Z.to_nat (hi - lo + 1) < fuel)%nat →
  own_tree w -∗
  (∀ w' fs, ⌜world_le w w' ∧ figs_in lo hi fs ∧ ∀ b, lo ≤ b ≤ hi → figs_at fs b = lookup_tree (S h) t b⌝ -∗
     own_tree w' -∗ Φ fs) -∗
  wp (ft_read_all fuel (mkFigtree (Some l)) lo hi) Φ.
Proof.
  iIntros (Hn Hlo Hhi Hle Hfuel) "HT HΦ". rewrite /ft_read_all. wp_bind.
  pose proof (node_at_wf _ _ _ _ Hn) as [_ Hwf].
  iApply (wp_ft_read_at with "HT"); [done..|]. iIntros (w1 gs (Hw1 & Hok & Hready & Hrem)) "HT".
  pose proof (tree_figs_in (S h) t lo hi Hwf Hle) as Hin.
  pose proof (figs_in_length _ _ _ Hin).
  iApply (wp_fti_all log (S h) with "HT"); [lia|done..| |].
  { rewrite Hrem. lia. }
  iIntros (w2 Hw2) "HT". rewrite Hrem. iApply ("HΦ" with "[%] HT"). split_and!; [by etrans|done|].
  intros b Hb. by apply tree_figs_at.
Qed.

Lemma wp_ft_read_all `{HG : !heapG ft_node Σ} h t lo hi fuel Φ :
  wf (S h) t → byte_index lo → byte_index hi → lo ≤ hi → (Z.to_nat (hi - lo + 1) < fuel)%nat →
  is_tree (S h) t -∗
  (∀ fs, ⌜figs_in lo hi fs ∧ ∀ b, lo ≤ b ≤ hi → figs_at fs b = lookup_tree (S h) t b⌝ -∗
     is_tree (S h) t -∗ Φ fs) -∗
  wp (ft_read_all fuel (mkFigtree (ptr t)) lo hi) Φ.
Proof.
  iIntros (Hwf Hlo Hhi Hle Hfuel) "HT HΦ". destruct t as [|l es ts]; [done|].
  pose (TA := memory_access log (S h) (TNode l es ts) Hwf).
  iApply (wp_ft_read_all_at (TA := TA) tt l h (TNode l es ts) with "HT"); [|done..|].
  { split; [done|constructor]. }
  iIntros ([] fs (_ & Hfs)) "HT". by iApply ("HΦ" with "[%] HT").
Qed.
End session.



(** The run of the witness, evaluated. *)
Example ft_read_example :
  match ft_read_session (λ _, None) 100 [(0, 99, 1); (20, 29, 2); (25, 40, 3)] 10 60 ∅ with
  | Ok (fs, _) => fs = [mkFig (mkInterval 10 19 true) 1; mkFig (mkInterval 20 24 true) 2;
                        mkFig (mkInterval 25 40 true) 3; mkFig (mkInterval 41 60 true) 1]
  | Fault _ => False
  end.
Proof. vm_compute. reflexivity. Qed.
