(* ===== verification/FigDirty.v ===== *)
(** * Checkpoints of a FIG tree ([get_dirty] in [src/figtree/utils.c])

    [get_dirty] collects images of the dirty nodes of a tree, children before
    parents, clears their dirty flags and remembers in every slot where the
    image of its subtree will be found. *)
From S2P Require Import Prelude.
From S2P Require Import Heap.
From S2P Require Import Interval.
From S2P Require Import Types.
From S2P Require Import FigNode.
From S2P Require Import FigTree.

#[local] Open Scope Z_scope.

Section operations.

(** The loop over the children: the slots [i], [i + 1], ... of [st]. *)
Fixpoint dirty_children (helper : subtree_ptr → list ft_node → node_prog (subtree_ptr * list ft_node))
    (st : loc) (n i : nat) (dirty : list ft_node) : node_prog (list ft_node) :=
  match n with
  | O => mret dirty
  | S n =>
      node ← load st;
      sp ← in_bounds (subtrees node !! i);
      '(sp, dirty) ← helper sp dirty;
      node ← load st;
      store st (with_subtrees node (<[i := sp]> (subtrees node)));;
      dirty_children helper st n (S i) dirty
  end.

(** The slots in the image of a node. *)
Fixpoint image_slots (l : list subtree_ptr) : node_prog (list subtree_ptr) :=
  match l with
  | [] => mret []
  | sp :: l =>
      sp' ←
        match sp_st sp with
        | Some _ => mret (mkSubtreePtr (sp_recno sp) (sp_offset sp) None false)
        | None => assert (sp_inmemory sp);; mret sp
        end;
      l' ← image_slots l;
      mret (sp' :: l')
  end.

(** [get_dirty_helper (&slot, recno, dirty, dirty_cap, dirty_len)]; the updated
    slot and buffer are returned.  The buffer grows as needed. *)
Fixpoint get_dirty_helper (fuel : nat) (recno : Z) (slot : subtree_ptr) (dirty : list ft_node)
    : node_prog (subtree_ptr * list ft_node) :=
  match fuel with
  | O => fail OutOfFuel
  | S fuel =>
    match sp_inmemory slot, sp_st slot with
    | true, Some st =>
        node ← load st;
        if negb (FigNode.dirty node) then mret (slot, dirty) else
        dirty ← dirty_children (get_dirty_helper fuel recno) st (length (subtrees node)) 0 dirty;
        node ← load st;
        let written := with_dirty node false in
        store st written;;
        let slot := mkSubtreePtr recno (sizeof_ft_node * Z.of_nat (length dirty)) (Some st) true in
        sps ← image_slots (subtrees written);
        mret (slot, dirty ++ [with_subtrees written sps])
    | _, _ => mret (slot, dirty)
    end
  end.

Definition get_dirty (ft : figtree) (chkpt_recno : Z) : node_prog (list ft_node) :=
  match ft_root ft with
  | None => mret []
  | Some root =>
  node ← load root;
  '(_, dirty) ← get_dirty_helper (Z.to_nat (HEIGHT node) + 2) chkpt_recno
                  (mkSubtreePtr 0 0 (Some root) true) [];
  mret dirty
  end.
End operations.
