(* ===== verification/FigAllDirty.v ===== *)
(** * Every node of a new FIG tree is dirty

    Nodes are created dirty, and no operation of a tree that is in memory clears
    the flag, so that the first checkpoint covers the whole tree.  The argument
    needs no shape: it is an invariant of the heap, proved with a small logic of
    partial correctness. *)
From S2P Require Import Prelude.
From S2P Require Import Heap.
From S2P Require Import Interval.
From S2P Require Import Types.
From S2P Require Import FigNode.
From S2P Require Import FigTree.
From S2P Require Import FigTheorems.
From S2P Require Import FigIter.
From S2P Require Import FigReads.

#[local] Open Scope Z_scope.

Definition all_dirty (σ : heap ft_node) : Prop := map_Forall (λ _ n, dirty n = true) (σ : gmap loc ft_node).

(** Run on dirty nodes, [c] leaves dirty nodes, and its results satisfy [Q]. *)
Definition keeps {A} (c : node_prog A) (Q : A → Prop) : Prop :=
  ∀ σ a σ', all_dirty σ → c σ = Ok (a, σ') → all_dirty σ' ∧ Q a.

Abbreviation any := (λ _, True).

(** A log without checkpoints. *)
Definition no_images (log : gdpfs_log) : Prop :=
  ∀ r ent, log r = Some ent → ∃ bs, le_payload ent = PData bs.

Create HintDb keeps discriminated.

Section rules.
Context {A B : Type}.
Implicit Types (Q : A → Prop).

Lemma keeps_ret (a : A) Q : Q a → keeps (mret a) Q.
Proof. by intros Ha σ ? ? Hσ [= <- <-]. Qed.

Lemma keeps_bind (c : node_prog B) (k : B → node_prog A) P Q :
  keeps c P → (∀ b, P b → keeps (k b) Q) → keeps (c ≫= k) Q.
Proof.
  intros Hc Hk σ a σ' Hσ. unfold mbind, prog_bind. destruct (c σ) as [[b σ1]|] eqn:E; [|done].
  destruct (Hc _ _ _ Hσ E) as [Hσ1 Hb]. by apply Hk.
Qed.

Lemma keeps_mono (c : node_prog A) P Q : keeps c P → (∀ a, P a → Q a) → keeps c Q.
Proof. intros Hc HPQ σ a σ' Hσ Hr. destruct (Hc _ _ _ Hσ Hr). auto. Qed.

Lemma keeps_fail f Q : keeps (fail f : node_prog A) Q.
Proof. by intros σ a σ' _. Qed.

Lemma keeps_in_bounds (o : option A) : keeps (in_bounds o) any.
Proof. destruct o; [by apply keeps_ret|apply keeps_fail]. Qed.

Lemma keeps_lift_res (r : res A) : keeps (lift_res r) any.
Proof. intros σ a σ' Hσ. unfold lift_res. by destruct r; intros [= <- <-]. Qed.
End rules.

Lemma keeps_assert b : keeps (assert b) any.
Proof. destruct b; [by apply keeps_ret|apply keeps_fail]. Qed.

Lemma keeps_deref p : keeps (deref p) any.
Proof. destruct p; [by apply keeps_ret|apply keeps_fail]. Qed.

Lemma keeps_load l : keeps (load l) (λ n, dirty n = true).
Proof.
  intros σ n σ' Hσ. unfold load. destruct (σ !! l) eqn:E; [|done]. intros [= <- <-].
  split; [done|]. by apply (Hσ l).
Qed.

Lemma keeps_store l n : dirty n = true → keeps (store l n) any.
Proof.
  intros Hn σ [] σ' Hσ. unfold store. destruct (σ !! l) eqn:E; [|done]. intros [= <-].
  split; [|done]. by apply map_Forall_insert_2.
Qed.

Lemma keeps_alloc `{!Allocator} n : dirty n = true → keeps (alloc n) any.
Proof. intros Hn σ l σ' Hσ [= <- <-]. split; [|done]. by apply map_Forall_insert_2. Qed.

Lemma keeps_free l : keeps (free l) any.
Proof.
  intros σ [] σ' Hσ. unfold free. destruct (σ !! l) eqn:E; [|done]. intros [= <-].
  split; [|done]. by apply map_Forall_delete.
Qed.

#[export] Hint Resolve keeps_ret keeps_fail keeps_in_bounds keeps_lift_res keeps_assert keeps_deref
  keeps_load keeps_store keeps_alloc keeps_free : keeps.
#[export] Hint Extern 1 (dirty _ = true) =>
  simpl; first [assumption | reflexivity | apply orb_true_intro; left; assumption] : keeps.
#[export] Hint Extern 1 True => exact I : keeps.

(** Steps through a program: binds, tests and matches, with the lemmas of the
    [keeps] database at the leaves. *)
Ltac keep :=
  intros; cbn [fst snd];
  lazymatch goal with
  | |- keeps (load _ ≫= _) _ => eapply keeps_bind; [apply keeps_load|keep]
  | |- keeps (_ ≫= _) _ => eapply (keeps_bind _ _ any); [keep|keep]
  | |- keeps (match ?x with _ => _ end) _ => destruct x eqn:?; keep
  | |- keeps (let _ := _ in _) _ => cbv zeta; keep
  | |- _ => eauto with keeps
  end.

Section operations.
Context `{!Allocator}.

Lemma keeps_for_subtrees f l : (∀ sp, keeps (f sp) any) → keeps (for_subtrees f l) any.
Proof. intros Hf. induction l as [|sp l IH]; simpl; keep. Qed.
Hint Resolve keeps_for_subtrees : keeps.

Lemma keeps_ftn_free_rec fuel this : keeps (ftn_free_rec fuel this) any.
Proof.
  revert this. induction fuel as [|fuel IH]; intros this; simpl; keep.
  apply keeps_for_subtrees. unfold subtree_free_with. keep.
Qed.

Lemma keeps_ftn_free this : keeps (ftn_free this) any.
Proof. unfold ftn_free. keep. apply keeps_ftn_free_rec. Qed.

Lemma keeps_subtree_free sp : keeps (subtree_free sp) any.
Proof. unfold subtree_free, subtree_free_with. keep. apply keeps_ftn_free. Qed.
Hint Resolve keeps_subtree_free : keeps.

Lemma keeps_ftn_clear_with new this b :
  (∀ h, keeps (new h) any) → keeps (ftn_clear_with new this b) any.
Proof. intros Hn. unfold ftn_clear_with. keep. Qed.

Lemma keeps_ftn_new_rec fuel h b : keeps (ftn_new_rec fuel h b) any.
Proof.
  revert h b. induction fuel as [|fuel IH]; intros h b; simpl; keep.
  by apply keeps_ftn_clear_with.
Qed.

Lemma keeps_ftn_new h b : keeps (ftn_new h b) any.
Proof. apply keeps_ftn_new_rec. Qed.
Hint Resolve keeps_ftn_new : keeps.

Lemma keeps_ftn_clear this b : keeps (ftn_clear this b) any.
Proof. apply keeps_ftn_clear_with. intros h. apply keeps_ftn_new. Qed.
Hint Resolve keeps_ftn_clear : keeps.

Lemma keeps_subtree_clear this i h : keeps (subtree_clear this i h) any.
Proof. unfold subtree_clear. keep. Qed.
Hint Resolve keeps_subtree_clear : keeps.

Lemma keeps_prune_boundary this i k v : keeps (prune_boundary this i k v) any.
Proof. unfold prune_boundary. keep. Qed.
Hint Resolve keeps_prune_boundary : keeps.

Lemma keeps_pruneTo this v : keeps (ftn_pruneTo this v) any.
Proof.
  unfold ftn_pruneTo, prune_left_edge, prune_right_edge, prune_deletes. keep.
Qed.
Hint Resolve keeps_pruneTo : keeps.

Lemma keeps_ftn_split this : keeps (ftn_split this) any.
Proof. unfold ftn_split. keep. Qed.
Hint Resolve keeps_ftn_split : keeps.

Lemma keeps_ftn_insert this e i l r : keeps (ftn_insert this e i l r) any.
Proof. unfold ftn_insert, _ftn_entries_add, _ftn_subtrees_add. keep. Qed.
Hint Resolve keeps_ftn_insert : keeps.

Lemma keeps_replaceEntries this i j iv v : keeps (ftn_replaceEntries this i j iv v) any.
Proof. unfold ftn_replaceEntries. keep. Qed.
Hint Resolve keeps_replaceEntries : keeps.

Context (log : gdpfs_log) (Hlog : no_images log).

Lemma keeps_subtree_get this i : keeps (subtree_get log this i) any.
Proof.
  unfold subtree_get. keep.
  all: match goal with E : log ?r = Some ?ent, E' : le_payload ?ent = PNodes _ |- _ =>
    destruct (Hlog _ _ E); congruence end.
Qed.
Hint Resolve keeps_subtree_get : keeps.

Lemma keeps_path_push n path p : keeps (path_push n path p) any.
Proof. unfold path_push. keep. Qed.
Hint Resolve keeps_path_push : keeps.

Lemma keeps_ins_replace n R v c V path i : keeps (ins_replace log n R v c V path i) any.
Proof. unfold ins_replace. keep. Qed.
Hint Resolve keeps_ins_replace : keeps.

Lemma keeps_ins_descend fuel n R v c V path : keeps (ins_descend log fuel n R v c V path) any.
Proof. revert c V path. induction fuel as [|fuel IH]; intros c V path; simpl; keep. Qed.
Hint Resolve keeps_ins_descend : keeps.

Lemma keeps_ins_push k b fsi path e l r top : keeps (ins_push log k b fsi path e l r top) any.
Proof.
  revert path e l r top. induction k as [|k IH]; intros path e l r top; simpl;
    unfold free_opt, fix_index, fix_split, path_decrement; keep.
Qed.
Hint Resolve keeps_ins_push : keeps.

Lemma keeps_ft_insert n this a path b : keeps (_ft_insert log n this a path b) any.
Proof. unfold _ft_insert, ins_newroot. keep. Qed.
Hint Resolve keeps_ft_insert : keeps.

Lemma keeps_ft_write this s e v : keeps (ft_write log this s e v) any.
Proof. unfold ft_write. keep. Qed.
Hint Resolve keeps_ft_write : keeps.

Lemma keeps_ft_writes this ws : keeps (ft_writes log this ws) any.
Proof. revert this. induction ws as [|[[s e] v] ws IH]; intros this; simpl; keep. Qed.

Lemma keeps_ft_init : keeps ft_init any.
Proof. unfold ft_init. keep. Qed.

(** *** Iterations *)

Lemma keeps_iter_push size rs states : keeps (iter_push size rs states) any.
Proof. unfold iter_push. keep. Qed.
Hint Resolve keeps_iter_push : keeps.

Lemma keeps_read_descend fuel size start states : keeps (read_descend log fuel size start states) any.
Proof. revert states. induction fuel as [|fuel IH]; intros states; simpl; keep. Qed.
Hint Resolve keeps_read_descend : keeps.

Lemma keeps_exhausted node pos valid : keeps (exhausted node pos valid) any.
Proof. unfold exhausted. keep. Qed.
Hint Resolve keeps_exhausted : keeps.

Lemma keeps_read_backtrack states : keeps (read_backtrack states) any.
Proof. induction states as [|rs below IH]; simpl; keep. Qed.
Hint Resolve keeps_read_backtrack : keeps.

Lemma keeps_ft_read this s e : keeps (ft_read log this s e) any.
Proof. unfold ft_read. keep. Qed.
Hint Resolve keeps_ft_read : keeps.

Lemma keeps_next_drill fuel size st l r v states : keeps (next_drill log fuel size st l r v states) any.
Proof. revert st l r v states. induction fuel as [|fuel IH]; intros st l r v states; simpl; keep. Qed.
Hint Resolve keeps_next_drill : keeps.

Lemma keeps_next_backtrack states : keeps (next_backtrack states) any.
Proof. induction states as [|rs below IH]; simpl; keep. Qed.
Hint Resolve keeps_next_backtrack : keeps.

Lemma keeps_fti_next it : keeps (fti_next log it) any.
Proof. unfold fti_next. keep. Qed.
Hint Resolve keeps_fti_next : keeps.

Lemma keeps_fti_all fuel it : keeps (fti_all log fuel it) any.
Proof. revert it. induction fuel as [|fuel IH]; intros it; simpl; keep. Qed.
Hint Resolve keeps_fti_all : keeps.

Lemma keeps_ft_read_all fuel this lo hi : keeps (ft_read_all log fuel this lo hi) any.
Proof. unfold ft_read_all. keep. Qed.
End operations.
