(* ===== verification/FigDirtyProof.v ===== *)
(** * Correctness of checkpoints

    [get_dirty] leaves the tree in memory as it is and, when every node is dirty,
    its images hold the whole tree: [stored] follows the record numbers and
    offsets in the slots.  Lookups in a tree that was loaded from the images
    agree with lookups in the tree. *)
From S2P Require Import Prelude.
From S2P Require Import Heap.
From S2P Require Import Interval.
From S2P Require Import Types.
From S2P Require Import FigNode.
From S2P Require Import FigTree.
From S2P Require Import FigSpec.
From S2P Require Import FigNodeProof.
From S2P Require Import FigTheorems.
From S2P Require Import FigIter.
From S2P Require Import FigRanges.
From S2P Require Import FigIterProof.
From S2P Require Import FigReads.
From S2P Require Import FigDirty.
From S2P Require Import FigAllDirty.

#[local] Open Scope Z_scope.

(** What [image_slots] makes of a slot. *)
Definition image_slot (sp : subtree_ptr) : subtree_ptr :=
  match sp_st sp with
  | Some _ => mkSubtreePtr (sp_recno sp) (sp_offset sp) None false
  | None => sp
  end.

(** The slot [sp] of an image leads to the tree [t] in the images of record
    [recno]. *)
Fixpoint stored (recno : Z) (images : list ft_node) (h : nat) (t : ftree) (sp : subtree_ptr) : Prop :=
  match h, t with
  | O, TNull => sp_inmemory sp = true ∧ sp_st sp = None
  | S h, TNode _ es ts =>
      sp_inmemory sp = false ∧ sp_recno sp = recno ∧
      ∃ k sps, sp_offset sp = sizeof_ft_node * Z.of_nat k ∧
        images !! k = Some (mkNode es sps (Z.of_nat h) false) ∧
        Forall2 (stored recno images h) ts sps
  | _, _ => False
  end.

Lemma stored_mono recno images more h t sp :
  stored recno images h t sp → stored recno (images ++ more) h t sp.
Proof.
  revert t sp. induction h as [|h IH]; intros [|l es ts] sp; simpl; try done.
  intros (? & ? & k & sps & ? & Hk & Hs). split_and!; [done..|].
  exists k, sps. split_and!; [done|by apply lookup_app_l_Some|].
  eapply Forall2_impl; [exact Hs|]. auto.
Qed.

Section proof.
Context `{HG : !heapG ft_node Σ} `{AL : !Allocator}.

(** [is_tree], with nodes that are dirty if [all] holds. *)
Fixpoint is_tree_if (all : Prop) (h : nat) (t : ftree) : iProp Σ :=
  match h, t with
  | O, TNull => True
  | S h, TNode l es ts => ∃ sps d,
      l ↦ mkNode es sps (Z.of_nat h) d ∗ ⌜Forall2 slot_ok sps ts ∧ (all → d = true)⌝ ∗
      [∗ list] c ∈ ts, is_tree_if all h c
  | _, _ => False
  end.

Lemma is_tree_any h t : is_tree h t ⊢ is_tree_if False h t.
Proof.
  revert t. induction h as [|h IH]; intros [|l es ts]; simpl; try done.
  iIntros "(%sps & %d & Hl & %Hs & Hts)". iExists sps, d. iFrame "Hl". iSplit; [done|].
  iApply (big_sepL_mono with "Hts"). intros k c _. apply IH.
Qed.

Lemma is_tree_if_tree all h t : is_tree_if all h t ⊢ is_tree h t.
Proof.
  revert t. induction h as [|h IH]; intros [|l es ts]; simpl; try done.
  iIntros "(%sps & %d & Hl & [%Hs _] & Hts)". iExists sps, d. iFrame "Hl". iSplit; [done|].
  iApply (big_sepL_mono with "Hts"). intros k c _. apply IH.
Qed.

(** Ownership of a tree in a heap of dirty nodes. *)
Lemma is_tree_dirty σ h t :
  all_dirty σ → ghost_map_auth heapG_name 1 σ -∗ is_tree h t -∗
  ghost_map_auth heapG_name 1 σ ∗ is_tree_if True h t.
Proof.
  intros Hσ. revert t. induction h as [|h IH]; intros [|l es ts]; simpl; try (by iIntros "$").
  iIntros "Hσ (%sps & %d & Hl & %Hs & Hts)".
  iDestruct (ghost_map_lookup with "Hσ Hl") as %Hl. specialize (Hσ _ _ Hl). simpl in Hσ.
  iAssert (ghost_map_auth heapG_name 1 σ ∗ [∗ list] c ∈ ts, is_tree_if True h c)%I
    with "[Hσ Hts]" as "[$ Hts]".
  { clear Hs. iInduction ts as [|c ts] "IH"; simpl; [by iFrame|]. iDestruct "Hts" as "[Hc Hts]".
    iDestruct (IH with "Hσ Hc") as "[Hσ $]". iApply ("IH" with "Hσ Hts"). }
  iExists sps, d. by iFrame.
Qed.

(** ** The images *)

Lemma wp_image_slots sps ts Φ :
  Forall2 slot_ok sps ts → Φ (image_slot <$> sps) ⊢ wp (image_slots sps) Φ.
Proof.
  iIntros (Hs) "HΦ". iInduction Hs as [|sp t sps ts [Hm Hp]] "IH" forall (Φ); simpl; [by wp_ret|].
  iAssert (∀ sp', Φ (sp' :: (image_slot <$> sps)) -∗
    wp (image_slots sps ≫= λ l', mret (sp' :: l')) Φ)%I with "[]" as "Hrest".
  { iIntros (sp') "HΦ". wp_bind. iApply "IH". by wp_ret. }
  wp_bind. rewrite /image_slot. destruct (sp_st sp) eqn:E.
  - wp_ret. by iApply "Hrest".
  - wp_bind. iApply wp_assert; [done|]. wp_ret. by iApply "Hrest".
Qed.

(** The slot of a node leads to the last image. *)
Definition at_last (t : ftree) (sp : subtree_ptr) (images : list ft_node) : Prop :=
  ptr t ≠ None → ∃ first image, images = first ++ [image] ∧
    sp_offset sp = sizeof_ft_node * Z.of_nat (length first).

(** [get_dirty_helper] on a tree of height [h]. *)
Definition helper_spec (all : Prop) (recno : Z) (h : nat)
    (helper : subtree_ptr → list ft_node → node_prog (subtree_ptr * list ft_node)) : Prop :=
  ∀ t sp images Φ, slot_ok sp t →
  is_tree_if all h t -∗
  (∀ sp' more, ⌜slot_ok sp' t ∧ (all → stored recno (images ++ more) h t (image_slot sp') ∧
       at_last t sp' (images ++ more))⌝ -∗
     is_tree h t -∗ Φ (sp', images ++ more)) -∗
  wp (helper sp images) Φ.

Lemma wp_dirty_children all recno h helper l es H d ts : ∀ spsL sps images Φ,
  helper_spec all recno h helper → Forall2 slot_ok sps ts →
  l ↦ mkNode es (spsL ++ sps) H d -∗ ([∗ list] c ∈ ts, is_tree_if all h c) -∗
  (∀ sps' more, ⌜Forall2 slot_ok sps' ts ∧
       (all → Forall2 (λ t sp, stored recno (images ++ more) h t (image_slot sp)) ts sps')⌝ -∗
     l ↦ mkNode es (spsL ++ sps') H d -∗ ([∗ list] c ∈ ts, is_tree h c) -∗ Φ (images ++ more)) -∗
  wp (dirty_children helper l (length sps) (length spsL) images) Φ.
Proof.
  induction ts as [|t ts IH]; intros spsL sps images Φ Hh Hs.
  { apply Forall2_nil_inv_r in Hs as ->. simpl. iIntros "Hl _ HΦ". wp_ret.
    iSpecialize ("HΦ" $! [] [] with "[]"); [iPureIntro; by split; [|intros _]|].
    rewrite !app_nil_r. by iApply ("HΦ" with "Hl"). }
  apply Forall2_cons_inv_r in Hs as (sp & sps' & Hsp & Hs & ->). rename sps' into sps.
  cbn [length dirty_children big_opL]. iIntros "Hl [Ht Hts] HΦ". wp_bind. wp_load "Hl". simpl subtrees.
  wp_bind. iApply wp_in_bounds; [by apply list_lookup_middle|]. wp_bind.
  iApply (Hh with "Ht"); [done|]. iIntros (sp' more [Hsp' Hst]) "Ht".
  wp_bind. wp_load "Hl". wp_bind. wp_store "Hl". rewrite /with_subtrees. cbn [entries subtrees HEIGHT dirty].
  rewrite insert_app_r_alt // Nat.sub_diag. cbn [list_insert].
  rewrite (_ : spsL ++ sp' :: sps = (spsL ++ [sp']) ++ sps); [|by rewrite -app_assoc].
  rewrite (_ : S (length spsL) = length (spsL ++ [sp'])); [|rewrite length_app /=; lia].
  iApply (IH with "Hl Hts"); [done..|]. iIntros (sps2 more2 [Hs2 Hst2]) "Hl Hts".
  rewrite -!app_assoc. iApply ("HΦ" $! (sp' :: sps2) (more ++ more2) with "[%] Hl"); [|by iFrame].
  split; [by constructor|]. intros Hall. constructor.
  - rewrite app_assoc. apply stored_mono. by apply Hst.
  - specialize (Hst2 Hall). rewrite -app_assoc in Hst2. exact Hst2.
Qed.

Lemma wp_get_dirty_helper all recno h : ∀ fuel, (h < fuel)%nat →
  helper_spec all recno h (get_dirty_helper fuel recno).
Proof.
  induction h as [|h IH]; intros [|fuel] Hfuel; try lia; intros t sp images Φ [Hm Hp]; iIntros "Ht HΦ".
  - destruct t; [|done]. cbn [get_dirty_helper]. rewrite Hm Hp. cbn [ptr]. wp_ret.
    iSpecialize ("HΦ" $! sp [] with "[] Ht"); [|by rewrite app_nil_r].
    iPureIntro. split; [done|]. intros _. rewrite /image_slot Hp. split; [done|]. by intros [].
  - destruct t as [|l es ts]; [done|]. cbn [get_dirty_helper is_tree_if]. rewrite Hm Hp. cbn [ptr].
    iDestruct "Ht" as (sps d) "(Hl & [%Hs %Hd] & Hts)". wp_bind. wp_load "Hl".
    destruct d; cbn [negb dirty].
    + wp_bind. iApply (wp_dirty_children all recno h _ l es _ true ts [] sps with "Hl Hts");
        [by apply IH; lia|done|].
      iIntros (sps' more [Hs' Hst]) "Hl Hts". wp_bind. wp_load "Hl". wp_bind. wp_store "Hl".
      wp_bind. simpl subtrees. iApply wp_image_slots; [done|]. wp_ret. rewrite -app_assoc.
      iApply ("HΦ" with "[%] [Hl Hts]"); [|simpl; iExists sps', false; by iFrame].
      split; [done|]. intros Hall. specialize (Hst Hall).
      split; [|intros _; eexists _, _; rewrite app_assoc; by split]. simpl. split_and!; [done..|].
      exists (length (images ++ more)), (image_slot <$> sps'). split; [done|].
      rewrite app_assoc. split; [by apply list_lookup_middle|].
      apply Forall2_fmap_r. eapply Forall2_impl; [exact Hst|]. intros t' sp' ?. by apply stored_mono.
    + wp_ret. iSpecialize ("HΦ" $! sp [] with "[] [Hl Hts]"); [| |by rewrite app_nil_r].
      * iPureIntro. split; [done|]. intros Hall. by specialize (Hd Hall).
      * iApply (is_tree_if_tree all). simpl. iExists sps, false. by iFrame.
Qed.

Lemma wp_get_dirty all recno h t Φ :
  ptr t ≠ None →
  is_tree_if all (S h) t -∗
  (∀ images, ⌜all → ∃ sp, stored recno images (S h) t sp ∧ at_last t sp images⌝ -∗
     is_tree (S h) t -∗ Φ images) -∗
  wp (get_dirty (mkFigtree (ptr t)) recno) Φ.
Proof.
  iIntros (Ht) "Ht HΦ". destruct t as [|l es ts]; [done|]. rewrite /get_dirty. cbn [ft_root ptr].
  iDestruct "Ht" as (sps d) "(Hl & Hp & Hts)". wp_bind. wp_load "Hl". cbn [HEIGHT]. rewrite Nat2Z.id. wp_bind.
  iApply (wp_get_dirty_helper all recno (S h) (h + 2) ltac:(lia) (TNode l es ts) with "[Hl Hp Hts]"); [done| |].
  { simpl. iExists sps, d. iFrame. }
  iIntros (sp more [Hsp Hst]) "Ht". wp_ret. iApply ("HΦ" with "[%] Ht").
  intros Hall. destruct (Hst Hall) as [Hs Hlast]. exists (image_slot sp). split; [done|].
  intros Hn. destruct (Hlast Hn) as (first & image & -> & Ho). exists first, image. split; [done|].
  rewrite /image_slot. by destruct (sp_st sp).
Qed.

(** ** Lookups in a loaded tree *)

(** A node of the tree [t] as it was loaded; its subtrees are in the images. *)
Definition loaded (recno : Z) (images : list ft_node) (h : nat) (t : ftree) (node : ft_node) : Prop :=
  match h, t with
  | S h, TNode _ es ts =>
      entries node = es ∧ HEIGHT node = Z.of_nat h ∧ Forall2 (stored recno images h) ts (subtrees node)
  | _, _ => False
  end.

Section loaded.
Context (log : gdpfs_log) (recno : Z) (images : list ft_node) (ent : logent).
Hypothesis Hlog : log recno = Some ent.
Hypothesis Hpayload : le_payload ent = PNodes images.
Hypothesis Hsize : fm_ent_size (le_meta ent) = sizeof_ft_node * Z.of_nat (length images).
Hypothesis Htype : fm_logent_type (le_meta ent) = GDPFS_LOGENT_TYPE_CHKPT.

Lemma stored_loaded h t sp :
  stored recno images (S h) t sp → ∃ k node, sp_inmemory sp = false ∧ sp_recno sp = recno ∧
    sp_offset sp = sizeof_ft_node * Z.of_nat k ∧ images !! k = Some node ∧ loaded recno images (S h) t node.
Proof.
  destruct t as [|l es ts]; [done|]. intros (? & ? & k & sps & ? & Hk & Hs). by eexists k, _.
Qed.

(** Following a slot: a null pointer, or a fresh copy of the image. *)
Lemma wp_subtree_get_stored h t ts es lt l node i Φ :
  loaded recno images (S h) (TNode lt es ts) node → ts !! i = Some t →
  l ↦ node -∗
  (∀ node', ⌜loaded recno images (S h) (TNode lt es ts) node'⌝ -∗ l ↦ node' -∗
     match h with
     | O => Φ None
     | S h => ∀ l' child, ⌜loaded recno images (S h) t child⌝ -∗ l' ↦ child -∗ Φ (Some l')
     end) -∗
  wp (subtree_get log l i) Φ.
Proof.
  iIntros (Hn Hi) "Hl HΦ". destruct Hn as (Hes & Hh & Hts).
  destruct (Forall2_lookup_l _ _ _ _ _ Hts Hi) as (sp & Hsp & Hst).
  rewrite /subtree_get. wp_bind. wp_load "Hl". wp_bind. iApply wp_in_bounds; [done|].
  destruct h as [|h].
  { destruct t; [|done]. destruct Hst as [-> ->]. wp_ret. by iApply ("HΦ" with "[%] Hl"). }
  destruct (stored_loaded _ _ _ Hst) as (k & child & Hm & Hr & Ho & Hk & Hc).
  rewrite Hm Hr Hlog Hpayload. cbn [payload_size]. rewrite Hsize Z.eqb_refl. cbn [negb].
  wp_bind. iApply wp_assert; [by rewrite Htype|].
  rewrite Ho Z.mul_comm Z_mod_mult Z.eqb_refl Z_div_mult // Nat2Z.id.
  wp_bind. iApply wp_in_bounds; [done|]. wp_bind. wp_alloc l' as "Hl'". wp_bind. wp_store "Hl". wp_ret.
  iApply ("HΦ" with "[%] Hl [%] Hl'"); [|done]. split_and!; [done..|].
  cbn [with_subtrees subtrees]. rewrite -(list_insert_id ts i t) //.
  apply Forall2_insert; [done|]. destruct t as [|lc est tst]; [done|].
  destruct Hst as (_ & _ & k' & sps & Ho' & Hk' & Hs'). simpl. split_and!; [done..|].
  exists k', sps. split_and!; [by rewrite Z.mul_comm -Ho|done|done].
Qed.

Lemma wp_lookup_loaded b h : ∀ t l node fuel Φ,
  wf (S h) t → (S h < fuel)%nat → loaded recno images (S h) t node →
  l ↦ node -∗ (∀ node', ⌜loaded recno images (S h) t node'⌝ -∗ l ↦ node' -∗ Φ (lookup_tree (S h) t b)) -∗
  wp (ft_lookup_rec log fuel (Some l) b) Φ.
Proof.
  induction h as [|h IH]; intros [|lt es ts] l node [|fuel] Φ Hwf Hfuel Hn; try done; try lia.
  all: destruct Hwf as (_ & _ & Hlen & Hwf); iIntros "Hl HΦ"; cbn [ft_lookup_rec]; wp_bind; wp_load "Hl".
  all: rewrite (proj1 Hn); cbn [lookup_tree].
  all: match goal with |- context [look ?F _ _ _] =>
    pose proof (lookup_entries_spec F es ts b 0 Hlen) as Hlook end.
  all: destruct (lookup_entries es b 0) as [v|j]; [wp_ret; rewrite Hlook; by iApply ("HΦ" with "[%] Hl")|].
  all: destruct Hlook as (k & c & -> & Hc & Hlook); cbn [Nat.add]; rewrite Hlook; wp_bind.
  all: iApply (wp_subtree_get_stored _ _ _ _ _ _ _ _ _ Hn Hc with "Hl"); iIntros (node' Hn') "Hl".
  - destruct fuel as [|fuel]; [lia|]. cbn [ft_lookup_rec]. wp_ret. by iApply ("HΦ" with "[%] Hl").
  - iIntros (l' child Hchild) "Hl'". iApply (IH with "Hl'"); [by eapply Forall_lookup_1|lia|done|].
    iIntros (child' _) "_". by iApply ("HΦ" with "[%] Hl").
Qed.

(** Any number of lookups. *)
Lemma wp_lookups_loaded bs h t l Φ : ∀ node,
  wf (S h) t → loaded recno images (S h) t node →
  l ↦ node -∗ Φ (lookup_tree (S h) t <$> bs) -∗
  wp (mapM (ft_lookup log (ft_init_with_root l)) bs) Φ.
Proof.
  revert Φ. induction bs as [|b bs IH]; intros Φ node Hwf Hn; iIntros "Hl HΦ"; simpl; [by wp_ret|].
  wp_bind. rewrite /ft_lookup. cbn [ft_root ft_init_with_root]. wp_bind. wp_load "Hl".
  assert (HEIGHT node = Z.of_nat h) as Hh by (destruct t; [done|apply Hn]). rewrite Hh Nat2Z.id.
  iApply (wp_lookup_loaded with "Hl"); [done|lia|done|]. iIntros (node' Hn') "Hl".
  wp_bind. iApply (IH with "Hl"); [done..|]. by wp_ret.
Qed.

(** ** Iterations over a loaded tree *)

(** The nodes that were loaded so far. *)
Definition loaded_nodes (M : gmap loc (nat * ftree)) : iProp Σ :=
  ∃ N : gmap loc ft_node,
    ⌜∀ l h t, M !! l = Some (h, t) → ∃ n, N !! l = Some n ∧ loaded recno images h t n⌝ ∗
    [∗ map] l ↦ n ∈ N, l ↦ n.

Lemma loaded_load (M : gmap loc (nat * ftree)) l h lt es ts Φ :
  M !! l = Some (S h, TNode lt es ts) →
  loaded_nodes M -∗ (∀ sps d, loaded_nodes M -∗ Φ (mkNode es sps (Z.of_nat h) d)) -∗ wp (load l) Φ.
Proof.
  iIntros (HM) "(%N & %HN & HN) HΦ". destruct (HN _ _ _ HM) as ([es' sps h' d] & Hn & He & Hh & _). simpl in *.
  subst es' h'. iDestruct (big_sepM_lookup_acc _ _ _ _ Hn with "HN") as "[Hl Hback]".
  iApply (wp_load with "Hl"). iIntros "Hl". iApply "HΦ". iExists N. iSplit; [done|]. by iApply "Hback".
Qed.

(** Nodes that changed, or were added, without a change of what they stand for. *)
Lemma loaded_update (M : gmap loc (nat * ftree)) (N : gmap loc ft_node) l h t node :
  (∀ l h t, M !! l = Some (h, t) → ∃ n, N !! l = Some n ∧ loaded recno images h t n) →
  M !! l = Some (h, t) → loaded recno images h t node →
  ∀ l' h' t', M !! l' = Some (h', t') → ∃ n, <[l := node]> N !! l' = Some n ∧ loaded recno images h' t' n.
Proof using Type.
  intros HN Hl Hn l' h' t' Hl'. destruct (decide (l = l')) as [<-|Hne].
  - rewrite Hl in Hl'. injection Hl' as <- <-. exists node. by rewrite lookup_insert_eq.
  - rewrite lookup_insert_ne //. by apply HN.
Qed.

Lemma loaded_get (M : gmap loc (nat * ftree)) l h lt es ts i c Φ :
  M !! l = Some (S h, TNode lt es ts) → ts !! i = Some c →
  loaded_nodes M -∗
  (∀ M' p, ⌜M ⊆ M' ∧ match p with Some l' => M' !! l' = Some (h, c) ∧ (0 < h)%nat | None => h = 0%nat end⌝ -∗
     loaded_nodes M' -∗ Φ p) -∗
  wp (subtree_get log l i) Φ.
Proof using Hlog Hpayload Hsize Htype.
  iIntros (HM Hi) "(%N & %HN & HN) HΦ". destruct (HN _ _ _ HM) as (n & Hn & Hld).
  iDestruct (big_sepM_insert_acc _ _ _ _ Hn with "HN") as "[Hl Hback]".
  iApply (wp_subtree_get_stored _ _ _ _ _ _ _ _ _ Hld Hi with "Hl"). iIntros (node' Hld') "Hl".
  iDestruct ("Hback" $! node' with "Hl") as "HN". pose proof (loaded_update M N l _ _ node' HN HM Hld') as HN'.
  destruct h as [|h].
  { iApply ("HΦ" $! M None with "[%]"); [done|]. iExists _. by iFrame "HN". }
  iIntros (l' child Hchild) "Hl'". set (N' := <[l := node']> N) in *.
  destruct (N' !! l') as [n'|] eqn:Hl'.
  { iDestruct (big_sepM_lookup_acc _ _ _ _ Hl' with "HN") as "[Hl2 _]".
    by iDestruct (points_to_ne with "Hl' Hl2") as %?. }
  assert (M !! l' = None) as HMl'.
  { apply eq_None_not_Some. intros [[h' t'] Hx]. destruct (HN' _ _ _ Hx) as (? & ? & _). congruence. }
  iApply ("HΦ" $! (<[l' := (S h, c)]> M) (Some l') with "[%]").
  { split; [by apply insert_subseteq|]. rewrite lookup_insert_eq. split; [done|lia]. }
  iExists (<[l' := child]> N'). rewrite big_sepM_insert //. iFrame. iPureIntro.
  intros l2 h2 t2 Hl2. destruct (decide (l' = l2)) as [<-|Hne].
  - rewrite lookup_insert_eq in Hl2. injection Hl2 as <- <-. exists child. by rewrite lookup_insert_eq.
  - rewrite lookup_insert_ne // in Hl2. rewrite lookup_insert_ne //. by apply HN'.
Qed.

Program Definition loaded_access : TreeAccess log (gmap loc (nat * ftree)) := {|
  own_tree := loaded_nodes;
  world_le := (⊆);
  node_at M l h t := M !! l = Some (h, t) ∧ (0 < h)%nat ∧ wf h t;
|}.
Next Obligation. intros M M' l h t HM [Hl Hw]. split; [by eapply lookup_weaken|done]. Qed.
Next Obligation. by intros M l h t [_ Hw]. Qed.
Next Obligation. intros M l h lt es ts Φ [Hl _]. by eapply loaded_load. Qed.
Next Obligation.
  iIntros (M l h lt es ts i c Φ [Hl [_ Hw]] Hi) "HM HΦ". iApply (loaded_get with "HM"); [done..|].
  iIntros (M' p [HM' Hp]) "HM". iApply ("HΦ" with "[%] HM"). split; [done|].
  destruct p as [l'|]; [|done]. destruct Hp as [? ?]. split_and!; [done..|].
  destruct Hw as (_ & _ & _ & Hw). by eapply Forall_lookup_1.
Qed.

Lemma wp_read_loaded h t l node lo hi fuel Φ :
  wf (S h) t → loaded recno images (S h) t node →
  byte_index lo → byte_index hi → lo ≤ hi → (Z.to_nat (hi - lo + 1) < fuel)%nat →
  l ↦ node -∗
  (∀ fs, ⌜figs_in lo hi fs ∧ ∀ b, lo ≤ b ≤ hi → figs_at fs b = lookup_tree (S h) t b⌝ -∗
     (∃ node', ⌜loaded recno images (S h) t node'⌝ ∗ l ↦ node') -∗ Φ fs) -∗
  wp (ft_read_all log fuel (ft_init_with_root l) lo hi) Φ.
Proof using Hlog Hpayload Hsize Htype.
  iIntros (Hwf Hn Hlo Hhi Hle Hfuel) "Hl HΦ".
  iApply (wp_ft_read_all_at (TA := loaded_access) log {[ l := (S h, t) ]} l h t with "[Hl]"); [|done..| |].
  { split_and!; [by rewrite lookup_singleton_eq|lia|done]. }
  { iExists {[ l := node ]}. rewrite big_sepM_singleton. iFrame. iPureIntro.
    intros l' h' t' [<- [= <- <-]]%lookup_singleton_Some. exists node. by rewrite lookup_singleton_eq. }
  iIntros (M fs (HM & Hfs)) "(%N & %HN & HN)". iApply ("HΦ" with "[%]"); [done|].
  destruct (HN l (S h) t) as (node' & Hl & Hld).
  { eapply lookup_weaken; [|exact HM]. by rewrite lookup_singleton_eq. }
  iExists node'. iSplit; [done|]. by iDestruct (big_sepM_lookup_acc _ _ _ _ Hl with "HN") as "[$ _]".
Qed.
End loaded.
End proof.
