(* ===== verification/FigChkpt.v ===== *)
(** * Sessions with checkpoints

    A session writes to a FIG tree, takes checkpoints with [get_dirty], and goes
    on, in the same process or in one that loads the root from the checkpoint.
    Checkpoints do not disturb the tree in memory, and the tree that was
    checkpointed can be read from the images; what is written afterwards is lost
    in two ways. *)
From S2P Require Import Prelude.
From S2P Require Import Heap.
From S2P Require Import Interval.
From S2P Require Import Types.
From S2P Require Import FigNode.
From S2P Require Import FigTree.
From S2P Require Import FigSpec.
From S2P Require Import FigNodeProof.
From S2P Require Import FigWrite.
From S2P Require Import FigTheorems.
From S2P Require Import FigIter.
From S2P Require Import FigRanges.
From S2P Require Import FigReads.
From S2P Require Import FigDirty.
From S2P Require Import FigAllDirty.
From S2P Require Import FigDirtyProof.

#[local] Open Scope Z_scope.

(** A log with one checkpoint. *)
Definition chkpt_log (recno : Z) (images : list ft_node) : gdpfs_log := λ r,
  if r =? recno then
    Some (mkLogent
      (mkFmeta 0 0 GDPFS_FILE_TYPE_REGULAR GDPFS_LOGENT_TYPE_CHKPT (-1)
         (sizeof_ft_node * Z.of_nat (length images)) MAGIC_NUMBER) (PNodes images))
  else None.

Definition no_log : gdpfs_log := λ _, None.

Section sessions.
Context `{!Allocator}.

(** Writes [ws], a checkpoint in record [recno], the write [w], and a second
    checkpoint; then the byte [b] is looked up in memory. *)
Definition chkpt_write_chkpt (ws : list (Z * Z * Z)) (recno : Z) (w : Z * Z * Z) (b : Z)
    : node_prog (list ft_node * list ft_node * option Z) :=
  this ← ft_init;
  this ← ft_writes no_log this ws;
  first_images ← get_dirty this recno;
  this ← ft_write no_log this w.1.1 w.1.2 w.2;
  second_images ← get_dirty this (recno + 2);
  v ← ft_lookup no_log this b;
  mret (first_images, second_images, v).

(** The images of a checkpoint of the tree with the writes [ws]. *)
Definition chkpt_images (ws : list (Z * Z * Z)) (recno : Z) : node_prog (list ft_node) :=
  this ← ft_init;
  this ← ft_writes no_log this ws;
  get_dirty this recno.

(** The tree is loaded from the images, the way [open_file] does; the writes
    [ws] follow, and the bytes [bs] are looked up. *)
Definition reload (images : list ft_node) (recno : Z) (ws : list (Z * Z * Z)) (bs : list Z)
    : node_prog (list (option Z)) :=
  match last images with
  | None => fail NullDeref
  | Some image =>
      root ← alloc image;
      this ← ft_writes (chkpt_log recno images) (ft_init_with_root root) ws;
      mapM (ft_lookup (chkpt_log recno images) this) bs
  end.

(** The ranges of the tree between [lo] and [hi], read with an iterator after the
    tree was loaded. *)
Definition reload_ranges (images : list ft_node) (recno : Z) (fuel : nat) (lo hi : Z)
    : node_prog (list fig) :=
  match last images with
  | None => fail NullDeref
  | Some image =>
      root ← alloc image;
      ft_read_all (chkpt_log recno images) fuel (ft_init_with_root root) lo hi
  end.
End sessions.

(** The value of a program on an empty heap. *)
Definition value {V A} (p : Heap.prog V A) : res A :=
  match p ∅ with Ok (a, _) => Ok a | Fault f => Fault f end.

(** ** The checkpoint of a new tree *)

Section roundtrip.
Context `{!Allocator}.

(** [images] is a checkpoint of a tree that denotes the byte map [m]. *)
Definition checkpoint_of (recno : Z) (images : list ft_node) (m : byte_map) : Prop :=
  ∃ h t sp, wf (S h) t ∧ stored recno images (S h) t sp ∧ at_last t sp images ∧
    ∀ b, byte_index b → lookup_tree (S h) t b = m b.

Lemma chkpt_images_ok ws recno :
  Forall write_ok ws → ∃ images, value (chkpt_images ws recno) = Ok images ∧
    checkpoint_of recno images (bm_writes ws bm_empty).
Proof.
  intros Hws. unfold value, chkpt_images. rewrite prog_bind_assoc.
  destruct (wp_adequacy_inv all_dirty (ft_init ≫= λ this, ft_writes no_log this ws)
    (λ this, get_dirty this recno) ∅ (λ images, checkpoint_of recno images (bm_writes ws bm_empty)))
    as (images & σ & -> & Hc).
  - by intros l n.
  - intros σ1 a σ2 Hσ Hrun. eapply (keeps_bind _ _ any any); [apply keeps_ft_init| |done|exact Hrun].
    intros this _. by apply keeps_ft_writes.
  - iIntros (Σ HG) "_". wp_bind. iApply wp_ft_init.
    iIntros (t (Hwf & Hl)) "Ht". iApply (wp_ft_writes with "Ht"); [done..|].
    iIntros (h t' (Hwf' & Hl')) "Ht %σ' %Hσ Hσ". iDestruct (is_tree_dirty with "Hσ Ht") as "[Hσ Ht]"; [done|].
    iAssert (wp (get_dirty (mkFigtree (ptr t')) recno)
      (λ images, ⌜checkpoint_of recno images (bm_writes ws bm_empty)⌝)%I) with "[Ht]" as "Hw".
    { iApply (wp_get_dirty True with "Ht"); [by destruct t'|]. iIntros (images Hs) "_". iPureIntro.
      destruct (Hs I) as (sp & Hst & Hlast). exists h, t', sp. split_and!; [done..|].
      intros b Hb. rewrite Hl' //. apply bm_writes_ext, Hl. }
    iMod ("Hw" with "Hσ") as (images σ'' Hk) "[_ %]". iModIntro. by iExists images, σ''.
  - by exists images.
Qed.

(** A program that begins with the load of the root: the node that was allocated
    stands for the checkpointed tree. *)
Lemma root_loaded recno images m {A} (k : loc → node_prog A) (P : A → Prop) :
  checkpoint_of recno images m →
  (∀ h t (Σ : gFunctors) (HG : heapG ft_node Σ) node l, wf (S h) t → loaded recno images (S h) t node →
     (∀ b, byte_index b → lookup_tree (S h) t b = m b) →
     ⊢ l ↦ node -∗ wp (k l) (λ r, ⌜P r⌝)) →
  ∃ image r σ, last images = Some image ∧ (root ← alloc image; k root) ∅ = Ok (r, σ) ∧ P r.
Proof.
  intros (h & t & sp & Hwf & Hst & Hlast & Hm) Hk.
  destruct t as [|lt es ts]; [done|]. destruct Hlast as (first & image & -> & Ho); [done|].
  destruct (stored_loaded _ _ _ _ _ Hst) as (i & node & _ & _ & Hi & Hn & Hld).
  assert (i = length first) as -> by (unfold sizeof_ft_node in *; lia).
  rewrite list_lookup_middle // in Hn. injection Hn as <-.
  destruct (wp_adequacy (root ← alloc image; k root) ∅ P) as (r & σ & Hrun & HP).
  { iIntros (Σ HG) "_". wp_bind. wp_alloc l as "Hl". by iApply (Hk with "Hl"). }
  exists image, r, σ. by rewrite last_snoc.
Qed.

Lemma reload_ok recno images m bs :
  checkpoint_of recno images m → Forall byte_index bs →
  value (reload images recno [] bs) = Ok (m <$> bs).
Proof.
  intros Hc Hbs.
  destruct (root_loaded recno images m
    (λ root, this ← ft_writes (chkpt_log recno images) (ft_init_with_root root) [];
      mapM (ft_lookup (chkpt_log recno images) this) bs) (λ r, r = m <$> bs) Hc)
    as (image & r & σ & Hlast & Hv & ->); [|unfold value, reload; by rewrite Hlast Hv].
  iIntros (h t Σ HG node l Hwf Hld Hm) "Hl". wp_bind. wp_ret.
  iApply (wp_lookups_loaded (chkpt_log recno images) recno images with "Hl").
  - unfold chkpt_log. by rewrite Z.eqb_refl.
  - done.
  - done.
  - done.
  - done.
  - done.
  - iPureIntro. apply list_fmap_ext. intros i b Hb. apply Hm. by eapply Forall_lookup_1.
Qed.

Lemma reload_ranges_ok recno images m lo hi fuel :
  checkpoint_of recno images m → byte_index lo → byte_index hi → lo ≤ hi →
  (Z.to_nat (hi - lo + 1) < fuel)%nat →
  ∃ fs, value (reload_ranges images recno fuel lo hi) = Ok fs ∧ figs_in lo hi fs ∧
    ∀ b, lo ≤ b ≤ hi → figs_at fs b = m b.
Proof.
  intros Hc Hlo Hhi Hle Hfuel.
  destruct (root_loaded recno images m
    (λ root, ft_read_all (chkpt_log recno images) fuel (ft_init_with_root root) lo hi)
    (λ fs, figs_in lo hi fs ∧ ∀ b, lo ≤ b ≤ hi → figs_at fs b = m b) Hc)
    as (image & fs & σ & Hlast & Hv & Hfs); [|exists fs; unfold value, reload_ranges; by rewrite Hlast Hv].
  iIntros (h t Σ HG node l Hwf Hld Hm) "Hl".
  iApply (wp_read_loaded (chkpt_log recno images) recno images with "Hl");
    [unfold chkpt_log; by rewrite Z.eqb_refl|done..|].
  iIntros (fs [Hin Hfs]) "_". iPureIntro. split; [done|]. intros b Hb. rewrite Hfs //. apply Hm.
  unfold byte_index in *. lia.
Qed.
End roundtrip.

(** ** Checkpoints of a tree in memory *)

Inductive tree_op :=
  | TWrite (start end_ value : Z)
  | TChkpt (recno : Z).

Definition op_writes (ops : list tree_op) : list (Z * Z * Z) :=
  omap (λ op, match op with TWrite s e v => Some (s, e, v) | TChkpt _ => None end) ops.

Section memory.
Context `{!Allocator}.

Fixpoint tree_ops (log : gdpfs_log) (this : figtree) (ops : list tree_op) : node_prog figtree :=
  match ops with
  | [] => mret this
  | TWrite s e v :: ops => this ← ft_write log this s e v; tree_ops log this ops
  | TChkpt recno :: ops => _ ← get_dirty this recno; tree_ops log this ops
  end.

Definition tree_session (log : gdpfs_log) (ops : list tree_op) (bs : list Z)
    : node_prog (list (option Z)) :=
  this ← ft_init;
  this ← tree_ops log this ops;
  mapM (ft_lookup log this) bs.

Context `{HG : !heapG ft_node Σ}.

Lemma wp_tree_ops log ops : ∀ h t Φ,
  Forall write_ok (op_writes ops) → wf (S h) t →
  is_tree (S h) t -∗
  (∀ h' t', ⌜wf (S h') t' ∧ ∀ b, byte_index b →
      lookup_tree (S h') t' b = bm_writes (op_writes ops) (lookup_tree (S h) t) b⌝ -∗
     is_tree (S h') t' -∗ Φ (mkFigtree (ptr t'))) -∗
  wp (tree_ops log (mkFigtree (ptr t)) ops) Φ.
Proof.
  induction ops as [|[s e v|recno] ops IH]; intros h t Φ Hws Hwf; iIntros "Ht HΦ"; cbn [tree_ops].
  - wp_ret. by iApply ("HΦ" with "[%] Ht").
  - apply Forall_cons in Hws as [(Hs & Hse & He) Hws].
    wp_bind. iApply (wp_ft_write with "Ht"); [done..|].
    iIntros (h1 t1 (Hwf1 & Hl1)) "Ht". iApply (IH with "Ht"); [done..|].
    iIntros (h2 t2 (Hwf2 & Hl2)) "Ht". iApply ("HΦ" with "[%] Ht"). split; [done|].
    intros b Hb. rewrite Hl2 //. change (op_writes (TWrite s e v :: ops)) with ((s, e, v) :: op_writes ops).
    simpl bm_writes. apply bm_writes_ext. by apply Hl1.
  - wp_bind. iApply (wp_get_dirty False with "[Ht]"); [by destruct t|by iApply is_tree_any|].
    iIntros (images _) "Ht". by iApply (IH with "Ht").
Qed.

Lemma wp_lookups log h t bs Φ :
  wf (S h) t → is_tree (S h) t -∗ Φ (lookup_tree (S h) t <$> bs) -∗
  wp (mapM (ft_lookup log (mkFigtree (ptr t))) bs) Φ.
Proof.
  intros Hwf. iIntros "Ht HΦ". iInduction bs as [|b bs] "IH" forall (Φ); simpl; [by wp_ret|].
  wp_bind. iApply (wp_ft_lookup with "Ht"); [done|]. iIntros "Ht". wp_bind.
  iApply ("IH" with "Ht"). by wp_ret.
Qed.
End memory.

(** C16: Checkpoints do not disturb the tree in memory.  In every sequence of
    writes and checkpoints, in any order, no call fails, and lookups give the
    value of the last write that covers a byte as if no checkpoint had been
    taken. *)
Theorem chkpt_keeps_memory `{!Allocator} log ops bs :
  Forall write_ok (op_writes ops) → Forall byte_index bs →
  value (tree_session log ops bs) = Ok (bm_writes (op_writes ops) bm_empty <$> bs).
Proof.
  intros Hws Hbs.
  destruct (wp_adequacy (tree_session log ops bs) ∅ (λ r, r = bm_writes (op_writes ops) bm_empty <$> bs))
    as (r & σ & Hrun & ->); [|by unfold value; rewrite Hrun].
  iIntros (Σ HG) "_". rewrite /tree_session. wp_bind. iApply wp_ft_init.
  iIntros (t (Hwf & Hl)) "Ht". wp_bind. iApply (wp_tree_ops with "Ht"); [done..|].
  iIntros (h' t' (Hwf' & Hl')) "Ht". iApply (wp_lookups with "Ht"); [done|].
  iPureIntro. apply list_fmap_ext. intros i b Hb.
  rewrite Hl'; [|by eapply Forall_lookup_1]. apply bm_writes_ext, Hl.
Qed.

(** C15: A checkpoint of a new tree holds the whole tree.  For every sequence of
    writes, [get_dirty] gives images from which a tree can be loaded: its root is
    the last image, the other nodes are read from the record when a lookup or an
    iterator descends to them, and every byte has the value of the last write that
    covers it, in any number of lookups and in the ranges an iterator yields,
    which are disjoint, ordered and inside the requested bytes. *)
Theorem chkpt_reload_correct `{!Allocator} ws recno bs lo hi fuel :
  Forall write_ok ws → Forall byte_index bs →
  byte_index lo → byte_index hi → lo ≤ hi → (Z.to_nat (hi - lo + 1) < fuel)%nat →
  ∃ images, value (chkpt_images ws recno) = Ok images ∧
    value (reload images recno [] bs) = Ok (bm_writes ws bm_empty <$> bs) ∧
    ∃ fs, value (reload_ranges images recno fuel lo hi) = Ok fs ∧ figs_in lo hi fs ∧
      ∀ b, lo ≤ b ≤ hi → figs_at fs b = bm_writes ws bm_empty b.
Proof.
  intros Hws Hbs Hlo Hhi Hle Hfuel. destruct (chkpt_images_ok ws recno Hws) as (images & Hi & Hc).
  exists images. split_and!; [done|by apply reload_ok|by apply reload_ranges_ok].
Qed.

(** ** Later writes *)

(** Five writes of single bytes split the root. *)
Definition five_writes : list (Z * Z * Z) :=
  [(0, 0, 1); (10, 10, 2); (20, 20, 3); (30, 30, 4); (40, 40, 5); (50, 50, 6)].

#[local] Existing Instance bump_allocator.


Lemma chkpt_keeps_memory_witness :
  let ops := [TWrite 0 99 1; TChkpt 5; TWrite 20 29 2; TChkpt 7; TChkpt 8; TWrite 25 120 3] in
  Forall write_ok (op_writes ops) ∧ value (tree_session no_log ops [10; 22; 27; 121]) = Ok [Some 1; Some 2; Some 3; None].
Proof.
  assert (Forall write_ok [(0, 99, 1); (20, 29, 2); (25, 120, 3)]) as Hw
    by (repeat constructor; vm_compute; congruence).
  intros ops. split; [exact Hw|]. apply (chkpt_keeps_memory no_log ops [10; 22; 27; 121] Hw).
  repeat constructor; vm_compute; congruence.
Defined.

Lemma chkpt_reload_correct_witness :
  Forall write_ok five_writes ∧ ∃ images, value (chkpt_images five_writes 7) = Ok images ∧
    value (reload images 7 [] [0; 5; 30]) = Ok [Some 1; None; Some 4] ∧
    ∃ fs, value (reload_ranges images 7 50 5 45) = Ok fs ∧ figs_in 5 45 fs ∧
      ∀ b, 5 ≤ b ≤ 45 → figs_at fs b = bm_writes five_writes bm_empty b.
Proof.
  assert (Forall write_ok five_writes) as Hw by (repeat constructor; vm_compute; congruence).
  split; [exact Hw|]. apply (chkpt_reload_correct five_writes 7 [0; 5; 30] 5 45 50 Hw).
  - repeat constructor; vm_compute; congruence.
  - vm_compute. split; congruence.
  - vm_compute. split; congruence.
  - lia.
  - lia.
Defined.
