(* ===== verification/FigShape.v ===== *)
(** * The shape of FIG trees in memory

    What the C types do not say about a [struct ft_node]: heights decrease by one
    from parent to child down to null pointers, a node has one subtree more than
    it has entries and room for another entry, and its entries are disjoint, in
    order, and do not end at [BYTE_INDEX_MAX].  [well_shaped] checks this in a
    heap; every sequence of writes and checkpoints maintains it. *)
From S2P Require Import Prelude.
From S2P Require Import Heap.
From S2P Require Import Interval.
From S2P Require Import Types.
From S2P Require Import FigNode.
From S2P Require Import FigTree.
From S2P Require Import FigSpec.
From S2P Require Import FigNodeProof.
From S2P Require Import FigTheorems.
From S2P Require Import FigDirty.
From S2P Require Import FigChkpt.
From stdpp Require Import sorting.

#[local] Open Scope Z_scope.

(** The entries, each of them after the position [from]. *)
Fixpoint entries_ok (from : Z) (es : list ft_ent) : bool :=
  match es with
  | [] => true
  | e :: es =>
      (from <=? i_left (irange e)) && (i_left (irange e) <=? i_right (irange e)) &&
      (i_right (irange e) <? BYTE_INDEX_MAX) && entries_ok (i_right (irange e) + 1) es
  end.

Fixpoint well_shaped (σ : heap ft_node) (h : nat) (p : option loc) : bool :=
  match h, p with
  | O, None => true
  | S h, Some l =>
      match (σ : gmap loc ft_node) !! l with
      | Some n =>
          (HEIGHT n =? Z.of_nat h) && (length (entries n) <? FT_SPLITLIMIT)%nat &&
          (length (subtrees n) =? S (length (entries n)))%nat && entries_ok BYTE_INDEX_MIN (entries n) &&
          forallb (λ sp, sp_inmemory sp && well_shaped σ h (sp_st sp)) (subtrees n)
      | None => false
      end
  | _, _ => false
  end.

Lemma es_ok_entries es from :
  es_ok es → Forall (λ e, from ≤ lft e) es → entries_ok from es = true.
Proof.
  revert from. induction es as [|e es IH]; intros from Hok Hf; [done|].
  apply es_ok_cons in Hok as ((_ & _ & ? & ?) & Hs & Hok). apply Forall_cons in Hf as [? _].
  unfold lft, rgt in *. cbn [entries_ok]. rewrite !andb_true_iff !Z.leb_le Z.ltb_lt. split_and!; [done..|].
  apply IH; [done|]. eapply Forall_impl; [exact Hs|]. intros x. unfold before, rgt, lft. lia.
Qed.

Section proof.
Context `{HG : !heapG ft_node Σ} `{AL : !Allocator}.

Lemma children_shaped σ h sps ts :
  (∀ t, wf h t → ghost_map_auth heapG_name 1 σ -∗ is_tree h t -∗ ⌜well_shaped σ h (ptr t) = true⌝) →
  Forall2 slot_ok sps ts → Forall (wf h) ts →
  ghost_map_auth heapG_name 1 σ -∗ ([∗ list] c ∈ ts, is_tree h c) -∗
  ⌜Forall2 (λ sp _, well_shaped σ h (sp_st sp) = true) sps ts⌝.
Proof.
  intros Hh Hs Hwf. induction Hs as [|sp t sps ts [_ Hp] Hs IH]; [by iIntros|].
  apply Forall_cons in Hwf as [Hc Hwf]. iIntros "Hσ [Ht Hts]".
  iDestruct (Hh t Hc with "Hσ Ht") as %Ht. iDestruct (IH Hwf with "Hσ Hts") as %?.
  iPureIntro. constructor; [by rewrite Hp|done].
Qed.

Lemma is_tree_shaped σ h : ∀ t,
  wf h t → ghost_map_auth heapG_name 1 σ -∗ is_tree h t -∗ ⌜well_shaped σ h (ptr t) = true⌝.
Proof.
  induction h as [|h IH]; intros [|l es ts] Hwf; try done; [by iIntros|].
  destruct Hwf as (Hok & Hlen & Hts & Hwf). iIntros "Hσ (%sps & %d & Hl & %Hs & Hts)".
  iDestruct (ghost_map_lookup with "Hσ Hl") as %Hl.
  iDestruct (children_shaped with "Hσ Hts") as %Hsub; [done..|].
  iPureIntro. cbn [well_shaped ptr]. rewrite Hl. cbn [HEIGHT entries subtrees].
  rewrite (Forall2_length _ _ _ Hs) Hts !andb_true_iff Z.eqb_refl Nat.ltb_lt Nat.eqb_refl. split_and!; try done.
  - apply es_ok_entries; [done|]. destruct Hok as [Hok _]. eapply Forall_impl; [exact Hok|].
    by intros e (_ & ? & _).
  - apply forallb_forall. intros sp Hin%list_elem_of_In. apply list_elem_of_lookup in Hin as [i Hi].
    destruct (Forall2_lookup_l _ _ _ _ _ Hs Hi) as (t & Ht & Hm & _).
    destruct (Forall2_lookup_l _ _ _ _ _ Hsub Hi) as (t' & _ & Hw). by rewrite Hm Hw.
Qed.
End proof.

(** C19: The tree keeps its shape.  Every sequence of writes and checkpoints runs
    to its end on a new tree, and leaves a tree in the heap whose heights,
    numbers of entries and subtrees, and order of entries are right, and all of
    whose pointers lead to allocated nodes or are null below the leaves. *)
Theorem ft_well_shaped `{!Allocator} log ops :
  Forall write_ok (op_writes ops) →
  ∃ this σ h, (this ← ft_init; tree_ops log this ops) ∅ = Ok (this, σ) ∧
    well_shaped σ (S h) (ft_root this) = true.
Proof.
  intros Hws.
  destruct (wp_adequacy_heap (this ← ft_init; tree_ops log this ops) ∅
    (λ this σ, ∃ h, well_shaped σ (S h) (ft_root this) = true)) as (this & σ & Hrun & h & Hs); [|by exists this, σ, h].
  iIntros (Σ HG) "_". wp_bind. iApply wp_ft_init. iIntros (t (Hwf & Hl)) "Ht".
  iApply (wp_tree_ops with "Ht"); [done..|]. iIntros (h t' (Hwf' & _)) "Ht %σ' Hσ".
  iDestruct (is_tree_shaped with "Hσ Ht") as %?; [done|]. iPureIntro. by exists h.
Qed.

#[local] Existing Instance bump_allocator.

Lemma ft_well_shaped_witness :
  ∃ this σ h, (this ← ft_init; tree_ops no_log this [TWrite 0 99 1; TChkpt 5; TWrite 20 29 2]) ∅ = Ok (this, σ) ∧
    well_shaped σ (S h) (ft_root this) = true.
Proof.
  apply (ft_well_shaped no_log [TWrite 0 99 1; TChkpt 5; TWrite 20 29 2]).
  repeat constructor; vm_compute; congruence.
Defined.
