(* ===== verification/State.v ===== *)
(** * Programs over an explicit state

    The components above the FIG tree are functions in a state monad with
    faults, over a state type of their own. *)
From S2P Require Import Prelude.

Definition st (S A : Type) : Type := S → res (A * S).

#[export] Instance st_ret {S} : MRet (st S) := λ A a s, Ok (a, s).
#[export] Instance st_bind {S} : MBind (st S) := λ A B k c s,
  match c s with
  | Ok (a, s') => k a s'
  | Fault f => Fault f
  end.

Definition st_get {S} : st S S := λ s, Ok (s, s).
Definition st_put {S} (s : S) : st S unit := λ _, Ok (tt, s).
Definition st_modify {S} (f : S → S) : st S unit := λ s, Ok (tt, f s).
Definition st_fail {S A} (f : fault) : st S A := λ _, Fault f.
Definition st_assert {S} (b : bool) : st S unit :=
  if b then mret tt else st_fail AssertFail.
Definition st_lift {S A} (r : res A) : st S A := λ s,
  match r with Ok a => Ok (a, s) | Fault f => Fault f end.

(** A run that ends in [Ok]. *)
Definition runs {S A} (c : st S A) (s : S) (a : A) (s' : S) : Prop := c s = Ok (a, s').

Section runs.
Context {S A B : Type}.
Implicit Types (c : st S A) (s : S).

Lemma bind_ok c (k : A → st S B) s a s1 :
  c s = Ok (a, s1) → (c ≫= k) s = k a s1.
Proof. unfold mbind, st_bind. by intros ->. Qed.

Lemma bind_fault c (k : A → st S B) s f : c s = Fault f → (c ≫= k) s = Fault f.
Proof. unfold mbind, st_bind. by intros ->. Qed.

Lemma bind_inv c (k : A → st S B) s b s2 :
  (c ≫= k) s = Ok (b, s2) → ∃ a s1, c s = Ok (a, s1) ∧ k a s1 = Ok (b, s2).
Proof. unfold mbind, st_bind. destruct (c s) as [[a s1]|]; [eauto|done]. Qed.
End runs.

(** Steps over the first statement of a program whose result is known. *)
Ltac st_step H := erewrite bind_ok; [|exact H]; cbv beta iota.
