(* ===== verification/Posix.v ===== *)
(** * Local files

    What the sources use of the POSIX file interface on a local regular file.
    The content of a file is a list with one element per byte; [None] is a byte
    of a hole, which reads as zero.  Reads and writes of local files do not
    fail. *)
From S2P Require Import Prelude.
From S2P Require Import State.

Record posix_fd := mkFd {
  fd_content : list (option Z);
  fd_pos : Z;
}.

Definition fd_prog : Type → Type := st posix_fd.

(** ** Content *)

Definition read_at (f : list (option Z)) (pos size : Z) : list Z :=
  default 0 <$> take (Z.to_nat size) (drop (Z.to_nat pos) f).

(** A write beyond the end leaves a hole; an empty write does nothing. *)
Definition write_at (f : list (option Z)) (pos : Z) (bs : list Z) : list (option Z) :=
  match bs with
  | [] => f
  | _ =>
      let p := Z.to_nat pos in
      take p (f ++ replicate (p - length f) None) ++ (Some <$> bs) ++ drop (p + length bs) f
  end.

(** ** Operations *)

(** [lseek (fd, offset, SEEK_SET)]: the new position, or [-1]. *)
Definition lseek_set (offset : Z) : fd_prog Z := λ fd,
  if offset <? 0 then Ok (-1, fd) else Ok (offset, mkFd (fd_content fd) offset).

Definition lseek_cur (offset : Z) : fd_prog Z := λ fd,
  lseek_set (fd_pos fd + offset) fd.

(** [lseek (fd, offset, whence)] with [SEEK_SET], [SEEK_CUR] and [SEEK_END] (0, 1
    and 2); any other [whence] is rejected. *)
Definition lseek (offset whence : Z) : fd_prog Z := λ fd,
  if whence =? 0 then lseek_set offset fd
  else if whence =? 1 then lseek_cur offset fd
  else if whence =? 2 then lseek_set (Z.of_nat (length (fd_content fd)) + offset) fd
  else Ok (-1, fd).

(** File systems keep holes as whole blocks of [block] bytes. *)
Definition in_hole (block : nat) (f : list (option Z)) (k : nat) : bool :=
  forallb (λ o, bool_decide (o = None)) (take block (drop (k / block * block) f)).

Fixpoint find_hole (block : nat) (f : list (option Z)) (n k : nat) : nat :=
  match n with
  | O => length f
  | S n => if in_hole block f k then k else find_hole block f n (S k)
  end.

(** [lseek (fd, offset, SEEK_HOLE)]: the end of the file counts as a hole, an
    offset beyond it is [ENXIO]. *)
Definition lseek_hole (block : nat) (offset : Z) : fd_prog Z := λ fd,
  let f := fd_content fd in
  if (offset <? 0) || (Z.of_nat (length f) <=? offset) then Ok (-1, fd) else
  let p := Z.of_nat (find_hole block f (length f - Z.to_nat offset) (Z.to_nat offset)) in
  Ok (p, mkFd f p).

Definition read (size : Z) : fd_prog (list Z) := λ fd,
  let bs := read_at (fd_content fd) (fd_pos fd) size in
  Ok (bs, mkFd (fd_content fd) (fd_pos fd + Z.of_nat (length bs))).

(** The number of bytes written. *)
Definition write (bs : list Z) : fd_prog Z := λ fd,
  Ok (Z.of_nat (length bs),
      mkFd (write_at (fd_content fd) (fd_pos fd) bs) (fd_pos fd + Z.of_nat (length bs))).

(** ** Bytes of a file *)

(** The byte at an offset, if it was written. *)
Definition stored (f : list (option Z)) (k : Z) : option Z :=
  if 0 <=? k then f !! Z.to_nat k ≫= id else None.

Definition byte_at (f : list (option Z)) (k : Z) : Z := default 0 (stored f k).

Lemma stored_beyond f k : Z.of_nat (length f) ≤ k → stored f k = None.
Proof.
  intros H. unfold stored. destruct (Z.leb_spec 0 k); [|done].
  by rewrite lookup_ge_None_2 by lia.
Qed.

Lemma write_at_length f pos bs :
  0 ≤ pos → bs ≠ [] →
  Z.of_nat (length (write_at f pos bs)) = Z.max (Z.of_nat (length f)) (pos + Z.of_nat (length bs)).
Proof.
  intros Hpos Hbs. destruct bs as [|b bs]; [done|]. unfold write_at. cbv zeta.
  set (bs' := b :: bs). rewrite !length_app, length_fmap, length_drop, length_take, length_app, length_replicate.
  lia.
Qed.

Lemma stored_write_at f pos bs k :
  0 ≤ pos →
  stored (write_at f pos bs) k =
    if decide (pos ≤ k < pos + Z.of_nat (length bs)) then bs !! Z.to_nat (k - pos) else stored f k.
Proof.
  intros Hpos. destruct (decide (bs = [])) as [->|Hbs].
  { simpl. by rewrite decide_False by lia. }
  unfold stored. destruct (Z.leb_spec 0 k) as [Hk|Hk]; [|by rewrite decide_False by lia].
  assert (write_at f pos bs =
    take (Z.to_nat pos) (f ++ replicate (Z.to_nat pos - length f) None) ++
      (Some <$> bs) ++ drop (Z.to_nat pos + length bs) f) as -> by (by destruct bs).
  assert (length (take (Z.to_nat pos) (f ++ replicate (Z.to_nat pos - length f) None)) = Z.to_nat pos) as Hlen.
  { rewrite length_take, length_app, length_replicate. lia. }
  case_decide as Hin.
  - rewrite lookup_app_r by lia. rewrite Hlen, lookup_app_l by (rewrite length_fmap; lia).
    rewrite list_lookup_fmap. replace (Z.to_nat k - Z.to_nat pos)%nat with (Z.to_nat (k - pos)) by lia.
    by destruct (bs !! Z.to_nat (k - pos)).
  - destruct (Z_lt_le_dec k pos) as [Hlt|Hge].
    + rewrite lookup_app_l by lia. rewrite lookup_take_lt by lia.
      destruct (decide (Z.to_nat k < length f)%nat) as [Hl|Hl].
      * by rewrite lookup_app_l.
      * rewrite (lookup_ge_None_2 f) by lia. rewrite lookup_app_r by lia.
        destruct (replicate _ None !! _) as [o|] eqn:Ho; [|done].
        by apply lookup_replicate in Ho as [-> _].
    + rewrite lookup_app_r by lia. rewrite Hlen, lookup_app_r by (rewrite length_fmap; lia).
      rewrite length_fmap, lookup_drop. do 2 f_equal. lia.
Qed.

Lemma byte_at_write_at f pos bs k :
  0 ≤ pos →
  byte_at (write_at f pos bs) k =
    if decide (pos ≤ k < pos + Z.of_nat (length bs)) then default 0 (bs !! Z.to_nat (k - pos))
    else byte_at f k.
Proof. intros Hpos. unfold byte_at. rewrite stored_write_at by done. by case_decide. Qed.

Lemma read_at_length f pos size :
  length (read_at f pos size) = Nat.min (Z.to_nat size) (length f - Z.to_nat pos).
Proof. unfold read_at. by rewrite length_fmap, length_take, length_drop. Qed.

Lemma read_at_lookup f pos size i :
  0 ≤ pos → (i < length (read_at f pos size))%nat →
  read_at f pos size !! i = Some (byte_at f (pos + Z.of_nat i)).
Proof.
  rewrite read_at_length. intros Hpos Hi. unfold read_at, byte_at, stored.
  rewrite list_lookup_fmap, lookup_take_lt by lia. rewrite lookup_drop.
  destruct (Z.leb_spec 0 (pos + Z.of_nat i)); [|lia].
  replace (Z.to_nat (pos + Z.of_nat i)) with (Z.to_nat pos + i)%nat by lia.
  destruct (lookup_lt_is_Some_2 f (Z.to_nat pos + i)) as [o Ho]; [lia|]. by rewrite Ho.
Qed.
