(* ===== verification/BitmapFile.v ===== *)
(** * Bitmaps in files ([src/bitmap_file.c])

    One bit per byte of a cached file, set when the byte is in the cache.  Bits
    are numbered from the most significant one of each byte. *)
From S2P Require Import Prelude.
From S2P Require Import State.
From S2P Require Import Posix.
From S2P Require Import Bitmap.

Definition BMP_CHUNKSIZE : Z := 4096.

(** ** Operations *)

(** [((uint8_t) 0xFF) >> leftbits] and [((uint8_t) 0xFF) << (7 - rightbits)] *)
Definition left_mask (leftbits : Z) : Z := Z.shiftr 255 leftbits.
Definition right_mask (rightbits : Z) : Z := wrap8 (Z.shiftl 255 (7 - rightbits)).

(** Read one byte and step back; a byte beyond the end counts as zero. *)
Definition peek_byte : fd_prog Z :=
  chunk ← read 1;
  match chunk with
  | [] => mret 0
  | c :: _ => lseek_cur (-1);; mret c
  end.

(** [while (bytesleft > BMP_CHUNKSIZE)] of [bitmap_file_set_range]; the result is
    the remaining [bytesleft], or [None] for a short write. *)
Fixpoint set_chunks (fuel : nat) (bytesleft : Z) : fd_prog (option Z) :=
  match fuel with
  | O => st_fail OutOfFuel
  | S fuel =>
      if BMP_CHUNKSIZE <? bytesleft then
        rv ← write (replicate (Z.to_nat BMP_CHUNKSIZE) 255);
        if negb (rv =? BMP_CHUNKSIZE) then mret None
        else set_chunks fuel (bytesleft - BMP_CHUNKSIZE)
      else mret (Some bytesleft)
  end.

Definition bitmap_file_set_range (left right : Z) : fd_prog bool :=
  if right <=? left then mret false else
  let right := right - 1 in
  let leftbyte := Z.shiftr left 3 in
  let rightbyte := Z.shiftr right 3 in
  let leftbits := Z.land left 7 in
  let rightbits := Z.land right 7 in
  lrv ← lseek leftbyte 0;
  if lrv =? -1 then mret false else
  c ← peek_byte;
  if leftbyte =? rightbyte then
    let mask := Z.land (left_mask leftbits) (right_mask rightbits) in
    rv ← write [Z.lor c mask];
    mret (rv =? 1)
  else
    rv ← write [Z.lor c (left_mask leftbits)];
    if negb (rv =? 1) then mret false else
    left_ ← set_chunks (S (Z.to_nat (rightbyte - leftbyte))) (rightbyte - leftbyte);
    match left_ with
    | None => mret false
    | Some bytesleft =>
        rv ← write (replicate (Z.to_nat (bytesleft - 1)) 255);
        if negb (rv =? bytesleft - 1) then mret false else
        c ← peek_byte;
        rv ← write [Z.lor c (right_mask rightbits)];
        mret (rv =? 1)
    end.

(** The same loop of [bitmap_file_isset]. *)
Fixpoint isset_chunks (fuel : nat) (bytesleft : Z) : fd_prog (option Z) :=
  match fuel with
  | O => st_fail OutOfFuel
  | S fuel =>
      if BMP_CHUNKSIZE <? bytesleft then
        chunk ← read BMP_CHUNKSIZE;
        if negb (Z.of_nat (length chunk) =? BMP_CHUNKSIZE) then mret None
        else if negb (forallb (λ c, c =? 255) chunk) then mret None
        else isset_chunks fuel (bytesleft - BMP_CHUNKSIZE)
      else mret (Some bytesleft)
  end.

Definition bitmap_file_isset (left right : Z) : fd_prog bool :=
  if right <=? left then mret false else
  let right := right - 1 in
  let leftbyte := Z.shiftr left 3 in
  let rightbyte := Z.shiftr right 3 in
  let leftbits := Z.land left 7 in
  let rightbits := Z.land right 7 in
  lrv ← lseek leftbyte 0;
  if lrv =? -1 then mret false else
  chunk ← read 1;
  match chunk with
  | [c] =>
      if leftbyte =? rightbyte then
        let mask := Z.land (left_mask leftbits) (right_mask rightbits) in
        mret (Z.land c mask =? mask)
      else if negb (Z.land c (left_mask leftbits) =? left_mask leftbits) then mret false else
      left_ ← isset_chunks (S (Z.to_nat (rightbyte - leftbyte))) (rightbyte - leftbyte);
      match left_ with
      | None => mret false
      | Some bytesleft =>
          chunk ← read bytesleft;
          if negb (Z.of_nat (length chunk) =? bytesleft) then mret false else
          if negb (forallb (λ c, c =? 255) (take (Z.to_nat (bytesleft - 1)) chunk)) then mret false else
          last ← st_lift (read_byte chunk (bytesleft - 1));
          mret (Z.land last (right_mask rightbits) =? right_mask rightbits)
      end
  | _ => mret false
  end.

(** The loop [for (byte = left; byte < right; byte++)] of [bitmap_file_get_range]. *)
Fixpoint copy_bits (n : nat) (byte left extended_left : Z) (extended bmp : option bitmap)
    : res (option bitmap) :=
  match n with
  | O => Ok bmp
  | S n =>
      set ← bitmap_is_set extended (byte - extended_left);
      bmp ← (if set =? 0 then mret bmp
             else '(_, b) ← bitmap_set bmp (byte - left); mret b);
      copy_bits n (byte + 1) left extended_left extended bmp
  end.

(** The arguments of [lseek] are in the order of the source. *)
Definition bitmap_file_get_range (left right : Z) : fd_prog (option bitmap) :=
  let extended_left := left - Z.rem left 8 in
  let extended_right := right + 8 - Z.rem right 8 in
  let extended_size := extended_right - extended_left in
  _ ← lseek 0 (extended_left / 8);
  file_bitmap ← read (extended_size / 8);
  let extended_bitmap :=
    (λ b, mkBitmap (bm_size b)
            (file_bitmap ++ drop (length file_bitmap) (bm_data b))) <$> bitmap_create extended_size 0 in
  st_lift (copy_bits (Z.to_nat (right - left)) left left extended_left extended_bitmap
             (bitmap_create (right - left) 0)).

(** ** Meaning *)

(** Bit [i] of a file. *)
Definition file_bit (f : list (option Z)) (i : Z) : bool :=
  Z.testbit (byte_at f (i / 8)) (7 - i mod 8).

(** The content of a file of bytes. *)
Definition file_ok (f : list (option Z)) : Prop := Forall (λ o, in_width 8 (default 0 o)) f.

(** ** Masks *)

Lemma testbit_left_mask j k : 0 ≤ j < 8 → 0 ≤ k → Z.testbit (left_mask j) k = (k <? 8 - j).
Proof.
  intros Hj Hk. unfold left_mask. rewrite Z.shiftr_spec by done.
  change 255 with (Z.ones 8). apply eq_true_iff_eq. rewrite Z.ones_spec_iff, Z.ltb_lt by lia. lia.
Qed.

Lemma testbit_right_mask j k : 0 ≤ j < 8 → 0 ≤ k < 8 → Z.testbit (right_mask j) k = (7 - j <=? k).
Proof.
  intros Hj Hk. unfold right_mask, wrap. rewrite Z.mod_pow2_bits_low by lia.
  rewrite Z.shiftl_spec by lia. change 255 with (Z.ones 8).
  destruct (Z.leb_spec (7 - j) k).
  - apply Z.ones_spec_iff; lia.
  - apply Z.testbit_neg_r. lia.
Qed.

Lemma left_mask_width j : 0 ≤ j < 8 → in_width 8 (left_mask j).
Proof.
  intros Hj. unfold left_mask, in_width. rewrite Z.shiftr_div_pow2 by lia.
  pose proof (Z.div_pos 255 (2 ^ j)). pose proof (Z.div_le_upper_bound 255 (2 ^ j) 255).
  assert (0 < 2 ^ j) by (apply Z.pow_pos_nonneg; lia). nia.
Qed.

Lemma right_mask_width j : in_width 8 (right_mask j).
Proof. apply wrap_bound. done. Qed.

(** A byte contains a mask. *)
Lemma land_mask_iff c m :
  0 ≤ m < 256 → (Z.land c m =? m) = true ↔ ∀ k, 0 ≤ k < 8 → Z.testbit m k = true → Z.testbit c k = true.
Proof.
  intros Hm. rewrite Z.eqb_eq. split.
  - intros Heq k Hk Hmk. rewrite <-Heq, Z.land_spec in Hmk. by apply andb_true_iff in Hmk as [? ?].
  - intros Hk. apply Z.bits_inj'. intros k Hk0. rewrite Z.land_spec.
    destruct (Z.testbit m k) eqn:Hmk; [|by rewrite andb_false_r].
    rewrite Hk; [done| |done]. destruct (Z_lt_le_dec k 8); [lia|].
    by rewrite (in_width_8_testbit m k) in Hmk.
Qed.

(** ** Steps on files *)

Lemma byte_at_width f k : file_ok f → in_width 8 (byte_at f k).
Proof.
  intros Hf. unfold byte_at, stored. case_match; [|done].
  destruct (f !! Z.to_nat k) as [o|] eqn:Ho; [|done]. by apply (Forall_lookup_1 _ _ _ _ Hf) in Ho.
Qed.

Lemma file_ok_write f pos bs :
  file_ok f → Forall (in_width 8) bs → file_ok (write_at f pos bs).
Proof.
  intros Hf Hbs. destruct bs as [|b bs]; [done|]. unfold write_at. cbv zeta. unfold file_ok.
  rewrite !Forall_app, Forall_fmap. split_and!; [|done|by apply Forall_drop].
  apply Forall_take, Forall_app. split; [done|]. apply Forall_replicate. done.
Qed.

Lemma peek_byte_ok f pos :
  0 ≤ pos → peek_byte (mkFd f pos) = Ok (byte_at f pos, mkFd f pos).
Proof.
  intros Hpos. unfold peek_byte, mbind, st_bind, read, fd_prog. simpl.
  pose proof (read_at_length f pos 1) as Hlen. pose proof (read_at_lookup f pos 1 0 Hpos) as Hread.
  change (Z.to_nat 1) with 1%nat in Hlen.
  destruct (read_at f pos 1) as [|c [|]]; cbn [length] in *; [| |lia].
  - simpl. rewrite Z.add_0_r. unfold byte_at. by rewrite stored_beyond by lia.
  - simpl in Hread. rewrite Z.add_0_r in Hread. specialize (Hread ltac:(lia)). injection Hread as ->.
    unfold lseek_cur, lseek_set. cbn [fd_pos fd_content].
    replace (pos + Z.of_nat 1 + -1) with pos by lia. by destruct (Z.ltb_spec pos 0); [lia|].
Qed.

Lemma lseek_ok f pos off : 0 ≤ off → lseek off 0 (mkFd f pos) = Ok (off, mkFd f off).
Proof. intros H. unfold lseek, lseek_set. simpl. by destruct (Z.ltb_spec off 0); [lia|]. Qed.

(** A program turns the file [f] into one with the bytes [g]. *)
Definition writes_bytes {A} (c : fd_prog A) (f : list (option Z)) (pos : Z) (a : A) (pos' : Z)
    (g : Z → Z) : Prop :=
  ∃ f', c (mkFd f pos) = Ok (a, mkFd f' pos') ∧ file_ok f' ∧ ∀ k, 0 ≤ k → byte_at f' k = g k.

Lemma write_bytes f pos bs :
  0 ≤ pos → file_ok f → Forall (in_width 8) bs →
  writes_bytes (write bs) f pos (Z.of_nat (length bs)) (pos + Z.of_nat (length bs))
    (λ k, if decide (pos ≤ k < pos + Z.of_nat (length bs)) then default 0 (bs !! Z.to_nat (k - pos))
          else byte_at f k).
Proof.
  intros Hpos Hf Hbs. eexists. split; [done|]. split; [by apply file_ok_write|].
  intros k _. by apply byte_at_write_at.
Qed.

Lemma write_one f pos c :
  0 ≤ pos → file_ok f → in_width 8 c →
  writes_bytes (write [c]) f pos 1 (pos + 1) (λ k, if decide (k = pos) then c else byte_at f k).
Proof.
  intros Hpos Hf Hc. destruct (write_bytes f pos [c] Hpos Hf) as (f' & Hw & Hf' & Hg).
  { by constructor. }
  exists f'. split; [exact Hw|]. split; [done|]. intros k Hk. rewrite Hg by done.
  destruct (decide (k = pos)) as [->|Hne]; simpl.
  - rewrite decide_True by lia. by rewrite Z.sub_diag.
  - by rewrite decide_False by lia.
Qed.

Lemma writes_bind {A B} (c : fd_prog A) (k : A → fd_prog B) f pos a pos1 g b pos2 h :
  writes_bytes c f pos a pos1 g →
  (∀ f', file_ok f' → (∀ i, 0 ≤ i → byte_at f' i = g i) → writes_bytes (k a) f' pos1 b pos2 h) →
  writes_bytes (c ≫= k) f pos b pos2 h.
Proof.
  intros (f1 & Hc & Hf1 & Hg) Hk. destruct (Hk f1 Hf1 Hg) as (f2 & Hk2 & ? & ?).
  exists f2. split; [|done]. by rewrite (bind_ok _ _ _ _ _ Hc).
Qed.

Lemma writes_ret {A} f pos (a : A) g :
  file_ok f → (∀ k, 0 ≤ k → byte_at f k = g k) → writes_bytes (mret a) f pos a pos g.
Proof. intros Hf Hg. by exists f. Qed.

Lemma set_chunks_ok fuel : ∀ n f pos,
  0 ≤ pos → 0 < n → (Z.to_nat n < fuel)%nat → file_ok f →
  ∃ m, 0 < m ≤ n ∧ writes_bytes (set_chunks fuel n) f pos (Some m) (pos + (n - m))
    (λ k, if decide (pos ≤ k < pos + (n - m)) then 255 else byte_at f k).
Proof.
  induction fuel as [|fuel IH]; intros n f pos Hpos Hn Hfuel Hf; [lia|]. simpl.
  destruct (Z.ltb_spec BMP_CHUNKSIZE n) as [Hlt|Hge].
  - unfold BMP_CHUNKSIZE in *.
    assert (Forall (in_width 8) (replicate (Z.to_nat 4096) 255)) as H255.
    { apply Forall_replicate. done. }
    pose proof (write_bytes f pos _ Hpos Hf H255) as Hw. rewrite length_replicate in Hw.
    destruct Hw as (f1 & Hw & Hf1 & Hg1).
    destruct (IH (n - 4096) f1 (pos + 4096)) as (m & Hm & f2 & Hc & Hf2 & Hg2); [lia..|done|].
    exists m. split; [lia|]. exists f2. split; [|split; [done|]].
    + rewrite (bind_ok _ _ _ _ _ Hw). simpl negb. cbv iota. change (Z.of_nat (Z.to_nat 4096)) with 4096.
      replace (pos + (n - m)) with (pos + 4096 + (n - 4096 - m)) by lia. done.
    + intros k Hk. rewrite Hg2 by done. repeat case_decide; try lia; rewrite Hg1 by done.
      * case_decide; [|lia]. rewrite lookup_replicate_2 by lia. done.
      * by rewrite decide_False by lia.
  - exists n. split; [lia|]. rewrite Z.sub_diag, Z.add_0_r. apply writes_ret; [done|].
    intros k Hk. by rewrite decide_False by lia.
Qed.

Lemma shiftr_3 x : Z.shiftr x 3 = x / 8.
Proof. by rewrite Z.shiftr_div_pow2. Qed.

Lemma land_7 x : Z.land x 7 = x mod 8.
Proof. change 7 with (Z.ones 3). by rewrite Z.land_ones. Qed.

Lemma lor_width a b : in_width 8 a → in_width 8 b → in_width 8 (Z.lor a b).
Proof.
  intros Ha Hb. assert (Z.lor a b = wrap8 (Z.lor a b)) as ->; [|by apply wrap_bound].
  apply Z.bits_inj'. intros k Hk. unfold wrap. destruct (Z_lt_le_dec k 8).
  - by rewrite Z.mod_pow2_bits_low.
  - rewrite Z.mod_pow2_bits_high by lia. rewrite Z.lor_spec.
    by rewrite !in_width_8_testbit by done.
Qed.

Lemma land_width a b : in_width 8 a → 0 ≤ b → in_width 8 (Z.land a b).
Proof.
  intros Ha Hb. assert (Z.land a b = wrap8 (Z.land a b)) as ->; [|by apply wrap_bound].
  apply Z.bits_inj'. intros k Hk. unfold wrap. destruct (Z_lt_le_dec k 8).
  - by rewrite Z.mod_pow2_bits_low.
  - rewrite Z.mod_pow2_bits_high by lia. rewrite Z.land_spec. by rewrite in_width_8_testbit.
Qed.

(** ** Setting a range *)

(** The bytes after setting the bits from [a] to [b] (inclusive). *)
Definition new_byte (g : Z → Z) (a b k : Z) : Z :=
  if decide (k = a / 8) then
    Z.lor (g k) (if decide (a / 8 = b / 8) then Z.land (left_mask (a mod 8)) (right_mask (b mod 8))
                 else left_mask (a mod 8))
  else if decide (k = b / 8) then Z.lor (g k) (right_mask (b mod 8))
  else if decide (a / 8 < k < b / 8) then 255 else g k.

Lemma set_range_bytes f pos left right :
  0 ≤ left < right → file_ok f →
  ∃ pos', writes_bytes (bitmap_file_set_range left right) f pos true pos'
    (new_byte (byte_at f) left (right - 1)).
Proof.
  intros Hlr Hf. unfold bitmap_file_set_range. destruct (Z.leb_spec right left); [lia|].
  rewrite !shiftr_3, !land_7. set (b := right - 1). assert (left ≤ b) as Hlb by lia. clearbody b.
  assert (0 ≤ left / 8 ≤ b / 8) as Hdiv by (split; [apply Z.div_pos; lia|apply Z.div_le_mono; lia]).
  pose proof (Z.mod_pos_bound left 8 ltac:(lia)) as Hl8. pose proof (Z.mod_pos_bound b 8 ltac:(lia)) as Hb8.
  pose proof (byte_at_width f (left / 8) Hf) as Hc.
  exists (b / 8 + 1). unfold writes_bytes. rewrite (bind_ok _ _ _ _ _ (lseek_ok f pos (left / 8) ltac:(lia))).
  destruct (Z.eqb_spec (left / 8) (-1)); [lia|].
  rewrite (bind_ok _ _ _ _ _ (peek_byte_ok f (left / 8) ltac:(lia))).
  pose proof (left_mask_width _ Hl8) as Hlm. pose proof (right_mask_width (b mod 8)) as Hrm.
  destruct (Z.eqb_spec (left / 8) (b / 8)) as [Heq|Hne].
  - destruct (write_one f (left / 8) (Z.lor (byte_at f (left / 8))
      (Z.land (left_mask (left mod 8)) (right_mask (b mod 8))))) as (f' & Hw & Hf' & Hg); [lia|done| |].
    { apply lor_width, land_width; [done..|]. apply Hrm. }
    exists f'. split; [rewrite (bind_ok _ _ _ _ _ Hw); by rewrite Heq|]. split; [done|].
    intros k Hk. rewrite Hg by done. unfold new_byte.
    repeat case_decide; subst; try lia; done.
  - destruct (write_one f (left / 8) (Z.lor (byte_at f (left / 8)) (left_mask (left mod 8))))
      as (f1 & Hw1 & Hf1 & Hg1); [lia|done|by apply lor_width|].
    rewrite (bind_ok _ _ _ _ _ Hw1). change (negb (1 =? 1)) with false. cbv iota.
    destruct (set_chunks_ok (S (Z.to_nat (b / 8 - left / 8))) (b / 8 - left / 8) f1 (left / 8 + 1))
      as (m & Hm & f2 & Hw2 & Hf2 & Hg2); [lia..|done|].
    rewrite (bind_ok _ _ _ _ _ Hw2).
    destruct (write_bytes f2 (left / 8 + 1 + (b / 8 - left / 8 - m))
      (replicate (Z.to_nat (m - 1)) 255)) as (f3 & Hw3 & Hf3 & Hg3); [lia|done| |].
    { apply Forall_replicate. done. }
    rewrite length_replicate, Z2Nat.id in Hw3, Hg3 by lia.
    rewrite (bind_ok _ _ _ _ _ Hw3), Z.eqb_refl. change (negb true) with false. cbv iota.
    replace (left / 8 + 1 + (b / 8 - left / 8 - m) + (m - 1)) with (b / 8) in * by lia.
    rewrite (bind_ok _ _ _ _ _ (peek_byte_ok f3 (b / 8) ltac:(lia))).
    destruct (write_one f3 (b / 8) (Z.lor (byte_at f3 (b / 8)) (right_mask (b mod 8))))
      as (f4 & Hw4 & Hf4 & Hg4); [lia|done|apply lor_width; [by apply byte_at_width|done]|].
    rewrite (bind_ok _ _ _ _ _ Hw4). eexists. split; [done|]. split; [done|].
    assert (∀ k, 0 ≤ k → byte_at f3 k =
      if decide (k = left / 8) then Z.lor (byte_at f (left / 8)) (left_mask (left mod 8))
      else if decide (left / 8 < k < b / 8) then 255 else byte_at f k) as Hg.
    { intros k Hk. rewrite Hg3 by done. case_decide.
      - rewrite lookup_replicate_2 by lia. by repeat case_decide; try lia.
      - rewrite Hg2 by done. case_decide; [by repeat case_decide; try lia|].
        rewrite Hg1 by done. repeat case_decide; try lia; done. }
    intros k Hk. rewrite Hg4, !Hg by lia. unfold new_byte. repeat case_decide; subst; try lia; done.
Qed.

Lemma new_byte_bit g a b i :
  0 ≤ a ≤ b → 0 ≤ i →
  Z.testbit (new_byte g a b (i / 8)) (7 - i mod 8) =
    Z.testbit (g (i / 8)) (7 - i mod 8) || ((a <=? i) && (i <=? b)).
Proof.
  intros Hab Hi.
  pose proof (Z.div_mod a 8 ltac:(lia)). pose proof (Z.mod_pos_bound a 8 ltac:(lia)).
  pose proof (Z.div_mod b 8 ltac:(lia)). pose proof (Z.mod_pos_bound b 8 ltac:(lia)).
  pose proof (Z.div_mod i 8 ltac:(lia)). pose proof (Z.mod_pos_bound i 8 ltac:(lia)).
  unfold new_byte.
  repeat case_decide; rewrite ?Z.lor_spec, ?Z.land_spec, ?testbit_left_mask, ?testbit_right_mask by lia.
  5: { destruct (Z.testbit (g (i / 8)) (7 - i mod 8)); simpl; lia. }
  all: try (destruct (Z.testbit (g (i / 8)) (7 - i mod 8)); simpl; lia).
  change 255 with (Z.ones 8). rewrite Z.ones_spec_low by lia.
  destruct (Z.testbit (g (i / 8)) (7 - i mod 8)); simpl; lia.
Qed.

Lemma set_range_bits f pos left right :
  0 ≤ left < right → file_ok f →
  ∃ f' pos', bitmap_file_set_range left right (mkFd f pos) = Ok (true, mkFd f' pos') ∧ file_ok f' ∧
    ∀ i, 0 ≤ i → file_bit f' i = file_bit f i || ((left <=? i) && (i <? right)).
Proof.
  intros Hlr Hf. destruct (set_range_bytes f pos left right Hlr Hf) as (pos' & f' & Hrun & Hf' & Hg).
  exists f', pos'. split_and!; [done..|]. intros i Hi. unfold file_bit.
  rewrite Hg by (by apply Z.div_pos). rewrite new_byte_bit by lia. do 2 f_equal. lia.
Qed.

(** ** Testing a range *)

(** All bits of a byte from [j1] to [j2] are set. *)
Definition bits_set (c j1 j2 : Z) : Prop := ∀ j, j1 ≤ j ≤ j2 → Z.testbit c (7 - j) = true.

Lemma land_masks_iff c j1 j2 :
  0 ≤ j1 < 8 → 0 ≤ j2 < 8 →
  (Z.land c (Z.land (left_mask j1) (right_mask j2)) =? Z.land (left_mask j1) (right_mask j2)) = true ↔
  bits_set c j1 j2.
Proof.
  intros H1 H2. rewrite land_mask_iff.
  - unfold bits_set. split.
    + intros H j Hj. apply H; [lia|]. rewrite Z.land_spec, testbit_left_mask, testbit_right_mask by lia. lia.
    + intros H k Hk. rewrite Z.land_spec, testbit_left_mask, testbit_right_mask by lia. intros Hm.
      replace k with (7 - (7 - k)) by lia. apply H. lia.
  - apply land_width; [by apply left_mask_width|apply right_mask_width].
Qed.

Lemma land_left_mask_iff c j :
  0 ≤ j < 8 → (Z.land c (left_mask j) =? left_mask j) = true ↔ bits_set c j 7.
Proof.
  intros Hj. rewrite land_mask_iff by (by apply left_mask_width). unfold bits_set. split.
  - intros H i Hi. apply H; [lia|]. rewrite testbit_left_mask by lia. lia.
  - intros H k Hk. rewrite testbit_left_mask by lia. intros Hm.
    replace k with (7 - (7 - k)) by lia. apply H. lia.
Qed.

Lemma land_right_mask_iff c j :
  0 ≤ j < 8 → (Z.land c (right_mask j) =? right_mask j) = true ↔ bits_set c 0 j.
Proof.
  intros Hj. rewrite land_mask_iff by (apply right_mask_width). unfold bits_set. split.
  - intros H i Hi. apply H; [lia|]. rewrite testbit_right_mask by lia. lia.
  - intros H k Hk. rewrite testbit_right_mask by lia. intros Hm.
    replace k with (7 - (7 - k)) by lia. apply H. lia.
Qed.

Lemma bits_set_255 c : in_width 8 c → bits_set c 0 7 ↔ c = 255.
Proof.
  intros Hc. split; [|intros ->; intros j Hj; change 255 with (Z.ones 8); apply Z.ones_spec_low; lia].
  intros H. apply Z.bits_inj'. intros k Hk. change 255 with (Z.ones 8). destruct (Z_lt_le_dec k 8).
  - rewrite Z.ones_spec_low by lia. replace k with (7 - (7 - k)) by lia. apply H. lia.
  - rewrite Z.ones_spec_high by lia. by apply in_width_8_testbit.
Qed.

Lemma bits_set_0 j1 j2 : j1 ≤ j2 → ¬ bits_set 0 j1 j2.
Proof. intros H Hs. specialize (Hs j1 ltac:(lia)). by rewrite Z.bits_0 in Hs. Qed.

(** All bits of a file from [a] to [b] are set, byte by byte. *)
Lemma range_set_iff f a b :
  0 ≤ a ≤ b →
  (∀ i, a ≤ i ≤ b → file_bit f i = true) ↔
  if decide (a / 8 = b / 8) then bits_set (byte_at f (a / 8)) (a mod 8) (b mod 8)
  else bits_set (byte_at f (a / 8)) (a mod 8) 7 ∧
    (∀ k, a / 8 < k < b / 8 → bits_set (byte_at f k) 0 7) ∧
    bits_set (byte_at f (b / 8)) 0 (b mod 8).
Proof.
  intros Hab.
  pose proof (Z.div_mod a 8 ltac:(lia)). pose proof (Z.mod_pos_bound a 8 ltac:(lia)).
  pose proof (Z.div_mod b 8 ltac:(lia)). pose proof (Z.mod_pos_bound b 8 ltac:(lia)).
  assert (∀ k j, 0 ≤ j < 8 → file_bit f (8 * k + j) = Z.testbit (byte_at f k) (7 - j)) as Hbit.
  { intros k j Hj. unfold file_bit. f_equal.
    - f_equal. rewrite Z.mul_comm, Z.div_add_l by lia. rewrite (Z.div_small j) by lia. lia.
    - rewrite Z.add_comm, Z.mul_comm, Z.mod_add by lia. rewrite Z.mod_small by lia. done. }
  case_decide as Hd; unfold bits_set.
  - split.
    + intros Hi j Hj. rewrite <-Hbit by lia. apply Hi. lia.
    + intros Hj i Hi. pose proof (Z.div_mod i 8 ltac:(lia)). pose proof (Z.mod_pos_bound i 8 ltac:(lia)).
      assert (i / 8 = a / 8) as Hia by lia. unfold file_bit. rewrite Hia. apply Hj. lia.
  - split.
    + intros Hi. split_and!; intros; rewrite <-Hbit by lia; apply Hi; lia.
    + intros (Hl & Hm & Hr) i Hi.
      pose proof (Z.div_mod i 8 ltac:(lia)). pose proof (Z.mod_pos_bound i 8 ltac:(lia)).
      unfold file_bit. destruct (decide (i / 8 = a / 8)) as [e|]; [rewrite e; apply Hl; lia|].
      destruct (decide (i / 8 = b / 8)) as [e|]; [rewrite e; apply Hr; lia|]. apply Hm; lia.
Qed.

Lemma forallb_255 chunk :
  forallb (λ c, c =? 255) chunk = true ↔ ∀ i c, chunk !! i = Some c → c = 255.
Proof.
  induction chunk as [|x chunk IH]; simpl; [naive_solver|].
  rewrite andb_true_iff, IH, Z.eqb_eq. split.
  - intros [-> H] [|i] c; simpl; [by intros [= <-]|apply H].
  - intros H. split; [by apply (H 0%nat)|]. intros i. apply (H (S i)).
Qed.

(** Reading [n] bytes at [pos]: either all bytes are there, or the last one is zero. *)
Lemma read_full f pos n :
  0 ≤ pos → 0 < n →
  Z.of_nat (length (read_at f pos n)) = n ∨
  Z.of_nat (length (read_at f pos n)) ≠ n ∧ byte_at f (pos + n - 1) = 0.
Proof.
  intros Hpos Hn. rewrite read_at_length.
  destruct (Z_le_gt_dec (pos + n) (Z.of_nat (length f))); [left; lia|right; split; [lia|]].
  unfold byte_at. by rewrite stored_beyond by lia.
Qed.

Lemma isset_chunks_ok f : file_ok f → ∀ fuel n pos,
  0 ≤ pos → 0 < n → (Z.to_nat n < fuel)%nat →
  ∃ r pos', isset_chunks fuel n (mkFd f pos) = Ok (r, mkFd f pos') ∧
    match r with
    | Some m => 0 < m ≤ n ∧ pos' = pos + (n - m) ∧
        ∀ k, pos ≤ k < pos + (n - m) → byte_at f k = 255
    | None => ∃ k, pos ≤ k < pos + n - 1 ∧ byte_at f k ≠ 255
    end.
Proof.
  intros Hf. induction fuel as [|fuel IH]; intros n pos Hpos Hn Hfuel; [lia|]. simpl.
  destruct (Z.ltb_spec BMP_CHUNKSIZE n) as [Hlt|Hge].
  - unfold BMP_CHUNKSIZE in *. unfold mbind at 1, st_bind at 1. simpl.
    destruct (read_full f pos 4096 Hpos ltac:(done)) as [Hlen|[Hlen Hz]].
    + rewrite Hlen. change (negb (4096 =? 4096)) with false. cbv iota.
      destruct (forallb (λ c, c =? 255) (read_at f pos 4096)) eqn:Hall; simpl.
      * destruct (IH (n - 4096) (pos + 4096)) as (r & pos' & Hrun & Hr); [lia..|].
        exists r, pos'. split; [done|]. destruct r as [m|].
        -- destruct Hr as (? & -> & Hk). split_and!; [lia|lia|lia|]. intros k Hk'.
           destruct (Z_lt_le_dec k (pos + 4096)); [|apply Hk; lia].
           rewrite forallb_255 in Hall. apply (Hall (Z.to_nat (k - pos))).
           rewrite read_at_lookup by lia. do 2 f_equal. lia.
        -- destruct Hr as (k & ? & ?). exists k. split; [lia|done].
      * exists None. eexists. split; [done|].
        assert (¬ ∀ i c, read_at f pos 4096 !! i = Some c → c = 255) as Hex
          by (by rewrite <-forallb_255, Hall).
        destruct (decide (Forall (λ c, c = 255) (read_at f pos 4096))) as [Hfa|Hfa].
        { destruct Hex. intros i c Hi. by apply (Forall_lookup_1 _ _ _ _ Hfa) in Hi. }
        apply not_Forall_Exists in Hfa; [|intros c; apply _].
        apply Exists_exists in Hfa as (c & [i Hi]%list_elem_of_lookup & Hc).
        pose proof (lookup_lt_Some _ _ _ Hi). rewrite read_at_lookup in Hi by lia.
        exists (pos + Z.of_nat i). split; [lia|]. naive_solver.
    + destruct (Z.eqb_spec (Z.of_nat (length (read_at f pos 4096))) 4096); [done|]. simpl.
      exists None. eexists. split; [done|]. exists (pos + 4096 - 1). split; [lia|]. by rewrite Hz.
  - exists (Some n), pos. split; [done|]. split_and!; [lia|lia|lia|]. intros k Hk. lia.
Qed.

(** The final chunk: all its bytes but the last are full. *)
Lemma last_chunk f pos m :
  file_ok f → 0 ≤ pos → 0 < m → Z.of_nat (length (read_at f pos m)) = m →
  (forallb (λ c, c =? 255) (take (Z.to_nat (m - 1)) (read_at f pos m)) = true ↔
    ∀ k, pos ≤ k < pos + m - 1 → byte_at f k = 255) ∧
  read_byte (read_at f pos m) (m - 1) = Ok (byte_at f (pos + m - 1)).
Proof.
  intros Hf Hpos Hm Hlen. split.
  - rewrite forallb_255. split.
    + intros H k Hk. apply (H (Z.to_nat (k - pos))). rewrite lookup_take_lt by lia.
      rewrite read_at_lookup by lia. do 2 f_equal. lia.
    + intros H i c [Hi Hlt]%lookup_take_Some. rewrite read_at_lookup in Hi by lia.
      injection Hi as <-. apply H. lia.
  - unfold read_byte. rewrite read_at_lookup by lia. destruct (Z.leb_spec 0 (m - 1)); [|lia].
    do 2 f_equal. lia.
Qed.

Lemma read_ok f pos n :
  read n (mkFd f pos) =
    Ok (read_at f pos n, mkFd f (pos + Z.of_nat (length (read_at f pos n)))).
Proof. done. Qed.

Lemma isset_ok f pos left right :
  0 ≤ left < right → file_ok f →
  ∃ r pos', bitmap_file_isset left right (mkFd f pos) = Ok (r, mkFd f pos') ∧
    (r = true ↔ ∀ i, left ≤ i < right → file_bit f i = true).
Proof.
  intros Hlr Hf. unfold bitmap_file_isset. destruct (Z.leb_spec right left); [lia|].
  rewrite !shiftr_3, !land_7. set (b := right - 1). assert (left ≤ b) as Hlb by lia.
  assert ((∀ i, left ≤ i < right → file_bit f i = true) ↔ ∀ i, left ≤ i ≤ b → file_bit f i = true) as Hiff.
  { split; intros H' i Hi; apply H'; lia. }
  pose proof (range_set_iff f left b ltac:(lia)) as Hrange.
  setoid_rewrite Hiff. setoid_rewrite Hrange. clearbody b. clear Hiff Hrange.
  assert (0 ≤ left / 8 ≤ b / 8) as Hdiv by (split; [apply Z.div_pos; lia|apply Z.div_le_mono; lia]).
  pose proof (Z.mod_pos_bound left 8 ltac:(lia)) as Hl8. pose proof (Z.mod_pos_bound b 8 ltac:(lia)) as Hb8.
  rewrite (bind_ok _ _ _ _ _ (lseek_ok f pos (left / 8) ltac:(lia))).
  destruct (Z.eqb_spec (left / 8) (-1)); [lia|]. rewrite (bind_ok _ _ _ _ _ (read_ok f (left / 8) 1)).
  destruct (read_full f (left / 8) 1) as [Hlen|[Hlen Hz]]; [lia|done| |].
  2: { rewrite Z.add_simpl_r in Hz.
    pose proof (read_at_length f (left / 8) 1) as Hlen'.
    change (Z.to_nat 1) with 1%nat in Hlen'.
    destruct (read_at f (left / 8) 1) as [|]; cbn [length] in *; [|lia].
    exists false. eexists. split; [done|]. split; [done|]. rewrite Hz.
    pose proof (Z.div_mod left 8 ltac:(lia)). pose proof (Z.div_mod b 8 ltac:(lia)).
    case_decide; [intros Hb|intros (Hb & _)]; by apply bits_set_0 in Hb; [|lia]. }
  pose proof (read_at_lookup f (left / 8) 1 0 ltac:(lia)) as Hc.
  destruct (read_at f (left / 8) 1) as [|c [|]]; cbn [length] in Hlen; [lia| |lia].
  simpl in Hc. rewrite Z.add_0_r in Hc. specialize (Hc ltac:(lia)). injection Hc as ->.
  destruct (Z.eqb_spec (left / 8) (b / 8)) as [Heq|Hne].
  { rewrite decide_True by done. eexists _, _. split; [done|]. by apply land_masks_iff. }
  rewrite decide_False by done.
  setoid_rewrite <-(land_left_mask_iff _ _ Hl8). setoid_rewrite <-(land_right_mask_iff _ _ Hb8).
  destruct (Z.land _ (left_mask _) =? _); change (negb true) with false; change (negb false) with true; cbv iota.
  2: { exists false. eexists. split; [done|]. naive_solver. }
  destruct (isset_chunks_ok f Hf (S (Z.to_nat (b / 8 - left / 8))) (b / 8 - left / 8) (left / 8 + 1))
    as (r & pos1 & Hrun & Hr); [lia..|].
  cbn [length]. change (Z.of_nat 1) with 1. rewrite (bind_ok _ _ _ _ _ Hrun). destruct r as [m|].
  2: { exists false. eexists. split; [done|]. split; [done|]. destruct Hr as (k & Hk & Hkn).
    intros (_ & Hall & _). destruct Hkn. apply bits_set_255; [by apply byte_at_width|]. apply Hall. lia. }
  destruct Hr as (Hm & -> & Hfull). rewrite (bind_ok _ _ _ _ _ (read_ok f _ m)).
  destruct (read_full f (left / 8 + 1 + (b / 8 - left / 8 - m)) m) as [Hlen1|[Hlen1 Hz]]; [lia..| |].
  2: { destruct (Z.eqb_spec (Z.of_nat (length (read_at f (left / 8 + 1 + (b / 8 - left / 8 - m)) m))) m); [done|].
    exists false. eexists. split; [done|]. split; [done|]. intros (_ & _ & Hb).
    replace (left / 8 + 1 + (b / 8 - left / 8 - m) + m - 1) with (b / 8) in Hz by lia. rewrite Hz in Hb.
    rewrite land_right_mask_iff in Hb by done. by apply bits_set_0 in Hb; [|lia]. }
  destruct (last_chunk f (left / 8 + 1 + (b / 8 - left / 8 - m)) m) as [Hall Hlast]; [done|lia|lia|done|].
  rewrite Hlen1, Z.eqb_refl. change (negb true) with false. cbv iota.
  replace (left / 8 + 1 + (b / 8 - left / 8 - m) + m - 1) with (b / 8) in * by lia.
  destruct (forallb _ _) eqn:Hfa; change (negb true) with false; change (negb false) with true; cbv iota.
  - unfold mbind, st_bind, st_lift. rewrite Hlast. eexists _, _. split; [done|].
    split; [|naive_solver]. intros Hb. split_and!; [done| |done]. intros k Hk.
    apply bits_set_255; [by apply byte_at_width|].
    destruct (Z_lt_le_dec k (left / 8 + 1 + (b / 8 - left / 8 - m))); [apply Hfull; lia|].
    apply Hall; [done|lia].
  - exists false. eexists. split; [done|]. split; [done|]. intros (_ & Hk & _).
    assert (false = true) as ?; [|done]. apply Hall. intros k Hk'.
    apply bits_set_255; [by apply byte_at_width|]. apply Hk. lia.
Qed.

(** ** Properties *)

(** Set a sequence of ranges, then test one. *)
Fixpoint set_ranges (rs : list (Z * Z)) : fd_prog (list bool) :=
  match rs with
  | [] => mret []
  | (l, r) :: rs => b ← bitmap_file_set_range l r; bs ← set_ranges rs; mret (b :: bs)
  end.

Definition bitmap_file_session (rs : list (Z * Z)) (left right : Z) : fd_prog (list bool * bool) :=
  bs ← set_ranges rs;
  b ← bitmap_file_isset left right;
  mret (bs, b).

Definition range_ok (r : Z * Z) : Prop := 0 ≤ r.1 < r.2.

Lemma set_ranges_ok rs : ∀ f pos,
  Forall range_ok rs → file_ok f →
  ∃ f' pos', set_ranges rs (mkFd f pos) = Ok (replicate (length rs) true, mkFd f' pos') ∧ file_ok f' ∧
    ∀ i, 0 ≤ i → file_bit f' i = file_bit f i || existsb (λ r, (r.1 <=? i) && (i <? r.2)) rs.
Proof.
  induction rs as [|[l r] rs IH]; intros f pos Hrs Hf; simpl.
  { exists f, pos. split_and!; [done..|]. intros i _. by rewrite orb_false_r. }
  apply Forall_cons in Hrs as [Hr Hrs].
  destruct (set_range_bits f pos l r Hr Hf) as (f1 & pos1 & Hrun1 & Hf1 & Hb1).
  destruct (IH f1 pos1 Hrs Hf1) as (f2 & pos2 & Hrun2 & Hf2 & Hb2).
  exists f2, pos2. rewrite (bind_ok _ _ _ _ _ Hrun1), (bind_ok _ _ _ _ _ Hrun2).
  split_and!; [done..|]. intros i Hi. by rewrite Hb2, Hb1, orb_assoc by done.
Qed.

(** C20: a bitmap file is a set of offsets.  On an empty file, setting any
    sequence of nonempty ranges succeeds, and then testing a range returns true
    exactly if each of its offsets lies in one of the ranges that were set,
    wherever the ranges start and end inside a byte and however many chunks they
    span. *)
Theorem bitmap_file_refines rs left right
    (Hrs : Forall range_ok rs) (Hlr : range_ok (left, right)) :
  ∃ b fd, bitmap_file_session rs left right (mkFd [] 0) = Ok (replicate (length rs) true, b, fd) ∧
    (b = true ↔ ∀ i, left ≤ i < right → ∃ r, r ∈ rs ∧ r.1 ≤ i < r.2).
Proof.
  destruct (set_ranges_ok rs [] 0 Hrs) as (f & pos & Hrun & Hf & Hbits); [constructor|].
  destruct (isset_ok f pos left right Hlr Hf) as (b & pos' & Hisset & Hb).
  exists b, (mkFd f pos'). split.
  - unfold bitmap_file_session. by rewrite (bind_ok _ _ _ _ _ Hrun), (bind_ok _ _ _ _ _ Hisset).
  - rewrite Hb. unfold range_ok in Hlr. simpl in Hlr.
    assert (∀ i, 0 ≤ i → file_bit f i = true ↔ ∃ r, r ∈ rs ∧ r.1 ≤ i < r.2) as Hi.
    { intros i Hi. rewrite Hbits by done. unfold file_bit, byte_at, stored.
      rewrite lookup_nil. assert (∀ x, Z.testbit (default 0 (if 0 <=? x then None ≫= id else None)) (7 - i mod 8) = false) as ->
        by (intros; case_match; apply Z.bits_0). simpl.
      rewrite existsb_exists. setoid_rewrite <-list_elem_of_In.
      split; intros (r & ? & ?); exists r; (split; [done|lia]). }
    split; intros H i Hr; apply Hi; auto; lia.
Qed.

Lemma bitmap_file_refines_witness :
  ∃ b fd, bitmap_file_session [(3, 9); (9, 70000)] 5 69999 (mkFd [] 0) =
      Ok (replicate 2 true, b, fd) ∧
    (b = true ↔ ∀ i, 5 ≤ i < 69999 → ∃ r, r ∈ [(3, 9); (9, 70000)] ∧ r.1 ≤ i < r.2).
Proof.
  apply (bitmap_file_refines [(3, 9); (9, 70000)] 5 69999).
  - repeat constructor; simpl; lia.
  - unfold range_ok. simpl. lia.
Defined.

(** [bitmap_file_get_range] disagrees with [bitmap_file_isset].  It numbers the
    bits of a byte from the least significant one, and passes the arguments of
    [lseek] in the wrong order, so after setting the offsets 0 to 3 it reports the
    offsets 4 to 7, and after setting the offsets 8 to 15 it reports none. *)
Theorem bitmap_file_get_range_wrong :
  (match (bitmap_file_set_range 0 4;; bitmap_file_get_range 0 8) (mkFd [] 0) with
   | Ok (Some b, _) => bm_data b = [240] | _ => False end) ∧
  (match (bitmap_file_set_range 8 16;; bitmap_file_get_range 8 16) (mkFd [] 0) with
   | Ok (Some b, _) => bm_data b = [0] | _ => False end).
Proof. split; vm_compute; reflexivity. Qed.
