(* ===== verification/FileIface.v ===== *)
(** * The file layer as its clients see it

    The directory layer and the FUSE operations use files only through the
    functions of [gdpfs_file.h].  [FileOps] lists these functions for a state
    type [S]; [FileLaws] is the contract: an abstract state of files and open
    handles, and the effect of every function on it. *)
From S2P Require Import Prelude.
From S2P Require Import State.
From S2P Require Import Types.

(** A [gdpfs_file_gname_t]: the 32 bytes of the name of a log. *)
Abbreviation file_gname := (list Z).
Definition GNAME_SIZE : nat := 32.

(** ** Operations *)

Class FileOps (S : Type) := {
  gdpfs_file_open : file_gname → st S (stat * Z);
  gdpfs_file_open_type : file_gname → gdpfs_file_type → st S (stat * Z);
  gdpfs_file_open_init : file_gname → gdpfs_file_type → Z → bool → st S (stat * Z);
  gdpfs_file_create : gdpfs_file_type → Z → st S (stat * Z * file_gname);
  gdpfs_file_close : Z → st S stat;
  gdpfs_file_gname : Z → st S file_gname;
  (* size and offset; the bytes that were read *)
  gdpfs_file_read : Z → Z → Z → st S (list Z);
  (* buffer and offset; the number of bytes written *)
  gdpfs_file_write : Z → list Z → Z → st S Z;
  gdpfs_file_ftruncate : Z → Z → st S Z;
  gdpfs_file_set_perm : Z → Z → st S stat;
  gdpfs_file_get_info : Z → st S (stat * gdpfs_file_info);
}.

(** ** The abstract state *)

(** The bytes that were written stay, also beyond a size that was cut. *)
Record afile := mkAfile {
  af_info : gdpfs_file_info;
  af_data : gmap Z Z;
}.

#[export] Instance afile_eq_dec : EqDecision afile.
Proof. solve_decision. Defined.

Record afs := mkAfs {
  a_files : gmap file_gname afile;
  a_handles : gmap Z file_gname;
}.

Definition af_byte (f : afile) (i : Z) : Z := default 0 (af_data f !! i).

(** Reading stops at the size of the file. *)
Definition read_file (f : afile) (size offset : Z) : list Z :=
  af_byte f <$> seqZ offset (Z.max 0 (Z.min size (file_size (af_info f) - offset))).

Fixpoint write_data (m : gmap Z Z) (bs : list Z) (offset : Z) : gmap Z Z :=
  match bs with
  | [] => m
  | b :: bs => <[offset := b]> (write_data m bs (offset + 1))
  end.

Definition with_size (i : gdpfs_file_info) (n : Z) : gdpfs_file_info :=
  mkInfo n (file_type i) (file_perm i).
Definition with_perm (i : gdpfs_file_info) (p : Z) : gdpfs_file_info :=
  mkInfo (file_size i) (file_type i) p.

Definition write_file (f : afile) (bs : list Z) (offset : Z) : afile :=
  mkAfile (with_size (af_info f) (Z.max (file_size (af_info f)) (offset + Z.of_nat (length bs))))
    (write_data (af_data f) bs offset).

Definition set_file (a : afs) (g : file_gname) (f : afile) : afs :=
  mkAfs (<[g := f]> (a_files a)) (a_handles a).
Definition set_handle (a : afs) (fh : Z) (g : file_gname) : afs :=
  mkAfs (a_files a) (<[fh := g]> (a_handles a)).
Definition drop_handle (a : afs) (fh : Z) : afs :=
  mkAfs (a_files a) (delete fh (a_handles a)).

(** The file of an open handle. *)
Definition handle_file (a : afs) (fh : Z) (g : file_gname) (f : afile) : Prop :=
  a_handles a !! fh = Some g ∧ a_files a !! g = Some f.

Definition type_matches (type : gdpfs_file_type) (f : afile) : bool :=
  bool_decide (type = GDPFS_FILE_TYPE_UNKNOWN) || bool_decide (file_type (af_info f) = type).

(** The types of files that exist: not the ones that mark a new or unknown file. *)
Definition plain_type (type : gdpfs_file_type) : bool :=
  match type with GDPFS_FILE_TYPE_REGULAR | GDPFS_FILE_TYPE_DIR => true | _ => false end.

(** A log without entries gets its type when it is first initialised. *)
Definition init_file (a : afs) (g : file_gname) (f : afile) (type : gdpfs_file_type) (perm : Z) : afs :=
  if decide (file_type (af_info f) = GDPFS_FILE_TYPE_NEW)
  then set_file a g (mkAfile (mkInfo 0 type perm) (af_data f)) else a.

(** ** The contract

    [max_handles], [max_files] and [max_offset] are the resources of the
    layer. *)
Class FileLaws (S : Type) `{FileOps S} := {
  file_rep : S → afs → Prop;
  max_handles : nat;
  max_files : Z;
  max_offset : Z;

  open_type_ok s a g f type :
    file_rep s a → a_files a !! g = Some f → plain_type (file_type (af_info f)) = true → (size (a_handles a) < max_handles)%nat →
    type_matches type f = true →
    ∃ fh s', gdpfs_file_open_type g type s = Ok ((GDPFS_STAT_OK, fh), s') ∧ 0 ≤ fh ∧
      a_handles a !! fh = None ∧ file_rep s' (set_handle a fh g);
  open_type_mismatch s a g f type :
    file_rep s a → a_files a !! g = Some f → (size (a_handles a) < max_handles)%nat →
    plain_type (file_type (af_info f)) = true → type_matches type f = false →
    ∃ s', gdpfs_file_open_type g type s = Ok ((GDPFS_STAT_INVLDFTYPE, -1), s') ∧ file_rep s' a;
  open_ok s a g f :
    file_rep s a → a_files a !! g = Some f → plain_type (file_type (af_info f)) = true → (size (a_handles a) < max_handles)%nat →
    ∃ fh s', gdpfs_file_open g s = Ok ((GDPFS_STAT_OK, fh), s') ∧ 0 ≤ fh ∧
      a_handles a !! fh = None ∧ file_rep s' (set_handle a fh g);
  create_ok s a type perm :
    file_rep s a → (size (a_handles a) < max_handles)%nat →
    Z.of_nat (size (a_files a)) < max_files → plain_type type = true → in_width 16 perm →
    ∃ g fh s', gdpfs_file_create type perm s = Ok ((GDPFS_STAT_OK, fh, g), s') ∧
      length g = GNAME_SIZE ∧ Forall (in_width 8) g ∧ 0 ≤ fh ∧
      a_files a !! g = None ∧ a_handles a !! fh = None ∧
      file_rep s' (set_handle (set_file a g (mkAfile (mkInfo 0 type perm) ∅)) fh g);
  open_init_ok s a g f type perm :
    file_rep s a → a_files a !! g = Some f → (size (a_handles a) < max_handles)%nat →
    plain_type type = true → in_width 16 perm →
    ∃ fh s', gdpfs_file_open_init g type perm false s = Ok ((GDPFS_STAT_OK, fh), s') ∧ 0 ≤ fh ∧
      a_handles a !! fh = None ∧ file_rep s' (set_handle (init_file a g f type perm) fh g);
  close_ok s a fh g :
    file_rep s a → a_handles a !! fh = Some g →
    ∃ e s', gdpfs_file_close fh s = Ok (e, s') ∧ file_rep s' (drop_handle a fh);
  gname_ok s a fh g :
    file_rep s a → a_handles a !! fh = Some g → ∃ s', gdpfs_file_gname fh s = Ok (g, s') ∧ file_rep s' a;
  read_ok s a fh g f n off :
    file_rep s a → handle_file a fh g f → 0 ≤ off → 0 ≤ n → off + n < max_offset →
    ∃ s', gdpfs_file_read fh n off s = Ok (read_file f n off, s') ∧ file_rep s' a;
  write_ok s a fh g f bs off :
    file_rep s a → handle_file a fh g f → 0 ≤ off → off + Z.of_nat (length bs) < max_offset →
    Forall (in_width 8) bs →
    ∃ s', gdpfs_file_write fh bs off s = Ok (Z.of_nat (length bs), s') ∧
      file_rep s' (set_file a g (write_file f bs off));
  ftruncate_ok s a fh g f n :
    file_rep s a → handle_file a fh g f →
    ∃ s', gdpfs_file_ftruncate fh n s = Ok (0, s') ∧
      file_rep s' (set_file a g (mkAfile (with_size (af_info f) 0) (af_data f)));
  set_perm_ok s a fh g f p :
    file_rep s a → handle_file a fh g f → in_width 16 p →
    ∃ s', gdpfs_file_set_perm fh p s = Ok (GDPFS_STAT_OK, s') ∧
      file_rep s' (set_file a g (mkAfile (with_perm (af_info f) p) (af_data f)));
  get_info_ok s a fh g f :
    file_rep s a → handle_file a fh g f →
    ∃ s', gdpfs_file_get_info fh s = Ok ((GDPFS_STAT_OK, af_info f), s') ∧ file_rep s' a;
}.

(** ** Lemmas on abstract files *)

Lemma write_data_lookup m bs off i :
  write_data m bs off !! i =
    if decide (off ≤ i < off + Z.of_nat (length bs)) then bs !! Z.to_nat (i - off) else m !! i.
Proof.
  revert off. induction bs as [|b bs IH]; intros off; simpl.
  { by rewrite decide_False by lia. }
  destruct (decide (i = off)) as [->|Hne].
  - rewrite lookup_insert_eq, decide_True by lia. by rewrite Z.sub_diag.
  - rewrite lookup_insert_ne, IH by done. repeat case_decide; try lia; [|done].
    replace (Z.to_nat (i - off)) with (S (Z.to_nat (i - (off + 1)))) by lia. done.
Qed.

Lemma af_byte_write f bs off i :
  af_byte (write_file f bs off) i =
    if decide (off ≤ i < off + Z.of_nat (length bs)) then default 0 (bs !! Z.to_nat (i - off))
    else af_byte f i.
Proof. unfold af_byte. simpl. rewrite write_data_lookup. by case_decide. Qed.

Lemma read_file_length f n off :
  Z.of_nat (length (read_file f n off)) = Z.max 0 (Z.min n (file_size (af_info f) - off)).
Proof. unfold read_file. rewrite length_fmap, length_seqZ. lia. Qed.

Lemma handle_file_set_file a fh g f f' :
  handle_file a fh g f → handle_file (set_file a g f') fh g f'.
Proof. intros [? ?]. split; [done|]. apply lookup_insert_eq. Qed.
