(* ===== verification/Fresh.v ===== *)
(** * Fresh numbers and names

    The least number that is not in use, and log names made from numbers; the
    reference instances of the interfaces choose handles and names with them. *)
From S2P Require Import Prelude.
From S2P Require Import FileIface.

(** The least number from [i] on that [used] does not hold of, among [n]. *)
Fixpoint least_free (used : Z → bool) (n : nat) (i : Z) : option Z :=
  match n with
  | O => None
  | S n => if used i then least_free used n (i + 1) else Some i
  end.

(** ** Names

    The name with the number [i]. *)
Definition ref_name (i : Z) : file_gname := i / 256 :: i mod 256 :: replicate 30 0.

(** ** Lemmas *)

Lemma least_free_Some used n i j :
  least_free used n i = Some j → used j = false ∧ i ≤ j < i + Z.of_nat n.
Proof.
  revert i. induction n as [|n IH]; intros i; simpl; [done|].
  destruct (used i) eqn:Hu; [intros []%IH; split; [done|lia]|]. intros [= ->]. split; [done|lia].
Qed.

Lemma least_free_None used n i :
  least_free used n i = None → ∀ j, i ≤ j < i + Z.of_nat n → used j = true.
Proof.
  revert i. induction n as [|n IH]; intros i; simpl; [lia|].
  destruct (used i) eqn:Hu; [|done]. intros Hn j Hj. destruct (decide (j = i)) as [->|]; [done|].
  apply (IH (i + 1)); [done|lia].
Qed.

(** A map with fewer keys than candidates leaves one free. *)
Lemma least_free_exists {K A} `{Countable K} (m : gmap K A) (key : Z → K) n :
  (∀ i j, 0 ≤ i < Z.of_nat n → 0 ≤ j < Z.of_nat n → key i = key j → i = j) →
  (size m < n)%nat → is_Some (least_free (λ i, bool_decide (is_Some (m !! key i))) n 0).
Proof.
  intros Hinj Hsize. destruct (least_free _ _ _) as [j|] eqn:Hl; [done|].
  pose proof (least_free_None _ _ _ Hl) as Hall. clear Hl. exfalso.
  set (ks := key <$> seqZ 0 (Z.of_nat n)).
  assert (NoDup ks) as Hnd.
  { apply NoDup_fmap_2_strong; [|apply NoDup_seqZ]. intros i j Hi Hj.
    apply elem_of_seqZ in Hi, Hj. apply Hinj; lia. }
  assert (list_to_set ks ⊆ dom m) as Hsub.
  { intros k Hk. apply elem_of_list_to_set, list_elem_of_fmap in Hk as (i & -> & Hi).
    apply elem_of_seqZ in Hi. specialize (Hall i ltac:(lia)).
    apply bool_decide_eq_true in Hall. by apply elem_of_dom. }
  apply subseteq_size in Hsub. rewrite size_list_to_set, size_dom in Hsub by done.
  unfold ks in Hsub. rewrite length_fmap, length_seqZ in Hsub. lia.
Qed.

Lemma ref_name_inj i j : ref_name i = ref_name j → i = j.
Proof.
  unfold ref_name. intros [= Hd Hm]. rewrite (Z.div_mod i 256), (Z.div_mod j 256) by lia. lia.
Qed.

Lemma ref_name_ok i : 0 ≤ i < 65536 →
  length (ref_name i) = GNAME_SIZE ∧ Forall (in_width 8) (ref_name i).
Proof.
  intros Hi. split; [done|]. constructor; [|constructor; [|by apply Forall_replicate]].
  - split; [apply Z.div_pos; lia|]. apply Z.div_lt_upper_bound; lia.
  - apply Z.mod_pos_bound. lia.
Qed.

