(* ===== verification/FileRef.v ===== *)
(** * A reference file layer

    The contract of [FileIface] has a model: the abstract state itself, with
    the least free handle and the least free name.  The theorems on the clients
    of the file layer are evaluated on it. *)
From S2P Require Import Prelude.
From S2P Require Import State.
From S2P Require Import Types.
From S2P Require Import FileIface.
From S2P Require Import Fresh.

Definition REF_HANDLES : nat := 1024.
Definition REF_FILES : Z := 65536.
Definition REF_OFFSET : Z := 4294967295.

Definition fresh_handle (a : afs) : option Z :=
  least_free (λ fh, bool_decide (is_Some (a_handles a !! fh))) REF_HANDLES 0.
Definition fresh_name (a : afs) : option file_gname :=
  ref_name <$> least_free (λ i, bool_decide (is_Some (a_files a !! ref_name i))) (S (size (a_files a))) 0.

Definition ref_open (g : file_gname) (type : gdpfs_file_type) : st afs (stat * Z) := λ a,
  match a_files a !! g, fresh_handle a with
  | Some f, Some fh =>
      if type_matches type f then Ok ((GDPFS_STAT_OK, fh), set_handle a fh g)
      else Ok ((GDPFS_STAT_INVLDFTYPE, -1), a)
  | None, _ => Ok ((GDPFS_STAT_NOTFOUND, -1), a)
  | _, None => Ok ((GDPFS_STAT_OOMEM, -1), a)
  end.

Definition ref_open_init (g : file_gname) (type : gdpfs_file_type) (perm : Z) (strict : bool)
    : st afs (stat * Z) := λ a,
  match a_files a !! g, fresh_handle a with
  | Some f, Some fh => Ok ((GDPFS_STAT_OK, fh), set_handle (init_file a g f type perm) fh g)
  | None, _ => Ok ((GDPFS_STAT_NOTFOUND, -1), a)
  | _, None => Ok ((GDPFS_STAT_OOMEM, -1), a)
  end.

Definition ref_create (type : gdpfs_file_type) (perm : Z) : st afs (stat * Z * file_gname) := λ a,
  match fresh_name a, fresh_handle a with
  | Some g, Some fh =>
      Ok ((GDPFS_STAT_OK, fh, g), set_handle (set_file a g (mkAfile (mkInfo 0 type perm) ∅)) fh g)
  | _, _ => Ok ((GDPFS_STAT_OOMEM, -1, []), a)
  end.

(** An operation on the file of an open handle. *)
Definition ref_update {A} (fh : Z) (bad : A) (op : file_gname → afile → A * afile) : st afs A := λ a,
  match a_handles a !! fh with
  | Some g =>
      match a_files a !! g with
      | Some f => Ok ((op g f).1, set_file a g (op g f).2)
      | None => Ok (bad, a)
      end
  | None => Ok (bad, a)
  end.

#[export] Instance ref_ops : FileOps afs := {|
  gdpfs_file_open g := ref_open g GDPFS_FILE_TYPE_UNKNOWN;
  gdpfs_file_open_type := ref_open;
  gdpfs_file_open_init := ref_open_init;
  gdpfs_file_create := ref_create;
  gdpfs_file_close fh := λ a,
    Ok (if a_handles a !! fh then GDPFS_STAT_OK else GDPFS_STAT_BADFH, drop_handle a fh);
  gdpfs_file_gname fh := λ a, Ok (default [] (a_handles a !! fh), a);
  gdpfs_file_read fh n off := ref_update fh [] (λ _ f, (read_file f n off, f));
  gdpfs_file_write fh bs off := ref_update fh 0 (λ _ f, (Z.of_nat (length bs), write_file f bs off));
  gdpfs_file_ftruncate fh n := ref_update fh 0 (λ _ f, (0, mkAfile (with_size (af_info f) 0) (af_data f)));
  gdpfs_file_set_perm fh p :=
    ref_update fh GDPFS_STAT_BADFH (λ _ f, (GDPFS_STAT_OK, mkAfile (with_perm (af_info f) p) (af_data f)));
  gdpfs_file_get_info fh :=
    ref_update fh (GDPFS_STAT_BADFH, mkInfo 0 GDPFS_FILE_TYPE_UNKNOWN 0)
      (λ _ f, ((GDPFS_STAT_OK, af_info f), f));
|}.

(** ** The laws *)

Lemma fresh_handle_ok a : (size (a_handles a) < REF_HANDLES)%nat →
  ∃ fh, fresh_handle a = Some fh ∧ 0 ≤ fh ∧ a_handles a !! fh = None.
Proof.
  intros Hs. destruct (least_free_exists (a_handles a) id REF_HANDLES) as [fh Hfh]; [done..|].
  exists fh. split; [exact Hfh|]. apply least_free_Some in Hfh as [Hf ?]. split; [lia|].
  apply bool_decide_eq_false in Hf. by apply eq_None_not_Some.
Qed.

Lemma fresh_name_ok a : Z.of_nat (size (a_files a)) < REF_FILES →
  ∃ g, fresh_name a = Some g ∧ length g = GNAME_SIZE ∧ Forall (in_width 8) g ∧ a_files a !! g = None.
Proof.
  intros Hs.
  destruct (least_free_exists (a_files a) ref_name (S (size (a_files a)))) as [i Hi];
    [intros i j _ _; apply ref_name_inj|lia|].
  exists (ref_name i). unfold fresh_name. rewrite Hi. split; [done|].
  apply least_free_Some in Hi as [Hf ?]. destruct (ref_name_ok i) as [? ?]; [unfold REF_FILES in Hs; lia|].
  split_and!; [done..|]. apply bool_decide_eq_false in Hf. by apply eq_None_not_Some.
Qed.

Lemma ref_update_ok {A} fh (bad : A) op a g f :
  handle_file a fh g f →
  ref_update fh bad op a = Ok ((op g f).1, set_file a g (op g f).2).
Proof. intros [Hg Hf]. unfold ref_update. by rewrite Hg, Hf. Qed.

Lemma set_file_id a g f : a_files a !! g = Some f → set_file a g f = a.
Proof. intros Hf. unfold set_file. rewrite insert_id by done. by destruct a. Qed.

#[export] Program Instance ref_laws : FileLaws afs := {|
  file_rep := eq;
  max_handles := REF_HANDLES;
  max_files := REF_FILES;
  max_offset := REF_OFFSET;
|}.
Next Obligation.
  intros s a g f type <- Hg _ Hs Ht. destruct (fresh_handle_ok s Hs) as (fh & Hf & ? & ?).
  exists fh. eexists. split_and!; [|done..]. simpl. unfold ref_open. by rewrite Hg, Hf, Ht.
Qed.
Next Obligation.
  intros s a g f type <- Hg Hs _ Ht. destruct (fresh_handle_ok s Hs) as (fh & Hf & ? & ?).
  eexists. split; [|done]. simpl. unfold ref_open. by rewrite Hg, Hf, Ht.
Qed.
Next Obligation.
  intros s a g f <- Hg _ Hs. destruct (fresh_handle_ok s Hs) as (fh & Hf & ? & ?).
  exists fh. eexists. split_and!; [|done..]. simpl. unfold ref_open. by rewrite Hg, Hf.
Qed.
Next Obligation.
  intros s a type perm <- Hs Hn _ _. destruct (fresh_handle_ok s Hs) as (fh & Hf & ? & ?).
  destruct (fresh_name_ok s Hn) as (g & Hg & ? & ? & ?).
  exists g, fh. eexists. split_and!; [|done..]. simpl. unfold ref_create. by rewrite Hg, Hf.
Qed.
Next Obligation.
  intros s a g f type perm <- Hg Hs _ _. destruct (fresh_handle_ok s Hs) as (fh & Hf & ? & ?).
  exists fh. eexists. split_and!; [|done..]. simpl. unfold ref_open_init. by rewrite Hg, Hf.
Qed.
Next Obligation. intros s a fh g <- Hg. eexists _, _. by split. Qed.
Next Obligation. intros s a fh g <- Hg. eexists. split; [|done]. simpl. by rewrite Hg. Qed.
Next Obligation.
  intros s a fh g f n off <- Hh _ _ _. eexists. split; [|done]. simpl.
  rewrite (ref_update_ok _ _ _ _ _ _ Hh). simpl. by rewrite set_file_id by apply Hh.
Qed.
Next Obligation.
  intros s a fh g f bs off <- Hh _ _ _. eexists. split; [|done]. simpl.
  by rewrite (ref_update_ok _ _ _ _ _ _ Hh).
Qed.
Next Obligation.
  intros s a fh g f n <- Hh. eexists. split; [|done]. simpl. by rewrite (ref_update_ok _ _ _ _ _ _ Hh).
Qed.
Next Obligation.
  intros s a fh g f p <- Hh _. eexists. split; [|done]. simpl. by rewrite (ref_update_ok _ _ _ _ _ _ Hh).
Qed.
Next Obligation.
  intros s a fh g f <- Hh. eexists. split; [|done]. simpl.
  rewrite (ref_update_ok _ _ _ _ _ _ Hh). simpl. by rewrite set_file_id by apply Hh.
Qed.
