(* ===== verification/Dir.v ===== *)
(** * Directories ([src/gdpfs_dir.c])

    A directory is a file that holds an array of [gdpfs_dir_entry_phys] structs;
    an entry that is not in use is a free slot.  Names and paths are lists of
    nonzero bytes.  The functions use files through the interface [FileOps]; the
    loops over the entries of a directory take [fuel]. *)
From S2P Require Import Prelude.
From S2P Require Import State.
From S2P Require Import Types.
From S2P Require Import FileIface.

Definition NAME_MAX_GDPFS : nat := 255.
Definition SLASH : Z := 47.
Definition GDPFS_ROOT_DEFAULT_PERM : Z := 361. (* 0551 *)

(** ** Directory entries *)

Record phys_ent := mkPhys {
  pe_gname : file_gname;
  pe_in_use : bool;
  pe_name : list Z;     (* the whole array [name] *)
}.

#[export] Instance phys_ent_eq_dec : EqDecision phys_ent.
Proof. solve_decision. Defined.

(** [sizeof (gdpfs_dir_entry_phys_t)] *)
Definition sizeof_phys : Z := 289.

Definition encode_ent (e : phys_ent) : list Z :=
  pe_gname e ++ [if pe_in_use e then 1 else 0] ++ pe_name e.

Definition decode_ent (bs : list Z) : phys_ent :=
  mkPhys (take GNAME_SIZE bs) (negb (default 0 (bs !! GNAME_SIZE) =? 0)) (drop (S GNAME_SIZE) bs).

(** [strcmp (buffer, name) == 0]; running over the end of the array is a fault. *)
Fixpoint strcmp_eq (buffer name : list Z) : res bool :=
  match buffer, name with
  | [], _ => Fault OutOfBounds
  | c :: _, [] => Ok (c =? 0)
  | c :: buffer, n :: name => if c =? n then strcmp_eq buffer name else Ok false
  end.

(** [strncpy (buffer, name, size)] pads with zeros. *)
Definition strncpy (name : list Z) (size : nat) : list Z :=
  take size name ++ replicate (size - length name) 0.

(** The string in a buffer. *)
Fixpoint c_string (buffer : list Z) : list Z :=
  match buffer with
  | [] => []
  | c :: buffer => if c =? 0 then [] else c :: c_string buffer
  end.

(** [gdpfs_dir_entry_t] *)
Record dir_entry := mkDirEntry {
  de_name : list Z;
  de_offset : Z;
}.

(** ** Paths: [dirname] and [basename] of the C library *)

Fixpoint drop_slashes (p : list Z) : list Z :=
  match p with
  | c :: p' => if c =? SLASH then drop_slashes p' else p
  | [] => []
  end.

(** The first component of a path that does not start with a slash, and the rest. *)
Fixpoint take_name (p : list Z) : list Z :=
  match p with
  | c :: p => if c =? SLASH then [] else c :: take_name p
  | [] => []
  end.

Fixpoint drop_name (p : list Z) : list Z :=
  match p with
  | c :: p' => if c =? SLASH then p else drop_name p'
  | [] => []
  end.

Definition DOT : Z := 46.

Definition basename (p : list Z) : list Z :=
  match p with
  | [] => [DOT]
  | _ =>
      match drop_slashes (reverse p) with
      | [] => [SLASH]
      | r => reverse (take_name r)
      end
  end.

Definition dirname (p : list Z) : list Z :=
  match p with
  | [] => [DOT]
  | _ =>
      match drop_slashes (reverse p) with
      | [] => [SLASH]
      | r =>
          match drop_name r with
          | [] => [DOT]
          | r => match drop_slashes r with [] => [SLASH] | r => reverse r end
          end
      end
  end.

Section operations.
Context {S : Type} `{FileOps S}.
Variable fuel : nat.
Variable root_log_gname : file_gname.

Definition INVALID_FH : Z := -1.

(** ** Entries of an open directory *)

Definition read_ent (fh offset : Z) : st S (list Z) := gdpfs_file_read fh sizeof_phys offset.

(** The loop of [_find_insert_offset]. *)
Fixpoint find_loop (fuel : nat) (fh : Z) (name : list Z) (offset : Z) (insert_offset : option Z)
    : st S (stat * Z * phys_ent) :=
  match fuel with
  | O => st_fail OutOfFuel
  | Datatypes.S fuel =>
      bs ← read_ent fh offset;
      let size := Z.of_nat (length bs) in
      let found_ent := decode_ent bs in
      if size =? 0 then mret (GDPFS_STAT_OK, default offset insert_offset, found_ent)
      else if negb (size =? sizeof_phys) then mret (GDPFS_STAT_CORRUPT, 0, found_ent)
      else if pe_in_use found_ent then
        same ← st_lift (strcmp_eq (pe_name found_ent) name);
        if same : bool then mret (GDPFS_STAT_FILE_EXISTS, offset, found_ent)
        else find_loop fuel fh name (offset + size) insert_offset
      else
        find_loop fuel fh name (offset + size)
          (match insert_offset with Some o => Some o | None => Some offset end)
  end.

(** The status, the offset and the entry that was found. *)
Definition _find_insert_offset (fh : Z) (name : list Z) : st S (stat * Z * phys_ent) :=
  find_loop fuel fh name 0 None.

Definition new_ent (name : list Z) (gname : file_gname) : phys_ent :=
  mkPhys gname true (strncpy name NAME_MAX_GDPFS ++ [0]).

Definition _add_at_offset (fh offset : Z) (name : list Z) (gname : file_gname) : st S stat :=
  size ← gdpfs_file_write fh (encode_ent (new_ent name gname)) offset;
  mret (if size =? 0 then GDPFS_STAT_RW_FAILED
        else if negb (size =? sizeof_phys) then GDPFS_STAT_CORRUPT else GDPFS_STAT_OK).

(** [ent] is written only when an entry is found. *)
Fixpoint dir_read_loop (fuel : nat) (fh offset : Z) : st S (stat * option dir_entry) :=
  match fuel with
  | O => st_fail OutOfFuel
  | Datatypes.S fuel =>
      bs ← read_ent fh offset;
      let size := Z.of_nat (length bs) in
      if size =? 0 then mret (GDPFS_STAT_EOF, None)
      else if negb (size =? sizeof_phys) then mret (GDPFS_STAT_CORRUPT, None)
      else
        let phys_ent := decode_ent bs in
        if pe_in_use phys_ent
        then mret (GDPFS_STAT_OK, Some (mkDirEntry (c_string (pe_name phys_ent)) (offset + size)))
        else dir_read_loop fuel fh (offset + size)
  end.

Definition gdpfs_dir_read (fh offset : Z) : st S (stat * option dir_entry) :=
  dir_read_loop fuel fh offset.

Definition gdpfs_dir_isempty (fh : Z) : st S (stat * bool) :=
  '(estat, _) ← gdpfs_dir_read fh 0;
  if negb (EP_STAT_ISOK estat) then mret (estat, false)
  else mret (GDPFS_STAT_OK, EP_STAT_IS_SAME estat GDPFS_STAT_EOF).

(** [goto closeandfail] *)
Definition close_and_return (fh : Z) (estat : stat) : st S stat :=
  _ ← gdpfs_file_close fh;
  mret estat.

(** The check of [gdpfs_dir_remove] that a removed directory is empty, and closing
    the handle on it; the status is [GDPFS_STAT_OK] if removal may go on. *)
Definition check_removable (filefh : Z) (type : gdpfs_file_type) : st S stat :=
  if decide (type = GDPFS_FILE_TYPE_DIR) then
    '(estat, isempty) ← gdpfs_dir_isempty filefh;
    if negb (EP_STAT_ISOK estat) then close_and_return filefh estat
    else if negb isempty then close_and_return filefh GDPFS_STAT_DIR_NOT_EMPTY
    else close_and_return filefh GDPFS_STAT_OK
  else close_and_return filefh GDPFS_STAT_OK.

Definition mark_removed (fh offset : Z) (ent : phys_ent) : st S stat :=
  size ← gdpfs_file_write fh (encode_ent (mkPhys (pe_gname ent) false (pe_name ent))) offset;
  mret (if size =? 0 then GDPFS_STAT_RW_FAILED
        else if negb (size =? sizeof_phys) then GDPFS_STAT_CORRUPT else GDPFS_STAT_OK).

Definition gdpfs_dir_remove (fh : Z) (name : list Z) (type : gdpfs_file_type) : st S stat :=
  '(estat, offset, ent) ← _find_insert_offset fh name;
  if negb (EP_STAT_IS_SAME estat GDPFS_STAT_FILE_EXISTS) then mret estat
  else if decide (type = GDPFS_FILE_TYPE_UNKNOWN) then mark_removed fh offset ent
  else
    '(estat, filefh) ← gdpfs_file_open_type (pe_gname ent) type;
    if negb (EP_STAT_ISOK estat) then mret estat else
    estat ← check_removable filefh type;
    if negb (EP_STAT_ISOK estat) then mret estat else mark_removed fh offset ent.

(** ** Paths *)

(** The loop [while (path[0] != '\0')] of [gdpfs_dir_open_file_at_path].  The
    array [name] holds [NAME_MAX_GDPFS] characters and a terminator. *)
Fixpoint walk (n : nat) (path : list Z) (fh : Z) (type : gdpfs_file_type) : st S (stat * Z) :=
  match n with
  | O => st_fail OutOfFuel
  | Datatypes.S n =>
    match path with
    | [] => mret (EP_STAT_OK, fh)
    | c :: path' =>
        if c =? SLASH then walk n path' fh type else
        let name := take_name path in
        let path := drop_name path in
        if (NAME_MAX_GDPFS <? length name)%nat then st_fail OutOfBounds else
        '(estat, _, phys_ent) ← _find_insert_offset fh name;
        _ ← gdpfs_file_close fh;
        if EP_STAT_IS_SAME estat GDPFS_STAT_FILE_EXISTS then
          let curr_type := if decide (path = []) then type else GDPFS_FILE_TYPE_DIR in
          '(estat, fh) ← gdpfs_file_open_type (pe_gname phys_ent) curr_type;
          if negb (EP_STAT_ISOK estat) then mret (estat, INVALID_FH)
          else walk n path fh type
        else if EP_STAT_ISOK estat then mret (GDPFS_STAT_BADPATH, INVALID_FH)
        else mret (GDPFS_STAT_CORRUPT, INVALID_FH)
    end
  end.

Definition gdpfs_dir_open_file_at_path (path : list Z) (type : gdpfs_file_type)
    : st S (stat * Z) :=
  if match path with [] => false | c :: _ => negb (c =? SLASH) end
  then mret (GDPFS_STAT_BADPATH, INVALID_FH)
  else
    '(estat, fh) ← gdpfs_file_open_type root_log_gname GDPFS_FILE_TYPE_DIR;
    if negb (EP_STAT_ISOK estat) then mret (estat, INVALID_FH) else
    st_assert (negb (fh =? INVALID_FH));;
    walk (Datatypes.S (length path)) path fh type.

(** The status, the handle and the last component. *)
Definition _open_parent_dir (filepath : list Z) : st S (stat * Z * list Z) :=
  if match filepath with [] => true | c :: _ => negb (c =? SLASH) end
  then mret (GDPFS_STAT_BADPATH, INVALID_FH, [])
  else
    '(estat, fh) ← gdpfs_dir_open_file_at_path (dirname filepath) GDPFS_FILE_TYPE_DIR;
    mret (estat, fh, if EP_STAT_ISOK estat then basename filepath else []).

(** The status, the handle of a new file, and the existing name.  [wants_gname]
    tells whether [gname_if_exists] is not [NULL]. *)
Definition gdpfs_dir_create_file_at_path (filepath : list Z) (type : gdpfs_file_type)
    (wants_gname : bool) (perm : Z) : st S (stat * Z * option file_gname) :=
  '(estat, dirfh, file) ← _open_parent_dir filepath;
  if negb (EP_STAT_ISOK estat) then mret (estat, INVALID_FH, None) else
  '(estat, insert_offset, phys_ent) ← _find_insert_offset dirfh file;
  if negb (EP_STAT_ISOK estat) then
    if EP_STAT_IS_SAME estat GDPFS_STAT_FILE_EXISTS then
      if wants_gname then mret (estat, INVALID_FH, Some (pe_gname phys_ent))
      else st_fail NullDeref
    else mret (estat, INVALID_FH, None)
  else
    '(estat, fh, newfile_gname) ← gdpfs_file_create type perm;
    if negb (EP_STAT_ISOK estat) then mret (estat, INVALID_FH, None) else
    estat ← _add_at_offset dirfh insert_offset file newfile_gname;
    _ ← gdpfs_file_close dirfh;
    if negb (EP_STAT_ISOK estat) then mret (estat, fh, None)
    else mret (GDPFS_STAT_OK, fh, None).

(** The checks on an existing entry that is to be replaced; [None] is success. *)
Definition check_replaceable (f1type : gdpfs_file_type) (existing : phys_ent) : st S (option stat) :=
  '(estat, fh2) ← gdpfs_file_open (pe_gname existing);
  if negb (EP_STAT_ISOK estat) then mret (Some estat) else
  '(estat, finfo) ← gdpfs_file_get_info fh2;
  if negb (EP_STAT_ISOK estat) then e ← close_and_return fh2 estat; mret (Some e) else
  let f2type := file_type finfo in
  if negb (bool_decide (f1type = f2type)) then
    e ← close_and_return fh2
          (if decide (f2type = GDPFS_FILE_TYPE_REGULAR) then GDPFS_STAT_FILE_EXISTS
           else GDPFS_STAT_DIR_EXISTS);
    mret (Some e)
  else if decide (f2type = GDPFS_FILE_TYPE_DIR) then
    '(estat, isempty) ← gdpfs_dir_isempty fh2;
    if negb (EP_STAT_ISOK estat) then e ← close_and_return fh2 estat; mret (Some e)
    else if negb isempty then e ← close_and_return fh2 GDPFS_STAT_DIR_NOT_EMPTY; mret (Some e)
    else _ ← gdpfs_file_close fh2; mret None
  else _ ← gdpfs_file_close fh2; mret None.

Definition gdpfs_dir_replace_file_at_path (fh : Z) (filepath2 : list Z) : st S stat :=
  gname ← gdpfs_file_gname fh;
  '(estat, finfo) ← gdpfs_file_get_info fh;
  if negb (EP_STAT_ISOK estat) then mret estat else
  let f1type := file_type finfo in
  '(estat, fh, file) ← _open_parent_dir filepath2;
  if negb (EP_STAT_ISOK estat) then mret estat else
  '(estat, insert_offset, existing) ← _find_insert_offset fh file;
  failed ←
    (if EP_STAT_IS_SAME estat GDPFS_STAT_FILE_EXISTS then check_replaceable f1type existing
     else if negb (EP_STAT_ISOK estat) then mret (Some estat) else mret None);
  match failed with
  | Some estat => mret estat
  | None =>
      estat ← _add_at_offset fh insert_offset file gname;
      if negb (EP_STAT_ISOK estat) then mret estat else mret GDPFS_STAT_OK
  end.

Definition gdpfs_dir_remove_file_at_path (filepath : list Z) (type : gdpfs_file_type) : st S stat :=
  '(estat, fh, file) ← _open_parent_dir filepath;
  if negb (EP_STAT_ISOK estat) then mret estat else
  estat ← gdpfs_dir_remove fh file type;
  _ ← gdpfs_file_close fh;
  mret estat.

(** [init_gdpfs_dir], for a parsed root name. *)
Definition init_gdpfs_dir : st S stat :=
  '(estat, fh) ← gdpfs_file_open_init root_log_gname GDPFS_FILE_TYPE_DIR
                   GDPFS_ROOT_DEFAULT_PERM false;
  (if EP_STAT_ISOK estat then _ ← gdpfs_file_close fh; mret tt else mret tt);;
  mret estat.

End operations.
