(* ===== verification/DirSpec.v ===== *)
(** * Directories as finite maps from names to logs

    The meaning of the array of entries in a directory file, and the effect of
    adding and removing an entry on it. *)
From S2P Require Import Prelude.
From S2P Require Import State.
From S2P Require Import Types.
From S2P Require Import FileIface.
From S2P Require Import Dir.

(** ** Entries *)

(** A name is a string of nonzero bytes. *)
Definition is_string (s : list Z) : Prop := Forall (λ c, 0 < c < 256) s.

(** A name that fits into an entry. *)
Definition name_ok (s : list Z) : Prop :=
  is_string s ∧ s ≠ [] ∧ SLASH ∉ s ∧ (length s ≤ NAME_MAX_GDPFS)%nat.

#[export] Instance is_string_dec s : Decision (is_string s).
Proof. unfold is_string. apply _. Defined.
#[export] Instance name_ok_dec s : Decision (name_ok s).
Proof. unfold name_ok. apply _. Defined.

Record ent_wf (e : phys_ent) : Prop := {
  ent_gname : length (pe_gname e) = GNAME_SIZE;
  ent_gname_bytes : Forall (in_width 8) (pe_gname e);
  ent_name_len : length (pe_name e) = S NAME_MAX_GDPFS;
  ent_name_bytes : Forall (in_width 8) (pe_name e);
  ent_name_nul : 0 ∈ pe_name e;
}.

Definition ent_name (e : phys_ent) : list Z := c_string (pe_name e).

Lemma encode_length e : ent_wf e → Z.of_nat (length (encode_ent e)) = sizeof_phys.
Proof.
  intros []. unfold encode_ent. rewrite !length_app, ent_gname0, ent_name_len0. done.
Qed.

Lemma encode_bytes e : ent_wf e → Forall (in_width 8) (encode_ent e).
Proof.
  intros []. unfold encode_ent. rewrite !Forall_app. split_and!; [done| |done].
  constructor; [|done]. by destruct (pe_in_use e).
Qed.

(** Entries survive being stored in the file. *)
Lemma decode_encode e : ent_wf e → decode_ent (encode_ent e) = e.
Proof.
  intros []. destruct e as [g u n]. unfold decode_ent, encode_ent. simpl in *.
  rewrite <-ent_gname0, take_app_length. f_equal.
  - rewrite lookup_app_r, Nat.sub_diag by done. simpl. by destruct u.
  - rewrite drop_app_ge by lia. by replace (S (length g) - length g)%nat with 1%nat by lia.
Qed.

Lemma c_string_is_string buffer : Forall (in_width 8) buffer → is_string (c_string buffer).
Proof.
  induction 1 as [|c buffer Hc Hb IH]; simpl; [constructor|].
  destruct (Z.eqb_spec c 0); [constructor|]. constructor; [|done]. unfold in_width in Hc. lia.
Qed.

Lemma strcmp_eq_ok buffer name :
  0 ∈ buffer → is_string name →
  strcmp_eq buffer name = Ok (bool_decide (c_string buffer = name)).
Proof.
  revert name. induction buffer as [|c buffer IH]; intros [|n name] H0 Hs; simpl;
    try (by apply not_elem_of_nil in H0).
  - by destruct (Z.eqb_spec c 0).
  - apply Forall_cons in Hs as [Hn Hs]. destruct (Z.eqb_spec c n) as [->|Hne].
    + destruct (Z.eqb_spec n 0); [lia|]. rewrite IH; [|by apply elem_of_cons in H0 as [?|?]; [lia|]|done].
      f_equal. apply bool_decide_ext. naive_solver.
    + destruct (Z.eqb_spec c 0); rewrite bool_decide_eq_false_2; naive_solver.
Qed.

Lemma c_string_app name rest : is_string name → c_string (name ++ 0 :: rest) = name.
Proof.
  induction 1 as [|c name Hc Hs IH]; simpl; [done|].
  destruct (Z.eqb_spec c 0); [lia|]. by rewrite IH.
Qed.

Lemma strncpy_string name : is_string name → (length name ≤ NAME_MAX_GDPFS)%nat →
  c_string (strncpy name NAME_MAX_GDPFS ++ [0]) = name.
Proof.
  intros Hs Hlen. unfold strncpy. rewrite take_ge by done. rewrite <-(assoc_L (++)).
  destruct (NAME_MAX_GDPFS - length name)%nat; simpl; by apply c_string_app.
Qed.

Lemma new_ent_wf name g :
  is_string name → length g = GNAME_SIZE → Forall (in_width 8) g → ent_wf (new_ent name g).
Proof.
  intros Hs Hg Hb. constructor; simpl; try done.
  - unfold strncpy. rewrite !length_app, length_take, length_replicate. cbn [length]. unfold NAME_MAX_GDPFS. lia.
  - unfold strncpy. rewrite !Forall_app. split_and!; [| |by repeat constructor].
    + apply Forall_take. eapply Forall_impl; [exact Hs|]. unfold in_width. simpl. lia.
    + apply Forall_replicate. done.
  - set_solver.
Qed.

(** ** Directory files *)

Definition ent_offset (i : nat) : Z := sizeof_phys * Z.of_nat i.

(** The file [f] holds the entries [ents]. *)
Record dir_file (f : afile) (ents : list phys_ent) : Prop := {
  dir_size : file_size (af_info f) = ent_offset (length ents);
  dir_wf : Forall ent_wf ents;
  dir_ents : ∀ i e, ents !! i = Some e → read_file f sizeof_phys (ent_offset i) = encode_ent e;
}.

Lemma dir_file_end f ents : dir_file f ents → read_file f sizeof_phys (ent_offset (length ents)) = [].
Proof.
  intros []. unfold read_file. rewrite dir_size0. by rewrite Z.sub_diag.
Qed.

(** Reading the bytes of a range. *)
Lemma read_file_byte f n off i :
  0 ≤ n → off + n ≤ file_size (af_info f) → 0 ≤ i < n →
  read_file f n off !! Z.to_nat i = Some (af_byte f (off + i)).
Proof.
  intros Hn Hsize Hi. unfold read_file.
  rewrite Z.min_l, Z.max_r by lia. rewrite list_lookup_fmap, lookup_seqZ_lt by lia. simpl.
  do 2 f_equal. lia.
Qed.

Lemma read_file_ext f f' n off :
  file_size (af_info f) = file_size (af_info f') →
  (∀ i, off ≤ i < off + n → i < file_size (af_info f) → af_byte f i = af_byte f' i) →
  read_file f n off = read_file f' n off.
Proof.
  intros Hsize Hb. unfold read_file. rewrite <-Hsize. apply list_fmap_ext.
  intros k x [-> Hk]%lookup_seqZ. apply Hb; lia.
Qed.

(** Writing the entry [e] as entry [i] of a directory. *)
Definition put_ent (ents : list phys_ent) (i : nat) (e : phys_ent) : list phys_ent :=
  take i ents ++ e :: drop (S i) ents.

Lemma read_file_write f bs off n :
  n = Z.of_nat (length bs) → read_file (write_file f bs off) n off = bs.
Proof.
  intros ->. apply list_eq. intros k. unfold read_file. simpl.
  rewrite Z.min_l, Z.max_r by lia. rewrite list_lookup_fmap.
  destruct (decide (k < length bs)%nat).
  - rewrite lookup_seqZ_lt by lia. simpl. rewrite af_byte_write, decide_True by lia.
    replace (Z.to_nat (off + Z.of_nat k - off)) with k by lia.
    by destruct (lookup_lt_is_Some_2 bs k) as [b ->].
  - rewrite lookup_seqZ_ge by lia. by rewrite lookup_ge_None_2 by lia.
Qed.

Lemma dir_file_put f ents i e :
  dir_file f ents → ent_wf e → (i ≤ length ents)%nat →
  dir_file (write_file f (encode_ent e) (ent_offset i)) (put_ent ents i e).
Proof.
  intros [] He Hi. pose proof (encode_length e He) as Hlen.
  assert (length (put_ent ents i e) = Nat.max (length ents) (S i)) as Hput.
  { unfold put_ent. rewrite length_app, length_take. simpl. rewrite length_drop. lia. }
  constructor.
  - simpl. rewrite dir_size0, Hlen, Hput. unfold ent_offset, sizeof_phys in *. lia.
  - unfold put_ent. apply Forall_app. split; [by apply Forall_take|].
    constructor; [done|by apply Forall_drop].
  - intros j e' Hj. destruct (decide (j = i)) as [->|Hne].
    + unfold put_ent in Hj. rewrite list_lookup_middle in Hj by (rewrite length_take; lia).
      injection Hj as <-. by apply read_file_write.
    + assert (ents !! j = Some e') as Hj'.
      { unfold put_ent in Hj. apply lookup_app_Some in Hj as [Hj|[Hle Hj]].
        - by apply lookup_take_Some in Hj as [? _].
        - rewrite length_take, Nat.min_l in * by lia. destruct (j - i)%nat as [|k] eqn:Hk; [lia|].
          simpl in Hj. rewrite lookup_drop in Hj. rewrite <-Hj. f_equal. lia. }
      rewrite <-(dir_ents0 j e' Hj'). pose proof (lookup_lt_Some _ _ _ Hj') as Hjl.
      unfold read_file. simpl. rewrite dir_size0, Hlen. unfold ent_offset, sizeof_phys in *.
      rewrite !Z.min_l, !Z.max_r by lia. apply list_fmap_ext. intros k x [-> Hk]%lookup_seqZ.
      rewrite af_byte_write. by rewrite decide_False by lia.
Qed.

(** ** The map of a directory *)

Definition is_name (name : list Z) (e : phys_ent) : Prop :=
  pe_in_use e = true ∧ ent_name e = name.
#[export] Instance is_name_dec name e : Decision (is_name name e).
Proof. unfold is_name. apply _. Defined.

Definition find_ent (name : list Z) (ents : list phys_ent) : option (nat * phys_ent) :=
  list_find (is_name name) ents.

(** The slot for a new entry: the first free one, or the end. *)
Definition free_slot (ents : list phys_ent) : nat :=
  match list_find (λ e, pe_in_use e = false) ents with
  | Some (i, _) => i
  | None => length ents
  end.

Definition used (ents : list phys_ent) : list (list Z * file_gname) :=
  (λ e, (ent_name e, pe_gname e)) <$> filter (λ e, pe_in_use e = true) ents.

Definition dir_of (ents : list phys_ent) : gmap (list Z) file_gname := list_to_map (used ents).

(** No name occurs twice. *)
Definition dir_ok (ents : list phys_ent) : Prop := NoDup (used ents).*1.

Definition unused (e : phys_ent) : phys_ent := mkPhys (pe_gname e) false (pe_name e).

Lemma used_app es1 es2 : used (es1 ++ es2) = used es1 ++ used es2.
Proof. unfold used. by rewrite filter_app, fmap_app. Qed.

Lemma used_cons e es :
  used (e :: es) = (if pe_in_use e then [(ent_name e, pe_gname e)] else []) ++ used es.
Proof.
  unfold used. rewrite filter_cons. case_decide as H.
  - by rewrite H.
  - by rewrite (not_true_is_false _ H).
Qed.

Lemma find_ent_dir_of name ents :
  dir_of ents !! name = (pe_gname ∘ snd) <$> find_ent name ents.
Proof.
  unfold dir_of, find_ent. induction ents as [|e ents IH]; [done|].
  rewrite used_cons. simpl. destruct (pe_in_use e) eqn:Hu; simpl.
  - destruct (decide (ent_name e = name)) as [<-|Hne].
    + rewrite lookup_insert_eq. by rewrite decide_True by (by split).
    + rewrite lookup_insert_ne, IH by done. rewrite decide_False by (by intros []).
      by destruct (list_find _ ents) as [[]|].
  - rewrite IH. rewrite decide_False by (intros []; congruence).
    by destruct (list_find _ ents) as [[]|].
Qed.

Lemma used_put ents i e :
  used (put_ent ents i e) ≡ₚ
  (if pe_in_use e then [(ent_name e, pe_gname e)] else []) ++ used (take i ents) ++ used (drop (S i) ents).
Proof.
  unfold put_ent. rewrite used_app, used_cons. rewrite !(assoc_L (++)).
  by rewrite (Permutation_app_comm (used (take i ents)) (if pe_in_use e then _ else _)).
Qed.

Lemma free_slot_le ents : (free_slot ents ≤ length ents)%nat.
Proof.
  unfold free_slot. destruct (list_find _ ents) as [[i e]|] eqn:Hf; [|done].
  apply list_find_Some in Hf as (?%lookup_lt_Some & _). lia.
Qed.

Lemma used_free_slot ents :
  used ents = used (take (free_slot ents) ents) ++ used (drop (S (free_slot ents)) ents).
Proof.
  unfold free_slot. destruct (list_find _ ents) as [[i e]|] eqn:Hf.
  - apply list_find_Some in Hf as (Hi & Hu & _).
    rewrite (lookup_split _ _ _ Hi) at 1. by rewrite used_app, used_cons, Hu.
  - rewrite take_ge by done. rewrite drop_ge by lia. by rewrite app_nil_r.
Qed.

Lemma used_found name ents i e :
  find_ent name ents = Some (i, e) →
  used ents ≡ₚ (name, pe_gname e) :: used (take i ents) ++ used (drop (S i) ents).
Proof.
  intros (Hi & [Hu <-] & _)%list_find_Some. rewrite (lookup_split _ _ _ Hi) at 1.
  rewrite used_app, used_cons, Hu. simpl. by rewrite <-Permutation_middle.
Qed.

(** Adding an entry, replacing it and removing it. *)
Lemma dir_of_add name g ents :
  dir_ok ents → dir_of ents !! name = None →
  let e := mkPhys g true (strncpy name NAME_MAX_GDPFS ++ [0]) in
  ent_name e = name →
  dir_ok (put_ent ents (free_slot ents) e) ∧
  dir_of (put_ent ents (free_slot ents) e) = <[name := g]> (dir_of ents).
Proof.
  intros Hok Hn e He.
  pose proof (used_put ents (free_slot ents) e) as Hp. rewrite <-used_free_slot in Hp.
  simpl in Hp. rewrite He in Hp.
  assert (name ∉ (used ents).*1) as Hnotin by (by apply not_elem_of_list_to_map).
  assert (dir_ok (put_ent ents (free_slot ents) e)) as Hok'.
  { unfold dir_ok. rewrite Hp. simpl. by apply NoDup_cons. }
  split; [done|]. unfold dir_of. by rewrite (list_to_map_proper _ _ Hok' Hp).
Qed.

Lemma found_perm name ents i e :
  dir_ok ents → find_ent name ents = Some (i, e) →
  name ∉ (used (take i ents) ++ used (drop (S i) ents)).*1 ∧
  NoDup (used (take i ents) ++ used (drop (S i) ents)).*1 ∧
  dir_of ents = <[name := pe_gname e]> (list_to_map (used (take i ents) ++ used (drop (S i) ents))).
Proof.
  intros Hok Hf%used_found. unfold dir_ok in Hok. pose proof Hok as Hok'. rewrite Hf in Hok'.
  simpl in Hok'. apply NoDup_cons in Hok' as [? ?]. split_and!; [done..|].
  unfold dir_of. by rewrite (list_to_map_proper _ _ Hok Hf).
Qed.

Lemma dir_of_remove name ents i e :
  dir_ok ents → find_ent name ents = Some (i, e) →
  dir_ok (put_ent ents i (unused e)) ∧ dir_of (put_ent ents i (unused e)) = delete name (dir_of ents).
Proof.
  intros Hok Hf. destruct (found_perm _ _ _ _ Hok Hf) as (Hn & Hnd & ->).
  pose proof (used_put ents i (unused e)) as Hp. simpl in Hp.
  assert (dir_ok (put_ent ents i (unused e))) as Hok' by (unfold dir_ok; by rewrite Hp).
  split; [done|]. unfold dir_of at 1. rewrite (list_to_map_proper _ _ Hok' Hp).
  rewrite delete_insert_id; [done|]. by apply not_elem_of_list_to_map.
Qed.

Lemma dir_of_replace name g ents i e :
  dir_ok ents → find_ent name ents = Some (i, e) →
  let e' := mkPhys g true (strncpy name NAME_MAX_GDPFS ++ [0]) in
  ent_name e' = name →
  dir_ok (put_ent ents i e') ∧ dir_of (put_ent ents i e') = <[name := g]> (dir_of ents).
Proof.
  intros Hok Hf e' He'. destruct (found_perm _ _ _ _ Hok Hf) as (Hn & Hnd & ->).
  pose proof (used_put ents i e') as Hp. simpl in Hp. rewrite He' in Hp.
  assert (dir_ok (put_ent ents i e')) as Hok'.
  { unfold dir_ok. rewrite Hp. simpl. by apply NoDup_cons. }
  split; [done|]. unfold dir_of at 1. rewrite (list_to_map_proper _ _ Hok' Hp). simpl.
  by rewrite insert_insert_eq.
Qed.

(** ** Entries in the file *)



Lemma c_string_take name n rest :
  is_string name → (n ≤ length name)%nat → c_string (take n name ++ 0 :: rest) = take n name.
Proof. intros Hs _. apply c_string_app. by apply Forall_take. Qed.

(** A name of more than 255 bytes is cut off without an error: the entry that
    [_add_at_offset] stores has the first 255 bytes as its name, and looking up
    the name that was given does not find it. *)
Theorem long_name_lost name g :
  is_string name → (NAME_MAX_GDPFS < length name)%nat →
  ent_name (new_ent name g) = take NAME_MAX_GDPFS name ∧
  strcmp_eq (pe_name (new_ent name g)) name = Ok false.
Proof.
  intros Hs Hlen.
  assert (ent_name (new_ent name g) = take NAME_MAX_GDPFS name) as Hn.
  { unfold ent_name, new_ent, strncpy. cbn [pe_name].
    replace (NAME_MAX_GDPFS - length name)%nat with 0%nat by lia. cbn [replicate].
    rewrite app_nil_r. apply c_string_take; [done|lia]. }
  split; [done|]. rewrite strcmp_eq_ok; [|unfold new_ent; cbn [pe_name]; set_solver|done].
  fold (ent_name (new_ent name g)). rewrite Hn, bool_decide_eq_false_2; [done|].
  intros He. apply (f_equal length) in He. rewrite length_take in He. lia.
Qed.

Lemma long_name_lost_witness :
  let name := replicate 256 97 in
  ent_name (new_ent name (replicate 32 5)) = take NAME_MAX_GDPFS name ∧
  strcmp_eq (pe_name (new_ent name (replicate 32 5))) name = Ok false.
Proof.
  apply long_name_lost.
  - by apply Forall_replicate.
  - rewrite length_replicate. unfold NAME_MAX_GDPFS. lia.
Defined.
