(* ===== verification/DirProof.v ===== *)
(** * Correctness of directories

    Every operation of [gdpfs_dir.c] on an open directory, against the contract
    of the file layer. *)
From S2P Require Import Prelude.
From S2P Require Import State.
From S2P Require Import Types.
From S2P Require Import FileIface.
From S2P Require Import Dir.
From S2P Require Import DirSpec.

Section proof.
Context {S : Type} `{FileLaws S}.
Implicit Types (s : S) (a : afs) (f : afile) (ents : list phys_ent).

(** An open directory with its entries; [fuel] and the offsets suffice for one
    more entry. *)
Record open_dir (fuel : nat) (a : afs) (fh : Z) (g : file_gname) (f : afile)
    (ents : list phys_ent) : Prop := {
  od_handle : handle_file a fh g f;
  od_file : dir_file f ents;
  od_ok : dir_ok ents;
  od_fuel : (length ents < fuel)%nat;
  od_room : ent_offset (Datatypes.S (length ents)) < max_offset;
}.

(** ** Reading an entry *)

Lemma read_ent_ok s a fh g f ents i :
  file_rep s a → handle_file a fh g f → dir_file f ents → (i ≤ length ents)%nat →
  ent_offset (Datatypes.S (length ents)) < max_offset →
  ∃ s', read_ent fh (ent_offset i) s =
    Ok (match ents !! i with Some e => encode_ent e | None => [] end, s') ∧ file_rep s' a.
Proof.
  intros Hs Hh Hf Hi Hroom.
  destruct (read_ok s a fh g f sizeof_phys (ent_offset i)) as (s' & Hr & Hs');
    [done|done|unfold ent_offset, sizeof_phys in *; lia..|].
  exists s'. split; [|done]. unfold read_ent. rewrite Hr. do 2 f_equal.
  destruct (ents !! i) as [e|] eqn:He; [by apply Hf|].
  apply lookup_ge_None in He. replace i with (length ents) by lia. by apply dir_file_end.
Qed.

Lemma ent_offset_S i : ent_offset i + sizeof_phys = ent_offset (Datatypes.S i).
Proof. unfold ent_offset, sizeof_phys. lia. Qed.

Lemma encode_size_ne e : ent_wf e →
  (Z.of_nat (length (encode_ent e)) =? 0) = false ∧
  negb (Z.of_nat (length (encode_ent e)) =? sizeof_phys) = false.
Proof. intros He. rewrite (encode_length e He). done. Qed.

(** ** Searching *)

Lemma find_loop_ok a fh g f ents name :
  handle_file a fh g f → dir_file f ents → ent_offset (Datatypes.S (length ents)) < max_offset →
  is_string name →
  ∀ fuel suf pre s ins, ents = pre ++ suf → (length suf < fuel)%nat → file_rep s a →
  ∃ s' off e', find_loop fuel fh name (ent_offset (length pre)) ins s =
    Ok ((match find_ent name suf with Some _ => GDPFS_STAT_FILE_EXISTS | None => GDPFS_STAT_OK end,
         off, e'), s') ∧ file_rep s' a ∧
    match find_ent name suf with
    | Some (i, e) => off = ent_offset (length pre + i) ∧ e' = e
    | None => off = match ins with Some o => o | None => ent_offset (length pre + free_slot suf) end
    end.
Proof.
  intros Hh Hf Hroom Hname. induction fuel as [|fuel IH]; intros suf pre s ins Hents Hfuel Hs; [lia|].
  destruct (read_ent_ok s a fh g f ents (length pre)) as (s1 & Hr & Hs1);
    [done..|rewrite Hents, length_app; lia|done|].
  cbn [find_loop]. rewrite (bind_ok _ _ _ _ _ Hr). destruct suf as [|e suf].
  { rewrite app_nil_r in Hents. subst ents. rewrite lookup_ge_None_2 by lia. simpl.
    exists s1. eexists _, _. split; [done|]. split; [done|]. destruct ins; simpl; [done|].
    by rewrite Nat.add_0_r. }
  rewrite Hents, list_lookup_middle by done.
  assert (ent_wf e) as He.
  { apply (Forall_lookup_1 _ ents (length pre)); [apply Hf|]. by rewrite Hents, list_lookup_middle. }
  destruct (encode_size_ne e He) as [-> ->]. rewrite decode_encode by done.
  rewrite (encode_length e He), ent_offset_S.
  replace (Datatypes.S (length pre)) with (length (pre ++ [e])) by (rewrite length_app; simpl; lia).
  assert (ents = (pre ++ [e]) ++ suf) as Hents' by (by rewrite <-(assoc_L (++))).
  unfold find_ent, free_slot. simpl. simpl in Hfuel.
  destruct (pe_in_use e) eqn:Hu.
  - rewrite (decide_False (P := true = false)) by done.
    pose proof (strcmp_eq_ok (pe_name e) name (ent_name_nul _ He) Hname) as Hcmp.
    fold (ent_name e) in Hcmp.
    rewrite (bind_ok _ _ _ (bool_decide (ent_name e = name)) s1) by (unfold st_lift; by rewrite Hcmp).
    destruct (decide (ent_name e = name)) as [Heq|Hne].
    + rewrite bool_decide_eq_true_2 by done. rewrite decide_True by (by split).
      exists s1. eexists _, _. split; [done|]. split; [done|]. by rewrite Nat.add_0_r.
    + rewrite bool_decide_eq_false_2 by done. rewrite decide_False by (by intros []).
      destruct (IH suf (pre ++ [e]) s1 ins Hents' ltac:(lia) Hs1) as (s' & off & e' & -> & Hs' & Hoff).
      exists s', off, e'. unfold find_ent in *. rewrite length_app in Hoff. simpl in Hoff.
      destruct (list_find (is_name name) suf) as [[i e1]|]; simpl; (split; [done|]; split; [done|]).
      * destruct Hoff as [-> ->]. split; [f_equal; lia|done].
      * destruct ins; [done|]. rewrite Hoff. unfold free_slot.
        destruct (list_find _ suf) as [[j e2]|]; simpl; f_equal; lia.
  - rewrite (decide_True (P := false = false)) by done.
    rewrite decide_False by (intros []; congruence).
    destruct (IH suf (pre ++ [e]) s1
      (match ins with Some o => Some o | None => Some (ent_offset (length pre)) end)
      Hents' ltac:(lia) Hs1) as (s' & off & e' & -> & Hs' & Hoff).
    exists s', off, e'. unfold find_ent in *. rewrite length_app in Hoff. simpl in Hoff.
    destruct (list_find (is_name name) suf) as [[i e1]|]; simpl; (split; [done|]; split; [done|]).
    + destruct Hoff as [-> ->]. split; [f_equal; lia|done].
    + destruct ins; [done|]. by rewrite Nat.add_0_r.
Qed.

Lemma find_insert_ok fuel s a fh g f ents name :
  file_rep s a → open_dir fuel a fh g f ents → is_string name →
  ∃ s' off e', _find_insert_offset fuel fh name s =
    Ok ((match find_ent name ents with Some _ => GDPFS_STAT_FILE_EXISTS | None => GDPFS_STAT_OK end,
         off, e'), s') ∧ file_rep s' a ∧
    match find_ent name ents with
    | Some (i, e) => off = ent_offset i ∧ e' = e
    | None => off = ent_offset (free_slot ents)
    end.
Proof.
  intros Hs [] Hname. by apply (find_loop_ok a fh g f ents name od_handle0 od_file0 od_room0 Hname
    fuel ents [] s None).
Qed.

(** ** Adding and removing *)

Lemma write_ent_ok fuel s a fh g f ents i e :
  file_rep s a → open_dir fuel a fh g f ents → ent_wf e → (i ≤ length ents)%nat →
  ∃ s', gdpfs_file_write fh (encode_ent e) (ent_offset i) s = Ok (sizeof_phys, s') ∧
    file_rep s' (set_file a g (write_file f (encode_ent e) (ent_offset i))).
Proof.
  intros Hs [] He Hi.
  destruct (write_ok s a fh g f (encode_ent e) (ent_offset i)) as (s' & Hw & Hs'); try done.
  - unfold ent_offset, sizeof_phys. lia.
  - rewrite (encode_length e He). unfold ent_offset, sizeof_phys in *. lia.
  - by apply encode_bytes.
  - rewrite (encode_length e He) in Hw. by exists s'.
Qed.

Lemma add_at_offset_ok fuel s a fh g f ents i name gname :
  file_rep s a → open_dir fuel a fh g f ents → is_string name →
  length gname = GNAME_SIZE → Forall (in_width 8) gname → (i ≤ length ents)%nat →
  ∃ s', _add_at_offset fh (ent_offset i) name gname s = Ok (GDPFS_STAT_OK, s') ∧
    file_rep s' (set_file a g (write_file f (encode_ent (new_ent name gname)) (ent_offset i))).
Proof.
  intros Hs Ho Hn Hg Hb Hi.
  destruct (write_ent_ok fuel s a fh g f ents i (new_ent name gname)) as (s' & Hw & Hs');
    [done|done|by apply new_ent_wf|done|].
  exists s'. split; [|done]. unfold _add_at_offset. by rewrite (bind_ok _ _ _ _ _ Hw).
Qed.

Lemma mark_removed_ok fuel s a fh g f ents name i e :
  file_rep s a → open_dir fuel a fh g f ents → find_ent name ents = Some (i, e) →
  ∃ s', mark_removed fh (ent_offset i) e s = Ok (GDPFS_STAT_OK, s') ∧
    file_rep s' (set_file a g (write_file f (encode_ent (unused e)) (ent_offset i))).
Proof.
  intros Hs Ho (Hi & _ & _)%list_find_Some.
  assert (ent_wf e) as [] by (eapply Forall_lookup_1; [apply (od_file _ _ _ _ _ _ Ho)|done]).
  destruct (write_ent_ok fuel s a fh g f ents i (unused e)) as (s' & Hw & Hs');
    [done|done|by constructor|apply lookup_lt_Some in Hi; lia|].
  exists s'. split; [|done]. unfold mark_removed. by rewrite (bind_ok _ _ _ _ _ Hw).
Qed.

(** ** Enumeration *)

Lemma dir_read_loop_ok a fh g f ents :
  handle_file a fh g f → dir_file f ents → ent_offset (Datatypes.S (length ents)) < max_offset →
  ∀ fuel suf pre s, ents = pre ++ suf → (length suf < fuel)%nat → file_rep s a →
  ∃ s', dir_read_loop fuel fh (ent_offset (length pre)) s =
    Ok (match list_find (λ e, pe_in_use e = true) suf with
        | Some (i, e) =>
            (GDPFS_STAT_OK, Some (mkDirEntry (ent_name e) (ent_offset (Datatypes.S (length pre + i)))))
        | None => (GDPFS_STAT_EOF, None)
        end, s') ∧ file_rep s' a.
Proof.
  intros Hh Hf Hroom. induction fuel as [|fuel IH]; intros suf pre s Hents Hfuel Hs; [lia|].
  destruct (read_ent_ok s a fh g f ents (length pre)) as (s1 & Hr & Hs1);
    [done..|rewrite Hents, length_app; lia|done|].
  cbn [dir_read_loop]. rewrite (bind_ok _ _ _ _ _ Hr). destruct suf as [|e suf].
  { rewrite app_nil_r in Hents. subst ents. rewrite lookup_ge_None_2 by lia. simpl. by exists s1. }
  rewrite Hents, list_lookup_middle by done.
  assert (ent_wf e) as He.
  { apply (Forall_lookup_1 _ ents (length pre)); [apply Hf|]. by rewrite Hents, list_lookup_middle. }
  destruct (encode_size_ne e He) as [-> ->]. rewrite decode_encode by done.
  rewrite (encode_length e He), ent_offset_S. simpl in Hfuel. simpl.
  destruct (pe_in_use e) eqn:Hu.
  - rewrite (decide_True (P := true = true)) by done. exists s1. split; [|done].
    by rewrite Nat.add_0_r.
  - rewrite (decide_False (P := false = true)) by done.
    destruct (IH suf (pre ++ [e]) s1) as (s' & Hr' & Hs'); [by rewrite <-(assoc_L (++))|lia|done|].
    rewrite length_app, Nat.add_1_r in Hr'. rewrite Hr'. exists s'. split; [|done].
    destruct (list_find _ suf) as [[i e1]|]; simpl; [|done].
    by rewrite Nat.add_succ_r.
Qed.

Lemma dir_read_ok fuel s a fh g f ents k :
  file_rep s a → open_dir fuel a fh g f ents → (k ≤ length ents)%nat →
  ∃ s', gdpfs_dir_read fuel fh (ent_offset k) s =
    Ok (match list_find (λ e, pe_in_use e = true) (drop k ents) with
        | Some (i, e) =>
            (GDPFS_STAT_OK, Some (mkDirEntry (ent_name e) (ent_offset (Datatypes.S (k + i)))))
        | None => (GDPFS_STAT_EOF, None)
        end, s') ∧ file_rep s' a.
Proof.
  intros Hs [] Hk.
  destruct (dir_read_loop_ok a fh g f ents od_handle0 od_file0 od_room0 fuel (drop k ents) (take k ents) s)
    as (s' & Hr & Hs'); [by rewrite take_drop|rewrite length_drop; lia|done|].
  rewrite length_take, Nat.min_l in Hr by done. by exists s'.
Qed.

Lemma list_find_used ents :
  list_find (λ e, pe_in_use e = true) ents = None ↔ dir_of ents = ∅.
Proof.
  transitivity (used ents = []).
  2: { unfold dir_of. split; [by intros ->|].
      destruct (used ents) as [|[n g] l]; [done|]. rewrite list_to_map_cons. intros Hm.
      by apply insert_non_empty in Hm. }
  induction ents as [|e ents IH]; [done|]. rewrite used_cons. simpl.
  case_decide as Hu; [by rewrite Hu|]. rewrite (not_true_is_false _ Hu). simpl.
  rewrite <-IH. by destruct (list_find _ ents) as [[]|].
Qed.

Lemma isempty_ok fuel s a fh g f ents :
  file_rep s a → open_dir fuel a fh g f ents →
  ∃ s', gdpfs_dir_isempty fuel fh s =
    Ok ((GDPFS_STAT_OK, bool_decide (dir_of ents = ∅)), s') ∧ file_rep s' a.
Proof.
  intros Hs Ho. destruct (dir_read_ok fuel s a fh g f ents 0 Hs Ho) as (s' & Hr & Hs'); [lia|].
  exists s'. split; [|done]. unfold gdpfs_dir_isempty.
  change (ent_offset 0) with 0 in Hr. rewrite (bind_ok _ _ _ _ _ Hr). rewrite drop_0.
  pose proof (list_find_used ents) as Hu.
  destruct (list_find _ ents) as [[i e]|]; simpl; unfold EP_STAT_IS_SAME.
  - rewrite !bool_decide_eq_false_2; [done|by rewrite <-Hu|done].
  - rewrite !bool_decide_eq_true_2; [done|by apply Hu|done].
Qed.

(** ** Removing a name *)

(** The effect of [gdpfs_dir_remove] without a type check: a name that does not
    exist is not an error. *)
Lemma dir_remove_any_ok fuel s a fh g f ents name :
  file_rep s a → open_dir fuel a fh g f ents → is_string name →
  ∃ s' a', gdpfs_dir_remove fuel fh name GDPFS_FILE_TYPE_UNKNOWN s = Ok (GDPFS_STAT_OK, s') ∧
    file_rep s' a' ∧
    match find_ent name ents with
    | Some (i, e) => a' = set_file a g (write_file f (encode_ent (unused e)) (ent_offset i))
    | None => a' = a
    end.
Proof.
  intros Hs Ho Hn.
  destruct (find_insert_ok fuel s a fh g f ents name Hs Ho Hn) as (s1 & off & e' & Hr & Hs1 & Hoff).
  unfold gdpfs_dir_remove. rewrite (bind_ok _ _ _ _ _ Hr).
  destruct (find_ent name ents) as [[i e]|] eqn:Hf.
  - destruct Hoff as [-> ->].
    destruct (mark_removed_ok fuel s1 a fh g f ents name i e Hs1 Ho Hf) as (s2 & Hm & Hs2).
    exists s2. eexists. split; [exact Hm|by split].
  - by exists s1, a.
Qed.

End proof.
