(* ===== verification/FsPath.v ===== *)
(** * Paths

    The components of a path, and what [dirname], [basename] and the scanning
    loop of [gdpfs_dir_open_file_at_path] compute in terms of them. *)
From S2P Require Import Prelude.
From S2P Require Import Types.
From S2P Require Import FileIface.
From S2P Require Import Dir.
From S2P Require Import DirSpec.

(** The segments between slashes. *)
Fixpoint split_path (p : list Z) : list (list Z) :=
  match p with
  | [] => [[]]
  | c :: p =>
      if c =? SLASH then [] :: split_path p
      else match split_path p with s :: ss => (c :: s) :: ss | [] => [[c]] end
  end.

Definition components (p : list Z) : list (list Z) := filter (λ s, s ≠ []) (split_path p).

(** The path ends in a slash. *)
Definition trailing (p : list Z) : bool := bool_decide (last p = Some SLASH).

Definition path_ok (p : list Z) : Prop :=
  is_string p ∧ head p = Some SLASH ∧ Forall (λ n, (length n ≤ NAME_MAX_GDPFS)%nat) (components p).

#[export] Instance path_ok_dec p : Decision (path_ok p).
Proof. unfold path_ok. apply _. Defined.

Lemma split_path_ne p : split_path p ≠ [].
Proof. destruct p as [|c p]; simpl; [done|]. destruct (c =? SLASH); [done|]. by destruct (split_path p). Qed.

Lemma split_path_app p q : split_path (p ++ SLASH :: q) = split_path p ++ split_path q.
Proof.
  induction p as [|c p IH]; simpl; [done|]. rewrite IH. destruct (c =? SLASH); [done|].
  pose proof (split_path_ne p). by destruct (split_path p).
Qed.

Lemma components_app p q : components (p ++ SLASH :: q) = components p ++ components q.
Proof. unfold components. by rewrite split_path_app, filter_app. Qed.

Lemma components_slash p : components (SLASH :: p) = components p.
Proof. apply (components_app [] p). Qed.

Lemma components_snoc p : components (p ++ [SLASH]) = components p.
Proof. rewrite components_app. apply app_nil_r. Qed.

Lemma split_name n : SLASH ∉ n → split_path n = [n].
Proof.
  induction n as [|c n IH]; simpl; [done|]. intros [Hc Hn]%not_elem_of_cons.
  destruct (Z.eqb_spec c SLASH); [congruence|]. by rewrite (IH Hn).
Qed.

Lemma components_name n : SLASH ∉ n → n ≠ [] → components n = [n].
Proof.
  intros Hn Hne. unfold components. rewrite split_name by done. by rewrite filter_cons_True by done.
Qed.

(** A path that is a name followed by nothing or by a slash and the rest. *)
Lemma components_cons n p :
  SLASH ∉ n → n ≠ [] → match p with [] => True | c :: _ => c = SLASH end →
  components (n ++ p) = n :: components p.
Proof.
  intros Hn Hne. destruct p as [|c p].
  - intros _. rewrite app_nil_r. by apply components_name.
  - intros ->. rewrite components_app, components_slash. by rewrite components_name.
Qed.

Lemma components_slashes p k : components (p ++ replicate k SLASH) = components p.
Proof.
  revert p. induction k as [|k IH]; intros p; simpl; [by rewrite app_nil_r|].
  rewrite (cons_middle SLASH), (assoc_L (++)), IH. apply components_snoc.
Qed.

(** ** The scans of the C code *)

Lemma take_drop_name p : p = take_name p ++ drop_name p.
Proof. induction p as [|c p IH]; simpl; [done|]. destruct (c =? SLASH); simpl; [done|by f_equal]. Qed.

Lemma take_name_noslash p : SLASH ∉ take_name p.
Proof.
  induction p as [|c p IH]; simpl; [set_solver|]. destruct (Z.eqb_spec c SLASH); [set_solver|].
  rewrite elem_of_cons. naive_solver.
Qed.

Lemma drop_name_head p : match drop_name p with [] => True | c :: _ => c = SLASH end.
Proof. induction p as [|c p IH]; simpl; [done|]. by destruct (Z.eqb_spec c SLASH). Qed.

Lemma take_name_ne c p : c ≠ SLASH → take_name (c :: p) ≠ [].
Proof. intros. simpl. by destruct (Z.eqb_spec c SLASH). Qed.

Lemma components_scan c p : c ≠ SLASH →
  components (c :: p) = take_name (c :: p) :: components (drop_name (c :: p)).
Proof.
  intros Hc. rewrite (take_drop_name (c :: p)) at 1.
  apply components_cons; [apply take_name_noslash|by apply take_name_ne|apply drop_name_head].
Qed.

Lemma drop_slashes_spec r :
  ∃ k, r = replicate k SLASH ++ drop_slashes r ∧
    match drop_slashes r with [] => True | c :: _ => c ≠ SLASH end.
Proof.
  induction r as [|c r (k & Hr & Hh)]; simpl; [by exists 0%nat|].
  destruct (Z.eqb_spec c SLASH) as [->|]; [|by exists 0%nat].
  exists (S k). simpl. by rewrite <-Hr.
Qed.

(** A path with components is a prefix, the last component and slashes. *)
Lemma path_split p : components p ≠ [] → ∃ q n k,
  p = q ++ n ++ replicate k SLASH ∧ SLASH ∉ n ∧ n ≠ [] ∧ (q = [] ∨ last q = Some SLASH) ∧
  basename p = n ∧
  dirname p = match q with [] => [DOT] | _ => match drop_slashes (reverse q) with [] => [SLASH] | r => reverse r end end.
Proof.
  intros Hp. destruct (drop_slashes_spec (reverse p)) as (k & Hr & Hh).
  assert (p ≠ []) as Hne by (by intros ->).
  destruct (drop_slashes (reverse p)) as [|c r] eqn:Hd.
  { exfalso. apply Hp. rewrite app_nil_r in Hr. apply (f_equal reverse) in Hr.
    rewrite reverse_involutive, reverse_replicate in Hr. rewrite Hr. apply (components_slashes [] k). }
  exists (reverse (drop_name (c :: r))), (reverse (take_name (c :: r))), k. split_and!.
  - apply (f_equal reverse) in Hr. rewrite reverse_involutive, reverse_app, reverse_replicate in Hr.
    rewrite Hr. rewrite (take_drop_name (c :: r)) at 1. by rewrite reverse_app, (assoc_L (++)).
  - rewrite elem_of_reverse. apply take_name_noslash.
  - rewrite <-reverse_nil. intros ?%(inj reverse). by apply (take_name_ne c r).
  - pose proof (drop_name_head (c :: r)) as Hq. destruct (drop_name (c :: r)) as [|d q]; [by left|].
    right. subst d. by rewrite reverse_cons, last_snoc.
  - unfold basename. rewrite Hd. by destruct p.
  - unfold dirname. rewrite Hd. destruct p as [|p0 p']; [done|].
    rewrite reverse_involutive. destruct (drop_name (c :: r)) as [|d q]; [done|].
    rewrite reverse_cons. by destruct (reverse q).
Qed.

(** The directory part of a path: all components but the last, and a name. *)
Definition parent_of (p : list Z) : list (list Z) := removelast (components p).
Definition name_of (p : list Z) : list Z := List.last (components p) [SLASH].

Lemma stripped_components q :
  components (match drop_slashes (reverse q) with [] => [SLASH] | r => reverse r end) = components q.
Proof.
  destruct (drop_slashes_spec (reverse q)) as (k & Hr & _). apply (f_equal reverse) in Hr.
  rewrite reverse_involutive, reverse_app, reverse_replicate in Hr.
  destruct (drop_slashes (reverse q)) as [|d r].
  - rewrite reverse_nil in Hr. rewrite Hr. symmetry. apply (components_slashes [] k).
  - by rewrite Hr, components_slashes.
Qed.

Lemma stripped_head q : head q = Some SLASH →
  head (match drop_slashes (reverse q) with [] => [SLASH] | r => reverse r end) = Some SLASH.
Proof.
  intros Hq. destruct (drop_slashes_spec (reverse q)) as (k & Hr & _). apply (f_equal reverse) in Hr.
  rewrite reverse_involutive, reverse_app, reverse_replicate in Hr.
  destruct (drop_slashes (reverse q)) as [|d r]; [done|].
  rewrite Hr in Hq. pose proof (length_reverse (d :: r)) as Hl. by destruct (reverse (d :: r)).
Qed.

Lemma stripped_sub q x :
  x ∈ (match drop_slashes (reverse q) with [] => [SLASH] | r => reverse r end) → x = SLASH ∨ x ∈ q.
Proof.
  destruct (drop_slashes_spec (reverse q)) as (k & Hr & _). apply (f_equal reverse) in Hr.
  rewrite reverse_involutive, reverse_app in Hr.
  destruct (drop_slashes (reverse q)) as [|d r]; [rewrite list_elem_of_singleton; by left|].
  intros Hx. right. rewrite Hr. set_solver.
Qed.

Lemma components_sub p n x : n ∈ components p → x ∈ n → x ∈ p.
Proof.
  unfold components. rewrite list_elem_of_filter. intros [_ Hn] Hx. revert n Hn Hx.
  induction p as [|c p IH]; simpl; intros n; [by intros ->%list_elem_of_singleton|].
  destruct (c =? SLASH).
  - rewrite elem_of_cons. intros [->|Hn] Hx; [by apply not_elem_of_nil in Hx|].
    apply elem_of_cons. right. eauto.
  - destruct (split_path p) as [|s ss]; rewrite ?list_elem_of_singleton, ?elem_of_cons.
    { intros -> ->%list_elem_of_singleton. by left. } intros [->|Hn] Hx.
    + apply elem_of_cons in Hx as [->|Hx]; apply elem_of_cons; [by left|right].
      apply (IH s); [by left|done].
    + apply elem_of_cons. right. apply (IH n); [by right|done].
Qed.

Lemma string_components p : is_string p → Forall is_string (components p).
Proof.
  intros Hp. apply Forall_forall. intros n Hn. apply Forall_forall. intros x Hx.
  unfold is_string in Hp. rewrite Forall_forall in Hp. apply Hp. by eapply components_sub.
Qed.

Lemma path_ok_root : path_ok [SLASH].
Proof. by split_and!; [repeat constructor|..]. Qed.

(** [dirname] and [basename] of a path from the root. *)
Lemma dirname_ok p : path_ok p →
  path_ok (dirname p) ∧ components (dirname p) = parent_of p ∧ basename p = name_of p.
Proof.
  intros (Hs & Hh & Hc). unfold parent_of, name_of.
  destruct (decide (components p = [])) as [Hnil|Hne].
  - assert (drop_slashes (reverse p) = []) as Hd.
    { destruct (drop_slashes_spec (reverse p)) as (k & Hr & Hcs).
      destruct (drop_slashes (reverse p)) as [|c r] eqn:Hd; [done|]. exfalso.
      apply (f_equal reverse) in Hr. rewrite reverse_involutive, reverse_app, reverse_replicate in Hr.
      rewrite Hr, components_slashes in Hnil. rewrite (take_drop_name (c :: r)), reverse_app in Hnil.
      pose proof (take_name_ne c r Hcs) as Htn. pose proof (take_name_noslash (c :: r)) as Hts.
      assert (reverse (take_name (c :: r)) ≠ []) as Hrn
        by (rewrite <-reverse_nil; by intros ?%(inj reverse)).
      assert (SLASH ∉ reverse (take_name (c :: r))) as Hrs by (by rewrite elem_of_reverse).
      pose proof (drop_name_head (c :: r)) as Hdh. destruct (drop_name (c :: r)) as [|d q].
      + rewrite reverse_nil, app_nil_l in Hnil.
        by rewrite (components_name _ Hrs Hrn) in Hnil.
      + subst d. rewrite reverse_cons, <-(assoc_L (++)) in Hnil.
        change ([SLASH] ++ ?x) with (SLASH :: x) in Hnil.
        rewrite components_app, (components_name _ Hrs Hrn) in Hnil.
        by apply app_nil in Hnil as [_ ?]. }
    unfold dirname, basename. rewrite Hd, Hnil. destruct p; [done|]. split_and!; [|done..]. apply path_ok_root.
  - destruct (path_split p Hne) as (q & n & k & Hp & Hn & Hnn & Hq & -> & ->).
    assert (q ≠ [] ∧ last q = Some SLASH ∧ head q = Some SLASH) as (Hqn & Hql & Hqh).
    { destruct Hq as [->|Hq].
      - exfalso. apply Hn. destruct n as [|c n]; [done|]. rewrite Hp in Hh. injection Hh as ->. set_solver.
      - split_and!; [by intros ->|done|]. destruct q; [done|]. by rewrite Hp in Hh. }
    apply last_Some in Hql as [q' Hq'].
    assert (components p = components q ++ [n]) as Hcp.
    { rewrite Hp, Hq', <-!(assoc_L (++)). simpl app. rewrite components_app, components_snoc.
      f_equal. rewrite components_slashes. by apply components_name. }
    rewrite Hcp, removelast_last, last_last. destruct q as [|q0 q1] eqn:Heq; [done|].
    rewrite <-Heq in *. split_and!; [|by apply stripped_components|done].
    split_and!; [|by apply stripped_head|].
    + apply Forall_forall. intros x [->|Hx]%stripped_sub; [done|].
      unfold is_string in Hs. rewrite Forall_forall in Hs. apply Hs. rewrite Hp. set_solver.
    + rewrite stripped_components. rewrite Hcp in Hc. by apply Forall_app in Hc as [? _].
Qed.

Lemma dirname_trailing p : path_ok p → components (dirname p) ≠ [] → trailing (dirname p) = false.
Proof.
  intros (Hs & Hh & Hc) Hd. unfold trailing. apply bool_decide_eq_false.
  unfold dirname in *. destruct p as [|p0 p']; [done|].
  destruct (drop_slashes (reverse (p0 :: p'))) as [|c r]; [by simpl in Hd|].
  destruct (drop_name (c :: r)) as [|d q]; [done|].
  destruct (drop_slashes_spec (d :: q)) as (k & _ & Hk).
  destruct (drop_slashes (d :: q)) as [|x q']; [by simpl in Hd|].
  rewrite reverse_cons, last_snoc. congruence.
Qed.

(** ** Trailing slashes *)

Lemma components_nil p : components p = [] → Forall (eq SLASH) p.
Proof.
  induction p as [|c p IH]; [constructor|]. destruct (decide (c = SLASH)) as [->|Hc].
  - rewrite components_slash. constructor; [done|by apply IH].
  - by rewrite components_scan.
Qed.

Lemma trailing_app p q : q ≠ [] → trailing (p ++ q) = trailing q.
Proof.
  intros Hq. unfold trailing. rewrite last_app. destruct (last q) eqn:Hl; [done|].
  by apply last_None in Hl.
Qed.

Lemma trailing_noslash p : SLASH ∉ p → trailing p = false.
Proof. intros Hp. apply bool_decide_eq_false. intros [q ->]%last_Some. set_solver. Qed.

Lemma trailing_slashes p : components p = [] → p ≠ [] → trailing p = true.
Proof.
  intros Hc%components_nil Hp. destruct (exists_last Hp) as (q & x & ->).
  apply Forall_app in Hc as [_ Hx]. apply Forall_singleton in Hx as <-.
  by rewrite trailing_app.
Qed.
