(* ===== verification/FsSpec.v ===== *)
(** * The file system as a graph of inodes

    What the directory layer promises to the FUSE operations: a map from log
    names to files and directories, where a directory is a finite map from names
    to logs, and the table of open handles.  [fs_rep] relates the concrete state
    to it. *)
From S2P Require Import Prelude.
From S2P Require Import State.
From S2P Require Import Types.
From S2P Require Import FileIface.
From S2P Require Import Dir.
From S2P Require Import DirSpec.
From S2P Require Import DirProof.
From S2P Require Import FsPath.

Inductive inode :=
  | IFile (perm size : Z) (data : gmap Z Z)
  | IDir (perm : Z) (entries : gmap (list Z) file_gname).

Record fs := mkFs {
  nodes : gmap file_gname inode;
  handles : gmap Z file_gname;
}.

#[export] Instance inode_eq_dec : EqDecision inode.
Proof. solve_decision. Defined.

Definition inode_type (i : inode) : gdpfs_file_type :=
  match i with IFile _ _ _ => GDPFS_FILE_TYPE_REGULAR | IDir _ _ => GDPFS_FILE_TYPE_DIR end.
Definition inode_perm (i : inode) : Z :=
  match i with IFile p _ _ => p | IDir p _ => p end.

Definition add_handle (F : fs) (fh : Z) (g : file_gname) : fs :=
  mkFs (nodes F) (<[fh := g]> (handles F)).
Definition remove_handle (F : fs) (fh : Z) : fs := mkFs (nodes F) (delete fh (handles F)).
Definition set_node (F : fs) (g : file_gname) (i : inode) : fs :=
  mkFs (<[g := i]> (nodes F)) (handles F).

(** ** Resolving a path *)

Definition kind_matches (type : gdpfs_file_type) (i : inode) : bool :=
  bool_decide (type = GDPFS_FILE_TYPE_UNKNOWN) || bool_decide (inode_type i = type).

(** The log that the components [cs] name from the directory [g] on; the last
    component must have the type [type], the others must be directories. *)
Fixpoint resolve (F : fs) (type : gdpfs_file_type) (g : file_gname) (cs : list (list Z))
    : stat + file_gname :=
  match cs with
  | [] => inr g
  | n :: cs =>
      match nodes F !! g with
      | Some (IDir _ m) =>
          match m !! n with
          | Some g' =>
              match nodes F !! g' with
              | Some i =>
                  if kind_matches (if decide (cs = []) then type else GDPFS_FILE_TYPE_DIR) i
                  then resolve F type g' cs else inl GDPFS_STAT_INVLDFTYPE
              | None => inl GDPFS_STAT_NOTFOUND
              end
          | None => inl GDPFS_STAT_BADPATH
          end
      | _ => inl GDPFS_STAT_INVLDFTYPE
      end
  end.

(** A path with a slash at its end has to name a directory. *)
Definition resolve_path (F : fs) (root : file_gname) (path : list Z) (type : gdpfs_file_type)
    : stat + file_gname :=
  resolve F (if trailing path then GDPFS_FILE_TYPE_DIR else type) root (components path).

Definition resolve_parent (F : fs) (root : file_gname) (path : list Z) : stat + file_gname :=
  resolve F GDPFS_FILE_TYPE_DIR root (parent_of path).

(** The entries of a directory. *)
Definition dir_entries (F : fs) (g : file_gname) : option (gmap (list Z) file_gname) :=
  match nodes F !! g with Some (IDir _ m) => Some m | _ => None end.

Definition has_root (F : fs) (root : file_gname) : Prop := is_Some (dir_entries F root).

(** ** The representation *)

(** The entries stored in the file of a directory. *)
Definition entries_of (f : afile) : list phys_ent :=
  (λ i, decode_ent (read_file f sizeof_phys (ent_offset i))) <$>
    seq 0 (Z.to_nat (file_size (af_info f) / sizeof_phys)).

Definition inode_of (f : afile) : inode :=
  match file_type (af_info f) with
  | GDPFS_FILE_TYPE_DIR => IDir (file_perm (af_info f)) (dir_of (entries_of f))
  | _ => IFile (file_perm (af_info f)) (file_size (af_info f)) (af_data f)
  end.

Definition view (a : afs) : fs := mkFs (inode_of <$> a_files a) (a_handles a).

(** A directory with at most [k] slots. *)
Record dir_inv (k : nat) (f : afile) : Prop := {
  di_file : dir_file f (entries_of f);
  di_ok : dir_ok (entries_of f);
  di_len : (length (entries_of f) ≤ k)%nat;
}.

Record fs_inv (k : nat) (a : afs) : Prop := {
  fi_name g f : a_files a !! g = Some f → length g = GNAME_SIZE ∧ Forall (in_width 8) g;
  fi_plain g f : a_files a !! g = Some f → plain_type (file_type (af_info f)) = true;
  fi_dir g f : a_files a !! g = Some f → file_type (af_info f) = GDPFS_FILE_TYPE_DIR → dir_inv k f;
  fi_link g f n g' :
    a_files a !! g = Some f → file_type (af_info f) = GDPFS_FILE_TYPE_DIR →
    dir_of (entries_of f) !! n = Some g' → is_Some (a_files a !! g');
  fi_handle fh g : a_handles a !! fh = Some g → 0 ≤ fh ∧ is_Some (a_files a !! g);
}.

Lemma dir_file_ents f ents : dir_file f ents → entries_of f = ents.
Proof.
  intros [Hsize Hwf Hents]. unfold entries_of. rewrite Hsize. apply list_eq. intros i.
  rewrite list_lookup_fmap.
  replace (Z.to_nat (ent_offset (length ents) / sizeof_phys)) with (length ents)
    by (unfold ent_offset; rewrite Z.mul_comm, Z.div_mul by done; lia).
  destruct (ents !! i) as [e|] eqn:He.
  - pose proof (lookup_lt_Some _ _ _ He). rewrite lookup_seq_lt by done. simpl.
    rewrite (Hents _ _ He), decode_encode; [done|]. by eapply Forall_lookup_1.
  - apply lookup_ge_None in He. by rewrite lookup_seq_ge by done.
Qed.

Lemma view_node a g f : a_files a !! g = Some f → nodes (view a) !! g = Some (inode_of f).
Proof. intros Hf. simpl. by rewrite lookup_fmap, Hf. Qed.

Lemma view_node_inv a g i : nodes (view a) !! g = Some i → ∃ f, a_files a !! g = Some f ∧ inode_of f = i.
Proof. simpl. rewrite lookup_fmap, fmap_Some. naive_solver. Qed.

Lemma view_dir_inv a g p m : nodes (view a) !! g = Some (IDir p m) → ∃ f,
  a_files a !! g = Some f ∧ file_type (af_info f) = GDPFS_FILE_TYPE_DIR ∧
  p = file_perm (af_info f) ∧ m = dir_of (entries_of f).
Proof.
  intros (f & Hf & Hi)%view_node_inv. exists f. unfold inode_of in Hi.
  destruct (file_type (af_info f)) eqn:Ht; simplify_eq; done.
Qed.

Lemma view_file_inv k a g p n d : fs_inv k a → nodes (view a) !! g = Some (IFile p n d) → ∃ f,
  a_files a !! g = Some f ∧ f = mkAfile (mkInfo n GDPFS_FILE_TYPE_REGULAR p) d.
Proof.
  intros Hi (f & Hf & He)%view_node_inv. exists f. split; [done|].
  pose proof (fi_plain _ _ Hi _ _ Hf) as Hp. unfold inode_of in He.
  destruct f as [[size type perm] data]. simpl in *. by destruct type; simplify_eq.
Qed.

Lemma inode_of_type f : plain_type (file_type (af_info f)) = true →
  inode_type (inode_of f) = file_type (af_info f).
Proof. unfold inode_of. by destruct (file_type (af_info f)). Qed.

Lemma inode_of_perm f : inode_perm (inode_of f) = file_perm (af_info f).
Proof. unfold inode_of. by destruct (file_type (af_info f)). Qed.

Lemma kind_matches_ok type f : plain_type (file_type (af_info f)) = true →
  kind_matches type (inode_of f) = type_matches type f.
Proof. intros Hp. unfold kind_matches, type_matches. by rewrite inode_of_type. Qed.

(** ** The invariant is preserved *)

Lemma dir_inv_mono k k' f : (k ≤ k')%nat → dir_inv k f → dir_inv k' f.
Proof. intros ? []. constructor; [done|done|lia]. Qed.

Lemma fs_inv_mono k k' a : (k ≤ k')%nat → fs_inv k a → fs_inv k' a.
Proof. intros Hk []. constructor; try done. intros. eapply dir_inv_mono; eauto. Qed.

Lemma fs_inv_add_handle k a fh g :
  fs_inv k a → 0 ≤ fh → is_Some (a_files a !! g) → fs_inv k (set_handle a fh g).
Proof.
  intros [] Hfh Hg. constructor; try done. intros fh' g' Hh. simpl in Hh.
  apply lookup_insert_Some in Hh as [[<- <-]|[_ Hh]]; [done|]. simpl. eauto.
Qed.

Lemma fs_inv_remove_handle k a fh : fs_inv k a → fs_inv k (drop_handle a fh).
Proof.
  intros []. constructor; try done. intros fh' g' Hh. simpl in Hh.
  apply lookup_delete_Some in Hh as [_ Hh]. simpl. eauto.
Qed.

Lemma is_Some_set_file a g f g' : is_Some (a_files a !! g') → is_Some (a_files (set_file a g f) !! g').
Proof. intros. simpl. rewrite lookup_insert_is_Some. destruct (decide (g = g')); [by left|by right]. Qed.

(** Replacing or adding a file. *)
Lemma fs_inv_set_file k k' a g f :
  fs_inv k a → (k ≤ k')%nat → length g = GNAME_SIZE → Forall (in_width 8) g →
  plain_type (file_type (af_info f)) = true →
  (file_type (af_info f) = GDPFS_FILE_TYPE_DIR → dir_inv k' f ∧
    ∀ n g', dir_of (entries_of f) !! n = Some g' → is_Some (a_files a !! g')) →
  fs_inv k' (set_file a g f).
Proof.
  intros Hi Hk Hg Hgb Hp Hdir. apply (fs_inv_mono k k') in Hi; [|done]. destruct Hi. constructor.
  - intros g' f' Hf. simpl in Hf. apply lookup_insert_Some in Hf as [[<- <-]|[_ Hf]]; [done|eauto].
  - intros g' f' Hf. simpl in Hf. apply lookup_insert_Some in Hf as [[<- <-]|[_ Hf]]; [done|eauto].
  - intros g' f' Hf. simpl in Hf. apply lookup_insert_Some in Hf as [[<- <-]|[_ Hf]]; [|eauto].
    intros Ht. by apply Hdir.
  - intros g' f' n g'' Hf Ht Hn. apply is_Some_set_file. simpl in Hf.
    apply lookup_insert_Some in Hf as [[<- <-]|[_ Hf]]; [|eauto]. by eapply Hdir.
  - intros fh g' Hh. destruct (fi_handle0 fh g' Hh). split; [done|]. by apply is_Some_set_file.
Qed.

Lemma view_set_file a g f : view (set_file a g f) = set_node (view a) g (inode_of f).
Proof. unfold view, set_node. simpl. by rewrite fmap_insert. Qed.

(** Writing one entry of a directory. *)
Lemma fs_inv_put_ent k k' a g f i e :
  fs_inv k a → a_files a !! g = Some f → file_type (af_info f) = GDPFS_FILE_TYPE_DIR →
  ent_wf e → (i ≤ length (entries_of f))%nat → dir_ok (put_ent (entries_of f) i e) →
  (k ≤ k')%nat → (i < k')%nat →
  (∀ n g', dir_of (put_ent (entries_of f) i e) !! n = Some g' → is_Some (a_files a !! g')) →
  let f' := write_file f (encode_ent e) (ent_offset i) in
  fs_inv k' (set_file a g f') ∧
  view (set_file a g f') =
    set_node (view a) g (IDir (file_perm (af_info f)) (dir_of (put_ent (entries_of f) i e))).
Proof.
  intros Hi Hf Ht He Hle Hok Hk Hik Hl f'.
  destruct (fi_name _ _ Hi _ _ Hf) as [Hg Hgb]. pose proof (fi_dir _ _ Hi _ _ Hf Ht) as [Hdf Hdo Hdl].
  pose proof (dir_file_put f _ i e Hdf He Hle) as Hdf'. fold f' in Hdf'.
  pose proof (dir_file_ents _ _ Hdf') as Hents.
  assert (file_type (af_info f') = GDPFS_FILE_TYPE_DIR) as Ht' by done.
  split.
  - apply (fs_inv_set_file k); [done..| |].
    { by rewrite Ht'. }
    intros _. rewrite Hents. split; [|done]. constructor; rewrite ?Hents; [done..|].
    unfold put_ent. rewrite length_app, length_take. simpl. rewrite length_drop. lia.
  - rewrite view_set_file. f_equal. unfold inode_of. by rewrite Ht', Hents.
Qed.
