(* ===== verification/FsDir.v ===== *)
(** * Path resolution

    [gdpfs_dir_open_file_at_path] and [_open_parent_dir] against [resolve], over
    the contract of the file layer. *)
From S2P Require Import Prelude.
From S2P Require Import State.
From S2P Require Import Types.
From S2P Require Import FileIface.
From S2P Require Import Dir.
From S2P Require Import DirSpec.
From S2P Require Import DirProof.
From S2P Require Import FsPath.
From S2P Require Import FsSpec.

Section proof.
Context {S : Type} `{FileLaws S}.
Variable fuel : nat.
Variable root : file_gname.
Implicit Types (s : S) (a : afs) (f : afile).

(** Directories of [k] slots fit into the fuel and the offsets. *)
Definition room (k : nat) : Prop := (k < fuel)%nat ∧ ent_offset (Datatypes.S k) < max_offset.

Record good (k : nat) (s : S) (a : afs) : Prop := {
  good_rep : file_rep s a;
  good_inv : fs_inv k a;
  good_room : room k;
  good_root : has_root (view a) root;
}.

(** The concrete state [s] represents the file system [F]; no directory has more
    than [k] slots. *)
Definition fs_rep (k : nat) (s : S) (F : fs) : Prop := ∃ a, good k s a ∧ view a = F.

Definition spare_handles (n : nat) (a : afs) : Prop := (size (a_handles a) + n ≤ max_handles)%nat.

(** ** Handles *)

Lemma good_step k s a s' : good k s a → file_rep s' a → good k s' a.
Proof. intros [] ?. by constructor. Qed.

Lemma good_add_handle k s s' a fh g :
  good k s a → file_rep s' (set_handle a fh g) → 0 ≤ fh → is_Some (a_files a !! g) →
  good k s' (set_handle a fh g).
Proof. intros [] ???. constructor; [done|by apply fs_inv_add_handle|done|done]. Qed.

Lemma good_open_type k s a g f type :
  good k s a → a_files a !! g = Some f → spare_handles 1 a → type_matches type f = true →
  ∃ fh s', gdpfs_file_open_type g type s = Ok ((GDPFS_STAT_OK, fh), s') ∧ 0 ≤ fh ∧
    a_handles a !! fh = None ∧ good k s' (set_handle a fh g).
Proof.
  intros Hg Hf Hh Ht. destruct (open_type_ok s a g f type) as (fh & s' & Ho & Hfh & Hn & Hs');
    [apply Hg|done|by eapply fi_plain; [apply Hg|]|unfold spare_handles in Hh; lia|done|].
  exists fh, s'. split_and!; [done..|]. by eapply good_add_handle.
Qed.

Lemma good_open_mismatch k s a g f type :
  good k s a → a_files a !! g = Some f → spare_handles 1 a → type_matches type f = false →
  ∃ s', gdpfs_file_open_type g type s = Ok ((GDPFS_STAT_INVLDFTYPE, -1), s') ∧ good k s' a.
Proof.
  intros Hg Hf Hh Ht. destruct (open_type_mismatch s a g f type) as (s' & Ho & Hs');
    [apply Hg|done|unfold spare_handles in Hh; lia|by eapply fi_plain; [apply Hg|]|done|].
  exists s'. split; [done|]. by eapply good_step.
Qed.

Lemma good_open k s a g f :
  good k s a → a_files a !! g = Some f → spare_handles 1 a →
  ∃ fh s', gdpfs_file_open g s = Ok ((GDPFS_STAT_OK, fh), s') ∧ 0 ≤ fh ∧
    a_handles a !! fh = None ∧ good k s' (set_handle a fh g).
Proof.
  intros Hg Hf Hh. destruct (open_ok s a g f) as (fh & s' & Ho & Hfh & Hn & Hs');
    [apply Hg|done|by eapply fi_plain; [apply Hg|]|unfold spare_handles in Hh; lia|].
  exists fh, s'. split_and!; [done..|]. by eapply good_add_handle.
Qed.

Lemma good_close k s a fh g :
  good k s a → a_handles a !! fh = Some g →
  ∃ e s', gdpfs_file_close fh s = Ok (e, s') ∧ good k s' (drop_handle a fh).
Proof.
  intros [] Hh. destruct (close_ok s a fh g) as (e & s' & Hc & Hs'); [done..|].
  exists e, s'. split; [done|]. constructor; [done|by apply fs_inv_remove_handle|done|done].
Qed.

(** Closing a handle that was just opened. *)
Lemma drop_set_handle a fh g : a_handles a !! fh = None → drop_handle (set_handle a fh g) fh = a.
Proof. intros Hn. unfold drop_handle, set_handle. simpl. rewrite delete_insert_id by done. by destruct a. Qed.

Lemma good_close_new k s a fh g :
  good k s (set_handle a fh g) → a_handles a !! fh = None →
  ∃ e s', gdpfs_file_close fh s = Ok (e, s') ∧ good k s' a.
Proof.
  intros Hg Hn. destruct (good_close k s (set_handle a fh g) fh g Hg) as (e & s' & Hc & Hs').
  { apply lookup_insert_eq. }
  rewrite drop_set_handle in Hs' by done. eauto.
Qed.

(** ** Directories *)

Lemma good_open_dir k s a fh g p m :
  good k s a → a_handles a !! fh = Some g → nodes (view a) !! g = Some (IDir p m) →
  ∃ f, file_type (af_info f) = GDPFS_FILE_TYPE_DIR ∧ p = file_perm (af_info f) ∧
    m = dir_of (entries_of f) ∧ open_dir fuel a fh g f (entries_of f).
Proof.
  intros [Hr Hi [Hf Ho] _] Hh (f & Hg & Ht & -> & ->)%view_dir_inv.
  exists f. split_and!; [done..|].
  destruct (fi_dir _ _ Hi _ _ Hg Ht) as [Hd Hok Hlen].
  constructor; [by split|done|done|lia|]. unfold ent_offset, sizeof_phys in *. lia.
Qed.

(** What [_find_insert_offset] reports about [name] in the directory file [f]. *)
Definition slot (f : afile) (name : list Z) (off : Z) (e : phys_ent) : Prop :=
  match find_ent name (entries_of f) with
  | Some (i, e') => off = ent_offset i ∧ e = e'
  | None => off = ent_offset (free_slot (entries_of f))
  end.

Definition find_stat (o : option file_gname) : stat :=
  match o with Some _ => GDPFS_STAT_FILE_EXISTS | None => GDPFS_STAT_OK end.

Lemma good_find k s a fh g p m name :
  good k s a → a_handles a !! fh = Some g → nodes (view a) !! g = Some (IDir p m) → is_string name →
  ∃ s' off e f, _find_insert_offset fuel fh name s = Ok ((find_stat (m !! name), off, e), s') ∧
    good k s' a ∧ a_files a !! g = Some f ∧ file_type (af_info f) = GDPFS_FILE_TYPE_DIR ∧
    p = file_perm (af_info f) ∧ m = dir_of (entries_of f) ∧
    slot f name off e ∧ ∀ g', m !! name = Some g' → pe_gname e = g'.
Proof.
  intros Hg Hh Hn Hname. destruct (good_open_dir _ _ _ _ _ _ _ Hg Hh Hn) as (f & Ht & -> & -> & Ho).
  destruct (find_insert_ok fuel s a fh g f (entries_of f) name) as (s' & off & e & Hr & Hs' & Hoff);
    [apply Hg|done|done|].
  rewrite find_ent_dir_of. exists s', off, e, f. unfold slot.
  destruct (find_ent name (entries_of f)) as [[i e']|] eqn:Hf; simpl.
  - destruct Hoff as [-> ->]. split_and!; [done|by eapply good_step|by apply Ho|done..|]. by intros g' [= <-].
  - split_and!; [done|by eapply good_step|by apply Ho|done..].
Qed.

(** ** Walking down a path *)

Definition path_type (path : list Z) (type : gdpfs_file_type) : gdpfs_file_type :=
  if trailing path then GDPFS_FILE_TYPE_DIR else type.

(** The type that the code asks for, in terms of components. *)
Lemma walk_type c p type :
  (if decide (drop_name (c :: p) = []) then type else GDPFS_FILE_TYPE_DIR) =
  (if decide (components (drop_name (c :: p)) = []) then path_type (c :: p) type
   else GDPFS_FILE_TYPE_DIR).
Proof.
  unfold path_type. pose proof (take_drop_name (c :: p)) as Hp.
  destruct (decide (drop_name (c :: p) = [])) as [Hd|Hd].
  - rewrite Hd. simpl. rewrite Hd, app_nil_r in Hp. rewrite Hp at 1.
    by rewrite trailing_noslash by apply take_name_noslash.
  - case_decide as Hc; [|done]. rewrite Hp at 1. rewrite trailing_app by done.
    by rewrite trailing_slashes.
Qed.

(** Whether a slash follows matters only for the last component. *)
Lemma resolve_path_type F type g p q :
  q ≠ [] ∨ components q = [] →
  resolve F (path_type (p ++ q) type) g (components q) = resolve F (path_type q type) g (components q).
Proof.
  unfold path_type. intros [Hq|Hq]; [by rewrite trailing_app|]. by rewrite Hq.
Qed.

Lemma walk_ok k type n : ∀ path s a fh g i,
  (length path < n)%nat → is_string path →
  Forall (λ c, (length c ≤ NAME_MAX_GDPFS)%nat) (components path) →
  good k s (set_handle a fh g) → 0 ≤ fh → a_handles a !! fh = None → spare_handles 1 a →
  nodes (view a) !! g = Some i → (components path = [] ∨ inode_type i = GDPFS_FILE_TYPE_DIR) →
  ∃ s', match resolve (view a) (path_type path type) g (components path) with
    | inr g' => ∃ fh', walk fuel n path fh type s = Ok ((EP_STAT_OK, fh'), s') ∧ 0 ≤ fh' ∧
        a_handles a !! fh' = None ∧ good k s' (set_handle a fh' g')
    | inl e => walk fuel n path fh type s = Ok ((e, INVALID_FH), s') ∧ EP_STAT_ISOK e = false ∧
        good k s' a
    end.
Proof.
  induction n as [|n IH]; intros path s a fh g i Hlen Hstr Hnames Hg Hfh Hn Hspare Hi Hdir; [lia|].
  destruct path as [|c path]; cbn [walk].
  { exists s, fh. by split_and!. }
  simpl in Hlen. pose proof (Forall_inv_tail Hstr) as Hstr'.
  destruct (Z.eqb_spec c SLASH) as [->|Hc].
  { rewrite components_slash in *. change (SLASH :: path) with ([SLASH] ++ path).
    rewrite resolve_path_type by (destruct path; [by right|by left]).
    apply (IH path s a fh g i); [lia|done..]. }
  rewrite (components_scan c path Hc) in Hnames, Hdir |- *.
  pose proof (take_drop_name (c :: path)) as Hp. pose proof (walk_type c path type) as Hwt.
  assert (length (drop_name (c :: path)) < n)%nat as Hlen'.
  { simpl. destruct (Z.eqb_spec c SLASH); [done|]. pose proof (f_equal length (take_drop_name path)) as Hl.
    rewrite length_app in Hl. lia. }
  set (name := take_name (c :: path)) in *. set (rest := drop_name (c :: path)) in *.
  apply Forall_cons in Hnames as [Hname Hnames].
  assert (is_string name ∧ is_string rest) as [Hns Hrs] by (rewrite Hp in Hstr; by apply Forall_app in Hstr).
  destruct Hdir as [?|Ht]; [done|]. destruct i as [|p m]; [done|]. clear Ht.
  destruct (Nat.ltb_spec NAME_MAX_GDPFS (length name)) as [?|_]; [lia|].
  destruct (good_find k s (set_handle a fh g) fh g p m name) as
    (s1 & off & e & f & Hf & Hg1 & Hgf & Hgt & _ & Hm & _ & He);
    [done|apply lookup_insert_eq|done..|].
  rewrite (bind_ok _ _ _ _ _ Hf). cbn beta iota.
  destruct (good_close_new _ _ _ _ _ Hg1 Hn) as (ec & s2 & Hclose & Hg2).
  rewrite (bind_ok _ _ _ _ _ Hclose). cbn [resolve]. rewrite Hi.
  destruct (m !! name) as [g1|] eqn:Hmn; cbn [find_stat]; [|by exists s2].
  change (EP_STAT_IS_SAME GDPFS_STAT_FILE_EXISTS GDPFS_STAT_FILE_EXISTS) with true. cbn iota.
  rewrite (He g1 eq_refl).
  destruct (fi_link _ _ (good_inv _ _ _ Hg2) g f name g1) as [f1 Hf1]; [done..|by rewrite <-Hm|].
  pose proof (fi_plain _ _ (good_inv _ _ _ Hg2) _ _ Hf1) as Hplain.
  rewrite (view_node _ _ _ Hf1), Hwt, kind_matches_ok by done.
  set (type' := if decide (components rest = []) then path_type (c :: path) type
                else GDPFS_FILE_TYPE_DIR).
  destruct (type_matches type' f1) eqn:Htm.
  - destruct (good_open_type k s2 a g1 f1 type') as (fh1 & s3 & Ho & Hfh1 & Hn1 & Hg3); [done..|].
    rewrite (bind_ok _ _ _ _ _ Ho). cbn [EP_STAT_ISOK negb].
    replace (resolve (view a) (path_type (c :: path) type) g1 (components rest))
      with (resolve (view a) (path_type rest type) g1 (components rest)).
    2: { rewrite Hp. symmetry. apply resolve_path_type.
         destruct rest; [by right|by left]. }
    apply (IH rest s3 a fh1 g1 (inode_of f1)); try done; [by apply view_node|].
    unfold type', type_matches in Htm. case_decide as Hnil; [by left|right].
    rewrite inode_of_type by done. by apply bool_decide_eq_true in Htm.
  - destruct (good_open_mismatch k s2 a g1 f1 type') as (s3 & Ho & Hg3); [done..|].
    rewrite (bind_ok _ _ _ _ _ Ho). by exists s3.
Qed.

Lemma good_root_file k s a : good k s a → ∃ f p m,
  a_files a !! root = Some f ∧ file_type (af_info f) = GDPFS_FILE_TYPE_DIR ∧
  nodes (view a) !! root = Some (IDir p m).
Proof.
  intros [_ _ _ [m Hm]]. unfold dir_entries in Hm.
  destruct (nodes (view a) !! root) as [[|p m']|] eqn:Hn; [done| |done]. injection Hm as ->.
  destruct (view_dir_inv _ _ _ _ Hn) as (f & ? & ? & _). by exists f, p, m.
Qed.

Lemma good_open_path k s a path type :
  good k s a → path_ok path → spare_handles 1 a →
  ∃ s', match resolve_path (view a) root path type with
    | inr g => ∃ fh, gdpfs_dir_open_file_at_path fuel root path type s = Ok ((EP_STAT_OK, fh), s') ∧
        0 ≤ fh ∧ a_handles a !! fh = None ∧ good k s' (set_handle a fh g)
    | inl e => gdpfs_dir_open_file_at_path fuel root path type s = Ok ((e, INVALID_FH), s') ∧
        EP_STAT_ISOK e = false ∧ good k s' a
    end.
Proof.
  intros Hg (Hstr & Hhead & Hnames) Hspare. unfold gdpfs_dir_open_file_at_path.
  destruct path as [|c path]; [done|]. injection Hhead as ->.
  change (negb (SLASH =? SLASH)) with false. cbn iota.
  destruct (good_root_file k s a Hg) as (f & p & m & Hf & Ht & Hn).
  destruct (good_open_type k s a root f GDPFS_FILE_TYPE_DIR) as (fh & s1 & Ho & Hfh & Hfn & Hg1);
    [done..|by unfold type_matches; rewrite Ht|].
  rewrite (bind_ok _ _ _ _ _ Ho). cbn [EP_STAT_ISOK negb].
  replace (fh =? INVALID_FH) with false by (unfold INVALID_FH; lia).
  rewrite (bind_ok _ _ s1 tt s1) by done.
  by apply (walk_ok k type _ (SLASH :: path) s1 a fh root (IDir p m)); [lia|..|right].
Qed.

Lemma good_open_parent k s a path :
  good k s a → path_ok path → spare_handles 1 a →
  ∃ s', match resolve_parent (view a) root path with
    | inr g => ∃ fh, _open_parent_dir fuel root path s = Ok ((EP_STAT_OK, fh, name_of path), s') ∧
        0 ≤ fh ∧ a_handles a !! fh = None ∧ good k s' (set_handle a fh g)
    | inl e => _open_parent_dir fuel root path s = Ok ((e, INVALID_FH, []), s') ∧
        EP_STAT_ISOK e = false ∧ good k s' a
    end.
Proof.
  intros Hg Hp Hspare. destruct (dirname_ok path Hp) as (Hd & Hc & Hb).
  destruct (good_open_path k s a (dirname path) GDPFS_FILE_TYPE_DIR Hg Hd Hspare) as (s' & Ho).
  exists s'. unfold resolve_path in Ho. rewrite Hc in Ho.
  replace (if trailing (dirname path) then GDPFS_FILE_TYPE_DIR else GDPFS_FILE_TYPE_DIR)
    with GDPFS_FILE_TYPE_DIR in Ho by (by destruct (trailing _)).
  unfold resolve_parent, _open_parent_dir. destruct Hp as (_ & Hhead & _).
  destruct path as [|c path]; [done|]. injection Hhead as ->.
  change (negb (SLASH =? SLASH)) with false. cbn iota.
  destruct (resolve _ _ _ _) as [e|g].
  - destruct Ho as (Ho & He & Hg'). rewrite (bind_ok _ _ _ _ _ Ho). by rewrite He.
  - destruct Ho as (fh & Ho & Hfh & Hn & Hg'). exists fh. rewrite (bind_ok _ _ _ _ _ Ho).
    cbn [EP_STAT_ISOK]. by rewrite Hb.
Qed.

(** A path that resolves to a directory names one. *)
Lemma resolve_dir F g cs g' :
  is_Some (dir_entries F g) → resolve F GDPFS_FILE_TYPE_DIR g cs = inr g' →
  is_Some (dir_entries F g').
Proof.
  revert g. induction cs as [|n cs IH]; intros g Hg; simpl; [by intros [= <-]|].
  destruct (nodes F !! g) as [[|p m]|]; [done| |done].
  destruct (m !! n) as [g1|]; [|done]. destruct (nodes F !! g1) as [i|] eqn:Hi; [|done].
  replace (if decide (cs = []) then GDPFS_FILE_TYPE_DIR else GDPFS_FILE_TYPE_DIR)
    with GDPFS_FILE_TYPE_DIR by (by case_decide).
  destruct (kind_matches _ i) eqn:Hk; [|done]. intros Hr. apply (IH g1); [|done].
  unfold dir_entries. rewrite Hi. destruct i; [done|by eexists].
Qed.

Lemma good_parent_dir k s a path g :
  good k s a → resolve_parent (view a) root path = inr g →
  ∃ p m, nodes (view a) !! g = Some (IDir p m).
Proof.
  intros [_ _ _ Hroot] Hr. apply (resolve_dir _ _ _ _ Hroot) in Hr as [m Hm]. unfold dir_entries in Hm.
  destruct (nodes (view a) !! g) as [[|p m']|]; [done|by eauto|done].
Qed.

Lemma name_of_ok path : path_ok path → is_string (name_of path) ∧ (length (name_of path) ≤ NAME_MAX_GDPFS)%nat.
Proof.
  intros (Hs & _ & Hn). unfold name_of. apply string_components in Hs.
  destruct (components path) as [|c cs] using rev_ind; [split; [by repeat constructor|unfold NAME_MAX_GDPFS; simpl; lia]|].
  rewrite last_last. apply Forall_app in Hs as [_ Hs]. apply Forall_app in Hn as [_ Hn].
  split; [by inversion Hs|by inversion Hn].
Qed.

(** ** Changing an entry of an open directory *)

Lemma slot_offset f name off e :
  slot f name off e → ∃ i, off = ent_offset i ∧ (i ≤ length (entries_of f))%nat.
Proof.
  unfold slot. destruct (find_ent name (entries_of f)) as [[i e']|] eqn:Hf.
  - intros [-> _]. exists i. split; [done|]. apply list_find_Some in Hf as (Hi%lookup_lt_Some & _). lia.
  - intros ->. exists (free_slot (entries_of f)). split; [done|]. apply free_slot_le.
Qed.

(** The entry of [name], new or replaced, points to the log [g']. *)
Lemma good_add k s a fh g f off e name g' :
  good k s a → handle_file a fh g f → file_type (af_info f) = GDPFS_FILE_TYPE_DIR →
  slot f name off e → is_string name → (length name ≤ NAME_MAX_GDPFS)%nat →
  is_Some (a_files a !! g') → room (Datatypes.S k) →
  ∃ s' a', _add_at_offset fh off name g' s = Ok (GDPFS_STAT_OK, s') ∧ good (Datatypes.S k) s' a' ∧
    a_handles a' = a_handles a ∧ (∀ x, is_Some (a_files a !! x) → is_Some (a_files a' !! x)) ∧
    view a' = set_node (view a) g
      (IDir (file_perm (af_info f)) (<[name := g']> (dir_of (entries_of f)))).
Proof.
  intros [Hr Hi [Hfu Hoff] Hroot] [Hh Hf] Ht Hslot Hs Hlen [f' Hf'] Hroom.
  pose proof (fi_dir _ _ Hi _ _ Hf Ht) as [Hdf Hdo Hdl].
  destruct (fi_name _ _ Hi _ _ Hf') as [Hg Hgb].
  destruct (slot_offset _ _ _ _ Hslot) as (i & -> & Hile).
  assert (open_dir fuel a fh g f (entries_of f)) as Ho.
  { constructor; [done|done|done|lia|]. unfold ent_offset, sizeof_phys in *. lia. }
  destruct (add_at_offset_ok fuel s a fh g f (entries_of f) i name g') as (s' & Hadd & Hs'); [done..|].
  pose proof (strncpy_string name Hs Hlen) as Hname.
  assert (dir_ok (put_ent (entries_of f) i (new_ent name g')) ∧
    dir_of (put_ent (entries_of f) i (new_ent name g')) = <[name := g']> (dir_of (entries_of f)))
    as [Hdo' Hm].
  { unfold slot in Hslot. destruct (find_ent name (entries_of f)) as [[j e']|] eqn:Hfe.
    - destruct Hslot as [Hij _]. assert (i = j) as -> by (unfold ent_offset, sizeof_phys in Hij; lia).
      by apply (dir_of_replace name g' (entries_of f) j e').
    - assert (i = free_slot (entries_of f)) as -> by (unfold ent_offset, sizeof_phys in Hslot; lia).
      apply dir_of_add; [done| |done]. by rewrite find_ent_dir_of, Hfe. }
  destruct (fs_inv_put_ent k (Datatypes.S k) a g f i (new_ent name g')) as [Hinv Hview];
    [done|done|done|by apply new_ent_wf|done|done|lia|lia| |].
  { rewrite Hm. intros n x [[<- <-]|[_ Hx]]%lookup_insert_Some; [by eexists|].
    exact (fi_link _ _ Hi _ _ _ _ Hf Ht Hx). }
  exists s', (set_file a g (write_file f (encode_ent (new_ent name g')) (ent_offset i))).
  split; [done|]. rewrite Hview, Hm. split_and!; [|done|intros x; apply is_Some_set_file|done].
  constructor; [done|done|done|]. rewrite Hview. unfold has_root, dir_entries. simpl.
  destruct (decide (g = root)) as [->|Hne]; [by rewrite lookup_insert_eq|].
  rewrite lookup_insert_ne by done. apply Hroot.
Qed.

(** The entry of [name] becomes free. *)
Lemma good_unlink k s a fh g f i e name :
  good k s a → handle_file a fh g f → file_type (af_info f) = GDPFS_FILE_TYPE_DIR →
  find_ent name (entries_of f) = Some (i, e) →
  ∃ s' a', mark_removed fh (ent_offset i) e s = Ok (GDPFS_STAT_OK, s') ∧ good k s' a' ∧
    a_handles a' = a_handles a ∧
    view a' = set_node (view a) g
      (IDir (file_perm (af_info f)) (delete name (dir_of (entries_of f)))).
Proof.
  intros [Hr Hi [Hfu Hoff] Hroot] [Hh Hf] Ht Hfe.
  pose proof (fi_dir _ _ Hi _ _ Hf Ht) as [Hdf Hdo Hdl].
  assert (open_dir fuel a fh g f (entries_of f)) as Ho.
  { constructor; [done|done|done|lia|]. unfold ent_offset, sizeof_phys in *. lia. }
  destruct (mark_removed_ok fuel s a fh g f (entries_of f) name i e) as (s' & Hrm & Hs'); [done..|].
  destruct (dir_of_remove name (entries_of f) i e Hdo Hfe) as [Hdo' Hm].
  apply list_find_Some in Hfe as (Hie & _). pose proof (lookup_lt_Some _ _ _ Hie) as Hlt.
  destruct (fs_inv_put_ent k k a g f i (unused e)) as [Hinv Hview];
    [done|done|done| |lia|done|lia|lia| |].
  { assert (ent_wf e) as [] by (eapply Forall_lookup_1; [apply Hdf|done]). by constructor. }
  { rewrite Hm. intros n x [_ Hx]%lookup_delete_Some. exact (fi_link _ _ Hi _ _ _ _ Hf Ht Hx). }
  exists s', (set_file a g (write_file f (encode_ent (unused e)) (ent_offset i))).
  split; [done|]. rewrite Hview, Hm. split_and!; [|done|done].
  constructor; [done|done|done|]. rewrite Hview. unfold has_root, dir_entries. simpl.
  destruct (decide (g = root)) as [->|Hne]; [by rewrite lookup_insert_eq|].
  rewrite lookup_insert_ne by done. apply Hroot.
Qed.

End proof.
