(* ===== verification/Fuse.v ===== *)
(** * FUSE operations ([src/gdpfs.c])

    The handlers of [gdpfs_oper] over the file layer and the directory layer.  A
    result is the integer that the handler returns; handlers that fill a struct
    return it too. *)
From S2P Require Import Prelude.
From S2P Require Import State.
From S2P Require Import Types.
From S2P Require Import FileIface.
From S2P Require Import Dir.

(** ** Constants of the system headers *)

Definition S_IRWXU : Z := 448.
Definition S_IRWXG : Z := 56.
Definition S_IRWXO : Z := 7.
Definition S_IRUSR : Z := 256.
Definition S_IWUSR : Z := 128.
Definition S_IXUSR : Z := 64.
Definition S_IRGRP : Z := 32.
Definition S_IWGRP : Z := 16.
Definition S_IROTH : Z := 4.
Definition S_IWOTH : Z := 2.
Definition S_IFREG : Z := 32768.
Definition S_IFDIR : Z := 16384.

Definition O_RDONLY : Z := 0.
Definition O_WRONLY : Z := 1.
Definition O_RDWR : Z := 2.

Definition R_OK : Z := 4.
Definition W_OK : Z := 2.
Definition X_OK : Z := 1.

Definition ENOENT : Z := 2.
Definition EACCES : Z := 13.
Definition ENOTDIR : Z := 20.
Definition EISDIR : Z := 21.
Definition ENOTEMPTY : Z := 39.

Definition gdpfs_extract_perm (mode : Z) : Z :=
  Z.land mode (Z.lor (Z.lor S_IRWXU S_IRWXG) S_IRWXO).

(** The fields of [struct stat] that [gdpfs_getattr] sets from the file. *)
Record fstat := mkStat {
  st_mode : Z;
  st_nlink : Z;
  st_size : Z;
}.

(** [x & ~y] *)
Definition clear_bits (x y : Z) : Z := Z.land x (Z.lnot y).

(** The type bits of [gdpfs_getattr]; [None] is the default case. *)
Definition type_bits (type : gdpfs_file_type) : option Z :=
  match type with
  | GDPFS_FILE_TYPE_REGULAR => Some S_IFREG
  | GDPFS_FILE_TYPE_DIR => Some S_IFDIR
  | _ => None
  end.

(** The bits that the mode of the mount turns off. *)
Definition mask_mode (fs_mode : gdpfs_file_mode) (mode : Z) : Z :=
  match fs_mode with
  | GDPFS_FILE_MODE_RO => clear_bits mode (Z.lor (Z.lor S_IWUSR S_IWGRP) S_IWOTH)
  | GDPFS_FILE_MODE_RW => mode
  | GDPFS_FILE_MODE_WO => clear_bits mode (Z.lor (Z.lor S_IRUSR S_IRGRP) S_IROTH)
  end.

(** The test of [_check_open_flags] on the permissions. *)
Definition open_flags_ok (flags perm : Z) : bool :=
  let flags := Z.land flags (Z.lor (Z.lor O_RDONLY O_WRONLY) O_RDWR) in
  if O_RDONLY =? flags then negb (Z.land perm S_IRUSR =? 0)
  else if O_WRONLY =? flags then negb (Z.land perm S_IWUSR =? 0)
  else if O_RDWR =? flags then
    negb (Z.land perm S_IRUSR =? 0) && negb (Z.land perm S_IWUSR =? 0)
  else false.

(** The test of [gdpfs_access] on the permissions. *)
Definition access_ok (mode perm : Z) : bool :=
  ((Z.land R_OK mode =? 0) || negb (Z.land perm S_IRUSR =? 0)) &&
  ((Z.land W_OK mode =? 0) || negb (Z.land perm S_IWUSR =? 0)) &&
  ((Z.land X_OK mode =? 0) || negb (Z.land perm S_IXUSR =? 0)).

Section operations.
Context {S : Type} `{FileOps S}.
Variable fuel : nat.
Variable root_log_gname : file_gname.
Variable fs_mode : gdpfs_file_mode.

Definition gdpfs_getattr (path : list Z) : st S (Z * option fstat) :=
  '(estat, fh) ← gdpfs_dir_open_file_at_path fuel root_log_gname path GDPFS_FILE_TYPE_UNKNOWN;
  if negb (EP_STAT_ISOK estat) then mret (- ENOENT, None) else
  '(estat, info) ← gdpfs_file_get_info fh;
  if negb (EP_STAT_ISOK estat) then _ ← gdpfs_file_close fh; mret (- ENOENT, None) else
  match type_bits (file_type info) with
  | None => _ ← gdpfs_file_close fh; mret (- ENOENT, None)
  | Some bits =>
      _ ← gdpfs_file_close fh;
      mret (0, Some (mkStat (mask_mode fs_mode (Z.lor bits (file_perm info))) 1 (file_size info)))
  end.

Definition _check_open_flags (fh flags : Z) : st S bool :=
  '(estat, info) ← gdpfs_file_get_info fh;
  mret (if negb (EP_STAT_ISOK estat) then false else open_flags_ok flags (file_perm info)).

Definition _open (path : list Z) (type : gdpfs_file_type) : st S (Z * Z) :=
  '(estat, fh) ← gdpfs_dir_open_file_at_path fuel root_log_gname path type;
  mret (if negb (EP_STAT_ISOK estat) then - ENOENT else 0, fh).

Definition _release (fh : Z) : st S Z :=
  _ ← gdpfs_file_close fh;
  mret 0.

(** The common part of [gdpfs_open] and [gdpfs_opendir]. *)
Definition open_as (type : gdpfs_file_type) (path : list Z) (flags : Z) : st S (Z * Z) :=
  '(res, fh) ← _open path type;
  if negb (res =? 0) then mret (- ENOENT, fh) else
  ok ← _check_open_flags fh flags;
  if negb ok then _ ← _release fh; mret (- EACCES, fh) else mret (0, fh).

Definition gdpfs_open := open_as GDPFS_FILE_TYPE_REGULAR.
Definition gdpfs_opendir := open_as GDPFS_FILE_TYPE_DIR.

Definition gdpfs_release (fh : Z) : st S Z := _release fh.
Definition gdpfs_releasedir (fh : Z) : st S Z := _ ← gdpfs_file_close fh; mret 0.

(** The handlers return an [int]. *)
Definition to_int (n : Z) : Z :=
  let n := wrap32 n in if n <? 2 ^ 31 then n else n - 2 ^ 32.

Definition gdpfs_read (size offset fh : Z) : st S (Z * list Z) :=
  bs ← gdpfs_file_read fh size offset;
  mret (to_int (Z.of_nat (length bs)), bs).

Definition gdpfs_write (buf : list Z) (offset fh : Z) : st S Z :=
  n ← gdpfs_file_write fh buf offset;
  mret (to_int n).

Definition gdpfs_truncate (path : list Z) (file_size : Z) : st S Z :=
  '(res, fh) ← _open path GDPFS_FILE_TYPE_REGULAR;
  if negb (res =? 0) then mret res else
  res ← gdpfs_file_ftruncate fh file_size;
  r ← _release fh;
  mret (if negb (r =? 0) || negb (res =? 0) then 1 else 0).

Definition gdpfs_ftruncate (file_size fh : Z) : st S Z := gdpfs_file_ftruncate fh file_size.

Definition gdpfs_create (filepath : list Z) (mode : Z) : st S (Z * option Z) :=
  match last filepath with
  | None => mret (- ENOENT, None)
  | Some c =>
    if c =? SLASH then mret (- EISDIR, None) else
    '(estat, fh, existing) ← gdpfs_dir_create_file_at_path fuel root_log_gname filepath
        GDPFS_FILE_TYPE_REGULAR true (gdpfs_extract_perm mode);
    '(estat, fh) ←
      (if EP_STAT_IS_SAME estat GDPFS_STAT_FILE_EXISTS
       then gdpfs_file_open_type (default [] existing) GDPFS_FILE_TYPE_REGULAR
       else mret (estat, fh));
    mret (if negb (EP_STAT_ISOK estat) then (- ENOENT, None) else (0, Some fh))
  end.

Definition gdpfs_unlink (filepath : list Z) : st S Z :=
  if decide (filepath = []) then mret (- ENOENT) else
  estat ← gdpfs_dir_remove_file_at_path fuel root_log_gname filepath GDPFS_FILE_TYPE_REGULAR;
  mret (if negb (EP_STAT_ISOK estat) then - ENOENT else 0).

Definition gdpfs_mkdir (filepath : list Z) (mode : Z) : st S Z :=
  if decide (filepath = []) then mret (- ENOENT) else
  '(estat, _, _) ← gdpfs_dir_create_file_at_path fuel root_log_gname filepath
      GDPFS_FILE_TYPE_DIR false (gdpfs_extract_perm mode);
  mret (if negb (EP_STAT_ISOK estat) then - ENOENT else 0).

Definition gdpfs_rmdir (filepath : list Z) : st S Z :=
  if decide (filepath = []) then mret (- ENOENT) else
  estat ← gdpfs_dir_remove_file_at_path fuel root_log_gname filepath GDPFS_FILE_TYPE_DIR;
  mret (if EP_STAT_IS_SAME estat GDPFS_STAT_DIR_NOT_EMPTY then - ENOTEMPTY
        else if negb (EP_STAT_ISOK estat) then - ENOENT else 0).

(** The error numbers of [gdpfs_rename]; [None] lets the operation go on. *)
Definition rename_error (estat : stat) : option Z :=
  if EP_STAT_IS_SAME estat GDPFS_STAT_FILE_EXISTS then Some (- ENOTDIR)
  else if EP_STAT_IS_SAME estat GDPFS_STAT_DIR_EXISTS then Some (- EISDIR)
  else if EP_STAT_IS_SAME estat GDPFS_STAT_DIR_NOT_EMPTY then Some (- ENOTEMPTY)
  else if negb (EP_STAT_ISOK estat) then Some (- ENOENT) else None.

Definition gdpfs_rename (filepath1 filepath2 : list Z) : st S Z :=
  '(rv, fh) ← _open filepath1 GDPFS_FILE_TYPE_UNKNOWN;
  if negb (rv =? 0) then mret (- ENOENT) else
  estat ← gdpfs_dir_replace_file_at_path fuel root_log_gname fh filepath2;
  _ ← gdpfs_file_close fh;
  match rename_error estat with
  | Some e => mret e
  | None =>
      estat ← gdpfs_dir_remove_file_at_path fuel root_log_gname filepath1 GDPFS_FILE_TYPE_UNKNOWN;
      mret (if negb (EP_STAT_ISOK estat) then - ENOENT else 0)
  end.

Definition gdpfs_access (filepath : list Z) (mode : Z) : st S Z :=
  '(res, fh) ← _open filepath GDPFS_FILE_TYPE_UNKNOWN;
  if negb (res =? 0) then mret (-1) else
  '(estat, info) ← gdpfs_file_get_info fh;
  let success := if negb (EP_STAT_ISOK estat) then false else access_ok mode (file_perm info) in
  _ ← _release fh;
  mret (if success then 0 else -1).

Definition gdpfs_chmod (filepath : list Z) (mode : Z) : st S Z :=
  '(res, fh) ← _open filepath GDPFS_FILE_TYPE_UNKNOWN;
  if negb (res =? 0) then mret (- ENOENT) else
  _ ← gdpfs_file_set_perm fh (gdpfs_extract_perm mode);
  _ ← _release fh;
  mret 0.

Definition gdpfs_chown (filepath : list Z) : st S Z := mret 0.
Definition gdpfs_utimens (filepath : list Z) : st S Z := mret 0.

(** ** Listing a directory

    [filler] is the callback of the FUSE library; it returns [true] when its
    buffer is full.  The variable [ent] keeps the last entry that was read: a
    status that is neither OK nor [GDPFS_STAT_EOF] only logs a message. *)
Section readdir.
Context {B : Type}.
Variable filler : B → list Z → Z → B * bool.

Fixpoint readdir_loop (n : nat) (buf : B) (ent : option dir_entry) (offset fh : Z) : st S B :=
  match n with
  | O => st_fail OutOfFuel
  | Datatypes.S n =>
      let next (ent : option dir_entry) (name : list Z) (offset : Z) : st S B :=
        let '(buf, full) := filler buf name offset in
        if full : bool then mret buf else readdir_loop n buf ent offset fh in
      if offset =? 1 then next ent [DOT] (offset + 1)
      else if offset =? 2 then next ent [DOT; DOT] (offset + 1)
      else
        '(estat, read) ← gdpfs_dir_read fuel fh (offset - 3);
        if EP_STAT_IS_SAME estat GDPFS_STAT_EOF then mret buf
        else
          match match read with Some e => Some e | None => ent end with
          | Some e => next (Some e) (de_name e) (de_offset e + 3)
          | None => st_fail Uninitialised
          end
  end.

Definition gdpfs_readdir (buf : B) (offset fh : Z) : st S B :=
  readdir_loop (fuel + 3) buf None (if offset =? 0 then 1 else offset) fh.
End readdir.

End operations.

(** ** Permissions *)

(** C26: The permission check of [gdpfs_open] and [gdpfs_opendir] agrees with
    [gdpfs_access]: opening for reading, writing or both is allowed exactly when
    [access] allows the same, and no other access mode is. *)
Theorem open_agrees_with_access flags perm :
  open_flags_ok flags perm =
    match Z.land flags 3 with
    | 0 => access_ok R_OK perm
    | 1 => access_ok W_OK perm
    | 2 => access_ok (Z.lor R_OK W_OK) perm
    | _ => false
    end.
Proof.
  unfold open_flags_ok. change (Z.lor (Z.lor O_RDONLY O_WRONLY) O_RDWR) with 3.
  assert (0 ≤ Z.land flags 3 < 4) as Hb.
  { change 3 with (Z.ones 2). rewrite Z.land_ones by lia. apply Z.mod_pos_bound. lia. }
  destruct (Z.land flags 3) as [|[[]|[]|]|]; try lia; unfold access_ok; simpl;
    by rewrite ?andb_true_r.
Qed.
