(* ===== verification/FsOps.v ===== *)
(** * The operations of the lower layers on the abstract file system

    A calculus for programs over a state that represents a file system:
    [delivers k c s Q] says that the program [c] ends in [s] with an outcome in
    [Q].  Every function that the FUSE handlers call has a rule. *)
From S2P Require Import Prelude.
From S2P Require Import State.
From S2P Require Import Types.
From S2P Require Import FileIface.
From S2P Require Import Dir.
From S2P Require Import DirSpec.
From S2P Require Import DirProof.
From S2P Require Import FsPath.
From S2P Require Import FsSpec.
From S2P Require Import FsDir.

(** ** The abstract operations *)

Definition read_inode (data : gmap Z Z) (fsize size offset : Z) : list Z :=
  (λ i, default 0 (data !! i)) <$> seqZ offset (Z.max 0 (Z.min size (fsize - offset))).

Definition write_inode (p n : Z) (data : gmap Z Z) (bs : list Z) (offset : Z) : inode :=
  IFile p (Z.max n (offset + Z.of_nat (length bs))) (write_data data bs offset).

Definition set_inode_perm (i : inode) (p : Z) : inode :=
  match i with IFile _ n d => IFile p n d | IDir _ m => IDir p m end.

Definition new_inode (type : gdpfs_file_type) (perm : Z) : inode :=
  match type with GDPFS_FILE_TYPE_DIR => IDir perm ∅ | _ => IFile perm 0 ∅ end.

Definition empty_dir (i : inode) : bool :=
  match i with IDir _ m => bool_decide (m = ∅) | IFile _ _ _ => true end.

(** Whether the log [g] may be removed as a file of type [type]. *)
Definition removable (F : fs) (type : gdpfs_file_type) (g : file_gname) : stat :=
  if decide (type = GDPFS_FILE_TYPE_UNKNOWN) then GDPFS_STAT_OK else
  match nodes F !! g with
  | Some i =>
      if negb (kind_matches type i) then GDPFS_STAT_INVLDFTYPE
      else if empty_dir i then GDPFS_STAT_OK else GDPFS_STAT_DIR_NOT_EMPTY
  | None => GDPFS_STAT_NOTFOUND
  end.

(** [gdpfs_dir_remove_file_at_path]: a name that does not exist is no error. *)
Definition fs_remove (F : fs) (root : file_gname) (path : list Z) (type : gdpfs_file_type) : stat * fs :=
  match resolve_parent F root path with
  | inl e => (e, F)
  | inr gd =>
      match nodes F !! gd with
      | Some (IDir p m) =>
          match m !! name_of path with
          | Some g =>
              let e := removable F type g in
              (e, if EP_STAT_ISOK e then set_node F gd (IDir p (delete (name_of path) m)) else F)
          | None => (GDPFS_STAT_OK, F)
          end
      | _ => (GDPFS_STAT_OK, F)
      end
  end.

(** Whether an entry for [g2] may be replaced by one for [g1]. *)
Definition replaceable (i1 i2 : inode) : stat :=
  if negb (bool_decide (inode_type i1 = inode_type i2)) then
    if decide (inode_type i2 = GDPFS_FILE_TYPE_REGULAR) then GDPFS_STAT_FILE_EXISTS
    else GDPFS_STAT_DIR_EXISTS
  else if empty_dir i2 then GDPFS_STAT_OK else GDPFS_STAT_DIR_NOT_EMPTY.

(** [gdpfs_dir_replace_file_at_path] for the log [g1], apart from handles. *)
Definition fs_replace (F : fs) (root g1 : file_gname) (path : list Z) : stat * fs :=
  match resolve_parent F root path with
  | inl e => (e, F)
  | inr gd =>
      match nodes F !! gd with
      | Some (IDir p m) =>
          let e :=
            match m !! name_of path with
            | Some g2 =>
                match nodes F !! g1, nodes F !! g2 with
                | Some i1, Some i2 => replaceable i1 i2
                | _, _ => GDPFS_STAT_NOTFOUND
                end
            | None => GDPFS_STAT_OK
            end in
          (e, if EP_STAT_ISOK e then set_node F gd (IDir p (<[name_of path := g1]> m)) else F)
      | _ => (GDPFS_STAT_OK, F)
      end
  end.

(** ** Outcomes *)

(** A program ends with a value in a file system, or with a fault. *)
Inductive out (A : Type) :=
  | Done (a : A) (F : fs)
  | Crash (f : fault).
Arguments Done {A} _ _.
Arguments Crash {A} _.

Lemma resolve_error F type g cs e : resolve F type g cs = inl e → EP_STAT_ISOK e = false.
Proof.
  revert g. induction cs as [|n cs IH]; intros g; cbn [resolve]; [done|].
  destruct (nodes F !! g) as [[|p m]|]; [by intros [= <-]| |by intros [= <-]].
  destruct (m !! n) as [g'|]; [|by intros [= <-]].
  destruct (nodes F !! g') as [i|]; [|by intros [= <-]].
  destruct (kind_matches _ i); [apply IH|by intros [= <-]].
Qed.

Lemma has_root_set_node F root g i :
  has_root F root → (g = root → inode_type i = GDPFS_FILE_TYPE_DIR) → has_root (set_node F g i) root.
Proof.
  intros Hr Hg. unfold has_root, dir_entries. simpl. destruct (decide (g = root)) as [->|Hne].
  - rewrite lookup_insert_eq. destruct i; [by specialize (Hg eq_refl)|by eexists].
  - by rewrite lookup_insert_ne by done.
Qed.

Section proof.
Context {S : Type} `{FileLaws S}.
Variable fuel : nat.
Variable root : file_gname.
Implicit Types (s : S) (a : afs) (f : afile) (F : fs).

Notation fs_rep := (fs_rep fuel root).
Notation good := (good fuel root).
Notation room := (room fuel).

Definition delivers {A} (k : nat) (c : st S A) (s : S) (Q : out A → Prop) : Prop :=
  ∃ o, Q o ∧ match o with
    | Done r F => ∃ s', c s = Ok (r, s') ∧ fs_rep k s' F
    | Crash f => c s = Fault f
    end.

Definition spare (n : nat) (F : fs) : Prop := (size (handles F) + n ≤ max_handles)%nat.

Lemma dv_ret {A} k (r : A) s F (Q : out A → Prop) : fs_rep k s F → Q (Done r F) → delivers k (mret r) s Q.
Proof. intros Hs HQ. exists (Done r F). split; [done|]. by exists s. Qed.

Lemma dv_run {A} k (c : st S A) s r s1 F (Q : out A → Prop) :
  c s = Ok (r, s1) → fs_rep k s1 F → Q (Done r F) → delivers k c s Q.
Proof. intros Hc Hs HQ. exists (Done r F). split; [done|]. by exists s1. Qed.

Lemma dv_step {A B} k (c : st S A) (K : A → st S B) s r s1 (Q : out B → Prop) :
  c s = Ok (r, s1) → delivers k (K r) s1 Q → delivers k (c ≫= K) s Q.
Proof.
  intros Hc (o & HQ & Ho). exists o. split; [done|]. by rewrite (bind_ok _ _ _ _ _ Hc).
Qed.

Lemma dv_crash {A B} k (c : st S A) (K : A → st S B) s (f : fault) (Q : out B → Prop) :
  c s = Fault f → Q (Crash f) → delivers k (c ≫= K) s Q.
Proof. intros Hc HQ. exists (Crash f). split; [done|]. by apply bind_fault. Qed.

Lemma fs_rep_mono k k' s F : (k ≤ k')%nat → room k' → fs_rep k s F → fs_rep k' s F.
Proof.
  intros Hk Hr (a & [] & Hv). exists a. split; [|done].
  constructor; [done|by eapply fs_inv_mono|done|done].
Qed.

(** ** Handles *)

Lemma rep_handle k s F fh g : fs_rep k s F → handles F !! fh = Some g →
  0 ≤ fh ∧ is_Some (nodes F !! g).
Proof.
  intros (a & [_ Hi _ _] & <-) Hh. destruct (fi_handle _ _ Hi fh g Hh) as [? [f Hf]].
  split; [done|]. eexists. by apply view_node.
Qed.

Lemma rep_close k s F fh g : fs_rep k s F → handles F !! fh = Some g →
  ∃ e s', gdpfs_file_close fh s = Ok (e, s') ∧ fs_rep k s' (remove_handle F fh).
Proof.
  intros (a & Hg & <-) Hh. destruct (good_close fuel root k s a fh g Hg Hh) as (e & s' & Hc & Hg').
  exists e, s'. split; [done|]. by eexists.
Qed.

Lemma remove_add_handle F fh g : handles F !! fh = None → remove_handle (add_handle F fh g) fh = F.
Proof. intros Hn. unfold remove_handle, add_handle. simpl. rewrite delete_insert_id by done. by destruct F. Qed.

Lemma rep_close_new k s F fh g : fs_rep k s (add_handle F fh g) → handles F !! fh = None →
  ∃ e s', gdpfs_file_close fh s = Ok (e, s') ∧ fs_rep k s' F.
Proof.
  intros Hr Hn. destruct (rep_close k s _ fh g Hr) as (e & s' & Hc & Hs').
  { apply lookup_insert_eq. }
  rewrite remove_add_handle in Hs' by done. eauto.
Qed.

(** ** Opening *)

Lemma rep_open_type k s F g i type :
  fs_rep k s F → nodes F !! g = Some i → spare 1 F → kind_matches type i = true →
  ∃ fh s', gdpfs_file_open_type g type s = Ok ((GDPFS_STAT_OK, fh), s') ∧ 0 ≤ fh ∧
    handles F !! fh = None ∧ fs_rep k s' (add_handle F fh g).
Proof.
  intros (a & Hg & <-) (f & Hf & <-)%view_node_inv Hsp Hk.
  rewrite kind_matches_ok in Hk by (by eapply fi_plain; [apply Hg|]).
  destruct (good_open_type fuel root k s a g f type) as (fh & s' & Ho & Hfh & Hn & Hg'); [done..|].
  exists fh, s'. split_and!; [done..|]. by eexists.
Qed.

Lemma rep_open_mismatch k s F g i type :
  fs_rep k s F → nodes F !! g = Some i → spare 1 F → kind_matches type i = false →
  ∃ s', gdpfs_file_open_type g type s = Ok ((GDPFS_STAT_INVLDFTYPE, -1), s') ∧ fs_rep k s' F.
Proof.
  intros (a & Hg & <-) (f & Hf & <-)%view_node_inv Hsp Hk.
  rewrite kind_matches_ok in Hk by (by eapply fi_plain; [apply Hg|]).
  destruct (good_open_mismatch fuel root k s a g f type) as (s' & Ho & Hg'); [done..|].
  exists s'. split; [done|]. by eexists.
Qed.

Lemma rep_open k s F g i :
  fs_rep k s F → nodes F !! g = Some i → spare 1 F →
  ∃ fh s', gdpfs_file_open g s = Ok ((GDPFS_STAT_OK, fh), s') ∧ 0 ≤ fh ∧
    handles F !! fh = None ∧ fs_rep k s' (add_handle F fh g).
Proof.
  intros (a & Hg & <-) (f & Hf & <-)%view_node_inv Hsp.
  destruct (good_open fuel root k s a g f) as (fh & s' & Ho & Hfh & Hn & Hg'); [done..|].
  exists fh, s'. split_and!; [done..|]. by eexists.
Qed.

Lemma rep_gname k s F fh g : fs_rep k s F → handles F !! fh = Some g →
  ∃ s', gdpfs_file_gname fh s = Ok (g, s') ∧ fs_rep k s' F.
Proof.
  intros (a & Hg & <-) Hh. destruct (gname_ok s a fh g) as (s' & Ho & Hs'); [apply Hg|done|].
  exists s'. split; [done|]. exists a. split; [by eapply good_step|done].
Qed.

Lemma rep_get_info k s F fh g i : fs_rep k s F → handles F !! fh = Some g → nodes F !! g = Some i →
  ∃ s' info, gdpfs_file_get_info fh s = Ok ((GDPFS_STAT_OK, info), s') ∧ fs_rep k s' F ∧
    file_type info = inode_type i ∧ file_perm info = inode_perm i ∧
    (∀ p n d, i = IFile p n d → file_size info = n).
Proof.
  intros (a & Hg & <-) Hh (f & Hf & <-)%view_node_inv.
  destruct (get_info_ok s a fh g f) as (s' & Ho & Hs'); [apply Hg|done|].
  exists s', (af_info f). split; [done|]. split; [exists a; split; [by eapply good_step|done]|].
  rewrite inode_of_type by (by eapply fi_plain; [apply Hg|]). rewrite inode_of_perm.
  split_and!; [done..|]. intros p n d. unfold inode_of. destruct (file_type (af_info f)); naive_solver.
Qed.

(** ** Data *)

Lemma rep_read_file k s F fh g p n d size off :
  fs_rep k s F → handles F !! fh = Some g → nodes F !! g = Some (IFile p n d) →
  0 ≤ off → 0 ≤ size → off + size < max_offset →
  ∃ s', gdpfs_file_read fh size off s = Ok (read_inode d n size off, s') ∧ fs_rep k s' F.
Proof.
  intros (a & Hg & <-) Hh Hn ???. destruct (view_file_inv _ _ _ _ _ _ (good_inv _ _ _ _ _ Hg) Hn) as (f & Hf & He).
  destruct (read_ok s a fh g f size off) as (s' & Ho & Hs'); [apply Hg|done..|].
  exists s'. split; [by rewrite Ho, He|]. exists a. split; [by eapply good_step|done].
Qed.

(** Storing a new version of a regular file. *)
Lemma rep_set_file k s s' a g f p n d :
  good k s a → nodes (view a) !! g = Some (IFile p n d) → file_type (af_info f) = GDPFS_FILE_TYPE_REGULAR →
  file_rep s' (set_file a g f) → fs_rep k s' (set_node (view a) g (inode_of f)).
Proof.
  intros [Hr Hi Hro Hroot] Hn Ht Hs'. exists (set_file a g f). split; [|apply view_set_file].
  destruct (view_file_inv _ _ _ _ _ _ Hi Hn) as (f0 & Hf0 & _).
  destruct (fi_name _ _ Hi _ _ Hf0).
  constructor; [done| |done|].
  - apply (fs_inv_set_file k); [done..| |]; rewrite Ht; done.
  - rewrite view_set_file. apply has_root_set_node; [done|]. intros ->.
    unfold has_root, dir_entries in Hroot. rewrite Hn in Hroot. by destruct Hroot.
Qed.

Lemma rep_write k s F fh g p n d bs off :
  fs_rep k s F → handles F !! fh = Some g → nodes F !! g = Some (IFile p n d) →
  0 ≤ off → off + Z.of_nat (length bs) < max_offset → Forall (in_width 8) bs →
  ∃ s', gdpfs_file_write fh bs off s = Ok (Z.of_nat (length bs), s') ∧
    fs_rep k s' (set_node F g (write_inode p n d bs off)).
Proof.
  intros (a & Hg & <-) Hh Hn ???. destruct (view_file_inv _ _ _ _ _ _ (good_inv _ _ _ _ _ Hg) Hn) as (f & Hf & He).
  destruct (write_ok s a fh g f bs off) as (s' & Ho & Hs'); [apply Hg|done..|].
  exists s'. split; [done|]. subst f. refine (rep_set_file k s s' a g _ p n d Hg Hn _ Hs'). done.
Qed.

Lemma rep_ftruncate k s F fh g p n d len :
  fs_rep k s F → handles F !! fh = Some g → nodes F !! g = Some (IFile p n d) →
  ∃ s', gdpfs_file_ftruncate fh len s = Ok (0, s') ∧ fs_rep k s' (set_node F g (IFile p 0 d)).
Proof.
  intros (a & Hg & <-) Hh Hn. destruct (view_file_inv _ _ _ _ _ _ (good_inv _ _ _ _ _ Hg) Hn) as (f & Hf & He).
  destruct (ftruncate_ok s a fh g f len) as (s' & Ho & Hs'); [apply Hg|done..|].
  exists s'. split; [done|]. subst f. refine (rep_set_file k s s' a g _ p n d Hg Hn _ Hs'). done.
Qed.

Lemma entries_of_perm f p : entries_of (mkAfile (with_perm (af_info f) p) (af_data f)) = entries_of f.
Proof. done. Qed.

Lemma rep_set_perm k s F fh g i p :
  fs_rep k s F → handles F !! fh = Some g → nodes F !! g = Some i → in_width 16 p →
  ∃ s', gdpfs_file_set_perm fh p s = Ok (GDPFS_STAT_OK, s') ∧
    fs_rep k s' (set_node F g (set_inode_perm i p)).
Proof.
  intros (a & Hg & <-) Hh (f & Hf & <-)%view_node_inv Hp.
  destruct (set_perm_ok s a fh g f p) as (s' & Ho & Hs'); [apply Hg|done..|].
  exists s'. split; [done|]. set (f' := mkAfile (with_perm (af_info f) p) (af_data f)) in *.
  assert (inode_of f' = set_inode_perm (inode_of f) p) as He.
  { unfold inode_of, f'. simpl. by destruct (file_type (af_info f)). }
  rewrite <-He. exists (set_file a g f'). split; [|apply view_set_file].
  destruct Hg as [Hr Hi Hro Hroot]. destruct (fi_name _ _ Hi _ _ Hf).
  constructor; [done| |done|].
  - apply (fs_inv_set_file k); [done..|by apply (fi_plain _ _ Hi _ _ Hf)|].
    intros Ht. pose proof (fi_dir _ _ Hi _ _ Hf Ht) as [Hdf Hdo Hdl]. split.
    + constructor; [|done|done]. change (entries_of f') with (entries_of f). by destruct Hdf; constructor.
    + intros n x Hx. exact (fi_link _ _ Hi _ _ _ _ Hf Ht Hx).
  - rewrite view_set_file. apply has_root_set_node; [done|]. intros ->.
    unfold has_root, dir_entries in Hroot. rewrite (view_node _ _ _ Hf) in Hroot. rewrite He.
    destruct (inode_of f); [by destruct Hroot|done].
Qed.

End proof.
