(* ===== verification/FsTree.v ===== *)
(** * Creating, replacing and removing files by path

    The functions of [gdpfs_dir.c] that take a path, against the abstract
    operations on the graph of inodes. *)
From S2P Require Import Prelude.
From S2P Require Import State.
From S2P Require Import Types.
From S2P Require Import FileIface.
From S2P Require Import Dir.
From S2P Require Import DirSpec.
From S2P Require Import DirProof.
From S2P Require Import FsPath.
From S2P Require Import FsSpec.
From S2P Require Import FsDir.
From S2P Require Import FsOps.

Section proof.
Context {S : Type} `{FileLaws S}.
Variable fuel : nat.
Variable root : file_gname.
Implicit Types (s : S) (a : afs) (f : afile) (F : fs).

Notation fs_rep := (fs_rep fuel root).
Notation good := (good fuel root).
Notation room := (room fuel).

(** ** Opening by path *)

Lemma rep_open_path k s F path type :
  fs_rep k s F → path_ok path → spare 1 F →
  ∃ s', match resolve_path F root path type with
    | inr g => ∃ fh, gdpfs_dir_open_file_at_path fuel root path type s = Ok ((EP_STAT_OK, fh), s') ∧
        0 ≤ fh ∧ handles F !! fh = None ∧ fs_rep k s' (add_handle F fh g)
    | inl e => gdpfs_dir_open_file_at_path fuel root path type s = Ok ((e, INVALID_FH), s') ∧
        EP_STAT_ISOK e = false ∧ fs_rep k s' F
    end.
Proof.
  intros (a & Hg & <-) Hp Hsp.
  destruct (good_open_path fuel root k s a path type Hg Hp Hsp) as (s' & Ho). exists s'.
  destruct (resolve_path _ _ _ _) as [e|g].
  - destruct Ho as (? & ? & ?). split_and!; [done..|by eexists].
  - destruct Ho as (fh & ? & ? & ? & ?). exists fh. split_and!; [done..|by eexists].
Qed.

(** The node that a path resolves to exists. *)
Lemma resolve_node k s F type g cs g' :
  fs_rep k s F → is_Some (nodes F !! g) → resolve F type g cs = inr g' → is_Some (nodes F !! g').
Proof.
  intros _. revert g. induction cs as [|n cs IH]; intros g Hg; cbn [resolve]; [by intros [= <-]|].
  destruct (nodes F !! g) as [[|p m]|]; [done| |done].
  destruct (m !! n) as [g1|]; [|done]. destruct (nodes F !! g1) as [i|] eqn:Hi; [|done].
  destruct (kind_matches _ i); [|done]. apply IH. by rewrite Hi.
Qed.

Lemma rep_root k s F : fs_rep k s F → is_Some (nodes F !! root).
Proof.
  intros (a & [_ _ _ [m Hm]] & <-). unfold dir_entries in Hm.
  by destruct (nodes (view a) !! root).
Qed.

Lemma resolve_path_node k s F path type g :
  fs_rep k s F → resolve_path F root path type = inr g → is_Some (nodes F !! g).
Proof. intros Hs. eapply resolve_node; [done|by eapply rep_root]. Qed.

(** ** Emptiness *)

Lemma good_isempty k s a fh g f :
  good k s a → handle_file a fh g f → file_type (af_info f) = GDPFS_FILE_TYPE_DIR →
  ∃ s', gdpfs_dir_isempty fuel fh s = Ok ((GDPFS_STAT_OK, empty_dir (inode_of f)), s') ∧ good k s' a.
Proof.
  intros Hg [Hh Hf] Ht. pose proof (view_node a g f Hf) as Hn. unfold inode_of in *. rewrite Ht in *.
  destruct (good_open_dir _ _ _ _ _ _ _ _ _ Hg Hh Hn) as (f' & _ & _ & Hm & Ho).
  assert (f' = f) as -> by (destruct (od_handle _ _ _ _ _ _ Ho) as [_ Hf']; congruence).
  destruct (isempty_ok fuel s a fh g f (entries_of f)) as (s' & He & Hs'); [apply Hg|done|].
  exists s'. split; [done|by eapply good_step].
Qed.

(** ** Removing *)

(** The handle on the file that is to be removed, and the checks on it. *)
Lemma good_check_removable k s a g f type :
  good k s a → a_files a !! g = Some f → spare_handles 1 a → type ≠ GDPFS_FILE_TYPE_UNKNOWN →
  ∃ s', ('(estat, filefh) ← gdpfs_file_open_type g type;
         if negb (EP_STAT_ISOK estat) then mret estat else check_removable fuel filefh type) s =
    Ok (removable (view a) type g, s') ∧ good k s' a.
Proof.
  intros Hg Hf Hsp Ht. pose proof (fi_plain _ _ (good_inv _ _ _ _ _ Hg) _ _ Hf) as Hplain.
  unfold removable. rewrite decide_False by done. rewrite (view_node _ _ _ Hf), kind_matches_ok by done.
  destruct (type_matches type f) eqn:Htm; cbn [negb].
  - destruct (good_open_type fuel root k s a g f type) as (fh & s1 & Ho & Hfh & Hn & Hg1); [done..|].
    rewrite (bind_ok _ _ _ _ _ Ho). cbn [EP_STAT_ISOK negb]. unfold check_removable.
    assert (file_type (af_info f) = type) as Hft.
    { unfold type_matches in Htm. rewrite bool_decide_eq_false_2 in Htm by done.
      by apply bool_decide_eq_true in Htm. }
    destruct (decide (type = GDPFS_FILE_TYPE_DIR)) as [->|Hnd].
    + destruct (good_isempty k s1 _ fh g f Hg1) as (s2 & He & Hg2);
        [split; [apply lookup_insert_eq|done]|done|].
      rewrite (bind_ok _ _ _ _ _ He). cbn [EP_STAT_ISOK negb].
      destruct (good_close_new fuel root _ _ _ _ _ Hg2 Hn) as (e & s3 & Hc & Hg3). exists s3.
      by destruct (empty_dir (inode_of f)); cbn [negb]; unfold close_and_return; rewrite (bind_ok _ _ _ _ _ Hc).
    + destruct (good_close_new fuel root _ _ _ _ _ Hg1 Hn) as (e & s3 & Hc & Hg3). exists s3.
      unfold close_and_return. rewrite (bind_ok _ _ _ _ _ Hc).
      unfold inode_of. rewrite Hft. by destruct type.
  - destruct (good_open_mismatch fuel root k s a g f type) as (s1 & Ho & Hg1); [done..|].
    rewrite (bind_ok _ _ _ _ _ Ho). by exists s1.
Qed.

(** The checks come before the entry is marked. *)
Lemma check_bind (c : st S (stat * Z)) (check : Z → st S stat) (K : st S stat) s :
  (('(estat, filefh) ← c; if negb (EP_STAT_ISOK estat) then mret estat else check filefh) ≫=
    λ estat, if negb (EP_STAT_ISOK estat) then mret estat else K) s =
  ('(estat, filefh) ← c;
   if negb (EP_STAT_ISOK estat) then mret estat else
   estat ← check filefh;
   if negb (EP_STAT_ISOK estat) then mret estat else K) s.
Proof.
  unfold mbind, st_bind, mret, st_ret. destruct (c s) as [[[e fh] s']|]; [|done].
  destruct (EP_STAT_ISOK e) eqn:He; simpl; [done|]. by rewrite He.
Qed.

Lemma removable_stat F type g : removable F type g = GDPFS_STAT_OK ∨ EP_STAT_ISOK (removable F type g) = false.
Proof. unfold removable. repeat case_match; auto. Qed.

(** [gdpfs_dir_remove] on an open directory. *)
Lemma good_dir_remove k s a fh gd p m name type :
  good k s a → a_handles a !! fh = Some gd → nodes (view a) !! gd = Some (IDir p m) →
  is_string name → spare_handles 1 a →
  ∃ s' a', match m !! name with
    | Some g =>
        gdpfs_dir_remove fuel fh name type s = Ok (removable (view a) type g, s') ∧
        good k s' a' ∧ a_handles a' = a_handles a ∧
        nodes (view a') = if EP_STAT_ISOK (removable (view a) type g)
                          then <[gd := IDir p (delete name m)]> (nodes (view a)) else nodes (view a)
    | None => gdpfs_dir_remove fuel fh name type s = Ok (GDPFS_STAT_OK, s') ∧ good k s' a' ∧ a' = a
    end.
Proof.
  intros Hg Hh Hn Hname Hsp.
  destruct (good_find fuel root k s a fh gd p m name) as
    (s1 & off & e & f & Hf & Hg1 & Hgf & Hgt & -> & -> & Hslot & He); [done..|].
  unfold gdpfs_dir_remove. destruct (dir_of (entries_of f) !! name) as [g|] eqn:Hm; cbn [find_stat] in Hf.
  2: { exists s1, a. by rewrite (bind_ok _ _ _ _ _ Hf). }
  unfold slot in Hslot. rewrite find_ent_dir_of in Hm.
  destruct (find_ent name (entries_of f)) as [[i e']|] eqn:Hfe; [|done].
  destruct Hslot as [-> ->]. pose proof (He g eq_refl) as Hpe. clear Hm He.
  assert (∀ s2, good k s2 a → ∃ s' a', mark_removed fh (ent_offset i) e' s2 = Ok (GDPFS_STAT_OK, s') ∧
    good k s' a' ∧ a_handles a' = a_handles a ∧
    nodes (view a') = <[gd := IDir (file_perm (af_info f)) (delete name (dir_of (entries_of f)))]> (nodes (view a)))
    as Hmark.
  { intros s2 Hg2. destruct (good_unlink fuel root k s2 a fh gd f i e' name) as (s3 & a' & Hr & Hg3 & Hah & Hv);
      [done|done|done|done|]. exists s3, a'. split_and!; [done..|]. by rewrite Hv. }
  destruct (fi_link _ _ (good_inv _ _ _ _ _ Hg1) gd f name g) as [f1 Hf1]; [done..| |].
  { rewrite find_ent_dir_of, Hfe. simpl. by rewrite Hpe. }
  rewrite (bind_ok _ _ _ _ _ Hf). cbn beta iota. rewrite Hpe.
  change (negb (EP_STAT_IS_SAME GDPFS_STAT_FILE_EXISTS GDPFS_STAT_FILE_EXISTS)) with false. cbn iota.
  destruct (decide (type = GDPFS_FILE_TYPE_UNKNOWN)) as [->|Hnu].
  { destruct (Hmark s1 Hg1) as (s' & a' & ? & ? & ? & ?). by exists s', a'. }
  destruct (good_check_removable k s1 a g f1 type) as (s2 & Hc & Hg2); [done..|].
  rewrite <-check_bind, (bind_ok _ _ _ _ _ Hc).
  destruct (removable_stat (view a) type g) as [->|Hr].
  - destruct (Hmark s2 Hg2) as (s' & a' & ? & ? & ? & ?). by exists s', a'.
  - rewrite Hr. by exists s2, a.
Qed.

Lemma fs_eq (F1 F2 : fs) : nodes F1 = nodes F2 → handles F1 = handles F2 → F1 = F2.
Proof. destruct F1, F2; simpl; congruence. Qed.

Lemma resolve_parent_handles F fh g path :
  resolve_parent (add_handle F fh g) root path = resolve_parent F root path.
Proof.
  unfold resolve_parent. generalize root. induction (parent_of path) as [|n cs IH]; intros r; [done|].
  cbn [resolve]. change (nodes (add_handle F fh g)) with (nodes F).
  by repeat case_match.
Qed.

Lemma rep_remove k s F path type :
  fs_rep k s F → path_ok path → spare 2 F →
  ∃ s', gdpfs_dir_remove_file_at_path fuel root path type s = Ok ((fs_remove F root path type).1, s') ∧
    fs_rep k s' (fs_remove F root path type).2.
Proof.
  intros (a & Hg & <-) Hp Hsp. unfold spare in Hsp. unfold gdpfs_dir_remove_file_at_path, fs_remove.
  destruct (good_open_parent fuel root k s a path Hg Hp) as (s1 & Ho); [unfold spare_handles; simpl in *; lia|].
  destruct (resolve_parent (view a) root path) as [e|gd] eqn:Hres.
  { destruct Ho as (Ho & He & Hg1). exists s1. rewrite (bind_ok _ _ _ _ _ Ho). rewrite He.
    split; [done|by eexists]. }
  destruct Ho as (fd & Ho & Hfd & Hn & Hg1). rewrite (bind_ok _ _ _ _ _ Ho). cbn [EP_STAT_ISOK negb].
  destruct (good_parent_dir fuel root k s a path gd Hg Hres) as (p & m & Hnode).
  destruct (name_of_ok path Hp) as [Hname _].
  destruct (good_dir_remove k s1 (set_handle a fd gd) fd gd p m (name_of path) type) as (s2 & a2 & Hrm);
    [done|apply lookup_insert_eq|done|done| |].
  { unfold spare_handles. simpl in *. rewrite map_size_insert_None by done. lia. }
  rewrite Hnode. destruct (m !! name_of path) as [g|].
  - destruct Hrm as (Hrm & Hg2 & Hah & Hv). rewrite (bind_ok _ _ _ _ _ Hrm).
    destruct (good_close fuel root k s2 a2 fd gd Hg2) as (e & s3 & Hc & Hg3).
    { rewrite Hah. apply lookup_insert_eq. }
    rewrite (bind_ok _ _ _ _ _ Hc). exists s3. split; [done|]. exists (drop_handle a2 fd).
    split; [done|]. change (removable (view (set_handle a fd gd))) with (removable (view a)) in Hv.
    apply fs_eq; simpl.
    + simpl in Hv. rewrite Hv. by destruct (EP_STAT_ISOK _).
    + rewrite Hah. simpl. rewrite delete_insert_id by done. by destruct (EP_STAT_ISOK _).
  - destruct Hrm as (Hrm & Hg2 & ->). rewrite (bind_ok _ _ _ _ _ Hrm).
    destruct (good_close_new fuel root _ _ _ _ _ Hg2 Hn) as (e & s3 & Hc & Hg3).
    rewrite (bind_ok _ _ _ _ _ Hc). exists s3. split; [done|by eexists].
Qed.

(** ** Creating *)

(** The outcomes of [gdpfs_dir_create_file_at_path]: a parent that cannot be
    opened; a name that exists, in which case the handle [fd] on the parent
    stays open and a [NULL] buffer for the name is written to; or a new file. *)
Inductive create_spec (F : fs) (path : list Z) (type : gdpfs_file_type) (wants : bool) (perm : Z) :
    out (stat * Z * option file_gname) → Prop :=
  | create_no_parent e :
      resolve_parent F root path = inl e → EP_STAT_ISOK e = false →
      create_spec F path type wants perm (Done (e, INVALID_FH, None) F)
  | create_exists gd fd p m g :
      resolve_parent F root path = inr gd → nodes F !! gd = Some (IDir p m) →
      m !! name_of path = Some g → handles F !! fd = None → wants = true →
      create_spec F path type wants perm
        (Done (GDPFS_STAT_FILE_EXISTS, INVALID_FH, Some g) (add_handle F fd gd))
  | create_null gd p m g :
      resolve_parent F root path = inr gd → nodes F !! gd = Some (IDir p m) →
      m !! name_of path = Some g → wants = false →
      create_spec F path type wants perm (Crash NullDeref)
  | create_new gd p m g fh :
      resolve_parent F root path = inr gd → nodes F !! gd = Some (IDir p m) →
      m !! name_of path = None → nodes F !! g = None → handles F !! fh = None → 0 ≤ fh →
      create_spec F path type wants perm
        (Done (GDPFS_STAT_OK, fh, None)
          (add_handle (set_node (set_node F g (new_inode type perm)) gd
                         (IDir p (<[name_of path := g]> m))) fh g)).

Lemma new_file_inode type perm : plain_type type = true →
  inode_of (mkAfile (mkInfo 0 type perm) ∅) = new_inode type perm.
Proof. by destruct type. Qed.

Lemma good_create_file k s a type perm :
  good k s a → spare_handles 1 a → Z.of_nat (size (a_files a)) < max_files →
  plain_type type = true → in_width 16 perm →
  ∃ g fh s', gdpfs_file_create type perm s = Ok ((GDPFS_STAT_OK, fh, g), s') ∧ 0 ≤ fh ∧
    a_files a !! g = None ∧ a_handles a !! fh = None ∧
    good k s' (set_handle (set_file a g (mkAfile (mkInfo 0 type perm) ∅)) fh g).
Proof.
  intros [Hr Hi Hro Hroot] Hsp Hfiles Ht Hperm.
  destruct (create_ok s a type perm Hr) as (g & fh & s' & Hc & Hlen & Hby & Hfh & Hgn & Hhn & Hs');
    [unfold spare_handles in Hsp; lia|done..|].
  exists g, fh, s'. split_and!; [done..|]. constructor; [done| |done|].
  - apply fs_inv_add_handle; [|done|by simpl; rewrite lookup_insert_eq].
    apply (fs_inv_set_file k); [done..|]. intros _. split; [|done].
    constructor; [constructor; done|by apply NoDup_nil|simpl; lia].
  - change (view (set_handle ?x fh g)) with (add_handle (view x) fh g).
    unfold has_root, dir_entries. change (nodes (add_handle ?x fh g)) with (nodes x).
    rewrite view_set_file. apply has_root_set_node; [done|]. intros ->.
    unfold has_root, dir_entries in Hroot. simpl in Hroot. rewrite lookup_fmap, Hgn in Hroot. by destruct Hroot.
Qed.

Lemma rep_create k s F path type wants perm :
  fs_rep k s F → path_ok path → spare 2 F → Z.of_nat (size (nodes F)) < max_files →
  room (Datatypes.S k) → plain_type type = true → in_width 16 perm →
  delivers fuel root (Datatypes.S k)
    (gdpfs_dir_create_file_at_path fuel root path type wants perm) s (create_spec F path type wants perm).
Proof.
  intros (a & Hg & <-) Hp Hsp Hfiles Hroom Ht Hperm. unfold spare in Hsp.
  unfold gdpfs_dir_create_file_at_path.
  destruct (good_open_parent fuel root k s a path Hg Hp) as (s1 & Ho); [unfold spare_handles; simpl in *; lia|].
  destruct (resolve_parent (view a) root path) as [e|gd] eqn:Hres.
  { destruct Ho as (Ho & He & Hg1). eapply dv_step; [done|]. cbn beta iota. rewrite He.
    apply (dv_ret _ _ _ _ _ (view a)); [|by apply create_no_parent].
    apply (fs_rep_mono _ _ k); [lia|done|by eexists]. }
  destruct Ho as (fd & Ho & Hfd & Hn & Hg1). eapply dv_step; [done|]. cbn [EP_STAT_ISOK negb].
  destruct (good_parent_dir fuel root k s a path gd Hg Hres) as (p & m & Hnode).
  destruct (name_of_ok path Hp) as [Hname Hlen].
  destruct (good_find fuel root k s1 (set_handle a fd gd) fd gd p m (name_of path)) as
    (s2 & off & e & f & Hf & Hg2 & Hgf & Hgt & -> & -> & Hslot & He);
    [done|apply lookup_insert_eq|done|done|].
  eapply dv_step; [done|]. cbn beta iota.
  destruct (dir_of (entries_of f) !! name_of path) as [g|] eqn:Hm; cbn [find_stat EP_STAT_ISOK negb].
  { change (EP_STAT_IS_SAME GDPFS_STAT_FILE_EXISTS GDPFS_STAT_FILE_EXISTS) with true. cbn iota.
    rewrite (He g eq_refl). destruct wants.
    - eapply (dv_ret _ _ _ _ _ (add_handle (view a) fd gd)); [|by eapply create_exists].
      apply (fs_rep_mono _ _ k); [lia|done|]. by eexists.
    - exists (Crash NullDeref). split; [by eapply create_null|done]. }
  destruct (good_create_file k s2 (set_handle a fd gd) type perm) as (g & fh & s3 & Hc & Hfh & Hgn & Hhn & Hg3);
    [done| |by simpl in *; rewrite map_size_fmap in Hfiles|done|done|].
  { unfold spare_handles. simpl in *. rewrite map_size_insert_None by done. lia. }
  eapply dv_step; [done|]. cbn [EP_STAT_ISOK negb]. simpl in Hgn, Hhn.
  apply lookup_insert_None in Hhn as [Hhn Hne].
  assert (gd ≠ g) as Hgg by (intros ->; simpl in Hgf; congruence).
  set (a3 := set_handle (set_file (set_handle a fd gd) g (mkAfile (mkInfo 0 type perm) ∅)) fh g) in *.
  destruct (good_add fuel root k s3 a3 fd gd f off e (name_of path) g) as
    (s4 & a4 & Hadd & Hg4 & Hah & _ & Hv); [done| |done..| |done|].
  { split; simpl; rewrite lookup_insert_ne by done; [apply lookup_insert_eq|done]. }
  { simpl. by rewrite lookup_insert_eq. }
  eapply dv_step; [done|]. cbn beta.
  destruct (good_close fuel root _ s4 a4 fd gd Hg4) as (ec & s5 & Hclose & Hg5).
  { rewrite Hah. simpl. rewrite lookup_insert_ne by done. apply lookup_insert_eq. }
  eapply dv_step; [done|]. cbn [EP_STAT_ISOK negb].
  eapply dv_ret; [by eexists|].
  replace (view (drop_handle a4 fd)) with
    (add_handle (set_node (set_node (view a) g (new_inode type perm)) gd
      (IDir (file_perm (af_info f)) (<[name_of path := g]> (dir_of (entries_of f))))) fh g).
  { apply create_new; [done..|by simpl; rewrite lookup_fmap, Hgn|done|done]. }
  apply fs_eq; simpl.
  - pose proof (f_equal nodes Hv) as Hvn. simpl in Hvn. rewrite Hvn, fmap_insert.
    by rewrite new_file_inode.
  - rewrite Hah. simpl. rewrite delete_insert_ne, delete_insert_id by done. done.
Qed.

(** ** Replacing *)

Lemma good_check_replaceable k s a g2 f2 i1 e :
  good k s a → a_files a !! g2 = Some f2 → spare_handles 1 a → pe_gname e = g2 →
  ∃ s', check_replaceable fuel (inode_type i1) e s =
    Ok (if EP_STAT_ISOK (replaceable i1 (inode_of f2)) then None
        else Some (replaceable i1 (inode_of f2)), s') ∧ good k s' a.
Proof.
  intros Hg Hf Hsp He. pose proof (fi_plain _ _ (good_inv _ _ _ _ _ Hg) _ _ Hf) as Hplain.
  unfold check_replaceable, replaceable. rewrite He.
  destruct (good_open fuel root k s a g2 f2) as (fh & s1 & Ho & Hfh & Hn & Hg1); [done..|].
  rewrite (bind_ok _ _ _ _ _ Ho). cbn [EP_STAT_ISOK negb].
  assert (handle_file (set_handle a fh g2) fh g2 f2) as Hh by (split; [apply lookup_insert_eq|done]).
  destruct (get_info_ok s1 _ fh g2 f2 (good_rep _ _ _ _ _ Hg1) Hh) as (s2 & Hi & Hs2).
  rewrite (bind_ok _ _ _ _ _ Hi). cbn [EP_STAT_ISOK negb].
  pose proof (good_step _ _ _ _ _ _ Hg1 Hs2) as Hg2.
  rewrite <-(inode_of_type f2) by done.
  assert (∀ s3, good k s3 (set_handle a fh g2) →
    ∃ ec s4, gdpfs_file_close fh s3 = Ok (ec, s4) ∧ good k s4 a) as Hclose.
  { intros s3 Hg3. by eapply good_close_new. }
  case_bool_decide as Hty; cbn [negb].
  2: { destruct (Hclose s2 Hg2) as (ec & s3 & Hc & Hg3). exists s3. unfold close_and_return.
       split; [|done]. case_decide; by rewrite !(bind_ok _ _ _ _ _ (bind_ok _ _ _ _ _ Hc)). }
  destruct (decide (inode_type (inode_of f2) = GDPFS_FILE_TYPE_DIR)) as [Hd|Hd].
  - destruct (good_isempty k s2 _ fh g2 f2 Hg2 Hh) as (s3 & Hemp & Hg3); [by rewrite inode_of_type in Hd|].
    rewrite (bind_ok _ _ _ _ _ Hemp). cbn [EP_STAT_ISOK negb].
    destruct (Hclose s3 Hg3) as (ec & s4 & Hc & Hg4). exists s4. split; [|done].
    destruct (empty_dir (inode_of f2)); cbn [negb EP_STAT_ISOK].
    + by rewrite (bind_ok _ _ _ _ _ Hc).
    + unfold close_and_return. by rewrite !(bind_ok _ _ _ _ _ (bind_ok _ _ _ _ _ Hc)).
  - destruct (Hclose s2 Hg2) as (ec & s3 & Hc & Hg3). exists s3. split; [|done].
    rewrite (bind_ok _ _ _ _ _ Hc). by destruct (inode_of f2).
Qed.

Lemma replaceable_stat i1 i2 :
  replaceable i1 i2 = GDPFS_STAT_OK ∨ EP_STAT_ISOK (replaceable i1 i2) = false.
Proof. unfold replaceable. repeat case_match; auto. Qed.

(** The outcomes of [gdpfs_dir_replace_file_at_path]: the handle on the parent
    stays open. *)
Inductive replace_spec (F : fs) (g1 : file_gname) (path : list Z) : out stat → Prop :=
  | replace_no_parent e :
      resolve_parent F root path = inl e → EP_STAT_ISOK e = false →
      replace_spec F g1 path (Done e F)
  | replace_done gd fd :
      resolve_parent F root path = inr gd → handles F !! fd = None →
      replace_spec F g1 path
        (Done (fs_replace F root g1 path).1 (add_handle (fs_replace F root g1 path).2 fd gd)).

Lemma rep_replace k s F fh g1 path :
  fs_rep k s F → handles F !! fh = Some g1 → path_ok path → spare 2 F → room (Datatypes.S k) →
  delivers fuel root (Datatypes.S k)
    (gdpfs_dir_replace_file_at_path fuel root fh path) s (replace_spec F g1 path).
Proof.
  intros Hs0 Hh Hp Hsp Hroom. unfold gdpfs_dir_replace_file_at_path.
  destruct (rep_handle fuel root k s F fh g1 Hs0 Hh) as [_ [i1 Hi1]].
  destruct (rep_gname fuel root k s F fh g1 Hs0 Hh) as (s1 & Hgn & Hs1). eapply dv_step; [done|].
  destruct (rep_get_info fuel root k s1 F fh g1 i1 Hs1 Hh Hi1) as (s2 & info & Hinfo & Hs2 & Hty & _).
  eapply dv_step; [done|]. cbn [EP_STAT_ISOK negb]. rewrite Hty.
  clear dependent s s1. destruct Hs2 as (a & Hg & <-). unfold spare in Hsp.
  destruct (good_open_parent fuel root k s2 a path Hg Hp) as (s3 & Ho); [unfold spare_handles; simpl in *; lia|].
  destruct (resolve_parent (view a) root path) as [e|gd] eqn:Hres.
  { destruct Ho as (Ho & He & Hg3). eapply dv_step; [done|]. cbn beta iota. rewrite He.
    apply (dv_ret _ _ _ _ _ (view a)); [|by apply replace_no_parent].
    apply (fs_rep_mono _ _ k); [lia|done|by eexists]. }
  destruct Ho as (fd & Ho & Hfd & Hn & Hg3). eapply dv_step; [done|]. cbn [EP_STAT_ISOK negb].
  destruct (good_parent_dir fuel root k s2 a path gd Hg Hres) as (p & m & Hnode).
  destruct (name_of_ok path Hp) as [Hname Hlen].
  destruct (good_find fuel root k s3 (set_handle a fd gd) fd gd p m (name_of path)) as
    (s4 & off & e & f & Hf & Hg4 & Hgf & Hgt & -> & -> & Hslot & He);
    [done|apply lookup_insert_eq|done|done|].
  eapply dv_step; [done|]. cbn beta iota.
  assert (is_Some (a_files a !! g1)) as Hg1.
  { destruct (view_node_inv _ _ _ Hi1) as (f1 & Hf1 & _). by eexists. }
  pose proof (replace_done (view a) g1 path gd fd Hres Hn) as Hdone.
  set (m := dir_of (entries_of f)) in *.
  set (estat := match m !! name_of path with
    | Some g2 => match nodes (view a) !! g2 with Some i2 => replaceable i1 i2 | None => GDPFS_STAT_NOTFOUND end
    | None => GDPFS_STAT_OK end).
  assert (estat = GDPFS_STAT_OK ∨ EP_STAT_ISOK estat = false) as Hestat.
  { unfold estat. repeat case_match; auto using replaceable_stat. }
  assert (fs_replace (view a) root g1 path =
    (estat, if EP_STAT_ISOK estat
            then set_node (view a) gd (IDir (file_perm (af_info f)) (<[name_of path := g1]> m))
            else view a)) as Hspec.
  { unfold fs_replace. rewrite Hres, Hnode, Hi1. fold m. unfold estat. by repeat case_match. }
  rewrite Hspec in Hdone. cbn [fst snd] in Hdone.
  assert (∃ s5, (if EP_STAT_IS_SAME (find_stat (m !! name_of path)) GDPFS_STAT_FILE_EXISTS
      then check_replaceable fuel (inode_type i1) e
      else if negb (EP_STAT_ISOK (find_stat (m !! name_of path)))
           then mret (Some (find_stat (m !! name_of path))) else mret None) s4 =
      Ok (if EP_STAT_ISOK estat then None else Some estat, s5) ∧ good k s5 (set_handle a fd gd))
    as (s5 & Hchk & Hg5).
  { unfold estat. destruct (m !! name_of path) as [g2|] eqn:Hm; cbn [find_stat].
    - change (EP_STAT_IS_SAME GDPFS_STAT_FILE_EXISTS GDPFS_STAT_FILE_EXISTS) with true. cbn iota.
      destruct (fi_link _ _ (good_inv _ _ _ _ _ Hg4) gd f (name_of path) g2) as [f2 Hf2]; [done..|].
      rewrite (view_node a g2 f2 Hf2).
      apply (good_check_replaceable k s4 _ g2 f2 i1 e); [done|done| |by apply He].
      unfold spare_handles. simpl in *. rewrite map_size_insert_None by done. lia.
    - by exists s4. }
  eapply dv_step; [exact Hchk|]. destruct (EP_STAT_ISOK estat) eqn:Hok.
  - destruct Hestat as [->|?]; [|congruence].
    destruct (good_add fuel root k s5 (set_handle a fd gd) fd gd f off e (name_of path) g1) as
      (s6 & a6 & Hadd & Hg6 & Hah & _ & Hv); [done| |done..|].
    { split; [apply lookup_insert_eq|done]. }
    eapply dv_step; [done|]. cbn [EP_STAT_ISOK negb].
    eapply dv_ret; [by eexists|]. replace (view a6) with
      (add_handle (set_node (view a) gd (IDir (file_perm (af_info f)) (<[name_of path := g1]> m))) fd gd).
    exact Hdone.
  - eapply dv_ret; [|exact Hdone]. apply (fs_rep_mono _ _ k); [lia|done|]. by eexists.
Qed.

End proof.
