(* ===== verification/FuseSpec.v ===== *)
(** * What the FUSE operations do to the file system

    [fuse_spec F r o]: the request [r] on the file system [F] may have the
    outcome [o].  A client is a program that sends requests and looks at the
    responses. *)
From S2P Require Import Prelude.
From S2P Require Import State.
From S2P Require Import Types.
From S2P Require Import FileIface.
From S2P Require Import Dir.
From S2P Require Import FsPath.
From S2P Require Import FsSpec.
From S2P Require Import FsOps.
From S2P Require Import FsTree.
From S2P Require Import Fuse.

(** ** Requests and responses *)

Inductive request :=
  | Getattr (path : list Z)
  | Open (path : list Z) (flags : Z)
  | Opendir (path : list Z) (flags : Z)
  | Release (fh : Z)
  | Read (size offset fh : Z)
  | Write (buf : list Z) (offset fh : Z)
  | Truncate (path : list Z) (len : Z)
  | Ftruncate (len fh : Z)
  | Create (path : list Z) (mode : Z)
  | Unlink (path : list Z)
  | Mkdir (path : list Z) (mode : Z)
  | Rmdir (path : list Z)
  | Rename (path1 path2 : list Z)
  | Access (path : list Z) (mode : Z)
  | Chmod (path : list Z) (mode : Z).

Inductive response :=
  | RInt (res : Z)
  | RStat (res : Z) (st : option fstat)
  | RHandle (res : Z) (fh : option Z)
  | RData (res : Z) (bs : list Z).

#[export] Instance fstat_eq_dec : EqDecision fstat.
Proof. solve_decision. Defined.
#[export] Instance response_eq_dec : EqDecision response.
Proof. solve_decision. Defined.

Section handlers.
Context {S : Type} `{FileOps S}.
Variable fuel : nat.
Variable root : file_gname.
Variable mode : gdpfs_file_mode.

(** The handle counts only if the call succeeded. *)
Definition opened (r : Z * Z) : response := RHandle r.1 (if r.1 =? 0 then Some r.2 else None).

(** The dispatch of [gdpfs_oper]. *)
Definition handle (r : request) : st S response :=
  match r with
  | Getattr path => '(n, st) ← gdpfs_getattr fuel root mode path; mret (RStat n st)
  | Open path flags => r ← gdpfs_open fuel root path flags; mret (opened r)
  | Opendir path flags => r ← gdpfs_opendir fuel root path flags; mret (opened r)
  | Release fh => n ← gdpfs_release fh; mret (RInt n)
  | Read size offset fh => '(n, bs) ← gdpfs_read size offset fh; mret (RData n bs)
  | Write buf offset fh => n ← gdpfs_write buf offset fh; mret (RInt n)
  | Truncate path len => n ← gdpfs_truncate fuel root path len; mret (RInt n)
  | Ftruncate len fh => n ← gdpfs_ftruncate len fh; mret (RInt n)
  | Create path m => '(n, fh) ← gdpfs_create fuel root path m; mret (RHandle n fh)
  | Unlink path => n ← gdpfs_unlink fuel root path; mret (RInt n)
  | Mkdir path m => n ← gdpfs_mkdir fuel root path m; mret (RInt n)
  | Rmdir path => n ← gdpfs_rmdir fuel root path; mret (RInt n)
  | Rename p1 p2 => n ← gdpfs_rename fuel root p1 p2; mret (RInt n)
  | Access path m => n ← gdpfs_access fuel root path m; mret (RInt n)
  | Chmod path m => n ← gdpfs_chmod fuel root path m; mret (RInt n)
  end.
End handlers.

(** ** The specification *)

Definition type_mode (i : inode) : Z :=
  match i with IFile _ _ _ => S_IFREG | IDir _ _ => S_IFDIR end.

(** The error number of a status. *)
Definition err (e : stat) : Z := if negb (EP_STAT_ISOK e) then - ENOENT else 0.
Definition rmdir_err (e : stat) : Z :=
  if EP_STAT_IS_SAME e GDPFS_STAT_DIR_NOT_EMPTY then - ENOTEMPTY else err e.

Section spec.
Variable root : file_gname.
Variable mode : gdpfs_file_mode.
Implicit Types (F : fs) (o : out response).

(** Opening a path as a file of type [type]. *)
Inductive open_spec F (type : gdpfs_file_type) (path : list Z) (flags : Z) : out response → Prop :=
  | open_fails e :
      resolve_path F root path type = inl e →
      open_spec F type path flags (Done (RHandle (- ENOENT) None) F)
  | open_denied g i :
      resolve_path F root path type = inr g → nodes F !! g = Some i →
      open_flags_ok flags (inode_perm i) = false →
      open_spec F type path flags (Done (RHandle (- EACCES) None) F)
  | open_done g i fh :
      resolve_path F root path type = inr g → nodes F !! g = Some i →
      open_flags_ok flags (inode_perm i) = true → handles F !! fh = None → 0 ≤ fh →
      open_spec F type path flags (Done (RHandle 0 (Some fh)) (add_handle F fh g)).

(** [gdpfs_create] opens a file that exists; the handle [fd] of its directory is
    then never closed. *)
Inductive create_file_spec F (path : list Z) (m : Z) : out response → Prop :=
  | create_is_dir :
      trailing path = true → create_file_spec F path m (Done (RHandle (- EISDIR) None) F)
  | create_fails e :
      trailing path = false → resolve_parent F root path = inl e →
      create_file_spec F path m (Done (RHandle (- ENOENT) None) F)
  | create_opens gd fd p es g fh :
      trailing path = false → resolve_parent F root path = inr gd →
      nodes F !! gd = Some (IDir p es) → es !! name_of path = Some g →
      handles F !! fd = None → handles F !! fh = None → fd ≠ fh → 0 ≤ fh →
      (∃ q n d, nodes F !! g = Some (IFile q n d)) →
      create_file_spec F path m (Done (RHandle 0 (Some fh)) (add_handle (add_handle F fd gd) fh g))
  | create_on_dir gd fd p es g :
      trailing path = false → resolve_parent F root path = inr gd →
      nodes F !! gd = Some (IDir p es) → es !! name_of path = Some g → handles F !! fd = None →
      (∃ q ds, nodes F !! g = Some (IDir q ds)) →
      create_file_spec F path m (Done (RHandle (- ENOENT) None) (add_handle F fd gd))
  | create_makes gd p es g fh :
      trailing path = false → resolve_parent F root path = inr gd →
      nodes F !! gd = Some (IDir p es) → es !! name_of path = None →
      nodes F !! g = None → handles F !! fh = None → 0 ≤ fh →
      create_file_spec F path m
        (Done (RHandle 0 (Some fh))
          (add_handle (set_node (set_node F g (IFile (gdpfs_extract_perm m) 0 ∅)) gd
                         (IDir p (<[name_of path := g]> es))) fh g)).

(** [gdpfs_mkdir] never closes the handle [fh] on the new directory, and writes
    the name of a file that exists to a [NULL] pointer. *)
Inductive mkdir_spec F (path : list Z) (m : Z) : out response → Prop :=
  | mkdir_fails e :
      resolve_parent F root path = inl e → mkdir_spec F path m (Done (RInt (- ENOENT)) F)
  | mkdir_exists gd p es g :
      resolve_parent F root path = inr gd → nodes F !! gd = Some (IDir p es) →
      es !! name_of path = Some g → mkdir_spec F path m (Crash NullDeref)
  | mkdir_makes gd p es g fh :
      resolve_parent F root path = inr gd → nodes F !! gd = Some (IDir p es) →
      es !! name_of path = None → nodes F !! g = None → handles F !! fh = None → 0 ≤ fh →
      mkdir_spec F path m
        (Done (RInt 0)
          (add_handle (set_node (set_node F g (IDir (gdpfs_extract_perm m) ∅)) gd
                         (IDir p (<[name_of path := g]> es))) fh g)).

(** [gdpfs_rename] links the file to its new name and then removes the old one;
    the handle [fd] on the new directory is never closed. *)
Inductive rename_spec F (p1 p2 : list Z) : out response → Prop :=
  | rename_no_source e :
      resolve_path F root p1 GDPFS_FILE_TYPE_UNKNOWN = inl e →
      rename_spec F p1 p2 (Done (RInt (- ENOENT)) F)
  | rename_no_target g1 e :
      resolve_path F root p1 GDPFS_FILE_TYPE_UNKNOWN = inr g1 →
      resolve_parent F root p2 = inl e →
      rename_spec F p1 p2 (Done (RInt (- ENOENT)) F)
  | rename_refused g1 gd fd F' e n :
      resolve_path F root p1 GDPFS_FILE_TYPE_UNKNOWN = inr g1 →
      resolve_parent F root p2 = inr gd → handles F !! fd = None →
      fs_replace F root g1 p2 = (e, F') → rename_error e = Some n →
      rename_spec F p1 p2 (Done (RInt n) (add_handle F fd gd))
  | rename_moves g1 gd fd F' e :
      resolve_path F root p1 GDPFS_FILE_TYPE_UNKNOWN = inr g1 →
      resolve_parent F root p2 = inr gd → handles F !! fd = None →
      fs_replace F root g1 p2 = (e, F') → rename_error e = None →
      rename_spec F p1 p2
        (Done (RInt (err (fs_remove F' root p1 GDPFS_FILE_TYPE_UNKNOWN).1))
          (add_handle (fs_remove F' root p1 GDPFS_FILE_TYPE_UNKNOWN).2 fd gd)).

Inductive fuse_spec F : request → out response → Prop :=
  | spec_getattr_fails path e :
      resolve_path F root path GDPFS_FILE_TYPE_UNKNOWN = inl e →
      fuse_spec F (Getattr path) (Done (RStat (- ENOENT) None) F)
  | spec_getattr path g i size :
      resolve_path F root path GDPFS_FILE_TYPE_UNKNOWN = inr g → nodes F !! g = Some i →
      (∀ p n d, i = IFile p n d → size = n) →
      fuse_spec F (Getattr path)
        (Done (RStat 0 (Some (mkStat (mask_mode mode (Z.lor (type_mode i) (inode_perm i))) 1 size))) F)
  | spec_open path flags o :
      open_spec F GDPFS_FILE_TYPE_REGULAR path flags o → fuse_spec F (Open path flags) o
  | spec_opendir path flags o :
      open_spec F GDPFS_FILE_TYPE_DIR path flags o → fuse_spec F (Opendir path flags) o
  | spec_release fh : fuse_spec F (Release fh) (Done (RInt 0) (remove_handle F fh))
  | spec_read size off fh g p n d :
      handles F !! fh = Some g → nodes F !! g = Some (IFile p n d) →
      let bs := read_inode d n size off in
      fuse_spec F (Read size off fh) (Done (RData (Z.of_nat (length bs)) bs) F)
  | spec_write buf off fh g p n d :
      handles F !! fh = Some g → nodes F !! g = Some (IFile p n d) →
      fuse_spec F (Write buf off fh)
        (Done (RInt (Z.of_nat (length buf))) (set_node F g (write_inode p n d buf off)))
  | spec_truncate_fails path len e :
      resolve_path F root path GDPFS_FILE_TYPE_REGULAR = inl e →
      fuse_spec F (Truncate path len) (Done (RInt (- ENOENT)) F)
  | spec_truncate path len g p n d :
      resolve_path F root path GDPFS_FILE_TYPE_REGULAR = inr g → nodes F !! g = Some (IFile p n d) →
      fuse_spec F (Truncate path len) (Done (RInt 0) (set_node F g (IFile p 0 d)))
  | spec_ftruncate len fh g p n d :
      handles F !! fh = Some g → nodes F !! g = Some (IFile p n d) →
      fuse_spec F (Ftruncate len fh) (Done (RInt 0) (set_node F g (IFile p 0 d)))
  | spec_create path m o : create_file_spec F path m o → fuse_spec F (Create path m) o
  | spec_unlink path :
      fuse_spec F (Unlink path)
        (Done (RInt (err (fs_remove F root path GDPFS_FILE_TYPE_REGULAR).1))
          (fs_remove F root path GDPFS_FILE_TYPE_REGULAR).2)
  | spec_mkdir path m o : mkdir_spec F path m o → fuse_spec F (Mkdir path m) o
  | spec_rmdir path :
      fuse_spec F (Rmdir path)
        (Done (RInt (rmdir_err (fs_remove F root path GDPFS_FILE_TYPE_DIR).1))
          (fs_remove F root path GDPFS_FILE_TYPE_DIR).2)
  | spec_rename p1 p2 o : rename_spec F p1 p2 o → fuse_spec F (Rename p1 p2) o
  | spec_access_fails path m e :
      resolve_path F root path GDPFS_FILE_TYPE_UNKNOWN = inl e →
      fuse_spec F (Access path m) (Done (RInt (-1)) F)
  | spec_access path m g i :
      resolve_path F root path GDPFS_FILE_TYPE_UNKNOWN = inr g → nodes F !! g = Some i →
      fuse_spec F (Access path m) (Done (RInt (if access_ok m (inode_perm i) then 0 else -1)) F)
  | spec_chmod_fails path m e :
      resolve_path F root path GDPFS_FILE_TYPE_UNKNOWN = inl e →
      fuse_spec F (Chmod path m) (Done (RInt (- ENOENT)) F)
  | spec_chmod path m g i :
      resolve_path F root path GDPFS_FILE_TYPE_UNKNOWN = inr g → nodes F !! g = Some i →
      fuse_spec F (Chmod path m)
        (Done (RInt 0) (set_node F g (set_inode_perm i (gdpfs_extract_perm m)))).

End spec.
