(* ===== verification/FuseProof.v ===== *)
(** * Correctness of the FUSE operations

    Every handler delivers what [fuse_spec] allows, over any implementation of
    the file layer that satisfies its contract. *)
From S2P Require Import Prelude.
From S2P Require Import State.
From S2P Require Import Types.
From S2P Require Import FileIface.
From S2P Require Import Dir.
From S2P Require Import FsPath.
From S2P Require Import FsSpec.
From S2P Require Import FsDir.
From S2P Require Import FsOps.
From S2P Require Import FsTree.
From S2P Require Import Fuse.
From S2P Require Import FuseSpec.

Definition regular_node (F : fs) (g : file_gname) : Prop :=
  match nodes F !! g with Some (IFile _ _ _) => True | _ => False end.
Definition regular_handle (F : fs) (fh : Z) : Prop :=
  match handles F !! fh with Some g => regular_node F g | None => False end.

#[export] Instance regular_node_dec F g : Decision (regular_node F g).
Proof. unfold regular_node. repeat case_match; apply _. Defined.
#[export] Instance regular_handle_dec F fh : Decision (regular_handle F fh).
Proof. unfold regular_handle. case_match; apply _. Defined.

Lemma regular_node_inv F g : regular_node F g → ∃ p n d, nodes F !! g = Some (IFile p n d).
Proof. unfold regular_node. destruct (nodes F !! g) as [[]|]; naive_solver. Qed.

Lemma regular_handle_inv F fh : regular_handle F fh →
  ∃ g p n d, handles F !! fh = Some g ∧ nodes F !! g = Some (IFile p n d).
Proof.
  unfold regular_handle. destruct (handles F !! fh) as [g|]; [|done].
  intros (p & n & d & Hg)%regular_node_inv. eauto 10.
Qed.

Lemma extract_perm_width mode : in_width 16 (gdpfs_extract_perm mode).
Proof.
  unfold gdpfs_extract_perm. change (Z.lor (Z.lor S_IRWXU S_IRWXG) S_IRWXO) with (Z.ones 9).
  rewrite Z.land_ones by lia. unfold in_width.
  pose proof (Z.mod_pos_bound mode (2 ^ 9) ltac:(lia)). lia.
Qed.

Lemma to_int_small n : 0 ≤ n < 2 ^ 31 → to_int n = n.
Proof.
  intros Hn. unfold to_int. rewrite wrap_small by (unfold in_width; lia).
  by destruct (Z.ltb_spec n (2 ^ 31)); [|lia].
Qed.

Section proof.
Context {S : Type} `{FileLaws S}.
Variable fuel : nat.
Variable root : file_gname.
Variable mode : gdpfs_file_mode.
Implicit Types (s : S) (F : fs).

Notation fs_rep := (fs_rep fuel root).
Notation room := (room fuel).
Notation delivers := (delivers fuel root).

(** The requests that the layer below FUSE passes on: paths from the root with
    components of at most [NAME_MAX_GDPFS] bytes, data through open handles of
    regular files. *)
Definition request_ok (F : fs) (r : request) : Prop :=
  match r with
  | Getattr p | Open p _ | Opendir p _ | Create p _ | Unlink p | Mkdir p _ | Rmdir p
  | Access p _ | Chmod p _ => path_ok p
  | Rename p1 p2 => path_ok p1 ∧ path_ok p2
  | Release fh => is_Some (handles F !! fh)
  | Read size off fh =>
      regular_handle F fh ∧ 0 ≤ off ∧ 0 ≤ size < 2 ^ 31 ∧ off + size < max_offset
  | Write buf off fh =>
      regular_handle F fh ∧ 0 ≤ off ∧ Z.of_nat (length buf) < 2 ^ 31 ∧
      off + Z.of_nat (length buf) < max_offset ∧ Forall (in_width 8) buf
  | Truncate p _ =>
      path_ok p ∧ ∀ g, resolve_path F root p GDPFS_FILE_TYPE_REGULAR = inr g → regular_node F g
  | Ftruncate _ fh => regular_handle F fh
  end.

Lemma dv_bind {A B} k k' (c : st S A) (K : A → st S B) s (Q1 : out A → Prop) (Q : out B → Prop) :
  delivers k c s Q1 →
  (∀ r F s1, Q1 (Done r F) → fs_rep k s1 F → delivers k' (K r) s1 Q) →
  (∀ f : fault, Q1 (Crash f) → Q (Crash f)) →
  delivers k' (c ≫= K) s Q.
Proof.
  intros ([r F|f] & HQ1 & Ho) HK HF.
  - destruct Ho as (s1 & Hc & Hs1). eapply dv_step; [done|]. by eapply HK.
  - eapply dv_crash; [done|auto].
Qed.

Lemma dv_mono {A} k (c : st S A) s (Q1 Q2 : out A → Prop) :
  delivers k c s Q1 → (∀ o, Q1 o → Q2 o) → delivers k c s Q2.
Proof. intros (o & HQ & Ho) Hi. exists o. auto. Qed.

(** ** Requests that open a path *)

Lemma dv_open_path {B} k s F path type (K : stat * Z → st S B) (Q : out B → Prop) :
  fs_rep k s F → path_ok path → spare 1 F →
  (∀ e s', resolve_path F root path type = inl e → EP_STAT_ISOK e = false → fs_rep k s' F →
     delivers k (K (e, INVALID_FH)) s' Q) →
  (∀ g i fh s', resolve_path F root path type = inr g → nodes F !! g = Some i → 0 ≤ fh →
     handles F !! fh = None → fs_rep k s' (add_handle F fh g) →
     delivers k (K (EP_STAT_OK, fh)) s' Q) →
  delivers k (gdpfs_dir_open_file_at_path fuel root path type ≫= K) s Q.
Proof.
  intros Hs Hp Hsp He Hg.
  destruct (rep_open_path fuel root k s F path type Hs Hp Hsp) as (s' & Ho).
  destruct (resolve_path F root path type) as [e|g] eqn:Hr.
  - destruct Ho as (Ho & ? & ?). eapply dv_step; [done|]. by apply He.
  - destruct Ho as (fh & Ho & ? & ? & ?). eapply dv_step; [done|].
    destruct (resolve_path_node fuel root k s F path type g Hs Hr) as [i Hi]. by eapply Hg.
Qed.

Lemma bind_assoc {A B C} (c : st S A) (f : A → st S B) (g : B → st S C) s :
  ((c ≫= f) ≫= g) s = (c ≫= λ a, f a ≫= g) s.
Proof. unfold mbind, st_bind. by destruct (c s) as [[]|]. Qed.

Lemma dv_assoc {A B C} k (c : st S A) (f : A → st S B) (g : B → st S C) s (Q : out C → Prop) :
  delivers k (c ≫= λ a, f a ≫= g) s Q → delivers k ((c ≫= f) ≫= g) s Q.
Proof. intros (o & HQ & Ho). exists o. split; [done|]. destruct o; by rewrite bind_assoc. Qed.

Lemma dv_info {B} k s F fh g i (K : stat * gdpfs_file_info → st S B) (Q : out B → Prop) :
  fs_rep k s F → handles F !! fh = Some g → nodes F !! g = Some i →
  (∀ info s', fs_rep k s' F → file_type info = inode_type i → file_perm info = inode_perm i →
     (∀ p n d, i = IFile p n d → file_size info = n) → delivers k (K (GDPFS_STAT_OK, info)) s' Q) →
  delivers k (gdpfs_file_get_info fh ≫= K) s Q.
Proof.
  intros Hs Hh Hi HK. destruct (rep_get_info fuel root k s F fh g i Hs Hh Hi) as (s' & info & Ho & ? & ? & ? & ?).
  eapply dv_step; [done|]. by apply HK.
Qed.

Lemma dv_close_new {B} k s F fh g (K : stat → st S B) (Q : out B → Prop) :
  fs_rep k s (add_handle F fh g) → handles F !! fh = None →
  (∀ e s', fs_rep k s' F → delivers k (K e) s' Q) →
  delivers k (gdpfs_file_close fh ≫= K) s Q.
Proof.
  intros Hs Hn HK. destruct (rep_close_new fuel root k s F fh g Hs Hn) as (e & s' & Hc & Hs').
  eapply dv_step; [done|]. by apply HK.
Qed.

Lemma add_handle_lookup F fh g : handles (add_handle F fh g) !! fh = Some g.
Proof. apply lookup_insert_eq. Qed.

Lemma dv_getattr k s F path :
  fs_rep k s F → spare 3 F → path_ok path →
  delivers k (handle fuel root mode (Getattr path)) s (fuse_spec root mode F (Getattr path)).
Proof.
  intros Hs Hsp Hp. unfold handle, gdpfs_getattr. apply dv_assoc.
  eapply dv_open_path; [done|done|unfold spare in *; lia| |].
  - intros e s1 Hr He Hs1. rewrite He. by eapply dv_ret; [|by eapply spec_getattr_fails].
  - intros g i fh s1 Hr Hi Hfh Hn Hs1. cbn [EP_STAT_ISOK negb]. apply dv_assoc.
    eapply dv_info; [done|apply add_handle_lookup|done|].
    intros info s2 Hs2 Ht Hpm Hsz. cbn [EP_STAT_ISOK negb]. rewrite Ht.
    assert (type_bits (inode_type i) = Some (type_mode i)) as -> by (by destruct i).
    apply dv_assoc. eapply dv_close_new; [done|done|]. intros e s3 Hs3. rewrite Hpm.
    eapply dv_ret; [done|]. by eapply spec_getattr.
Qed.

Lemma dv_open_as k s F type path flags :
  fs_rep k s F → spare 3 F → path_ok path →
  delivers k (r ← open_as fuel root type path flags; mret (opened r)) s (open_spec root F type path flags).
Proof.
  intros Hs Hsp Hp. unfold open_as, _open. apply dv_assoc, dv_assoc.
  eapply dv_open_path; [done|done|unfold spare in *; lia| |].
  - intros e s1 Hr He Hs1. rewrite He. by eapply dv_ret; [|by eapply open_fails].
  - intros g i fh s1 Hr Hi Hfh Hn Hs1. cbn [EP_STAT_ISOK negb].
    eapply (dv_step _ _ _ _ _ _ _ s1); [done|]. change (negb (0 =? 0)) with false. cbn iota.
    unfold _check_open_flags. apply dv_assoc, dv_assoc.
    eapply dv_info; [done|apply add_handle_lookup|done|].
    intros info s2 Hs2 Ht Hpm _. cbn [EP_STAT_ISOK negb]. rewrite Hpm.
    eapply (dv_step _ _ _ _ _ _ _ s2); [done|].
    destruct (open_flags_ok flags (inode_perm i)) eqn:Hok; cbn [negb].
    + eapply dv_ret; [done|]. by eapply open_done.
    + unfold _release. apply dv_assoc, dv_assoc. eapply dv_close_new; [done|done|]. intros e s3 Hs3.
      eapply dv_ret; [done|]. by eapply open_denied.
Qed.

Lemma dv_access k s F path m :
  fs_rep k s F → spare 3 F → path_ok path →
  delivers k (handle fuel root mode (Access path m)) s (fuse_spec root mode F (Access path m)).
Proof.
  intros Hs Hsp Hp. unfold handle, gdpfs_access, _open. apply dv_assoc, dv_assoc.
  eapply dv_open_path; [done|done|unfold spare in *; lia| |].
  - intros e s1 Hr He Hs1. rewrite He. by eapply dv_ret; [|by eapply spec_access_fails].
  - intros g i fh s1 Hr Hi Hfh Hn Hs1. cbn [EP_STAT_ISOK negb].
    eapply (dv_step _ _ _ _ _ _ _ s1); [done|]. change (negb (0 =? 0)) with false. cbn iota.
    apply dv_assoc. eapply dv_info; [done|apply add_handle_lookup|done|].
    intros info s2 Hs2 Ht Hpm _. cbn [EP_STAT_ISOK negb]. rewrite Hpm.
    unfold _release. apply dv_assoc, dv_assoc. eapply dv_close_new; [done|done|]. intros e s3 Hs3.
    eapply dv_ret; [done|]. by eapply spec_access.
Qed.

Lemma dv_chmod k s F path m :
  fs_rep k s F → spare 3 F → path_ok path →
  delivers k (handle fuel root mode (Chmod path m)) s (fuse_spec root mode F (Chmod path m)).
Proof.
  intros Hs Hsp Hp. unfold handle, gdpfs_chmod, _open. apply dv_assoc, dv_assoc.
  eapply dv_open_path; [done|done|unfold spare in *; lia| |].
  - intros e s1 Hr He Hs1. rewrite He. by eapply dv_ret; [|by eapply spec_chmod_fails].
  - intros g i fh s1 Hr Hi Hfh Hn Hs1. cbn [EP_STAT_ISOK negb].
    eapply (dv_step _ _ _ _ _ _ _ s1); [done|]. change (negb (0 =? 0)) with false. cbn iota.
    destruct (rep_set_perm fuel root k s1 (add_handle F fh g) fh g i (gdpfs_extract_perm m)) as (s2 & Hc & Hs2);
      [done|apply add_handle_lookup|done|apply extract_perm_width|].
    apply dv_assoc. eapply dv_step; [done|].
    unfold _release. apply dv_assoc, dv_assoc.
    eapply (dv_close_new _ _ (set_node F g _) _ g); [exact Hs2|done|]. intros e s3 Hs3.
    eapply dv_ret; [done|]. by eapply spec_chmod.
Qed.

Lemma dv_truncate k s F path len :
  fs_rep k s F → spare 3 F → request_ok F (Truncate path len) →
  delivers k (handle fuel root mode (Truncate path len)) s (fuse_spec root mode F (Truncate path len)).
Proof.
  intros Hs Hsp [Hp Hreg]. unfold handle, gdpfs_truncate, _open. apply dv_assoc, dv_assoc.
  eapply dv_open_path; [done|done|unfold spare in *; lia| |].
  - intros e s1 Hr He Hs1. rewrite He. by eapply dv_ret; [|by eapply spec_truncate_fails].
  - intros g i fh s1 Hr Hi Hfh Hn Hs1. cbn [EP_STAT_ISOK negb].
    eapply (dv_step _ _ _ _ _ _ _ s1); [done|]. change (negb (0 =? 0)) with false. cbn iota.
    destruct (regular_node_inv F g (Hreg g Hr)) as (p & n & d & Hg).
    destruct (rep_ftruncate fuel root k s1 (add_handle F fh g) fh g p n d len) as (s2 & Hc & Hs2);
      [done|apply add_handle_lookup|done|].
    apply dv_assoc. eapply dv_step; [done|].
    unfold _release. apply dv_assoc, dv_assoc.
    eapply (dv_close_new _ _ (set_node F g _) _ g); [exact Hs2|done|]. intros e s3 Hs3.
    eapply dv_ret; [done|]. by eapply spec_truncate.
Qed.

(** ** Requests on handles *)

Lemma dv_release k s F fh :
  fs_rep k s F → is_Some (handles F !! fh) →
  delivers k (handle fuel root mode (Release fh)) s (fuse_spec root mode F (Release fh)).
Proof.
  intros Hs [g Hg]. unfold handle, gdpfs_release, _release. apply dv_assoc.
  destruct (rep_close fuel root k s F fh g Hs Hg) as (e & s1 & Hc & Hs1). eapply dv_step; [done|].
  eapply dv_ret; [done|]. apply spec_release.
Qed.

Lemma read_inode_length d n size off : 0 ≤ size → Z.of_nat (length (read_inode d n size off)) ≤ size.
Proof. intros Hs. unfold read_inode. rewrite length_fmap, length_seqZ. lia. Qed.

Lemma dv_read k s F size off fh :
  fs_rep k s F → request_ok F (Read size off fh) →
  delivers k (handle fuel root mode (Read size off fh)) s (fuse_spec root mode F (Read size off fh)).
Proof.
  intros Hs ((g & p & n & d & Hh & Hg)%regular_handle_inv & Hoff & Hsize & Hmax).
  destruct (rep_read_file fuel root k s F fh g p n d size off) as (s1 & Hr & Hs1); [done..|lia|done|].
  unfold handle, gdpfs_read. apply dv_assoc. eapply dv_step; [done|].
  pose proof (read_inode_length d n size off ltac:(lia)). rewrite to_int_small by lia.
  eapply dv_ret; [done|]. by eapply spec_read.
Qed.

Lemma dv_write k s F buf off fh :
  fs_rep k s F → request_ok F (Write buf off fh) →
  delivers k (handle fuel root mode (Write buf off fh)) s (fuse_spec root mode F (Write buf off fh)).
Proof.
  intros Hs ((g & p & n & d & Hh & Hg)%regular_handle_inv & Hoff & Hsize & Hmax & Hb).
  destruct (rep_write fuel root k s F fh g p n d buf off) as (s1 & Hr & Hs1); [done..|].
  unfold handle, gdpfs_write. apply dv_assoc. eapply dv_step; [done|].
  rewrite to_int_small by lia. eapply dv_ret; [done|]. by eapply spec_write.
Qed.

Lemma dv_ftruncate k s F len fh :
  fs_rep k s F → request_ok F (Ftruncate len fh) →
  delivers k (handle fuel root mode (Ftruncate len fh)) s (fuse_spec root mode F (Ftruncate len fh)).
Proof.
  intros Hs (g & p & n & d & Hh & Hg)%regular_handle_inv.
  destruct (rep_ftruncate fuel root k s F fh g p n d len) as (s1 & Hr & Hs1); [done..|].
  unfold handle, gdpfs_ftruncate. eapply dv_step; [done|].
  eapply dv_ret; [done|]. by eapply spec_ftruncate.
Qed.

(** ** Requests that change a directory *)

Lemma path_ok_ne path : path_ok path → path ≠ [].
Proof. intros (_ & Hh & _) ->. done. Qed.

Lemma dv_unlink k s F path :
  fs_rep k s F → spare 3 F → path_ok path →
  delivers k (handle fuel root mode (Unlink path)) s (fuse_spec root mode F (Unlink path)).
Proof.
  intros Hs Hsp Hp. unfold handle, gdpfs_unlink. rewrite decide_False by (by apply path_ok_ne).
  destruct (rep_remove fuel root k s F path GDPFS_FILE_TYPE_REGULAR Hs Hp) as (s1 & Hr & Hs1);
    [unfold spare in *; lia|].
  apply dv_assoc. eapply dv_step; [done|].
  eapply dv_ret; [done|]. apply spec_unlink.
Qed.

Lemma dv_rmdir k s F path :
  fs_rep k s F → spare 3 F → path_ok path →
  delivers k (handle fuel root mode (Rmdir path)) s (fuse_spec root mode F (Rmdir path)).
Proof.
  intros Hs Hsp Hp. unfold handle, gdpfs_rmdir. rewrite decide_False by (by apply path_ok_ne).
  destruct (rep_remove fuel root k s F path GDPFS_FILE_TYPE_DIR Hs Hp) as (s1 & Hr & Hs1);
    [unfold spare in *; lia|].
  apply dv_assoc. eapply dv_step; [done|].
  eapply dv_ret; [done|]. apply spec_rmdir.
Qed.

Lemma resolve_not_exists F type g cs e :
  resolve F type g cs = inl e → EP_STAT_IS_SAME e GDPFS_STAT_FILE_EXISTS = false.
Proof.
  revert g. induction cs as [|n cs IH]; intros g; cbn [resolve]; [done|].
  destruct (nodes F !! g) as [[|p m]|]; [by intros [= <-]| |by intros [= <-]].
  destruct (m !! n) as [g'|]; [|by intros [= <-]].
  destruct (nodes F !! g') as [i|]; [|by intros [= <-]].
  destruct (kind_matches _ i); [apply IH|by intros [= <-]].
Qed.

Lemma dv_mkdir k s F path m :
  fs_rep k s F → spare 3 F → Z.of_nat (size (nodes F)) < max_files → room (Datatypes.S k) → path_ok path →
  delivers (Datatypes.S k) (handle fuel root mode (Mkdir path m)) s (fuse_spec root mode F (Mkdir path m)).
Proof.
  intros Hs Hsp Hfiles Hroom Hp. unfold handle, gdpfs_mkdir.
  rewrite decide_False by (by apply path_ok_ne). apply dv_assoc.
  eapply dv_bind.
  { apply (rep_create fuel root k s F path GDPFS_FILE_TYPE_DIR false); [done|done| |done..|].
    - unfold spare in *; lia.
    - apply extract_perm_width. }
  - intros r F' s1 Hc Hs1. inversion Hc; subst; cbn beta iota.
    + eapply dv_ret; [done|]. select (EP_STAT_ISOK _ = false) (fun H => rewrite H). apply spec_mkdir. by eapply mkdir_fails.
    + done.
    + eapply dv_ret; [done|]. apply spec_mkdir. by eapply mkdir_makes.
  - intros f Hc. inversion Hc; subst. apply spec_mkdir. by eapply mkdir_exists.
Qed.

Lemma handle_fresh_ne F fd gd fh : handles (add_handle F fd gd) !! fh = None →
  fd ≠ fh ∧ handles F !! fh = None.
Proof. simpl. by intros [? ?]%lookup_insert_None. Qed.

Lemma entry_node k s F gd p m n g :
  fs_rep k s F → nodes F !! gd = Some (IDir p m) → m !! n = Some g → is_Some (nodes F !! g).
Proof.
  intros (a & [_ Hi _ _] & <-) (f & Hf & Ht & _ & ->)%view_dir_inv Hn.
  destruct (fi_link _ _ Hi _ _ _ _ Hf Ht Hn) as [f' Hf']. eexists. by apply view_node.
Qed.

Lemma dv_create k s F path m :
  fs_rep k s F → spare 3 F → Z.of_nat (size (nodes F)) < max_files → room (Datatypes.S k) → path_ok path →
  delivers (Datatypes.S k) (handle fuel root mode (Create path m)) s (fuse_spec root mode F (Create path m)).
Proof.
  intros Hs Hsp Hfiles Hroom Hp. apply (fs_rep_mono _ _ k (Datatypes.S k)) in Hs as Hs'; [|lia|done].
  unfold handle, gdpfs_create. destruct (last path) as [c|] eqn:Hl.
  2: { apply last_None in Hl. by apply path_ok_ne in Hp. }
  destruct (Z.eqb_spec c SLASH) as [->|Hc].
  { eapply dv_step; [done|]. eapply dv_ret; [done|]. apply spec_create, create_is_dir.
    unfold trailing. by rewrite Hl. }
  assert (trailing path = false) as Htr.
  { apply bool_decide_eq_false. rewrite Hl. congruence. }
  apply dv_assoc. eapply dv_bind.
  { apply (rep_create fuel root k s F path GDPFS_FILE_TYPE_REGULAR true); [done|done| |done..|].
    - unfold spare in *; lia.
    - apply extract_perm_width. }
  2: { intros f Hcr. by inversion Hcr. }
  intros r F' s1 Hcr Hs1. inversion Hcr; subst; cbn beta iota; apply dv_assoc.
  - select (resolve_parent _ _ _ = _) (fun H => rewrite (resolve_not_exists _ _ _ _ _ H)). cbn iota.
    eapply dv_step; [done|]. cbn beta iota. select (EP_STAT_ISOK _ = false) (fun H => rewrite H). eapply dv_ret; [done|].
    apply spec_create. by eapply create_fails.
  - change (EP_STAT_IS_SAME GDPFS_STAT_FILE_EXISTS GDPFS_STAT_FILE_EXISTS) with true. cbn iota.
    destruct (entry_node k s F gd p m0 (name_of path) g) as [i Hi]; [done..|].
    assert (spare 1 (add_handle F fd gd)) as Hsp'.
    { unfold spare in *. simpl. rewrite map_size_insert_None by done. lia. }
    destruct (kind_matches GDPFS_FILE_TYPE_REGULAR i) eqn:Hk.
    + destruct (rep_open_type fuel root (Datatypes.S k) s1 (add_handle F fd gd) g i GDPFS_FILE_TYPE_REGULAR)
        as (fh & s2 & Ho & Hfh & Hn & Hs2); [done..|].
      apply handle_fresh_ne in Hn as [Hne Hn].
      eapply dv_step; [done|]. eapply dv_ret; [done|]. apply spec_create. eapply create_opens; try done.
      destruct i; [by eauto|done].
    + destruct (rep_open_mismatch fuel root (Datatypes.S k) s1 (add_handle F fd gd) g i GDPFS_FILE_TYPE_REGULAR)
        as (s2 & Ho & Hs2); [done..|].
      eapply dv_step; [done|]. eapply dv_ret; [done|]. apply spec_create. eapply create_on_dir; try done.
      destruct i; [done|by eauto].
  - eapply (dv_step _ _ _ _ _ _ _ s1); [done|]. eapply dv_ret; [done|]. apply spec_create.
    by eapply create_makes.
Qed.

(** ** Renaming *)

Lemma rename_error_resolve F type g cs e : resolve F type g cs = inl e → rename_error e = Some (- ENOENT).
Proof.
  revert g. induction cs as [|n cs IH]; intros g; cbn [resolve]; [done|].
  destruct (nodes F !! g) as [[|p m]|]; [by intros [= <-]| |by intros [= <-]].
  destruct (m !! n) as [g'|]; [|by intros [= <-]].
  destruct (nodes F !! g') as [i|]; [|by intros [= <-]].
  destruct (kind_matches _ i); [apply IH|by intros [= <-]].
Qed.

Lemma fs_replace_handles F fh g g1 path :
  fs_replace (add_handle F fh g) root g1 path =
    ((fs_replace F root g1 path).1, add_handle (fs_replace F root g1 path).2 fh g).
Proof.
  unfold fs_replace. rewrite resolve_parent_handles. destruct (resolve_parent F root path) as [e|gd]; [done|].
  change (nodes (add_handle F fh g)) with (nodes F). destruct (nodes F !! gd) as [[|p m]|]; [done| |done].
  simpl. by destruct (EP_STAT_ISOK _).
Qed.

Lemma fs_remove_handles F fh g path type :
  fs_remove (add_handle F fh g) root path type =
    ((fs_remove F root path type).1, add_handle (fs_remove F root path type).2 fh g).
Proof.
  unfold fs_remove. rewrite resolve_parent_handles. destruct (resolve_parent F root path) as [e|gd]; [done|].
  change (nodes (add_handle F fh g)) with (nodes F). destruct (nodes F !! gd) as [[|p m]|]; [done| |done].
  destruct (m !! name_of path) as [g'|]; [|done]. simpl.
  change (removable (add_handle F fh g) type g') with (removable F type g').
  by destruct (EP_STAT_ISOK _).
Qed.

Lemma fs_replace_same_handles F g1 path : handles (fs_replace F root g1 path).2 = handles F.
Proof.
  unfold fs_replace. destruct (resolve_parent F root path) as [e|gd]; [done|].
  destruct (nodes F !! gd) as [[|p m]|]; [done| |done]. simpl. by destruct (EP_STAT_ISOK _).
Qed.

Lemma rename_error_ok e : EP_STAT_ISOK e = true → rename_error e = None.
Proof. by destruct e as [| | | | | | | | | | | | | | | | | | |[]]. Qed.

Lemma replace_refused F g1 path n :
  rename_error (fs_replace F root g1 path).1 = Some n → (fs_replace F root g1 path).2 = F.
Proof.
  unfold fs_replace. destruct (resolve_parent F root path) as [e|gd]; [done|].
  destruct (nodes F !! gd) as [[|p m]|]; [done| |done]. cbn [fst snd].
  destruct (EP_STAT_ISOK _) eqn:He; [|done]. intros Hr.
  by rewrite rename_error_ok in Hr.
Qed.

(** Closing one of two handles. *)
Lemma remove_handle_other F fh g fd gd : handles F !! fh = None → fd ≠ fh →
  remove_handle (add_handle (add_handle F fh g) fd gd) fh = add_handle F fd gd.
Proof.
  intros Hn Hne. apply fs_eq; [done|]. simpl. by rewrite delete_insert_ne, delete_insert_id by done.
Qed.

Lemma dv_rename k s F p1 p2 :
  fs_rep k s F → spare 3 F → room (Datatypes.S k) → path_ok p1 → path_ok p2 →
  delivers (Datatypes.S k) (handle fuel root mode (Rename p1 p2)) s (fuse_spec root mode F (Rename p1 p2)).
Proof.
  intros Hs Hsp Hroom Hp1 Hp2. unfold handle, gdpfs_rename, _open. apply dv_assoc, dv_assoc.
  unfold spare in Hsp.
  destruct (rep_open_path fuel root k s F p1 GDPFS_FILE_TYPE_UNKNOWN Hs Hp1) as (s1 & Ho);
    [unfold spare; lia|].
  destruct (resolve_path F root p1 GDPFS_FILE_TYPE_UNKNOWN) as [e|g1] eqn:Hr1.
  { destruct Ho as (Ho & He & Hs1). eapply dv_step; [done|]. cbn beta iota. rewrite He.
    apply (dv_ret _ _ _ _ _ F); [apply (fs_rep_mono _ _ k); [lia|done|done]|].
    apply spec_rename. by eapply rename_no_source. }
  destruct Ho as (fh & Ho & Hfh & Hn & Hs1). eapply dv_step; [done|]. cbn [EP_STAT_ISOK negb].
  eapply (dv_step _ _ _ _ _ _ _ s1); [done|]. change (negb (0 =? 0)) with false. cbn iota.
  apply dv_assoc. eapply dv_bind.
  { apply (rep_replace fuel root k s1 (add_handle F fh g1) fh g1 p2);
      [done|apply add_handle_lookup|done| |done].
    unfold spare. simpl. rewrite map_size_insert_None by done. lia. }
  2: { intros f Hc. by inversion Hc. }
  intros e F2 s2 Hc Hs2. inversion Hc as [e' Hr2 He HeF|gd fd Hr2 Hfd HeF]; subst.
  - apply dv_assoc. eapply dv_close_new; [done|done|]. intros e' s3 Hs3.
    rewrite resolve_parent_handles in Hr2.
    rewrite (rename_error_resolve _ _ _ _ _ Hr2). eapply dv_ret; [done|].
    apply spec_rename. by eapply rename_no_target.
  - rewrite resolve_parent_handles in Hr2. apply handle_fresh_ne in Hfd as [Hne%not_eq_sym Hfd].
    rewrite fs_replace_handles in *. cbn [fst snd] in *.
    pose proof (fs_replace_same_handles F g1 p2) as Hsame.
    pose proof (replace_refused F g1 p2) as Href.
    destruct (fs_replace F root g1 p2) as [e F'] eqn:Hrep. cbn [fst snd] in *.
    destruct (rep_close fuel root _ s2 _ fh g1 Hs2) as (ec & s3 & Hclose & Hs3).
    { simpl. rewrite lookup_insert_ne by done. apply lookup_insert_eq. }
    rewrite remove_handle_other in Hs3 by (rewrite ?Hsame; done).
    apply dv_assoc. eapply dv_step; [done|]. cbn beta.
    destruct (rename_error e) as [n|] eqn:Hre.
    + eapply dv_ret; [done|]. rewrite (Href n eq_refl). apply spec_rename. by eapply rename_refused.
    + destruct (rep_remove fuel root _ s3 (add_handle F' fd gd) p1 GDPFS_FILE_TYPE_UNKNOWN Hs3 Hp1)
        as (s4 & Hrm & Hs4).
      { unfold spare. simpl. rewrite Hsame, map_size_insert_None by done. lia. }
      rewrite fs_remove_handles in Hrm, Hs4.
      apply dv_assoc. eapply dv_step; [done|]. eapply dv_ret; [done|].
      apply spec_rename. by eapply rename_moves.
Qed.

(** ** Every request *)

Lemma fuse_step_delivers k s F r :
  fs_rep k s F → spare 3 F → Z.of_nat (size (nodes F)) < max_files → room (Datatypes.S k) →
  request_ok F r →
  delivers (Datatypes.S k) (handle fuel root mode r) s (fuse_spec root mode F r).
Proof.
  intros Hs Hsp Hfiles Hroom Hr.
  apply (fs_rep_mono _ _ k (Datatypes.S k)) in Hs as Hs'; [|lia|done].
  destruct r; simpl in Hr.
  - by apply dv_getattr.
  - eapply dv_mono; [by apply dv_open_as|]. intros. by apply spec_open.
  - eapply dv_mono; [by apply dv_open_as|]. intros. by apply spec_opendir.
  - by apply dv_release.
  - by apply dv_read.
  - by apply dv_write.
  - by apply dv_truncate.
  - by apply dv_ftruncate.
  - by apply dv_create.
  - by apply dv_unlink.
  - by apply dv_mkdir.
  - by apply dv_rmdir.
  - destruct Hr. by apply dv_rename.
  - by apply dv_access.
  - by apply dv_chmod.
Qed.

End proof.
