(* ===== verification/FuseTheorems.v ===== *)
(** * The FUSE operations as a file system

    A client that sends requests and reacts to the responses sees a run of the
    abstract file system; what that means for the order of operations that
    programs use most. *)
From S2P Require Import Prelude.
From S2P Require Import State.
From S2P Require Import Types.
From S2P Require Import FileIface.
From S2P Require Import FileRef.
From S2P Require Import Dir.
From S2P Require Import DirSpec.
From S2P Require Import FsPath.
From S2P Require Import FsSpec.
From S2P Require Import FsDir.
From S2P Require Import FsOps.
From S2P Require Import FsTree.
From S2P Require Import Fuse.
From S2P Require Import FuseSpec.
From S2P Require Import FuseProof.

(** ** Clients *)

Inductive client :=
  | Stop
  | Ask (r : request) (k : response → client).

Section client.
Context {S : Type} `{FileLaws S}.
Variable fuel : nat.
Variable root : file_gname.
Variable mode : gdpfs_file_mode.

Fixpoint run_client (c : client) : st S (list response) :=
  match c with
  | Stop => mret []
  | Ask r k =>
      x ← handle fuel root mode r;
      xs ← run_client (k x);
      mret (x :: xs)
  end.

(** The runs of a client on the abstract file system. *)
Inductive client_spec : fs → client → out (list response) → Prop :=
  | client_stop F : client_spec F Stop (Done [] F)
  | client_ask F r k x F' xs F'' :
      fuse_spec root mode F r (Done x F') → client_spec F' (k x) (Done xs F'') →
      client_spec F (Ask r k) (Done (x :: xs) F'')
  | client_crash F r k f :
      fuse_spec root mode F r (Crash f) → client_spec F (Ask r k) (Crash f)
  | client_later F r k x F' f :
      fuse_spec root mode F r (Done x F') → client_spec F' (k x) (Crash f) →
      client_spec F (Ask r k) (Crash f).

(** A client that sends at most [n] requests, each with spare handles and logs. *)
Fixpoint valid (F : fs) (n : nat) (c : client) : Prop :=
  match c, n with
  | Stop, _ => True
  | Ask _ _, O => False
  | Ask r k, Datatypes.S n =>
      request_ok root F r ∧ spare 3 F ∧ Z.of_nat (size (nodes F)) < max_files ∧
      ∀ x F', fuse_spec root mode F r (Done x F') → valid F' n (k x)
  end.

Lemma fuse_client_delivers c : ∀ n k s F,
  fs_rep fuel root k s F → room fuel (k + n) → valid F n c →
  delivers fuel root (k + n) (run_client c) s (client_spec F c).
Proof.
  induction c as [|r K IH]; intros n k s F Hs Hroom Hv.
  - eapply dv_ret; [|by apply client_stop]. by apply (fs_rep_mono _ _ k); [lia|..].
  - destruct n as [|n]; [done|]. destruct Hv as (Hr & Hsp & Hfiles & Hv).
    assert (room fuel (Datatypes.S k)) as Hroom'.
    { destruct Hroom as [? Ho]. split; [lia|]. unfold ent_offset, sizeof_phys in *. lia. }
    cbn [run_client]. eapply dv_bind; [by apply (fuse_step_delivers fuel root mode k s F)| |].
    + intros x F' s1 Hspec Hs1. rewrite Nat.add_succ_r.
      eapply dv_bind.
      * apply (IH x n (Datatypes.S k)); [done|by rewrite Nat.add_succ_l, <-Nat.add_succ_r|by apply Hv].
      * intros xs F'' s2 Hc Hs2. eapply dv_ret; [done|]. by eapply client_ask.
      * intros f Hc. by eapply client_later.
    + intros f Hf. by apply client_crash.
Qed.

(** C4: FUSE operations refine the abstract file system.  Over any file layer
    that satisfies its contract, a client that sends at most [n] requests (paths
    from the root with components of at most 255 bytes, data through handles of
    regular files) sees the responses of a run of [fuse_spec], and the concrete
    state represents the file system that the run ends in. *)
Theorem fuse_refines c n k s F :
  fs_rep fuel root k s F → room fuel (k + n) → valid F n c →
  ∃ o, client_spec F c o ∧
    match o with
    | Done xs F' => ∃ s', run_client c s = Ok (xs, s') ∧ fs_rep fuel root (k + n) s' F'
    | Crash f => run_client c s = Fault f
    end.
Proof. apply fuse_client_delivers. Qed.
End client.

(** ** An example

    A file system with an empty root, and a client that creates a file, writes
    to it and reads it back. *)
Definition ex_root : file_gname := replicate 32 9.
Definition ex_state : afs :=
  mkAfs {[ ex_root := mkAfile (mkInfo 0 GDPFS_FILE_TYPE_DIR 361) ∅ ]} ∅.
Definition ex_path : list Z := [SLASH; 102].

Lemma ex_rep fuel k : room (S := afs) fuel k → fs_rep fuel ex_root k ex_state (view ex_state).
Proof.
  intros Hroom. exists ex_state. split; [|done]. constructor; [done| |done|by eexists].
  constructor; simpl.
  - intros g f [<- <-]%lookup_singleton_Some. split; [done|]. by apply Forall_replicate.
  - by intros g f [<- <-]%lookup_singleton_Some.
  - intros g f [<- <-]%lookup_singleton_Some _. constructor; [constructor; done|by apply NoDup_nil|simpl; lia].
  - by intros g f n g' [<- <-]%lookup_singleton_Some.
  - by intros fh g.
Qed.

Definition ex_client : client :=
  Ask (Create ex_path 420) (λ x,
    match x with
    | RHandle 0 (Some fh) =>
        Ask (Write [104; 105] 3 fh) (λ _, Ask (Read 10 0 fh) (λ _, Ask (Getattr ex_path) (λ _, Stop)))
    | _ => Stop
    end).

(** The value of a run. *)
Definition result {S A} (r : res (A * S)) : option A :=
  match r with Ok (a, _) => Some a | Fault _ => None end.

Example ex_run :
  result (run_client 10 ex_root GDPFS_FILE_MODE_RW ex_client ex_state) =
  Some [RHandle 0 (Some 1); RInt 2; RData 5 [0; 0; 0; 104; 105]; RStat 0 (Some (mkStat 33188 1 5))].
Proof. vm_compute. reflexivity. Qed.

Definition ex_fs : fs := view ex_state.
Definition ex_file (g : file_gname) (fh : Z) (i : inode) : fs :=
  add_handle (set_node (set_node ex_fs g i) ex_root (IDir 361 {[ [102] := g ]})) fh g.

Lemma ex_create mode x F' :
  fuse_spec ex_root mode ex_fs (Create ex_path 420) (Done x F') →
  ∃ g fh, g ≠ ex_root ∧ x = RHandle 0 (Some fh) ∧ F' = ex_file g fh (IFile 420 0 ∅).
Proof.
  intros Hs. inversion Hs as [| | | | | | | | | |? ? ? Hc| | | | | | | |]; subst.
  assert (resolve_parent ex_fs ex_root ex_path = inr ex_root) as Hr by (vm_compute; reflexivity).
  assert (nodes ex_fs !! ex_root = Some (IDir 361 ∅)) as Hn by (vm_compute; reflexivity).
  inversion Hc; subst; try done;
    select (resolve_parent _ _ _ = _) (fun H => rewrite Hr in H); simplify_eq.
  exists g, fh. split_and!; [|done|].
  - intros ->. congruence.
  - unfold ex_file. by rewrite insert_empty.
Qed.

Lemma ex_file_node g fh i : g ≠ ex_root → nodes (ex_file g fh i) !! g = Some i.
Proof. intros Hg. simpl. rewrite lookup_insert_ne by done. apply lookup_insert_eq. Qed.

Lemma ex_file_handle g fh i : handles (ex_file g fh i) !! fh = Some g.
Proof. apply lookup_insert_eq. Qed.

Lemma ex_file_set g fh i i' : g ≠ ex_root → set_node (ex_file g fh i) g i' = ex_file g fh i'.
Proof.
  intros Hg. apply fs_eq; [|done]. simpl.
  by rewrite insert_insert_ne, insert_insert_eq by done.
Qed.

(** A file layer with room for the example. *)
Section example.
Context {S : Type} `{FileLaws S}.
Hypothesis Hhandles : (8 ≤ max_handles)%nat.
Hypothesis Hfiles : 8 ≤ max_files.
Hypothesis Hoffset : 100 ≤ max_offset.

Lemma ex_file_small g fh i :
  spare (S := S) 3 (ex_file g fh i) ∧ Z.of_nat (size (nodes (ex_file g fh i))) < max_files.
Proof using Type*.
  split.
  - unfold spare. simpl. rewrite insert_empty, map_size_singleton. lia.
  - assert (size (nodes ex_fs) = 1%nat) as Hsize by (vm_compute; reflexivity).
    cbn [nodes ex_file add_handle set_node]. rewrite !map_size_insert, Hsize. simpl.
    repeat case_match; simpl; lia.
Qed.

Lemma ex_read_size off size : 0 ≤ off → off + size < 100 → off + size < max_offset (S := S).
Proof using Type*. lia. Qed.

Lemma ex_path_ok : path_ok ex_path.
Proof. refine (bool_decide_unpack _ _). vm_compute. exact I. Qed.

Lemma ex_valid mode : valid (S := S) ex_root mode ex_fs 4 ex_client.
Proof using Type*.
  assert (size (nodes ex_fs) = 1%nat ∧ size (handles ex_fs) = 0%nat) as [Hn Hh] by (split; vm_compute; reflexivity).
  split_and!; [exact ex_path_ok|unfold spare; lia|lia|]. clear Hn Hh.
  intros x F' (g & fh & Hg & -> & ->)%ex_create. cbn [valid request_ok].
  assert (∀ i, regular_node (ex_file g fh i) g ↔ inode_type i = GDPFS_FILE_TYPE_REGULAR) as Hreg.
  { intros i. unfold regular_node. rewrite ex_file_node by done. by destruct i. }
  assert (∀ i, regular_handle (ex_file g fh i) fh ↔ inode_type i = GDPFS_FILE_TYPE_REGULAR) as Hregh.
  { intros i. unfold regular_handle. rewrite ex_file_handle. apply Hreg. }
  split_and!; [by apply Hregh|done|done|apply ex_read_size; simpl; lia|by repeat constructor|apply ex_file_small..|].
  intros x F' Hw. inversion Hw; subst.
  select (handles _ !! fh = _) (fun H => rewrite ex_file_handle in H; injection H as <-).
  select (nodes _ !! g = _) (fun H => rewrite ex_file_node in H by done; simplify_eq).
  rewrite ex_file_set by done. cbn [valid request_ok].
  split_and!; [by apply Hregh|done|done|done|apply ex_read_size; simpl; lia|apply ex_file_small..|].
  intros x F' Hr. inversion Hr; subst. cbn [valid request_ok].
  split_and!; [exact ex_path_ok|apply ex_file_small..|done].
Qed.
End example.

Lemma ref_handles : (8 ≤ max_handles (S := afs))%nat.
Proof. apply Nat.leb_le. vm_compute. reflexivity. Qed.
Lemma ref_files : 8 ≤ max_files (S := afs).
Proof. done. Qed.
Lemma ref_offset : 100 ≤ max_offset (S := afs).
Proof. done. Qed.

Lemma fuse_refines_witness :
  let mode := GDPFS_FILE_MODE_RW in
  ∃ o, client_spec ex_root mode ex_fs ex_client o ∧
    match o with
    | Done xs F' => ∃ s', run_client (S := afs) 10 ex_root mode ex_client ex_state = Ok (xs, s') ∧
        fs_rep 10 ex_root 4 s' F'
    | Crash f => run_client (S := afs) 10 ex_root mode ex_client ex_state = Fault f
    end.
Proof.
  intros mode. apply (fuse_refines 10 ex_root mode ex_client 4 0 ex_state ex_fs).
  - apply ex_rep. split; [lia|reflexivity].
  - split; [simpl; lia|reflexivity].
  - apply ex_valid; [apply ref_handles|apply ref_files|apply ref_offset].
Defined.
