(* ===== verification/FuseFacts.v ===== *)
(** * What programs rely on

    Consequences of the specification of single operations: reading back what
    was written, finding a file that was created, moving a file, the modes that
    [gdpfs_getattr] reports; and the operations that do not do what POSIX asks
    for. *)
From S2P Require Import Prelude.
From S2P Require Import State.
From S2P Require Import Types.
From S2P Require Import FileIface.
From S2P Require Import FileRef.
From S2P Require Import Dir.
From S2P Require Import DirSpec.
From S2P Require Import FsPath.
From S2P Require Import FsSpec.
From S2P Require Import FsDir.
From S2P Require Import FsOps.
From S2P Require Import FsTree.
From S2P Require Import Fuse.
From S2P Require Import FuseSpec.
From S2P Require Import FuseProof.
From S2P Require Import FuseTheorems.

(** ** Resolution is stable when entries are added *)

Definition extends (F F' : fs) : Prop :=
  ∀ g i, nodes F !! g = Some i → ∃ i', nodes F' !! g = Some i' ∧ inode_type i' = inode_type i ∧
    ∀ p m, i = IDir p m → ∃ p' m', i' = IDir p' m' ∧ m ⊆ m'.

Lemma resolve_extends F F' type g cs g' :
  extends F F' → resolve F type g cs = inr g' → resolve F' type g cs = inr g'.
Proof.
  intros He. revert g. induction cs as [|n cs IH]; intros g; cbn [resolve]; [done|].
  destruct (nodes F !! g) as [[|p m]|] eqn:Hg; [done| |done].
  destruct (He _ _ Hg) as (i' & Hg' & _ & Hd). destruct (Hd p m eq_refl) as (p' & m' & -> & Hm).
  rewrite Hg'. destruct (m !! n) as [g1|] eqn:Hn; [|done].
  rewrite (lookup_weaken _ _ _ _ Hn Hm). destruct (nodes F !! g1) as [i1|] eqn:Hg1; [|done].
  destruct (He _ _ Hg1) as (i1' & -> & Ht & _). unfold kind_matches. rewrite Ht.
  destruct (_ || _); [apply IH|done].
Qed.

Lemma extends_trans F1 F2 F3 : extends F1 F2 → extends F2 F3 → extends F1 F3.
Proof.
  intros H12 H23 g i Hi. destruct (H12 g i Hi) as (i2 & Hi2 & Ht2 & Hd2).
  destruct (H23 g i2 Hi2) as (i3 & Hi3 & Ht3 & Hd3). exists i3. split_and!; [done|congruence|].
  intros p m Hp. destruct (Hd2 p m Hp) as (p2 & m2 & Hp2 & Hm2).
  destruct (Hd3 p2 m2 Hp2) as (p3 & m3 & Hp3 & Hm3). exists p3, m3. split; [done|by transitivity m2].
Qed.

Lemma extends_same F i' g i :
  nodes F !! g = Some i → inode_type i' = inode_type i →
  (∀ p m, i = IDir p m → ∃ p' m', i' = IDir p' m' ∧ m ⊆ m') →
  extends F (set_node F g i').
Proof.
  intros Hg Ht Hd g1 i1 Hi1. simpl. destruct (decide (g = g1)) as [->|Hne].
  - rewrite lookup_insert_eq. simplify_eq. by exists i'.
  - rewrite lookup_insert_ne by done. exists i1. split_and!; [done..|]. intros p m ->. by exists p, m.
Qed.

Lemma extends_new F g i : nodes F !! g = None → extends F (set_node F g i).
Proof.
  intros Hg g1 i1 Hi1. simpl. rewrite lookup_insert_ne by congruence.
  exists i1. split_and!; [done..|]. intros p m ->. by exists p, m.
Qed.

Lemma extends_add_entry F gd p m n g :
  nodes F !! gd = Some (IDir p m) → m !! n = None → extends F (set_node F gd (IDir p (<[n := g]> m))).
Proof.
  intros Hd Hn. eapply extends_same; [done|done|]. intros p' m' [= <- <-].
  exists p, (<[n := g]> m). split; [done|]. by apply insert_subseteq.
Qed.

Lemma extends_handle F F' fh g : extends F F' → extends F (add_handle F' fh g).
Proof. done. Qed.

(** Resolving a path in two steps. *)
Lemma resolve_snoc F type g cs n gd p m g' i :
  resolve F GDPFS_FILE_TYPE_DIR g cs = inr gd → nodes F !! gd = Some (IDir p m) →
  m !! n = Some g' → nodes F !! g' = Some i → kind_matches type i = true →
  resolve F type g (cs ++ [n]) = inr g'.
Proof.
  revert g. induction cs as [|c cs IH]; intros g; cbn [resolve app].
  - intros [= ->] -> -> -> Hk. simpl. by rewrite Hk.
  - destruct (nodes F !! g) as [[|q es]|]; [done| |done].
    destruct (es !! c) as [g1|]; [|done]. destruct (nodes F !! g1) as [i1|]; [|done].
    replace (if decide (cs = []) then GDPFS_FILE_TYPE_DIR else GDPFS_FILE_TYPE_DIR)
      with GDPFS_FILE_TYPE_DIR by (by case_decide).
    rewrite decide_False by (by destruct cs). destruct (kind_matches _ i1); [apply IH|done].
Qed.

Lemma components_snoc_name path : path_ok path → components path ≠ [] →
  components path = parent_of path ++ [name_of path].
Proof. intros _ Hc. apply app_removelast_last. done. Qed.

Section facts.
Context {S : Type} `{FileLaws S}.
Variable fuel : nat.
Variable root : file_gname.
Variable mode : gdpfs_file_mode.

Notation fs_rep := (fs_rep fuel root).
Notation room := (room fuel).

(** ** Data *)

(** Two handles on the same regular file. *)
Definition opened_twice (F : fs) (fh fh' : Z) (g : file_gname) : Prop :=
  handles F !! fh = Some g ∧ handles F !! fh' = Some g ∧ regular_node F g.


Lemma read_inode_write n d bs off :
  read_inode (write_data d bs off) (Z.max n (off + Z.of_nat (length bs))) (Z.of_nat (length bs)) off = bs.
Proof.
  pose proof (read_file_write (mkAfile (mkInfo n GDPFS_FILE_TYPE_REGULAR 0) d) bs off _ eq_refl) as Hr.
  exact Hr.
Qed.

(** C24: What is written through a handle is read back through every handle of
    the same file: after [gdpfs_write] of [buf] at [off], [gdpfs_read] of that
    range returns [buf]. *)
Theorem fuse_write_read k s F fh fh' g buf off :
  fs_rep k s F → opened_twice F fh fh' g →
  0 ≤ off → Z.of_nat (length buf) < 2 ^ 31 → off + Z.of_nat (length buf) < max_offset →
  Forall (in_width 8) buf →
  ∃ s1 s2, gdpfs_write buf off fh s = Ok (Z.of_nat (length buf), s1) ∧
    gdpfs_read (Z.of_nat (length buf)) off fh' s1 = Ok ((Z.of_nat (length buf), buf), s2).
Proof.
  intros Hs (Hh & Hh' & (p & n & d & Hn)%regular_node_inv) Hoff Hlen Hmax Hb.
  destruct (rep_write fuel root k s F fh g p n d buf off) as (s1 & Hw & Hs1); [done..|].
  destruct (rep_read_file fuel root k s1 _ fh' g p _ _ (Z.of_nat (length buf)) off Hs1 Hh' (lookup_insert_eq _ _ _))
    as (s2 & Hr & Hs2); [done|lia|done|].
  rewrite read_inode_write in Hr by done.
  exists s1, s2. unfold gdpfs_write, gdpfs_read.
  rewrite (bind_ok _ _ _ _ _ Hw), (bind_ok _ _ _ _ _ Hr), to_int_small by lia. done.
Qed.

(** The first [off] bytes of a file of [n] bytes. *)
Definition prefix_of_file (n : Z) (d : gmap Z Z) (off : Z) : list Z := read_inode d n off 0.

Lemma read_inode_below n d b off m :
  0 ≤ off ≤ n → 0 ≤ m → read_inode (write_data d [b] off) (Z.max m (off + 1)) off 0 = read_inode d n off 0.
Proof.
  intros Hoff Hm. unfold read_inode. rewrite !Z.sub_0_r, !Z.min_l, !Z.max_r by lia.
  apply list_fmap_ext. intros i x [-> Hi]%lookup_seqZ. simpl. by rewrite lookup_insert_ne by lia.
Qed.

(** C29: [gdpfs_ftruncate] ignores the length that it is given and does not erase
    data: after truncating a file of [n] bytes to any length and writing one
    byte at [off], reading the bytes before [off] gives what the file held
    before it was truncated. *)
Theorem ftruncate_keeps_data k s F fh g p n d len off b :
  fs_rep k s F → handles F !! fh = Some g → nodes F !! g = Some (IFile p n d) →
  0 ≤ off ≤ n → off < 2 ^ 31 → off + 1 < max_offset → in_width 8 b →
  ∃ s1 s2 s3, gdpfs_ftruncate len fh s = Ok (0, s1) ∧ gdpfs_write [b] off fh s1 = Ok (1, s2) ∧
    gdpfs_read off 0 fh s2 = Ok ((off, prefix_of_file n d off), s3).
Proof.
  intros Hs Hh Hn Hoff Hlen Hmax Hb. unfold prefix_of_file.
  destruct (rep_ftruncate fuel root k s F fh g p n d len) as (s1 & Ht & Hs1); [done..|].
  destruct (rep_write fuel root k s1 _ fh g p 0 d [b] off Hs1 Hh (lookup_insert_eq _ _ _))
    as (s2 & Hw & Hs2); [lia|done|by constructor|].
  destruct (rep_read_file fuel root k s2 _ fh g p _ _ off 0 Hs2 Hh (lookup_insert_eq _ _ _))
    as (s3 & Hr & Hs3); [lia|lia|lia|].
  cbn [length] in Hr. change (Z.of_nat 1) with 1 in Hr. rewrite (read_inode_below n) in Hr by lia.
  exists s1, s2, s3. split; [done|]. unfold gdpfs_write, gdpfs_read.
  rewrite (bind_ok _ _ _ _ _ Hw), (bind_ok _ _ _ _ _ Hr). split; [done|].
  assert (Z.of_nat (length (read_inode d n off 0)) = off) as ->.
  { unfold read_inode. rewrite length_fmap, length_seqZ. lia. }
  by rewrite to_int_small by lia.
Qed.

(** ** Creating a file *)

Lemma delivers_inv {A} k (c : st S A) s (Q : out A → Prop) :
  delivers fuel root k c s Q → ∃ o, Q o ∧ match o with
    | Done r F => ∃ s', c s = Ok (r, s') ∧ fs_rep k s' F
    | Crash f => c s = Fault f
    end.
Proof. done. Qed.

Lemma resolve_created F path gd p es g i type fh :
  path_ok path → components path ≠ [] → trailing path = false →
  resolve_parent F root path = inr gd → nodes F !! gd = Some (IDir p es) →
  es !! name_of path = None → nodes F !! g = None → kind_matches type i = true →
  resolve_path (add_handle (set_node (set_node F g i) gd (IDir p (<[name_of path := g]> es))) fh g)
    root path type = inr g.
Proof.
  intros Hp Hc Ht Hr Hd Hn Hg Hk. assert (gd ≠ g) as Hne by congruence.
  unfold resolve_path. rewrite Ht, components_snoc_name by done.
  eapply resolve_snoc; [| |apply lookup_insert_eq| |done].
  - eapply resolve_extends; [apply extends_handle|exact Hr].
    eapply extends_trans; [by apply extends_new|]. apply extends_add_entry; [|done].
    simpl. by rewrite lookup_insert_ne by done.
  - simpl. apply lookup_insert_eq.
  - simpl. rewrite lookup_insert_ne by done. apply lookup_insert_eq.
Qed.

(** What [gdpfs_getattr] reports for a regular file. *)
Definition regular_stat (perm size : Z) : fstat :=
  mkStat (mask_mode mode (Z.lor S_IFREG perm)) 1 size.

(** A file that [gdpfs_create] makes is there: its path resolves, and
    [gdpfs_getattr] reports an empty regular file with the permissions that
    were asked for. *)
Theorem create_getattr k s F path m gd p es :
  fs_rep k s F → spare 4 F → Z.of_nat (size (nodes F)) < max_files → room (Datatypes.S k) →
  path_ok path → components path ≠ [] → trailing path = false →
  resolve_parent F root path = inr gd → nodes F !! gd = Some (IDir p es) → es !! name_of path = None →
  ∃ fh s1 s2,
    handle fuel root mode (Create path m) s = Ok (RHandle 0 (Some fh), s1) ∧
    handle fuel root mode (Getattr path) s1 =
      Ok (RStat 0 (Some (regular_stat (gdpfs_extract_perm m) 0)), s2).
Proof.
  intros Hs Hsp Hfiles Hroom Hp Hc Ht Hr Hd Hn. unfold spare in Hsp.
  destruct (dv_create fuel root mode k s F path m) as (o & Ho & Hrun); try done; [unfold spare; lia|].
  inversion Ho as [| | | | | | | | | |? ? ? Hcr| | | | | | | |]; subst.
  inversion Hcr; subst; try congruence;
    select (resolve_parent _ _ _ = inr _) (fun H => rewrite H in Hr; injection Hr as ->); simplify_eq.
  destruct Hrun as (s1 & Hrun & Hs1).
  match type of Hs1 with FsDir.fs_rep _ _ _ _ ?G => set (F1 := G) in * end.
  assert (resolve_path F1 root path GDPFS_FILE_TYPE_UNKNOWN = inr g) as Hres by (by apply resolve_created).
  destruct (dv_getattr fuel root mode (Datatypes.S k) s1 F1 path) as (o & Ho' & Hrun'); try done.
  { unfold spare, F1. simpl. rewrite map_size_insert_None by done. lia. }
  inversion Ho'; subst; [congruence|].
  select (resolve_path _ _ _ _ = _) (fun H => rewrite Hres in H; injection H as <-).
  select (nodes F1 !! g = _) (fun H => rename H into Hg).
  unfold F1 in Hg. simpl in Hg. rewrite lookup_insert_ne, lookup_insert_eq in Hg by congruence.
  injection Hg as <-. destruct Hrun' as (s2 & Hrun' & _). exists fh, s1, s2. split; [done|].
  rewrite Hrun'. cbn [type_mode inode_perm]. do 6 f_equal. eauto.
Qed.

(** ** Removing and renaming *)

(** The log that [name] names in the directory [gd]. *)
Definition entry (F : fs) (gd : file_gname) (name : list Z) : option file_gname :=
  dir_entries F gd ≫= λ m, m !! name.

Lemma entry_inv F gd name g : entry F gd name = Some g →
  ∃ p m, nodes F !! gd = Some (IDir p m) ∧ m !! name = Some g.
Proof. unfold entry, dir_entries. destruct (nodes F !! gd) as [[|p m]|]; naive_solver. Qed.

Lemma entry_set_dir F gd p m x n :
  entry (set_node F gd (IDir p m)) x n = if decide (x = gd) then m !! n else entry F x n.
Proof.
  unfold entry, dir_entries. simpl. case_decide as Hx; [subst; by rewrite lookup_insert_eq|].
  by rewrite lookup_insert_ne by done.
Qed.

(** [gdpfs_unlink] and [gdpfs_rmdir] of a name that does not exist succeed
    and change nothing, although the code reports the missing entry. *)
Theorem remove_absent k s F path gd :
  fs_rep k s F → spare 3 F → path_ok path →
  resolve_parent F root path = inr gd → entry F gd (name_of path) = None →
  ∃ s1 s2, handle fuel root mode (Unlink path) s = Ok (RInt 0, s1) ∧ fs_rep k s1 F ∧
    handle fuel root mode (Rmdir path) s = Ok (RInt 0, s2) ∧ fs_rep k s2 F.
Proof.
  intros Hs Hsp Hp Hr He.
  assert (∀ type, fs_remove F root path type = (GDPFS_STAT_OK, F)) as Hrm.
  { intros type. unfold fs_remove. rewrite Hr. unfold entry, dir_entries in He.
    destruct (nodes F !! gd) as [[|p m]|]; [done| |done]. simpl in He. by rewrite He. }
  destruct (dv_unlink fuel root mode k s F path) as (o & Ho & Hrun); [done..|].
  inversion Ho; subst. rewrite Hrm in Hrun. destruct Hrun as (s1 & Hrun & Hs1).
  destruct (dv_rmdir fuel root mode k s F path) as (o & Ho' & Hrun'); [done..|].
  inversion Ho'; subst. rewrite Hrm in Hrun'. destruct Hrun' as (s2 & Hrun' & Hs2).
  by exists s1, s2.
Qed.

Lemma resolve_entry F path gd g i :
  path_ok path → components path ≠ [] → trailing path = false →
  resolve_parent F root path = inr gd → entry F gd (name_of path) = Some g →
  nodes F !! g = Some i →
  resolve_path F root path GDPFS_FILE_TYPE_UNKNOWN = inr g.
Proof.
  intros Hp Hc Ht Hr (p & m & Hd & Hm)%entry_inv Hi. unfold resolve_path.
  rewrite Ht, components_snoc_name by done. by eapply resolve_snoc.
Qed.

(** The source and the target of a rename, without the handles. *)
Definition renamed (F : fs) (gd1 : file_gname) (n1 : list Z) (gd2 : file_gname) (n2 : list Z)
    (g : file_gname) (F' : fs) : Prop :=
  ∀ x n, entry F' x n = if decide (x = gd1 ∧ n = n1) then None
                        else if decide (x = gd2 ∧ n = n2) then Some g else entry F x n.

(** Linking a file, over an entry that is not an ancestor of anything, keeps
    the directories where they are. *)
Lemma resolve_link F gd q m n g r cs x :
  nodes F !! gd = Some (IDir q m) →
  (∀ g2, m !! n = Some g2 → ∃ i2, nodes F !! g2 = Some i2 ∧ empty_dir i2 = true) →
  (∃ n' y, entry F x n' = Some y) →
  resolve F GDPFS_FILE_TYPE_DIR r cs = inr x →
  resolve (set_node F gd (IDir q (<[n := g]> m))) GDPFS_FILE_TYPE_DIR r cs = inr x.
Proof.
  intros Hd Hemp (n' & y & Hx). revert r. induction cs as [|c cs IH]; intros r; [done|].
  set (F1 := set_node F gd (IDir q (<[n := g]> m))) in *. cbn [resolve].
  replace (if decide (cs = []) then GDPFS_FILE_TYPE_DIR else GDPFS_FILE_TYPE_DIR)
    with GDPFS_FILE_TYPE_DIR by (by case_decide).
  destruct (nodes F !! r) as [[|p es]|] eqn:Hr; [done| |done].
  destruct (es !! c) as [g1|] eqn:Hc; [|done]. destruct (nodes F !! g1) as [i1|] eqn:Hg1; [|done].
  destruct (kind_matches GDPFS_FILE_TYPE_DIR i1) eqn:Hk; [|done]. intros Hres.
  assert (r = gd → c ≠ n) as Hne.
  { intros -> ->. simplify_eq. destruct (Hemp g1 Hc) as (i2 & Hi2 & He2). simplify_eq.
    destruct i1 as [|p2 m2]; [done|]. apply bool_decide_eq_true in He2 as ->.
    destruct cs as [|c' cs]; cbn [resolve] in Hres.
    - injection Hres as ->. destruct (entry_inv _ _ _ _ Hx) as (? & ? & ? & ?). by simplify_eq.
    - by rewrite Hg1, lookup_empty in Hres. }
  assert (∃ p' es', nodes F1 !! r = Some (IDir p' es') ∧ es' !! c = Some g1) as (p' & es' & -> & ->).
  { unfold F1. simpl. destruct (decide (gd = r)) as [->|Hgr].
    - rewrite lookup_insert_eq. simplify_eq. eexists _, _. split; [done|].
      by rewrite lookup_insert_ne by (by apply not_eq_sym, Hne).
    - rewrite lookup_insert_ne by done. by eauto. }
  assert (∃ i', nodes F1 !! g1 = Some i' ∧ kind_matches GDPFS_FILE_TYPE_DIR i' = true) as (i' & -> & ->).
  { unfold F1. simpl. destruct (decide (gd = g1)) as [->|Hgr].
    - rewrite lookup_insert_eq. by eauto.
    - rewrite lookup_insert_ne by done. by eauto. }
  by apply IH.
Qed.

Lemma entry_link F gd q m n g x n' :
  nodes F !! gd = Some (IDir q m) →
  entry (set_node F gd (IDir q (<[n := g]> m))) x n' =
    if decide (x = gd ∧ n' = n) then Some g else entry F x n'.
Proof.
  intros Hd. rewrite entry_set_dir. case_decide as Hx; [subst x|].
  - rewrite lookup_insert. unfold entry, dir_entries. rewrite Hd. simpl.
    destruct (decide (n = n')) as [->|Hne]; [by rewrite decide_True|].
    by rewrite decide_False by (intros [_ ->]; done).
  - by rewrite decide_False by (by intros []).
Qed.

Lemma rename_effect F p1 p2 gd1 gd2 g :
  resolve_parent F root p1 = inr gd1 → entry F gd1 (name_of p1) = Some g →
  resolve_parent F root p2 = inr gd2 → is_Some (dir_entries F gd2) →
  match entry F gd2 (name_of p2) with
  | Some g2 => match nodes F !! g, nodes F !! g2 with
               | Some i1, Some i2 => replaceable i1 i2 = GDPFS_STAT_OK
               | _, _ => False end
  | None => True end →
  ∃ F1, fs_replace F root g p2 = (GDPFS_STAT_OK, F1) ∧
    (fs_remove F1 root p1 GDPFS_FILE_TYPE_UNKNOWN).1 = GDPFS_STAT_OK ∧
    renamed F gd1 (name_of p1) gd2 (name_of p2) g (fs_remove F1 root p1 GDPFS_FILE_TYPE_UNKNOWN).2.
Proof.
  intros Hr1 He1 Hr2 [m2 Hm2] Hrep. unfold dir_entries in Hm2.
  destruct (nodes F !! gd2) as [[|q2 m2']|] eqn:Hd2; [done| |done]. injection Hm2 as ->.
  unfold entry at 1, dir_entries in Hrep. rewrite Hd2 in Hrep. simpl in Hrep.
  set (F1 := set_node F gd2 (IDir q2 (<[name_of p2 := g]> m2))).
  assert (fs_replace F root g p2 = (GDPFS_STAT_OK, F1)) as Hfr.
  { unfold fs_replace. rewrite Hr2, Hd2. destruct (m2 !! name_of p2) as [g2|]; [|done].
    destruct (nodes F !! g); [|done]. destruct (nodes F !! g2); [|done]. by rewrite Hrep. }
  exists F1. split; [done|].
  assert (resolve_parent F1 root p1 = inr gd1) as Hr1'.
  { eapply resolve_link; [done| |by eauto|done]. intros g2 Hg2. rewrite Hg2 in Hrep.
    destruct (nodes F !! g) as [i1|]; [|done]. destruct (nodes F !! g2) as [i2|]; [|done].
    exists i2. split; [done|]. unfold replaceable in Hrep. by repeat case_match. }
  assert (is_Some (entry F1 gd1 (name_of p1))) as [g' Hg'].
  { unfold F1. rewrite entry_set_dir. case_decide as Hx; [|by eauto].
    rewrite lookup_insert. case_decide; [done|]. subst gd1.
    destruct (entry_inv _ _ _ _ He1) as (p & m & Hn & Hm). simplify_eq. by eauto. }
  destruct (entry_inv _ _ _ _ Hg') as (q1 & m1 & Hd1 & Hm1).
  assert (fs_remove F1 root p1 GDPFS_FILE_TYPE_UNKNOWN =
    (GDPFS_STAT_OK, set_node F1 gd1 (IDir q1 (delete (name_of p1) m1)))) as ->.
  { unfold fs_remove. by rewrite Hr1', Hd1, Hm1. }
  split; [done|]. intros x n. cbn [snd]. rewrite entry_set_dir. case_decide as Hx.
  - subst x. destruct (decide (n = name_of p1)) as [->|Hne].
    + by rewrite lookup_delete_eq, decide_True by done.
    + rewrite lookup_delete_ne by done. rewrite decide_False by (by intros []).
      assert (m1 !! n = entry F1 gd1 n) as ->.
      { unfold entry, dir_entries. by rewrite Hd1. }
      apply entry_link; done.
  - rewrite decide_False by (by intros []). apply entry_link; done.
Qed.

(** C21: [gdpfs_rename] moves the entry of a file: after renaming [p1] to [p2],
    where nothing or a file of the same kind that may be replaced is at [p2], the
    entry of [p2] points to the file and the entry of [p1] is gone, and no other
    entry has changed.  When both are the same path the file is lost. *)
Theorem rename_moves_entry k s F p1 p2 gd1 gd2 g :
  fs_rep k s F → spare 3 F → room (Datatypes.S k) → path_ok p1 → path_ok p2 →
  components p1 ≠ [] → trailing p1 = false →
  resolve_parent F root p1 = inr gd1 → entry F gd1 (name_of p1) = Some g →
  resolve_parent F root p2 = inr gd2 →
  match entry F gd2 (name_of p2) with
  | Some g2 => match nodes F !! g, nodes F !! g2 with
               | Some i1, Some i2 => replaceable i1 i2 = GDPFS_STAT_OK
               | _, _ => False end
  | None => True end →
  ∃ s' F', handle fuel root mode (Rename p1 p2) s = Ok (RInt 0, s') ∧
    fs_rep (Datatypes.S k) s' F' ∧ renamed F gd1 (name_of p1) gd2 (name_of p2) g F'.
Proof.
  intros Hs Hsp Hroom Hp1 Hp2 Hc Ht Hr1 He1 Hr2 Hrep.
  assert (is_Some (nodes F !! g)) as [i Hi].
  { destruct (entry_inv _ _ _ _ He1) as (p & m & Hd & Hm). by eapply entry_node. }
  pose proof (resolve_entry F p1 gd1 g i Hp1 Hc Ht Hr1 He1 Hi) as Hres.
  assert (is_Some (dir_entries F gd2)) as Hdir2.
  { eapply resolve_dir; [|exact Hr2]. destruct Hs as (a & [_ _ _ Hroot] & <-). exact Hroot. }
  destruct (rename_effect F p1 p2 gd1 gd2 g) as (F1 & Hfr & Hok & Hren); [done..|].
  destruct (dv_rename fuel root mode k s F p1 p2) as (o & Ho & Hrun); [done..|].
  inversion Ho as [| | | | | | | | | | | | | |? ? ? Hrn| | | |]; subst.
  inversion Hrn; subst; try congruence;
    select (resolve_path _ _ _ _ = _) (fun H => rewrite Hres in H; injection H as <-);
    select (fs_replace _ _ _ _ = _) (fun H => rewrite Hfr in H; injection H as <- <-); [done|].
  destruct Hrun as (s' & Hrun & Hs'). rewrite Hok in Hrun. eexists s', _. split; [done|].
  split; [done|]. intros x n. specialize (Hren x n). done.
Qed.

End facts.

(** ** Modes *)

(** The permission bits that a mount turns off. *)
Definition masked (mode : gdpfs_file_mode) (i : Z) : bool :=
  match mode with
  | GDPFS_FILE_MODE_RO => (i =? 7) || (i =? 4) || (i =? 1)
  | GDPFS_FILE_MODE_RW => false
  | GDPFS_FILE_MODE_WO => (i =? 8) || (i =? 5) || (i =? 2)
  end.

Lemma testbit_three a b c i : 0 ≤ a → 0 ≤ b → 0 ≤ c → 0 ≤ i →
  Z.testbit (Z.lor (Z.lor (2 ^ a) (2 ^ b)) (2 ^ c)) i = (i =? a) || (i =? b) || (i =? c).
Proof.
  intros. rewrite !Z.lor_spec, !Z.pow2_bits_eqb by lia. by rewrite !(Z.eqb_sym i).
Qed.

(** [gdpfs_getattr] reports the stored mode bit for bit, except that a
    read-only mount clears exactly the three write bits and a write-only mount
    exactly the three read bits. *)
Theorem mask_mode_bits mode m i : 0 ≤ i →
  Z.testbit (mask_mode mode m) i = Z.testbit m i && negb (masked mode i).
Proof.
  intros Hi. destruct mode; simpl mask_mode; simpl masked; [| |].
  - unfold clear_bits. rewrite Z.land_spec, Z.lnot_spec by done. f_equal. f_equal.
    apply (testbit_three 7 4 1); lia.
  - by rewrite andb_true_r.
  - unfold clear_bits. rewrite Z.land_spec, Z.lnot_spec by done. f_equal. f_equal.
    apply (testbit_three 8 5 2); lia.
Qed.

(** ** Evaluations *)

Lemma ex_created : ∃ g fh s,
  g ≠ ex_root ∧ fs_rep 10 ex_root 1 s (ex_file g fh (IFile 420 0 ∅)).
Proof.
  destruct (fuse_step_delivers 10 ex_root GDPFS_FILE_MODE_RW 0 ex_state ex_fs (Create ex_path 420))
    as ([x F'|f] & Ho & Hrun).
  - apply ex_rep. split; [lia|reflexivity].
  - apply Nat.leb_le; vm_compute; reflexivity.
  - done.
  - split; [lia|reflexivity].
  - exact ex_path_ok.
  - destruct (ex_create _ _ _ Ho) as (g & fh & Hg & -> & ->). destruct Hrun as (s & _ & Hs).
    by exists g, fh, s.
  - exfalso. inversion Ho as [| | | | | | | | | |? ? ? Hc| | | | | | | |]; subst. inversion Hc.
Qed.

Lemma ex_file_regular g fh : g ≠ ex_root → regular_node (ex_file g fh (IFile 420 0 ∅)) g.
Proof. intros Hg. unfold regular_node. by rewrite ex_file_node. Qed.

Lemma ex_parent g fh i : g ≠ ex_root → resolve_parent (ex_file g fh i) ex_root ex_path = inr ex_root.
Proof. reflexivity. Qed.

Lemma ex_file_root g fh i : nodes (ex_file g fh i) !! ex_root = Some (IDir 361 {[ [102] := g ]}).
Proof. apply lookup_insert_eq. Qed.

Lemma ex_entry g fh i n :
  entry (ex_file g fh i) ex_root n = ({[ [102] := g ]} : gmap _ _) !! n.
Proof. unfold entry, dir_entries. by rewrite ex_file_root. Qed.

Lemma fuse_write_read_witness : ∃ (s : afs) g fh s1 s2,
  fs_rep 10 ex_root 1 s (ex_file g fh (IFile 420 0 ∅)) ∧
  gdpfs_write [1; 2; 3] 4096 fh s = Ok (3, s1) ∧ gdpfs_read 3 4096 fh s1 = Ok ((3, [1; 2; 3]), s2).
Proof.
  destruct ex_created as (g & fh & s & Hg & Hs).
  destruct (fuse_write_read 10 ex_root 1 s _ fh fh g [1; 2; 3] 4096 Hs) as (s1 & s2 & Hw & Hr).
  - split; [apply ex_file_handle|split; [apply ex_file_handle|by apply ex_file_regular]].
  - done.
  - done.
  - done.
  - by repeat constructor.
  - exists s, g, fh, s1, s2. by split_and!.
Defined.

Lemma ftruncate_keeps_data_witness : ∃ (s : afs) g fh s1 s2 s3,
  fs_rep 10 ex_root 1 s (ex_file g fh (IFile 420 2 (write_data ∅ [7; 8] 0))) ∧
  gdpfs_ftruncate 0 fh s = Ok (0, s1) ∧ gdpfs_write [9] 2 fh s1 = Ok (1, s2) ∧
  gdpfs_read 2 0 fh s2 = Ok ((2, [7; 8]), s3).
Proof.
  destruct ex_created as (g & fh & s & Hg & Hs).
  destruct (rep_write 10 ex_root 1 s _ fh g 420 0 ∅ [7; 8] 0 Hs) as (s0 & _ & Hs0).
  - apply ex_file_handle.
  - by apply ex_file_node.
  - done.
  - done.
  - by repeat constructor.
  - rewrite ex_file_set in Hs0 by done.
    destruct (ftruncate_keeps_data 10 ex_root 1 s0 _ fh g 420 2 (write_data ∅ [7; 8] 0) 0 2 9 Hs0)
      as (s1 & s2 & s3 & Ht & Hw & Hr).
    + apply ex_file_handle.
    + by apply ex_file_node.
    + done.
    + done.
    + done.
    + done.
    + exists s0, g, fh, s1, s2, s3. by split_and!.
Defined.

Lemma create_getattr_witness : ∃ fh s1 s2,
  handle (S := afs) 10 ex_root GDPFS_FILE_MODE_RO (Create ex_path 438) ex_state = Ok (RHandle 0 (Some fh), s1) ∧
  handle (S := afs) 10 ex_root GDPFS_FILE_MODE_RO (Getattr ex_path) s1 =
    Ok (RStat 0 (Some (mkStat 33060 1 0)), s2).
Proof.
  apply (create_getattr 10 ex_root GDPFS_FILE_MODE_RO 0 ex_state ex_fs ex_path 438 ex_root 361 ∅).
  - apply ex_rep. split; [lia|reflexivity].
  - apply Nat.leb_le; vm_compute; reflexivity.
  - done.
  - split; [lia|reflexivity].
  - exact ex_path_ok.
  - done.
  - done.
  - reflexivity.
  - reflexivity.
  - done.
Defined.

Lemma remove_absent_witness : ∃ (s1 s2 : afs),
  handle (S := afs) 10 ex_root GDPFS_FILE_MODE_RW (Unlink ex_path) ex_state = Ok (RInt 0, s1) ∧
  fs_rep 10 ex_root 0 s1 ex_fs ∧
  handle (S := afs) 10 ex_root GDPFS_FILE_MODE_RW (Rmdir ex_path) ex_state = Ok (RInt 0, s2) ∧
  fs_rep 10 ex_root 0 s2 ex_fs.
Proof.
  apply (remove_absent 10 ex_root GDPFS_FILE_MODE_RW 0 ex_state ex_fs ex_path ex_root).
  - apply ex_rep. split; [lia|reflexivity].
  - apply Nat.leb_le; vm_compute; reflexivity.
  - exact ex_path_ok.
  - reflexivity.
  - reflexivity.
Defined.

(** Renaming a file to itself. *)
Lemma rename_moves_entry_witness : ∃ (s : afs) g fh s' F',
  fs_rep 10 ex_root 1 s (ex_file g fh (IFile 420 0 ∅)) ∧
  handle (S := afs) 10 ex_root GDPFS_FILE_MODE_RW (Rename ex_path ex_path) s = Ok (RInt 0, s') ∧
  fs_rep 10 ex_root 2 s' F' ∧ entry F' ex_root [102] = None.
Proof.
  destruct ex_created as (g & fh & s & Hg & Hs).
  destruct (rename_moves_entry 10 ex_root GDPFS_FILE_MODE_RW 1 s _ ex_path ex_path ex_root ex_root g Hs)
    as (s' & F' & Hr & Hs' & Hren).
  - apply ex_file_small; [apply ref_handles|apply ref_files|apply ref_offset].
  - split; [lia|reflexivity].
  - exact ex_path_ok.
  - exact ex_path_ok.
  - done.
  - done.
  - by apply ex_parent.
  - rewrite ex_entry. reflexivity.
  - by apply ex_parent.
  - rewrite ex_entry. change (name_of ex_path) with [102]. rewrite lookup_singleton_eq.
    rewrite ex_file_node by done. reflexivity.
  - exists s, g, fh, s', F'. split_and!; [done..|]. rewrite (Hren ex_root [102]). reflexivity.
Defined.

(** The file system after opening what a path resolved to. *)
Definition opened_at (F : fs) (r : stat + file_gname) (fh : Z) (F' : fs) : Prop :=
  match r with
  | inl e => EP_STAT_ISOK e = false ∧ F' = F
  | inr g => handles F !! fh = None ∧ is_Some (nodes F !! g) ∧ F' = add_handle F fh g
  end.

(** C23: Opening a path resolves it: [gdpfs_dir_open_file_at_path] opens the log
    that the components of the path lead to, when every component but the last
    is a directory and the last has the type that is asked for, and fails with
    the status of [resolve_path] otherwise; no handle is left open on the way. *)
Theorem open_path_resolves {S : Type} `{FileLaws S} fuel root k s F path type :
  fs_rep fuel root k s F → path_ok path → (size (handles F) < max_handles)%nat →
  ∃ fh s' F', gdpfs_dir_open_file_at_path fuel root path type s =
      Ok ((match resolve_path F root path type with inl e => e | inr _ => EP_STAT_OK end, fh), s') ∧
    fs_rep fuel root k s' F' ∧ opened_at F (resolve_path F root path type) fh F'.
Proof.
  intros Hs Hp Hsp.
  destruct (rep_open_path fuel root k s F path type Hs Hp) as (s' & Ho); [unfold spare; lia|].
  destruct (resolve_path F root path type) as [e|g] eqn:Hr.
  - destruct Ho as (Ho & He & Hs'). by exists INVALID_FH, s', F.
  - destruct Ho as (fh & Ho & _ & Hn & Hs'). exists fh, s', (add_handle F fh g).
    split_and!; [done|done|]. split_and!; [done|by eapply resolve_path_node|done].
Qed.

Lemma open_path_resolves_witness : ∃ fh (s' : afs) F',
  gdpfs_dir_open_file_at_path (S := afs) 10 ex_root ex_path GDPFS_FILE_TYPE_REGULAR ex_state =
    Ok ((GDPFS_STAT_BADPATH, fh), s') ∧ fs_rep 10 ex_root 0 s' F' ∧ F' = ex_fs.
Proof.
  destruct (open_path_resolves 10 ex_root 0 ex_state ex_fs ex_path GDPFS_FILE_TYPE_REGULAR)
    as (fh & s' & F' & Ho & Hs' & Hr).
  - apply ex_rep. split; [lia|reflexivity].
  - exact ex_path_ok.
  - apply Nat.ltb_lt. vm_compute. reflexivity.
  - exists fh, s', F'. split; [exact Ho|]. split; [exact Hs'|apply Hr].
Defined.

Lemma mask_mode_bits_witness :
  Z.testbit (mask_mode GDPFS_FILE_MODE_RO 33188) 7 =
    Z.testbit 33188 7 && negb (masked GDPFS_FILE_MODE_RO 7).
Proof. apply mask_mode_bits. lia. Defined.
