(* ===== verification/Readdir.v ===== *)
(** * Listing a directory

    [gdpfs_readdir] passes every name of a directory to the filler, and a client
    that reads a directory piece by piece sees every name once. *)
From S2P Require Import Prelude.
From S2P Require Import State.
From S2P Require Import Types.
From S2P Require Import FileIface.
From S2P Require Import FileRef.
From S2P Require Import Dir.
From S2P Require Import DirSpec.
From S2P Require Import DirProof.
From S2P Require Import FsSpec.
From S2P Require Import FsDir.
From S2P Require Import FsOps.
From S2P Require Import FsPath.
From S2P Require Import FsTree.
From S2P Require Import Fuse.
From S2P Require Import FuseTheorems.
From S2P Require Import FuseFacts.

(** What is passed to the filler from entry [k] on: the names with the offset
    after them. *)
Fixpoint listing (k : nat) (ents : list phys_ent) : list (list Z * Z) :=
  match ents with
  | [] => []
  | e :: ents =>
      (if pe_in_use e then [(ent_name e, ent_offset (S k) + 3)] else []) ++ listing (S k) ents
  end.

(** The listing of a directory from an offset: the two dots have the offsets
    1 and 2. *)
Definition listing_from (ents : list phys_ent) (offset : Z) : list (list Z * Z) :=
  if offset <=? 1 then ([DOT], 2) :: ([DOT; DOT], 3) :: listing 0 ents
  else if offset =? 2 then ([DOT; DOT], 3) :: listing 0 ents
  else let k := Z.to_nat ((offset - 3) / sizeof_phys) in listing k (drop k ents).

Definition listed_offset (ents : list phys_ent) (offset : Z) : Prop :=
  0 ≤ offset ≤ 2 ∨ ∃ k, (k ≤ length ents)%nat ∧ offset = ent_offset k + 3.

Lemma listing_names k ents : (listing k ents).*1 = (used ents).*1.
Proof.
  revert k. induction ents as [|e ents IH]; intros k; [done|].
  rewrite used_cons. simpl. rewrite !fmap_app, IH. by destruct (pe_in_use e).
Qed.

Lemma listing_length k ents : (length (listing k ents) ≤ length ents)%nat.
Proof.
  revert k. induction ents as [|e ents IH]; intros k; simpl; [done|].
  rewrite length_app. specialize (IH (S k)). destruct (pe_in_use e); simpl; lia.
Qed.

Lemma listing_find k ents :
  listing k ents =
    match list_find (λ e, pe_in_use e = true) ents with
    | Some (i, e) => (ent_name e, ent_offset (S (k + i)) + 3) :: listing (S (k + i)) (drop (S i) ents)
    | None => []
    end.
Proof.
  revert k. induction ents as [|e ents IH]; intros k; [done|]. simpl.
  destruct (pe_in_use e) eqn:Hu.
  - rewrite decide_True by done. by rewrite Nat.add_0_r.
  - rewrite decide_False by done. rewrite IH. simpl.
    destruct (list_find _ ents) as [[i e']|]; simpl; [|done].
    by rewrite Nat.add_succ_r.
Qed.

Lemma list_find_lt {A} (P : A → Prop) `{!∀ x, Decision (P x)} l i x :
  list_find P l = Some (i, x) → (i < length l)%nat.
Proof. intros (Hi & _)%list_find_Some. by apply lookup_lt_Some in Hi. Qed.

Lemma listing_from_ent ents k :
  listing_from ents (ent_offset k + 3) = listing k (drop k ents).
Proof.
  unfold listing_from, ent_offset, sizeof_phys.
  destruct (Z.leb_spec (289 * Z.of_nat k + 3) 1); [lia|].
  destruct (Z.eqb_spec (289 * Z.of_nat k + 3) 2); [lia|].
  replace (Z.to_nat ((289 * Z.of_nat k + 3 - 3) / 289)) with k; [done|].
  rewrite Z.add_simpl_r, Z.mul_comm, Z.div_mul by done. lia.
Qed.

Section proof.
Context {S : Type} `{FileLaws S}.
Variable fuel : nat.
Implicit Types (s : S) (a : afs) (f : afile).

Section filler.
Context {B : Type}.
Variable filler : B → list Z → Z → B * bool.

(** Passing entries to the filler until it is full. *)
Fixpoint fill (buf : B) (l : list (list Z * Z)) : B :=
  match l with
  | [] => buf
  | (name, off) :: l => let '(buf, full) := filler buf name off in if full then buf else fill buf l
  end.

Lemma readdir_loop_ok a fh g f ents :
  open_dir fuel a fh g f ents →
  ∀ n k buf ent s, (k ≤ length ents)%nat → (length (listing k (drop k ents)) < n)%nat → file_rep s a →
  ∃ s', readdir_loop fuel filler n buf ent (ent_offset k + 3) fh s =
    Ok (fill buf (listing k (drop k ents)), s') ∧ file_rep s' a.
Proof.
  intros Ho. induction n as [|n IH]; intros k buf ent s Hk Hn Hs; [lia|].
  destruct (dir_read_ok fuel s a fh g f ents k Hs Ho Hk) as (s1 & Hr & Hs1).
  cbn [readdir_loop].
  assert (0 ≤ ent_offset k) as Hpos by (unfold ent_offset, sizeof_phys; lia).
  destruct (Z.eqb_spec (ent_offset k + 3) 1); [lia|]. destruct (Z.eqb_spec (ent_offset k + 3) 2); [lia|].
  rewrite Z.add_simpl_r, (bind_ok _ _ _ _ _ Hr). rewrite (listing_find k (drop k ents)) in Hn |- *.
  destruct (list_find _ (drop k ents)) as [[i e]|] eqn:Hf.
  2: { exists s1. split; [|done]. by unfold EP_STAT_IS_SAME; rewrite bool_decide_eq_true_2. }
  pose proof (list_find_lt _ _ _ _ Hf) as Hi. rewrite length_drop in Hi.
  change (EP_STAT_IS_SAME GDPFS_STAT_OK GDPFS_STAT_EOF) with false. cbn [fill de_name de_offset].
  destruct (filler buf (ent_name e) (ent_offset (Datatypes.S (k + i)) + 3)) as [buf' [|]]; [by exists s1|].
  rewrite drop_drop. replace (k + Datatypes.S i)%nat with (Datatypes.S (k + i)) in * by lia.
  apply IH; [lia| |done]. rewrite drop_drop in Hn. simpl in Hn.
  replace (k + Datatypes.S i)%nat with (Datatypes.S (k + i)) in Hn by lia. lia.
Qed.

Lemma readdir_ok s a fh g f ents buf offset :
  file_rep s a → open_dir fuel a fh g f ents → listed_offset ents offset →
  ∃ s', gdpfs_readdir fuel filler buf offset fh s =
    Ok (fill buf (listing_from ents offset), s') ∧ file_rep s' a.
Proof.
  intros Hs Ho Hoff. pose proof (od_fuel _ _ _ _ _ _ Ho) as Hfuel.
  unfold gdpfs_readdir. replace (fuel + 3)%nat with (Datatypes.S (Datatypes.S (Datatypes.S fuel))) by lia.
  assert (∀ n buf ent, (fuel ≤ n)%nat → ∃ s', readdir_loop fuel filler n buf ent 3 fh s =
    Ok (fill buf (listing 0 ents), s') ∧ file_rep s' a) as Hloop.
  { intros n buf' ent Hn. apply (readdir_loop_ok a fh g f ents Ho n 0 buf' ent s); [lia| |done].
    rewrite drop_0. pose proof (listing_length 0 ents). lia. }
  assert (∀ n buf ent, (fuel < n)%nat → ∃ s', readdir_loop fuel filler n buf ent 2 fh s =
    Ok (fill buf (([DOT; DOT], 3) :: listing 0 ents), s') ∧ file_rep s' a) as Hdots.
  { intros n buf' ent Hn. destruct n as [|n]; [lia|]. cbn [readdir_loop fill].
    change (2 =? 1) with false. change (2 =? 2) with true. cbn iota. change (2 + 1) with 3.
    destruct (filler buf' [DOT; DOT] 3) as [buf'' [|]]; [by exists s|]. apply Hloop. lia. }
  destruct Hoff as [Hoff|(k & Hk & ->)].
  - assert (offset = 2 ∨ (if offset =? 0 then 1 else offset) = 1 ∧ offset ≤ 1) as [->|[-> Hle]]
      by (destruct (Z.eqb_spec offset 0); lia).
    + apply Hdots. lia.
    + unfold listing_from. destruct (Z.leb_spec offset 1); [|lia]. cbn [fill].
      remember (Datatypes.S (Datatypes.S fuel)) as n eqn:Hn. cbn [readdir_loop].
      change (1 =? 1) with true. cbn iota. change (1 + 1) with 2.
      destruct (filler buf [DOT] 2) as [buf' [|]]; [by exists s|]. apply Hdots. lia.
  - rewrite listing_from_ent. assert (0 ≤ ent_offset k) by (unfold ent_offset, sizeof_phys; lia).
    destruct (Z.eqb_spec (ent_offset k + 3) 0); [lia|].
    apply (readdir_loop_ok a fh g f ents Ho); [done| |done].
    pose proof (listing_length k (drop k ents)) as Hl. rewrite length_drop in Hl. lia.
Qed.
End filler.

(** ** Reading piece by piece *)

(** A filler with room for [c] entries. *)
Definition push (c : nat) (buf : list (list Z * Z)) (name : list Z) (off : Z) : list (list Z * Z) * bool :=
  if (length buf <? c)%nat then (buf ++ [(name, off)], false) else (buf, true).

(** A client that goes on at the offset of the last entry until nothing comes. *)
Fixpoint read_all (c n : nat) (fh offset : Z) : st S (list (list Z * Z)) :=
  match n with
  | O => st_fail OutOfFuel
  | Datatypes.S n =>
      bs ← gdpfs_readdir fuel (push c) [] offset fh;
      match last bs with
      | None => mret []
      | Some (_, o) => rest ← read_all c n fh o; mret (bs ++ rest)
      end
  end.

Lemma fill_push c l : ∀ buf, (length buf ≤ c)%nat → fill (push c) buf l = buf ++ take (c - length buf) l.
Proof.
  induction l as [|[name off] l IH]; intros buf Hb; simpl.
  - by rewrite take_nil, app_nil_r.
  - unfold push at 1. destruct (Nat.ltb_spec (length buf) c).
    + rewrite IH by (rewrite length_app; simpl; lia). rewrite length_app, <-(assoc_L (++)). simpl.
      by replace (c - length buf)%nat with (Datatypes.S (c - (length buf + 1))) by lia.
    + replace (c - length buf)%nat with 0%nat by lia. by rewrite app_nil_r.
Qed.

Lemma listing_split ents : ∀ k l1 name o l2, listing k ents = l1 ++ (name, o) :: l2 →
  ∃ j, (j < length ents)%nat ∧ o = ent_offset (k + Datatypes.S j) + 3 ∧
    l2 = listing (k + Datatypes.S j) (drop (Datatypes.S j) ents).
Proof.
  induction ents as [|e ents IH]; intros k l1 name o l2; simpl; [by destruct l1|].
  destruct (pe_in_use e); simpl.
  - destruct l1 as [|x l1]; simpl; intros [= <- Hl].
    + subst. exists 0%nat. rewrite Nat.add_1_r. split_and!; [lia|done|by rewrite drop_0].
    + destruct (IH _ _ _ _ _ Hl) as (j & Hj & -> & ->). exists (Datatypes.S j).
      rewrite !Nat.add_succ_r. split_and!; [lia|done|done].
  - intros Hl. destruct (IH _ _ _ _ _ Hl) as (j & Hj & -> & ->). exists (Datatypes.S j).
    rewrite !Nat.add_succ_r. split_and!; [lia|done|done].
Qed.

Lemma listed_from_split ents offset l1 name o l2 :
  listed_offset ents offset → listing_from ents offset = l1 ++ (name, o) :: l2 →
  listed_offset ents o ∧ listing_from ents o = l2.
Proof.
  intros Hoff.
  assert (∀ k l1 name o l2, (k ≤ length ents)%nat → listing k (drop k ents) = l1 ++ (name, o) :: l2 →
    listed_offset ents o ∧ listing_from ents o = l2) as Hents.
  { intros k l1' name' o' l2' Hk (j & Hj & -> & ->)%listing_split. rewrite length_drop in Hj.
    split; [right; exists (k + Datatypes.S j)%nat; split; [lia|done]|].
    by rewrite listing_from_ent, drop_drop. }
  assert (∀ l1 name o l2, ([DOT; DOT], 3) :: listing 0 ents = l1 ++ (name, o) :: l2 →
    listed_offset ents o ∧ listing_from ents o = l2) as Hdots.
  { intros [|x l1'] name' o' l2'; simpl.
    - intros [= <- <- <-]. split; [right; exists 0%nat; split; [lia|done]|].
      apply (listing_from_ent ents 0).
    - intros [= <- Hl]. apply (Hents 0%nat l1' name' o' l2'); [lia|done]. }
  destruct Hoff as [Hoff|(k & Hk & ->)].
  - unfold listing_from at 1. destruct (Z.leb_spec offset 1).
    + destruct l1 as [|x l1]; simpl; intros [= <- Hl]; [|by eapply Hdots].
      subst. split; [by left|done].
    + destruct (Z.eqb_spec offset 2); [apply Hdots|lia].
  - rewrite listing_from_ent. by apply Hents.
Qed.

Lemma read_all_ok a fh g f ents c :
  open_dir fuel a fh g f ents → (0 < c)%nat →
  ∀ n offset s, listed_offset ents offset → (length (listing_from ents offset) < n)%nat → file_rep s a →
  ∃ s', read_all c n fh offset s = Ok (listing_from ents offset, s') ∧ file_rep s' a.
Proof.
  intros Ho Hc. induction n as [|n IH]; intros offset s Hoff Hn Hs; [lia|].
  destruct (readdir_ok (push c) s a fh g f ents [] offset Hs Ho Hoff) as (s1 & Hr & Hs1).
  rewrite (fill_push c) in Hr by (simpl; lia). simpl in Hr. rewrite Nat.sub_0_r in Hr.
  cbn [read_all]. rewrite (bind_ok _ _ _ _ _ Hr).
  pose proof (take_drop c (listing_from ents offset)) as Hsplit.
  destruct (last (take c (listing_from ents offset))) as [[name o]|] eqn:Hl.
  - apply last_Some in Hl as [bs Hbs]. rewrite Hbs in Hsplit. rewrite Hbs.
    rewrite <-(assoc_L (++)) in Hsplit.
    destruct (listed_from_split ents offset bs name o (drop c (listing_from ents offset)) Hoff (eq_sym Hsplit))
      as [Hoff' Hrest].
    destruct (IH o s1 Hoff') as (s2 & Hr2 & Hs2); [|done|].
    { rewrite Hrest. rewrite <-Hsplit, !length_app in Hn. simpl in Hn. lia. }
    rewrite (bind_ok _ _ _ _ _ Hr2), Hrest, <-(assoc_L (++)), Hsplit. by exists s2.
  - apply last_None in Hl. exists s1. split; [|done]. revert Hl. 
    destruct (listing_from ents offset); [done|]. destruct c; [lia|done].
Qed.

(** C22: A client that reads a directory piece by piece, with any buffer that
    holds at least one entry, sees the two dots and then every name of the
    directory exactly once. *)
Theorem readdir_complete root k s F fh g p m c n :
  fs_rep fuel root k s F → handles F !! fh = Some g → nodes F !! g = Some (IDir p m) →
  (0 < c)%nat → (size m + 2 < n)%nat →
  ∃ s' l, read_all c n fh 0 s = Ok (l, s') ∧ fs_rep fuel root k s' F ∧
    ∃ names, l.*1 = [DOT] :: [DOT; DOT] :: names ∧ names ≡ₚ (map_to_list m).*1.
Proof.
  intros (a & Hg & <-) Hh Hn Hc Hsize.
  destruct (good_open_dir fuel root k s a fh g p m Hg Hh Hn) as (f & _ & _ & -> & Ho).
  assert (map_to_list (dir_of (entries_of f)) ≡ₚ used (entries_of f)) as Hperm.
  { apply map_to_list_to_map. apply (od_ok _ _ _ _ _ _ Ho). }
  assert (length (listing 0 (entries_of f)) = size (dir_of (entries_of f))) as Hlen.
  { rewrite <-length_map_to_list, Hperm, <-(length_fmap fst (listing _ _)), listing_names.
    apply length_fmap. }
  destruct (read_all_ok a fh g f (entries_of f) c Ho Hc n 0 s) as (s' & Hr & Hs');
    [by left|simpl; lia|apply Hg|].
  exists s', (listing_from (entries_of f) 0). split; [done|].
  split; [exists a; split; [by eapply good_step|done]|].
  exists (used (entries_of f)).*1. split; [simpl; by rewrite listing_names|].
  by rewrite Hperm.
Qed.

End proof.

(** The root of the example, listed one name at a time. *)
Lemma readdir_complete_witness : ∃ (s s' : afs) fh l names g,
  read_all 10 1 4 fh 0 s = Ok (l, s') ∧
  l.*1 = [DOT] :: [DOT; DOT] :: names ∧ names ≡ₚ (map_to_list ({[ [102] := g ]} : gmap _ file_gname)).*1.
Proof.
  destruct ex_created as (g & fh & s & Hg & Hs).
  destruct (rep_open_path 10 ex_root 1 s _ [SLASH] GDPFS_FILE_TYPE_DIR Hs) as (s1 & Ho).
  - exact FsPath.path_ok_root.
  - pose proof (ex_file_small ref_handles ref_files ref_offset g fh (IFile 420 0 ∅)) as [Hsp _]. unfold spare in *. lia.
  - destruct Ho as (fd & _ & _ & _ & Hs1).
    destruct (readdir_complete 10 ex_root 1 s1 _ fd ex_root 361 {[ [102] := g ]} 1 4 Hs1)
      as (s' & l & Hr & _ & names & Hl & Hp).
    + apply lookup_insert_eq.
    + apply ex_file_root.
    + lia.
    + rewrite map_size_singleton. lia.
    + by exists s1, s', fd, l, names, g.
Defined.
