(* ===== verification/Format.v ===== *)
(** * The format of log records

    A record is a [gdpfs_fmeta_t] followed by the payload, both copied from
    memory: the structs have the layout of the LP64 ABI, little endian.  Padding
    bytes and unused array elements are written as zeros. *)
From S2P Require Import Prelude.
From S2P Require Import Interval.
From S2P Require Import Types.
From S2P Require Import FigNode.

#[local] Open Scope Z_scope.

(** ** Little-endian fields *)

(** The [n] low bytes of an integer, two's complement. *)
Fixpoint le_bytes (n : nat) (z : Z) : list Z :=
  match n with O => [] | S n => z mod 256 :: le_bytes n (z / 256) end.

Fixpoint of_le (bs : list Z) : Z :=
  match bs with [] => 0 | b :: bs => b + 256 * of_le bs end.

Definition to_signed (w z : Z) : Z := if z <? 2 ^ (w - 1) then z else z - 2 ^ w.

(** A struct as the widths and values of its fields. *)
Definition encode_fields (fs : list (nat * Z)) : list Z := fs ≫= λ f, le_bytes f.1 f.2.

Fixpoint decode_fields (ws : list nat) (bs : list Z) : list Z :=
  match ws with [] => [] | w :: ws => of_le (take w bs) :: decode_fields ws (drop w bs) end.

Definition fields_size (ws : list nat) : nat := foldr Nat.add 0%nat ws.

(** ** [gdpfs_fmeta_t] *)

(** [file_size], [file_perm], padding, [file_type], [logent_type], padding,
    [ent_offset], [ent_size], [magic]. *)
Definition fmeta_widths : list nat := [8; 2; 2; 4; 4; 4; 8; 8; 8]%nat.

Definition file_type_code (t : gdpfs_file_type) : Z :=
  match t with
  | GDPFS_FILE_TYPE_REGULAR => 0
  | GDPFS_FILE_TYPE_DIR => 1
  | GDPFS_FILE_TYPE_NEW => 2
  | GDPFS_FILE_TYPE_UNKNOWN => -1
  end.

Definition file_type_of (c : Z) : option gdpfs_file_type :=
  if c =? 0 then Some GDPFS_FILE_TYPE_REGULAR
  else if c =? 1 then Some GDPFS_FILE_TYPE_DIR
  else if c =? 2 then Some GDPFS_FILE_TYPE_NEW
  else if c =? -1 then Some GDPFS_FILE_TYPE_UNKNOWN
  else None.

Definition logent_type_code (t : gdpfs_logent_type) : Z :=
  match t with GDPFS_LOGENT_TYPE_DATA => 0 | GDPFS_LOGENT_TYPE_CHKPT => 1 end.

Definition logent_type_of (c : Z) : option gdpfs_logent_type :=
  if c =? 0 then Some GDPFS_LOGENT_TYPE_DATA
  else if c =? 1 then Some GDPFS_LOGENT_TYPE_CHKPT
  else None.

Definition encode_fmeta (m : gdpfs_fmeta) : list Z :=
  encode_fields (zip fmeta_widths
    [fm_file_size m; fm_file_perm m; 0; file_type_code (fm_file_type m);
     logent_type_code (fm_logent_type m); 0; fm_ent_offset m; fm_ent_size m; fm_magic m]).

(** A header with a value that is not an enumerator has no meaning here. *)
Definition decode_fmeta (bs : list Z) : option gdpfs_fmeta :=
  match decode_fields fmeta_widths bs with
  | [size; perm; _; type; logent; _; offset; esize; magic] =>
      t ← file_type_of (to_signed 32 type);
      l ← logent_type_of (to_signed 32 logent);
      Some (mkFmeta size perm t l (to_signed 64 offset) esize magic)
  | _ => None
  end.

(** ** [figtree_node_t] *)

Definition ent_widths : list nat := [4; 4; 1; 3; 4; 8]%nat.
Definition ent_fields (e : ft_ent) : list Z :=
  [i_left (irange e); i_right (irange e); Z.b2z (i_nonempty (irange e)); 0; 0; ent_value e].

Definition subtree_widths : list nat := [8; 8; 8; 1; 7]%nat.
(** An address in memory is a positive number, [NULL] is 0. *)
Definition subtree_fields (s : subtree_ptr) : list Z :=
  [sp_recno s; sp_offset s; match sp_st s with Some l => Zpos l | None => 0 end;
   Z.b2z (sp_inmemory s); 0].

(** A fixed-size array, filled up with zeros. *)
Definition array {A} (n : nat) (ws : list nat) (f : A → list Z) (l : list A) : list Z :=
  take n ((f <$> l) ++ replicate n (replicate (length ws) 0)) ≫= id.

Definition node_widths : list nat :=
  [4; 4]%nat ++ (replicate FT_SPLITLIMIT ent_widths ≫= id) ++
  [4; 4]%nat ++ (replicate (S FT_SPLITLIMIT) subtree_widths ≫= id) ++ [4; 1; 3]%nat.

Definition encode_node (n : ft_node) : list Z :=
  encode_fields (zip node_widths
    ([Z.of_nat (length (entries n)); 0] ++ array FT_SPLITLIMIT ent_widths ent_fields (entries n) ++
     [Z.of_nat (length (subtrees n)); 0] ++
     array (S FT_SPLITLIMIT) subtree_widths subtree_fields (subtrees n) ++
     [HEIGHT n; Z.b2z (dirty n); 0])).

Definition decode_ent (vs : list Z) : ft_ent :=
  mkEnt (mkInterval (nth 0 vs 0) (nth 1 vs 0) (negb (nth 2 vs 0 =? 0))) (to_signed 64 (nth 5 vs 0)).

Definition decode_subtree (vs : list Z) : subtree_ptr :=
  mkSubtreePtr (to_signed 64 (nth 0 vs 0)) (to_signed 64 (nth 1 vs 0))
    (match nth 2 vs 0 with Zpos l => Some l | _ => None end) (negb (nth 3 vs 0 =? 0)).

(** The first [n] groups of [k] values. *)
Fixpoint groups (n k : nat) (vs : list Z) : list (list Z) :=
  match n with O => [] | S n => take k vs :: groups n k (drop k vs) end.

(** [None] if a length field exceeds its array. *)
Definition decode_node (bs : list Z) : option ft_node :=
  let vs := decode_fields node_widths bs in
  let elen := to_signed 32 (nth 0 vs 0) in
  let vs := drop 2 vs in
  let es := groups (Z.to_nat elen) 6 vs in
  let vs := drop (6 * FT_SPLITLIMIT) vs in
  let slen := to_signed 32 (nth 0 vs 0) in
  let vs := drop 2 vs in
  let ss := groups (Z.to_nat slen) 5 vs in
  let vs := drop (5 * S FT_SPLITLIMIT) vs in
  if (0 <=? elen) && (elen <=? Z.of_nat FT_SPLITLIMIT) &&
     (0 <=? slen) && (slen <=? Z.of_nat (S FT_SPLITLIMIT))
  then Some (mkNode (decode_ent <$> es) (decode_subtree <$> ss) (to_signed 32 (nth 0 vs 0))
               (negb (nth 1 vs 0 =? 0)))
  else None.

(** ** Records *)

Definition encode_record (r : logent) : list Z :=
  encode_fmeta (le_meta r) ++
  match le_payload r with PData bs => bs | PNodes ns => ns ≫= encode_node end.

(** The images in the payload of a checkpoint. *)
Fixpoint decode_nodes (n : nat) (bs : list Z) : option (list ft_node) :=
  match n with
  | O => Some []
  | S n =>
      node ← decode_node (take (Z.to_nat sizeof_ft_node) bs);
      nodes ← decode_nodes n (drop (Z.to_nat sizeof_ft_node) bs);
      Some (node :: nodes)
  end.

(** What a reader makes of a record; [None] for a record that is shorter than
    the header or does not decode. *)
Definition decode_record (bs : list Z) : option logent :=
  if Z.of_nat (length bs) <? sizeof_fmeta then None else
  m ← decode_fmeta (take (Z.to_nat sizeof_fmeta) bs);
  let rest := drop (Z.to_nat sizeof_fmeta) bs in
  match fm_logent_type m with
  | GDPFS_LOGENT_TYPE_DATA => Some (mkLogent m (PData rest))
  | GDPFS_LOGENT_TYPE_CHKPT =>
      if Z.of_nat (length rest) mod sizeof_ft_node =? 0 then
        nodes ← decode_nodes (Z.to_nat (Z.of_nat (length rest) / sizeof_ft_node)) rest;
        Some (mkLogent m (PNodes nodes))
      else Some (mkLogent m (PData rest))
  end.
