(* ===== verification/FormatProof.v ===== *)
(** * Log records survive being written and read

    Round trips for the fields, the metadata header, the node images and whole
    records of [Format.v]. *)
From S2P Require Import Prelude.
From S2P Require Import Interval.
From S2P Require Import Types.
From S2P Require Import FigNode.
From S2P Require Import Format.

#[local] Open Scope Z_scope.

(** ** Fields *)

Lemma le_bytes_length n z : length (le_bytes n z) = n.
Proof. revert z. induction n as [|n IH]; intros z; simpl; [done|]. by rewrite IH. Qed.

Lemma le_bytes_width n z : Forall (in_width 8) (le_bytes n z).
Proof.
  revert z. induction n as [|n IH]; intros z; simpl; [constructor|].
  constructor; [|apply IH]. apply Z.mod_pos_bound. lia.
Qed.

Lemma of_le_bytes n z : of_le (le_bytes n z) = z mod 2 ^ (8 * Z.of_nat n).
Proof.
  revert z. induction n as [|n IH]; intros z; cbn [le_bytes of_le]; [by rewrite Z.mod_1_r|].
  rewrite IH. replace (8 * Z.of_nat (S n)) with (8 + 8 * Z.of_nat n) by lia.
  rewrite Z.pow_add_r by lia. change (2 ^ 8) with 256. rewrite Z.rem_mul_r; [lia|lia|].
  apply Z.pow_pos_nonneg; lia.
Qed.

Lemma to_signed_wrap w z :
  0 < w → - 2 ^ (w - 1) ≤ z < 2 ^ (w - 1) → to_signed w (z mod 2 ^ w) = z.
Proof.
  intros Hw Hz. unfold to_signed.
  assert (2 ^ w = 2 * 2 ^ (w - 1)) as Hp by (rewrite <-Z.pow_succ_r by lia; f_equal; lia).
  destruct (Z_lt_le_dec z 0).
  - rewrite <-(Z_mod_plus_full z 1), Z.mod_small by lia.
    destruct (Z.ltb_spec (z + 1 * 2 ^ w) (2 ^ (w - 1))); lia.
  - rewrite Z.mod_small by lia. destruct (Z.ltb_spec z (2 ^ (w - 1))); lia.
Qed.

(** The values that come back. *)
Definition stored_fields (ws : list nat) (vs : list Z) : list Z :=
  zip_with (λ w v, v mod 2 ^ (8 * Z.of_nat w)) ws vs.

Lemma encode_fields_app fs1 fs2 : encode_fields (fs1 ++ fs2) = encode_fields fs1 ++ encode_fields fs2.
Proof. apply bind_app. Qed.

Lemma encode_fields_length ws : ∀ vs, length ws = length vs →
  length (encode_fields (zip ws vs)) = fields_size ws.
Proof.
  induction ws as [|w ws IH]; intros [|v vs] Hl; simplify_eq/=; [done|].
  rewrite length_app, le_bytes_length. f_equal. by apply IH.
Qed.

Lemma encode_fields_width fs : Forall (in_width 8) (encode_fields fs).
Proof.
  induction fs as [|f fs IH]; simpl; [constructor|].
  apply Forall_app. split; [apply le_bytes_width|done].
Qed.

Lemma decode_fields_ok ws : ∀ vs rest, length ws = length vs →
  decode_fields ws (encode_fields (zip ws vs) ++ rest) = stored_fields ws vs.
Proof.
  induction ws as [|w ws IH]; intros [|v vs] rest Hl; simplify_eq/=; [done|].
  rewrite <-app_assoc, take_app_length', drop_app_length' by (by rewrite le_bytes_length).
  by rewrite of_le_bytes, IH.
Qed.

(** ** The header *)

Record fmeta_ok (m : gdpfs_fmeta) : Prop := {
  mo_size : in_width 64 (fm_file_size m);
  mo_perm : in_width 16 (fm_file_perm m);
  mo_offset : - 2 ^ 63 ≤ fm_ent_offset m < 2 ^ 63;
  mo_esize : in_width 64 (fm_ent_size m);
  mo_magic : in_width 64 (fm_magic m);
}.

Lemma file_type_of_code t :
  file_type_of (to_signed 32 (file_type_code t mod 2 ^ (8 * Z.of_nat 4))) = Some t.
Proof. by destruct t. Qed.

Lemma logent_type_of_code t :
  logent_type_of (to_signed 32 (logent_type_code t mod 2 ^ (8 * Z.of_nat 4))) = Some t.
Proof. by destruct t. Qed.

Lemma encode_fmeta_length m : Z.of_nat (length (encode_fmeta m)) = sizeof_fmeta.
Proof. unfold encode_fmeta. by rewrite encode_fields_length. Qed.

Lemma decode_encode_fmeta m rest : fmeta_ok m → decode_fmeta (encode_fmeta m ++ rest) = Some m.
Proof.
  intros []. unfold decode_fmeta, encode_fmeta. rewrite decode_fields_ok by done.
  cbn [stored_fields zip_with fmeta_widths].
  rewrite file_type_of_code, logent_type_of_code. cbn [mbind option_bind].
  change (8 * Z.of_nat 8) with 64. change (8 * Z.of_nat 2) with 16.
  rewrite to_signed_wrap by lia. rewrite !Z.mod_small by done. by destruct m.
Qed.

(** ** Node images *)

Lemma zip_app_eq {A B} (l1 l2 : list A) (k1 k2 : list B) :
  length l1 = length k1 → zip (l1 ++ l2) (k1 ++ k2) = zip l1 k1 ++ zip l2 k2.
Proof. intros Hl. by apply zip_with_app. Qed.

Lemma stored_app ws1 ws2 vs1 vs2 :
  length ws1 = length vs1 →
  stored_fields (ws1 ++ ws2) (vs1 ++ vs2) = stored_fields ws1 vs1 ++ stored_fields ws2 vs2.
Proof. intros Hl. by apply zip_with_app. Qed.

Lemma stored_length ws vs : length ws = length vs → length (stored_fields ws vs) = length ws.
Proof. intros Hl. unfold stored_fields. rewrite length_zip_with. lia. Qed.

Lemma array_cons {A} n ws (f : A → list Z) x l :
  array (S n) ws f (x :: l) = f x ++ array n ws f l.
Proof.
  unfold array. rewrite fmap_cons. cbn [app take]. rewrite bind_cons. f_equal. f_equal.
  rewrite replicate_S_end, (app_assoc _ _ [_]), take_app_le; [done|].
  rewrite length_app, length_replicate. lia.
Qed.

Lemma array_nil {A} n ws (f : A → list Z) : array n ws f [] = replicate n (replicate (length ws) 0) ≫= id.
Proof. unfold array. simpl. by rewrite take_ge by (by rewrite length_replicate). Qed.

Lemma replicate_bind_length {A} n (l : list A) :
  length (replicate n l ≫= id) = (n * length l)%nat.
Proof. induction n as [|n IH]; [done|]. by rewrite replicate_S, bind_cons, length_app, IH. Qed.

Section array.
Context {A : Type} (ws : list nat) (f : A → list Z) (dec : list Z → A) (ok : A → Prop).
Hypothesis Hlen : ∀ x, length (f x) = length ws.
Hypothesis Hdec : ∀ x, ok x → dec (stored_fields ws (f x)) = x.

Lemma array_length n l : (length l ≤ n)%nat → length (array n ws f l) = (n * length ws)%nat.
Proof using Hlen.
  revert n. induction l as [|x l IH]; intros n Hn.
  - by rewrite array_nil, replicate_bind_length, length_replicate.
  - destruct n as [|n]; simpl in Hn; [lia|]. by rewrite array_cons, length_app, Hlen, IH by lia.
Qed.

(** The elements come back, whatever follows. *)
Lemma array_groups n l rest : (length l ≤ n)%nat → Forall ok l →
  dec <$> groups (length l) (length ws) (stored_fields (replicate n ws ≫= id) (array n ws f l) ++ rest) = l.
Proof using Hlen Hdec.
  intros Hn Hok. revert n Hn. induction Hok as [|x l Hx Hok IH]; intros n Hn; [done|].
  destruct n as [|n]; simpl in Hn; [lia|]. rewrite array_cons. simpl replicate. rewrite bind_cons.
  change (id ws) with ws. rewrite stored_app by (by rewrite Hlen).
  simpl. rewrite <-app_assoc.
  assert (length (stored_fields ws (f x)) = length ws) as Hs by (apply stored_length; by rewrite Hlen).
  rewrite take_app_length', drop_app_length' by done.
  rewrite Hdec by done. f_equal. apply IH. lia.
Qed.
End array.

Record ent_image_ok (e : ft_ent) : Prop := {
  eo_left : in_width 32 (i_left (irange e));
  eo_right : in_width 32 (i_right (irange e));
  eo_value : - 2 ^ 63 ≤ ent_value e < 2 ^ 63;
}.

Record subtree_image_ok (s : subtree_ptr) : Prop := {
  so_recno : - 2 ^ 63 ≤ sp_recno s < 2 ^ 63;
  so_offset : - 2 ^ 63 ≤ sp_offset s < 2 ^ 63;
  so_st : ∀ l, sp_st s = Some l → in_width 64 (Zpos l);
}.

Record node_image_ok (n : ft_node) : Prop := {
  no_entries : (length (entries n) ≤ FT_SPLITLIMIT)%nat;
  no_subtrees : (length (subtrees n) ≤ S FT_SPLITLIMIT)%nat;
  no_height : - 2 ^ 31 ≤ HEIGHT n < 2 ^ 31;
  no_ents : Forall ent_image_ok (entries n);
  no_sps : Forall subtree_image_ok (subtrees n);
}.

Lemma b2z_flag b w : (1 ≤ w)%nat → negb (Z.b2z b mod 2 ^ (8 * Z.of_nat w) =? 0) = b.
Proof.
  intros Hw. rewrite Z.mod_small; [by destruct b|].
  pose proof (Z.pow_le_mono_r 2 8 (8 * Z.of_nat w)). destruct b; simpl; lia.
Qed.

Lemma decode_ent_ok e : ent_image_ok e → decode_ent (stored_fields ent_widths (ent_fields e)) = e.
Proof.
  intros [Hl Hr Hv]. destruct e as [[l r b] v]. unfold decode_ent, ent_fields. simpl in *.
  rewrite b2z_flag by lia. rewrite !(Z.mod_small _ 4294967296) by done.
  by rewrite (to_signed_wrap 64) by lia.
Qed.

Lemma decode_subtree_ok s :
  subtree_image_ok s → decode_subtree (stored_fields subtree_widths (subtree_fields s)) = s.
Proof.
  intros [Hr Ho Hst]. destruct s as [r o p b]. unfold decode_subtree, subtree_fields. simpl in *.
  rewrite b2z_flag by lia. rewrite !(to_signed_wrap 64) by lia.
  f_equal. destruct p as [l|]; [|done]. by rewrite Z.mod_small by (by apply Hst).
Qed.

Lemma node_fields_length n :
  (length (entries n) ≤ FT_SPLITLIMIT)%nat → (length (subtrees n) ≤ S FT_SPLITLIMIT)%nat →
  length node_widths = length ([Z.of_nat (length (entries n)); 0] ++
     array FT_SPLITLIMIT ent_widths ent_fields (entries n) ++
     [Z.of_nat (length (subtrees n)); 0] ++
     array (S FT_SPLITLIMIT) subtree_widths subtree_fields (subtrees n) ++ [HEIGHT n; Z.b2z (dirty n); 0]).
Proof.
  intros He Hs. rewrite !length_app, !array_length by done. done.
Qed.

Lemma encode_node_length n : node_image_ok n → Z.of_nat (length (encode_node n)) = sizeof_ft_node.
Proof.
  intros []. unfold encode_node. rewrite encode_fields_length; [done|by apply node_fields_length].
Qed.

Lemma small_signed k : (k ≤ S FT_SPLITLIMIT)%nat →
  to_signed 32 (Z.of_nat k mod 2 ^ (8 * Z.of_nat 4)) = Z.of_nat k.
Proof. unfold FT_SPLITLIMIT, FT_ORDER. intros Hk. apply to_signed_wrap; lia. Qed.

Lemma drop_stored (a b : list Z) n : length a = n → drop n (a ++ b) = b.
Proof. intros <-. apply drop_app_length. Qed.

Lemma decode_encode_node n rest : node_image_ok n → decode_node (encode_node n ++ rest) = Some n.
Proof.
  intros [He Hs Hh Hes Hss]. unfold decode_node, encode_node.
  rewrite decode_fields_ok by (by apply node_fields_length).
  unfold node_widths. rewrite !stored_app by (rewrite ?array_length by done; done).
  set (A1 := stored_fields (replicate FT_SPLITLIMIT ent_widths ≫= id) _).
  set (A2 := stored_fields (replicate (S FT_SPLITLIMIT) subtree_widths ≫= id) _).
  set (tl := stored_fields [4; 1; 3]%nat _).
  assert (length A1 = (6 * FT_SPLITLIMIT)%nat) as HA1 by (apply stored_length; by rewrite array_length).
  assert (length A2 = (5 * S FT_SPLITLIMIT)%nat) as HA2 by (apply stored_length; by rewrite array_length).
  assert (∀ v rest, drop 2 (stored_fields [4; 4]%nat [v; 0] ++ rest) = rest) as D2 by done.
  assert (∀ v rest, nth 0 (stored_fields [4; 4]%nat [v; 0] ++ rest) 0 = v mod 2 ^ (8 * Z.of_nat 4)) as N0 by done.
  cbv zeta. rewrite !D2, (drop_stored _ _ _ HA1), !D2, (drop_stored _ _ _ HA2), !N0.
  rewrite !small_signed by (unfold FT_SPLITLIMIT, FT_ORDER in *; lia). rewrite !Nat2Z.id.
  assert (decode_ent <$> groups (length (entries n)) 6 (A1 ++ stored_fields [4; 4]%nat
    [Z.of_nat (length (subtrees n)); 0] ++ A2 ++ tl) = entries n) as ->.
  { by apply (array_groups ent_widths ent_fields decode_ent ent_image_ok
      ltac:(done) decode_ent_ok FT_SPLITLIMIT). }
  assert (decode_subtree <$> groups (length (subtrees n)) 5 (A2 ++ tl) = subtrees n) as ->.
  { by apply (array_groups subtree_widths subtree_fields decode_subtree subtree_image_ok
      ltac:(done) decode_subtree_ok (S FT_SPLITLIMIT)). }
  assert (nth 0 tl 0 = HEIGHT n mod 2 ^ 32) as -> by done.
  assert (nth 1 tl 0 = Z.b2z (dirty n) mod 2 ^ (8 * Z.of_nat 1)) as -> by done.
  rewrite (to_signed_wrap 32), (b2z_flag _ 1) by lia.
  repeat (rewrite (proj2 (Z.leb_le _ _)) by lia). by destruct n.
Qed.

(** ** Records *)

Lemma decode_encode_nodes ns : Forall node_image_ok ns → decode_nodes (length ns) (ns ≫= encode_node) = Some ns.
Proof.
  induction 1 as [|n ns Hn Hns IH]; [done|]. cbn [decode_nodes length]. rewrite bind_cons.
  assert (length (encode_node n) = Z.to_nat sizeof_ft_node) as Hl.
  { pose proof (encode_node_length n Hn). lia. }
  rewrite take_app_length', drop_app_length' by done. rewrite IH.
  rewrite <-(app_nil_r (encode_node n)), decode_encode_node by done. done.
Qed.

(** The payload is of the kind that the header says. *)
Definition record_ok (r : logent) : Prop :=
  fmeta_ok (le_meta r) ∧
  match fm_logent_type (le_meta r), le_payload r with
  | GDPFS_LOGENT_TYPE_DATA, PData _ => True
  | GDPFS_LOGENT_TYPE_CHKPT, PNodes ns => Forall node_image_ok ns
  | _, _ => False
  end.

Lemma encode_nodes_length ns : Forall node_image_ok ns →
  Z.of_nat (length (ns ≫= encode_node)) = sizeof_ft_node * Z.of_nat (length ns).
Proof.
  induction 1 as [|n ns Hn Hns IH]; [done|].
  rewrite bind_cons, length_app, Nat2Z.inj_add, encode_node_length, IH by done. simpl length. lia.
Qed.

Lemma take_header m rest : take (Z.to_nat sizeof_fmeta) (encode_fmeta m ++ rest) = encode_fmeta m.
Proof. apply take_app_length'. pose proof (encode_fmeta_length m). lia. Qed.

Lemma drop_header m rest : drop (Z.to_nat sizeof_fmeta) (encode_fmeta m ++ rest) = rest.
Proof. apply drop_app_length'. pose proof (encode_fmeta_length m). lia. Qed.

Lemma decode_header m : fmeta_ok m → decode_fmeta (encode_fmeta m) = Some m.
Proof. intros Hm. rewrite <-(app_nil_r (encode_fmeta m)). by apply decode_encode_fmeta. Qed.

Lemma decode_encode_record r : record_ok r → decode_record (encode_record r) = Some r.
Proof.
  intros [Hm Hp]. destruct r as [m p]. unfold decode_record, encode_record. cbn [le_meta le_payload] in *.
  rewrite take_header, drop_header, decode_header by done.
  rewrite length_app, (proj2 (Z.ltb_ge _ _)) by (pose proof (encode_fmeta_length m); lia).
  cbn [mbind option_bind].
  destruct (fm_logent_type m), p as [bs|ns]; try done.
  rewrite encode_nodes_length by done. rewrite Z.mul_comm, Z.mod_mul, Z.div_mul by done.
  rewrite Nat2Z.id, decode_encode_nodes by done. done.
Qed.


