(* ===== verification/Gdp.v ===== *)
(** * The Global Data Plane

    The log service and its client library are not part of the repository.
    [GdpOps] lists the functions of the library that the sources call, over a
    state type [G] of the service; [GdpLaws] states what the sources rely on: a
    log is a sequence of records numbered from 1, a record number of -1 means
    the last record, a datum is a first-in-first-out buffer of bytes, and a
    record is visible to reads after it was appended. *)
From S2P Require Import Prelude.
From S2P Require Import State.
From S2P Require Import Types.
From S2P Require Import FileIface.
From S2P Require Import Fresh.

Inductive gdp_iomode := GDP_MODE_RO | GDP_MODE_RA | GDP_MODE_AO.

#[export] Instance gdp_iomode_eq_dec : EqDecision gdp_iomode.
Proof. solve_decision. Defined.

Class GdpOps (G : Type) := {
  gcl : Type;
  datum : Type;
  (* the detail code of a status for a missing record *)
  GDP_CCODE_NOTFOUND : Z;
  gdp_datum_new : datum;
  gdp_datum_getrecno : datum → Z;
  gdp_buf_getlength : datum → Z;
  gdp_buf_read : datum → Z → list Z * datum;
  gdp_buf_peek : datum → Z → list Z;
  gdp_buf_drain : datum → Z → Z * datum;
  gdp_buf_write : datum → list Z → Z * datum;
  (* a new log, with the name the service gave it *)
  gdp_gcl_create : st G (stat * option file_gname);
  gdp_gcl_open : file_gname → gdp_iomode → st G (stat * option gcl);
  gdp_gcl_close : gcl → st G stat;
  gdp_gcl_read : gcl → Z → datum → st G (stat * datum);
  gdp_gcl_append : gcl → datum → st G stat;
  gdp_gcl_append_async : gcl → datum → st G stat;
}.

(** A reference to the last record of a log. *)
Definition LAST_RECNO : Z := -1.

(** The record with a number. *)
Definition record_at (l : list (list Z)) (recno : Z) : option (list Z) :=
  if recno =? LAST_RECNO then last l
  else if recno <=? 0 then None else l !! Z.to_nat (recno - 1).

(** The number that the datum reports. *)
Definition recno_of (l : list (list Z)) (recno : Z) : Z :=
  if recno =? LAST_RECNO then Z.of_nat (length l) else recno.

(** ** The contract *)

Abbreviation gdp_logs := (gmap file_gname (list (list Z))).

(** So many logs can be created. *)
Definition MAX_LOGS : Z := 65536.

Class GdpLaws (G : Type) `{GdpOps G} := {
  gdp_rep : G → gdp_logs → Prop;
  datum_contents : datum → list Z;
  gcl_names : gcl → file_gname → Prop;

  datum_new_ok : datum_contents gdp_datum_new = [];
  buf_getlength_ok d : gdp_buf_getlength d = Z.of_nat (length (datum_contents d));
  buf_peek_ok d n : 0 ≤ n → gdp_buf_peek d n = take (Z.to_nat n) (datum_contents d);
  buf_read_ok d n : 0 ≤ n → ∃ d', gdp_buf_read d n = (take (Z.to_nat n) (datum_contents d), d') ∧
    datum_contents d' = drop (Z.to_nat n) (datum_contents d) ∧
    gdp_datum_getrecno d' = gdp_datum_getrecno d;
  buf_drain_ok d n : 0 ≤ n → ∃ r d', gdp_buf_drain d n = (r, d') ∧
    datum_contents d' = drop (Z.to_nat n) (datum_contents d) ∧
    gdp_datum_getrecno d' = gdp_datum_getrecno d;
  buf_write_ok d bs : ∃ d', gdp_buf_write d bs = (0, d') ∧
    datum_contents d' = datum_contents d ++ bs;

  gcl_create_ok s L :
    gdp_rep s L → Z.of_nat (size L) < MAX_LOGS →
    ∃ e g s', gdp_gcl_create s = Ok ((e, Some g), s') ∧ EP_STAT_ISOK e = true ∧
      length g = GNAME_SIZE ∧ Forall (in_width 8) g ∧ L !! g = None ∧ gdp_rep s' (<[g := []]> L);
  gcl_open_ok s L g mode :
    gdp_rep s L → is_Some (L !! g) →
    ∃ e c s', gdp_gcl_open g mode s = Ok ((e, Some c), s') ∧ EP_STAT_ISOK e = true ∧
      gcl_names c g ∧ gdp_rep s' L;
  gcl_close_ok s L c : gdp_rep s L → ∃ e s', gdp_gcl_close c s = Ok (e, s') ∧ gdp_rep s' L;
  gcl_read_ok s L c g l recno d r :
    gdp_rep s L → gcl_names c g → L !! g = Some l → record_at l recno = Some r →
    ∃ e d' s', gdp_gcl_read c recno d s = Ok ((e, d'), s') ∧ EP_STAT_ISOK e = true ∧
      datum_contents d' = datum_contents d ++ r ∧ gdp_datum_getrecno d' = recno_of l recno ∧
      gdp_rep s' L;
  gcl_read_missing s L c g l recno d :
    gdp_rep s L → gcl_names c g → L !! g = Some l → record_at l recno = None →
    ∃ d' s', gdp_gcl_read c recno d s = Ok ((GDP_STAT false GDP_CCODE_NOTFOUND, d'), s') ∧
      gdp_rep s' L;
  gcl_append_ok s L c g l d :
    gdp_rep s L → gcl_names c g → L !! g = Some l →
    ∃ e s', gdp_gcl_append c d s = Ok (e, s') ∧ EP_STAT_ISOK e = true ∧
      gdp_rep s' (<[g := l ++ [datum_contents d]]> L);
  gcl_append_async_ok s L c g l d :
    gdp_rep s L → gcl_names c g → L !! g = Some l →
    ∃ e s', gdp_gcl_append_async c d s = Ok (e, s') ∧ EP_STAT_ISOK e = true ∧
      gdp_rep s' (<[g := l ++ [datum_contents d]]> L);
}.

(** ** A reference service

    The logs themselves, with byte lists as data and names as handles. *)
Record ref_datum := mkRefDatum { rd_recno : Z; rd_bytes : list Z }.

#[export] Instance ref_gdp : GdpOps gdp_logs := {|
  gcl := file_gname;
  datum := ref_datum;
  GDP_CCODE_NOTFOUND := 404;
  gdp_datum_new := mkRefDatum 0 [];
  gdp_datum_getrecno := rd_recno;
  gdp_buf_getlength d := Z.of_nat (length (rd_bytes d));
  gdp_buf_read d n := (take (Z.to_nat n) (rd_bytes d), mkRefDatum (rd_recno d) (drop (Z.to_nat n) (rd_bytes d)));
  gdp_buf_peek d n := take (Z.to_nat n) (rd_bytes d);
  gdp_buf_drain d n := (0, mkRefDatum (rd_recno d) (drop (Z.to_nat n) (rd_bytes d)));
  gdp_buf_write d bs := (0, mkRefDatum (rd_recno d) (rd_bytes d ++ bs));
  gdp_gcl_create := λ L,
    match least_free (λ i, bool_decide (is_Some (L !! ref_name i))) (S (size L)) 0 with
    | Some i => Ok ((GDP_STAT true 201, Some (ref_name i)), <[ref_name i := []]> L)
    | None => Ok ((GDP_STAT false 500, None), L)
    end;
  gdp_gcl_open g _ := λ L,
    match L !! g with
    | Some _ => Ok ((GDP_STAT true 200, Some g), L)
    | None => Ok ((GDP_STAT false 404, None), L)
    end;
  gdp_gcl_close _ := λ L, Ok (GDP_STAT true 200, L);
  gdp_gcl_read g recno d := λ L,
    match L !! g with
    | Some l =>
        match record_at l recno with
        | Some r => Ok ((GDP_STAT true 200, mkRefDatum (recno_of l recno) (rd_bytes d ++ r)), L)
        | None => Ok ((GDP_STAT false 404, d), L)
        end
    | None => Ok ((GDP_STAT false 404, d), L)
    end;
  gdp_gcl_append g d := λ L, Ok (GDP_STAT true 200, alter (λ l, l ++ [rd_bytes d]) g L);
  gdp_gcl_append_async g d := λ L, Ok (GDP_STAT true 200, alter (λ l, l ++ [rd_bytes d]) g L);
|}.

Lemma alter_known {A} (f : A → A) (m : gmap file_gname A) g x :
  m !! g = Some x → alter f g m = <[g := f x]> m.
Proof.
  intros Hx. apply map_eq. intros i. destruct (decide (g = i)) as [<-|Hne].
  - by rewrite lookup_alter_eq, lookup_insert_eq, Hx.
  - by rewrite lookup_alter_ne, lookup_insert_ne by done.
Qed.

#[export] Program Instance ref_gdp_laws : GdpLaws gdp_logs := {|
  gdp_rep := eq;
  datum_contents := rd_bytes;
  gcl_names := eq;
|}.
Solve All Obligations with try (simpl; intros; by eauto).
Next Obligation.
  intros s L <- Hs.
  destruct (least_free_exists s ref_name (S (size s))) as [i Hi]; [intros i j _ _; apply ref_name_inj|lia|].
  pose proof (least_free_Some _ _ _ _ Hi) as [Hf ?]. apply bool_decide_eq_false, eq_None_not_Some in Hf.
  destruct (ref_name_ok i) as [? ?]; [unfold MAX_LOGS in Hs; lia|].
  eexists _, (ref_name i), _. split; [unfold gdp_gcl_create, ref_gdp; by rewrite Hi|].
  by split_and!.
Qed.
Next Obligation. intros s L g mode <- [l Hl]. simpl. rewrite Hl. eauto 10. Qed.
Next Obligation. intros s L c g l recno d r <- <- Hl Hr. simpl. rewrite Hl, Hr. eauto 10. Qed.
Next Obligation. intros s L c g l recno d <- <- Hl Hr. simpl. rewrite Hl, Hr. eauto 10. Qed.
Next Obligation. intros s L c g l d <- <- Hl. simpl. rewrite (alter_known _ _ _ _ Hl). eauto 10. Qed.
Next Obligation. intros s L c g l d <- <- Hl. simpl. rewrite (alter_known _ _ _ _ Hl). eauto 10. Qed.
