(* ===== verification/LogEnt.v ===== *)
(** * Logs and log entries ([src/gdpfs_log.c])

    The wrappers around the client library of the log service.  An entry that
    was opened is a datum in memory or, for [subtree_get], a local file that
    caches the record. *)
From S2P Require Import Prelude.
From S2P Require Import State.
From S2P Require Import Types.
From S2P Require Import Posix.
From S2P Require Import FileIface.
From S2P Require Import Gdp.

(** ** State *)

(** The names of local files in [CACHE_DIR]: the cache of the record
    [(g, Some recno)] ([LOGCACHE...]), the cache of the file [(g, None)]. *)
Abbreviation local_name := (file_gname * option Z)%type.

Record sys (G : Type) := mkSys {
  sys_gdp : G;
  sys_local : gmap local_name (list (option Z));
}.
Arguments mkSys {G} _ _.
Arguments sys_gdp {G} _.
Arguments sys_local {G} _.

(** An open local file. *)
Record local_fd := mkLocalFd {
  lf_name : local_name;
  lf_pos : Z;
}.

#[export] Instance local_fd_eq_dec : EqDecision local_fd.
Proof. solve_decision. Defined.

Section local_files.
Context {G : Type}.

Definition in_gdp {A} (c : st G A) : st (sys G) A := λ s,
  match c (sys_gdp s) with
  | Ok (a, g) => Ok (a, mkSys g (sys_local s))
  | Fault f => Fault f
  end.

Definition local_content (s : sys G) (n : local_name) : list (option Z) :=
  default [] (sys_local s !! n).

(** [open (name, O_RDWR)]: [None] if there is no such file. *)
Definition local_open (n : local_name) : st (sys G) (option local_fd) := λ s,
  match sys_local s !! n with
  | Some _ => Ok (Some (mkLocalFd n 0), s)
  | None => Ok (None, s)
  end.

(** [open (name, O_RDWR | O_CREAT)], and with [O_TRUNC]. *)
Definition local_create (n : local_name) : st (sys G) local_fd := λ s,
  Ok (mkLocalFd n 0, mkSys (sys_gdp s) (<[n := local_content s n]> (sys_local s))).
Definition local_create_trunc (n : local_name) : st (sys G) local_fd := λ s,
  Ok (mkLocalFd n 0, mkSys (sys_gdp s) (<[n := []]> (sys_local s))).

(** A call on a descriptor with the operations of a local file. *)
Definition on_fd {A} (fd : local_fd) (c : fd_prog A) : st (sys G) (A * local_fd) := λ s,
  match c (mkFd (local_content s (lf_name fd)) (lf_pos fd)) with
  | Ok (a, f) => Ok ((a, mkLocalFd (lf_name fd) (fd_pos f)),
                     mkSys (sys_gdp s) (<[lf_name fd := fd_content f]> (sys_local s)))
  | Fault f => Fault f
  end.

(** [fstat (fd, &st)], [st.st_size] *)
Definition local_size (fd : local_fd) : st (sys G) Z := λ s,
  Ok (Z.of_nat (length (local_content s (lf_name fd))), s).
End local_files.

(** ** Logs *)

Section operations.
Context {G : Type} `{GdpOps G}.
Variable gcl_mode : gdp_iomode.

Record gdpfs_log_t := mkLog {
  gcl_handle : gcl;
  log_gname : file_gname;
}.

(** [datum] is [None] after it was freed. *)
Record gdpfs_log_ent := mkLogEnt {
  cached_fd : option local_fd;
  cached_recno : Z;
  is_cached : bool;
  ent_datum : option datum;
}.

Definition gdpfs_log_open (gcl_name : file_gname) : st (sys G) (stat * option gdpfs_log_t) :=
  '(estat, handle) ← in_gdp (gdp_gcl_open gcl_name gcl_mode);
  if negb (EP_STAT_ISOK estat) then mret (estat, None) else
  match handle with
  | Some c => mret (estat, Some (mkLog c gcl_name))
  | None => st_fail NullDeref
  end.

Definition gdpfs_log_close (handle : gdpfs_log_t) : st (sys G) stat :=
  in_gdp (gdp_gcl_close (gcl_handle handle)).

Definition gdpfs_log_gname (handle : gdpfs_log_t) : file_gname := log_gname handle.

(** ** Log entries *)

Definition gdpfs_log_ent_init : gdpfs_log_ent := mkLogEnt None 0 false (Some gdp_datum_new).

(** Dereferencing [ent->datum]. *)
Definition the_datum (ent : gdpfs_log_ent) : st (sys G) datum :=
  match ent_datum ent with Some d => mret d | None => st_fail DanglingPtr end.
Definition with_datum (ent : gdpfs_log_ent) (d : datum) : gdpfs_log_ent :=
  mkLogEnt (cached_fd ent) (cached_recno ent) (is_cached ent) (Some d).
Definition the_fd (ent : gdpfs_log_ent) : st (sys G) local_fd :=
  match cached_fd ent with Some fd => mret fd | None => st_fail AssertFail end.
Definition with_fd (ent : gdpfs_log_ent) (fd : local_fd) : gdpfs_log_ent :=
  mkLogEnt (Some fd) (cached_recno ent) (is_cached ent) (ent_datum ent).

(** [cb] tells whether a callback is passed. *)
Definition gdpfs_log_append (handle : gdpfs_log_t) (ent : gdpfs_log_ent) (cb : bool)
    : st (sys G) stat :=
  if decide (gcl_mode = GDP_MODE_RO) then mret GDPFS_STAT_BADLOGMODE else
  d ← the_datum ent;
  if cb then in_gdp (gdp_gcl_append_async (gcl_handle handle) d)
  else in_gdp (gdp_gcl_append (gcl_handle handle) d).

(** [fail0]: the datum is freed. *)
Definition open_failed (ent : gdpfs_log_ent) (estat : stat) : stat * gdpfs_log_ent :=
  (match estat with
   | GDP_STAT _ detail => if detail =? GDP_CCODE_NOTFOUND then GDPFS_STAT_NOTFOUND else estat
   | _ => estat
   end, mkLogEnt (cached_fd ent) (cached_recno ent) (is_cached ent) None).

Definition gdpfs_log_ent_open (handle : gdpfs_log_t) (recno : Z) (bypass_cache : bool)
    : st (sys G) (stat * gdpfs_log_ent) :=
  if decide (gcl_mode = GDP_MODE_AO) then mret (GDPFS_STAT_BADLOGMODE, mkLogEnt None 0 false None) else
  let ent := gdpfs_log_ent_init in
  if (0 <=? recno) && negb bypass_cache then
    let cachename := (log_gname handle, Some recno) in
    fd ← local_open cachename;
    match fd with
    | Some fd => mret (GDPFS_STAT_OK, mkLogEnt (Some fd) recno true None)
    | None =>
        fd ← local_create_trunc cachename;
        d ← the_datum ent;
        '(estat, d) ← in_gdp (gdp_gcl_read (gcl_handle handle) recno d);
        if negb (EP_STAT_ISOK estat) then mret (open_failed (with_datum ent d) estat) else
        let length := gdp_buf_getlength d in
        let '(bounce, d) := gdp_buf_read d length in
        st_assert (length =? Z.of_nat (List.length bounce));;
        '(n, fd) ← on_fd fd (write bounce);
        st_assert (length =? n);;
        '(_, fd) ← on_fd fd (lseek 0 0);
        mret (GDPFS_STAT_OK, mkLogEnt (Some fd) recno true None)
    end
  else
    d ← the_datum ent;
    '(estat, d) ← in_gdp (gdp_gcl_read (gcl_handle handle) recno d);
    if negb (EP_STAT_ISOK estat) then mret (open_failed (with_datum ent d) estat)
    else mret (estat, with_datum ent d).

(** The datum is freed, once. *)
Definition gdpfs_log_ent_close (ent : gdpfs_log_ent) : st (sys G) unit :=
  if is_cached ent then mret tt else _ ← the_datum ent; mret tt.

Definition gdpfs_log_ent_length (ent : gdpfs_log_ent) : st (sys G) Z :=
  if is_cached ent then fd ← the_fd ent; local_size fd
  else d ← the_datum ent; mret (gdp_buf_getlength d).

(** Reading into a buffer; the bytes that were read. *)
Definition gdpfs_log_ent_read (ent : gdpfs_log_ent) (size : Z)
    : st (sys G) (list Z * gdpfs_log_ent) :=
  if is_cached ent then
    fd ← the_fd ent;
    '(bs, fd) ← on_fd fd (read size);
    mret (bs, with_fd ent fd)
  else
    d ← the_datum ent;
    let '(bs, d) := gdp_buf_read d size in
    mret (bs, with_datum ent d).

(** [gdpfs_log_ent_read (ent, NULL, size)]: a cached entry passes [NULL] on to
    [read]. *)
Definition gdpfs_log_ent_skip (ent : gdpfs_log_ent) (size : Z)
    : st (sys G) (Z * gdpfs_log_ent) :=
  if is_cached ent then st_fail NullDeref
  else
    d ← the_datum ent;
    let '(r, d) := gdp_buf_drain d size in
    mret (if negb (r =? 0) then 0 else size, with_datum ent d).

Definition gdpfs_log_ent_peek (ent : gdpfs_log_ent) (size : Z)
    : st (sys G) (list Z * gdpfs_log_ent) :=
  if is_cached ent then
    fd ← the_fd ent;
    '(current, fd) ← on_fd fd (lseek 0 1);
    '(bs, fd) ← on_fd fd (read size);
    '(_, fd) ← on_fd fd (lseek current 0);
    mret (bs, with_fd ent fd)
  else
    d ← the_datum ent;
    mret (gdp_buf_peek d size, ent).

Definition gdpfs_log_ent_recno (ent : gdpfs_log_ent) : st (sys G) Z :=
  if is_cached ent then mret (cached_recno ent)
  else d ← the_datum ent; mret (gdp_datum_getrecno d).

Definition gdpfs_log_ent_write (ent : gdpfs_log_ent) (bs : list Z)
    : st (sys G) (Z * gdpfs_log_ent) :=
  st_assert (negb (is_cached ent));;
  d ← the_datum ent;
  let '(r, d) := gdp_buf_write d bs in
  mret (r, with_datum ent d).

Definition gdpfs_log_ent_drain (ent : gdpfs_log_ent) (size : Z)
    : st (sys G) (Z * gdpfs_log_ent) :=
  if is_cached ent then
    fd ← the_fd ent;
    '(r, fd) ← on_fd fd (lseek size 1);
    mret (if r =? -1 then -1 else 0, with_fd ent fd)
  else
    d ← the_datum ent;
    let '(r, d) := gdp_buf_drain d size in
    mret (r, with_datum ent d).

End operations.
Arguments gdpfs_log_t G {_}.
Arguments gdpfs_log_ent G {_}.
