(* ===== verification/LogEntProof.v ===== *)
(** * Correctness of log entries

    A log entry is a cursor on the bytes of its record, whether it is read from
    the log service or from the local cache. *)
From S2P Require Import Prelude.
From S2P Require Import State.
From S2P Require Import Types.
From S2P Require Import Posix.
From S2P Require Import FileIface.
From S2P Require Import Gdp.
From S2P Require Import LogEnt.

(** ** Cursors *)

(** What the users of a log entry do with it. *)
Inductive cursor_op :=
  | CRead (size : Z)
  | CPeek (size : Z)
  | CDrain (size : Z).

Definition op_size (o : cursor_op) : Z := match o with CRead n | CPeek n | CDrain n => n end.

(** On the rest of the bytes of a record: the bytes returned and the new rest. *)
Definition cursor_step (rest : list Z) (o : cursor_op) : list Z * list Z :=
  match o with
  | CRead n => (take (Z.to_nat n) rest, drop (Z.to_nat n) rest)
  | CPeek n => (take (Z.to_nat n) rest, rest)
  | CDrain n => ([], drop (Z.to_nat n) rest)
  end.

Fixpoint cursor_run (rest : list Z) (os : list cursor_op) : list (list Z) :=
  match os with
  | [] => []
  | o :: os => (cursor_step rest o).1 :: cursor_run (cursor_step rest o).2 os
  end.

Section proof.
Context {G : Type} `{GdpLaws G}.
Variable mode : gdp_iomode.

Definition ent_step (ent : gdpfs_log_ent G) (o : cursor_op) : st (sys G) (list Z * gdpfs_log_ent G) :=
  match o with
  | CRead n => gdpfs_log_ent_read ent n
  | CPeek n => gdpfs_log_ent_peek ent n
  | CDrain n => '(_, ent) ← gdpfs_log_ent_drain ent n; mret ([], ent)
  end.

Fixpoint ent_run (ent : gdpfs_log_ent G) (os : list cursor_op) : st (sys G) (list (list Z)) :=
  match os with
  | [] => mret []
  | o :: os =>
      '(bs, ent) ← ent_step ent o;
      rest ← ent_run ent os;
      mret (bs :: rest)
  end.

(** ** The representation *)

(** The local cache of records agrees with the logs. *)
Definition cache_ok (s : sys G) (L : gdp_logs) : Prop :=
  ∀ g recno c, sys_local s !! (g, Some recno) = Some c →
    0 ≤ recno ∧ ∃ l r, L !! g = Some l ∧ record_at l recno = Some r ∧ c = Some <$> r.

Definition sys_rep (s : sys G) (L : gdp_logs) : Prop := gdp_rep (sys_gdp s) L ∧ cache_ok s L.

(** The entry stands before the bytes [rest]. *)
Definition ent_at (s : sys G) (ent : gdpfs_log_ent G) (rest : list Z) : Prop :=
  if is_cached ent then
    ∃ fd r, cached_fd ent = Some fd ∧ 0 ≤ lf_pos fd ∧ sys_local s !! lf_name fd = Some (Some <$> r) ∧
      rest = drop (Z.to_nat (lf_pos fd)) r
  else ∃ d, ent_datum ent = Some d ∧ datum_contents d = rest.

Lemma read_at_some r pos n : 0 ≤ pos →
  read_at (Some <$> r) pos n = take (Z.to_nat n) (drop (Z.to_nat pos) r).
Proof.
  intros _. unfold read_at. rewrite <-fmap_drop, <-fmap_take, <-list_fmap_compose.
  rewrite <-(list_fmap_id (take _ _)) at 2. by apply list_fmap_ext.
Qed.

Lemma local_content_some (s : sys G) n c : sys_local s !! n = Some c → local_content s n = c.
Proof. unfold local_content. by intros ->. Qed.

Lemma cached_length (s : sys G) n pos recno :
  gdpfs_log_ent_length (mkLogEnt (Some (mkLocalFd n pos)) recno true None) s =
    Ok (Z.of_nat (length (local_content s n)), s).
Proof. done. Qed.

(** Calls that do not change the content of a file. *)
Lemma on_fd_same {A} (s : sys G) fd c (op : fd_prog A) (a : A) f :
  sys_local s !! lf_name fd = Some c → op (mkFd c (lf_pos fd)) = Ok (a, f) → fd_content f = c →
  on_fd fd op s = Ok ((a, mkLocalFd (lf_name fd) (fd_pos f)), s).
Proof.
  intros Hc Hop Hf. unfold on_fd. rewrite (local_content_some _ _ _ Hc), Hop, Hf.
  rewrite insert_id by done. by destruct s.
Qed.

Lemma drop_past (r : list Z) pos n : 0 ≤ pos → 0 ≤ n →
  drop (Z.to_nat (pos + Z.of_nat (length (take (Z.to_nat n) (drop (Z.to_nat pos) r))))) r =
    drop (Z.to_nat n) (drop (Z.to_nat pos) r).
Proof.
  intros Hp Hn. rewrite drop_drop, length_take, length_drop.
  destruct (decide (Z.to_nat pos + Z.to_nat n ≤ length r)%nat).
  - f_equal. lia.
  - rewrite !drop_ge by lia. done.
Qed.

Lemma fd_read (s : sys G) fd r n :
  0 ≤ lf_pos fd → sys_local s !! lf_name fd = Some (Some <$> r) →
  let bs := take (Z.to_nat n) (drop (Z.to_nat (lf_pos fd)) r) in
  on_fd fd (read n) s = Ok ((bs, mkLocalFd (lf_name fd) (lf_pos fd + Z.of_nat (length bs))), s).
Proof.
  intros Hp Hl. eapply (on_fd_same _ _ _ (read n) _ (mkFd _ _) Hl); [|done].
  unfold read. simpl. by rewrite read_at_some.
Qed.

Lemma fd_seek (s : sys G) fd c whence offset :
  sys_local s !! lf_name fd = Some c → whence ∈ [0; 1] →
  let p := if whence =? 0 then offset else lf_pos fd + offset in
  0 ≤ p →
  on_fd fd (lseek offset whence) s = Ok ((p, mkLocalFd (lf_name fd) p), s).
Proof.
  intros Hl Hw p Hp.
  eapply (on_fd_same _ _ _ _ _ (mkFd c p) Hl); [|done]. subst p.
  unfold lseek, lseek_cur, lseek_set. simpl in *.
  assert (whence = 0 ∨ whence = 1) as [-> | ->] by set_solver; simpl in *;
    (rewrite (proj2 (Z.ltb_ge _ _)) by lia; done).
Qed.

Lemma ent_at_cached s ent fd r rest :
  is_cached ent = true → sys_local s !! lf_name fd = Some (Some <$> r) → 0 ≤ lf_pos fd →
  rest = drop (Z.to_nat (lf_pos fd)) r → ent_at s (with_fd ent fd) rest.
Proof. intros Hc Hl Hp ->. unfold ent_at. simpl. rewrite Hc. eauto 10. Qed.

Lemma ent_at_datum s ent d rest :
  is_cached ent = false → datum_contents d = rest → ent_at s (with_datum ent d) rest.
Proof. intros Hc Hd. unfold ent_at. simpl. rewrite Hc. eauto. Qed.

Lemma ent_step_cached s ent fd r o :
  is_cached ent = true → cached_fd ent = Some fd → 0 ≤ lf_pos fd → 0 ≤ op_size o →
  sys_local s !! lf_name fd = Some (Some <$> r) →
  let rest := drop (Z.to_nat (lf_pos fd)) r in
  ∃ ent', ent_step ent o s = Ok (((cursor_step rest o).1, ent'), s) ∧
    ent_at s ent' (cursor_step rest o).2.
Proof.
  intros Hc Hfd Hpos Hn Hl rest.
  assert (the_fd ent s = Ok (fd, s)) as Hthe by (unfold the_fd; by rewrite Hfd).
  destruct o as [n|n|n]; simpl in Hn; simpl cursor_step;
    unfold ent_step, gdpfs_log_ent_read, gdpfs_log_ent_peek, gdpfs_log_ent_drain; rewrite Hc.
  - st_step Hthe. st_step (fd_read s fd r n Hpos Hl).
    eexists. split; [done|]. eapply ent_at_cached; simpl; [done|done|lia|by rewrite drop_past].
  - st_step Hthe. st_step (fd_seek s fd _ 1 0 Hl ltac:(set_solver) ltac:(simpl; lia)). change (1 =? 0) with false. cbv iota.
    st_step (fd_read s (mkLocalFd (lf_name fd) (lf_pos fd + 0)) r n ltac:(simpl; lia) Hl).
    simpl lf_pos. rewrite Z.add_0_r.
    st_step (fd_seek s (mkLocalFd (lf_name fd) (lf_pos fd + Z.of_nat (length (take (Z.to_nat n) rest)))) _ 0
      (lf_pos fd) Hl ltac:(set_solver) ltac:(simpl; lia)).
    eexists. split; [done|]. by eapply ent_at_cached.
  - unfold mbind at 1. unfold st_bind at 1. st_step Hthe.
    st_step (fd_seek s fd _ 1 n Hl ltac:(set_solver) ltac:(simpl; lia)).
    eexists. split; [done|]. eapply ent_at_cached; simpl; [done|done|lia|].
    unfold rest. rewrite drop_drop. f_equal. lia.
Qed.

Lemma ent_step_datum s ent d o :
  is_cached ent = false → ent_datum ent = Some d → 0 ≤ op_size o →
  let rest := datum_contents d in
  ∃ ent', ent_step ent o s = Ok (((cursor_step rest o).1, ent'), s) ∧
    ent_at s ent' (cursor_step rest o).2.
Proof.
  intros Hc Hd Hn rest.
  assert (the_datum ent s = Ok (d, s)) as Hthe by (unfold the_datum; by rewrite Hd).
  destruct o as [n|n|n]; simpl in Hn; simpl cursor_step;
    unfold ent_step, gdpfs_log_ent_read, gdpfs_log_ent_peek, gdpfs_log_ent_drain; rewrite Hc.
  - st_step Hthe. destruct (buf_read_ok d n Hn) as (d' & -> & Hd' & _).
    eexists. split; [done|]. by apply ent_at_datum.
  - st_step Hthe. rewrite buf_peek_ok by done.
    eexists. split; [done|]. unfold ent_at. rewrite Hc. eauto.
  - unfold mbind at 1. unfold st_bind at 1. st_step Hthe.
    destruct (buf_drain_ok d n Hn) as (r & d' & -> & Hd' & _).
    eexists. split; [done|]. by apply ent_at_datum.
Qed.

Lemma ent_step_ok s ent rest o :
  ent_at s ent rest → 0 ≤ op_size o →
  ∃ ent', ent_step ent o s = Ok (((cursor_step rest o).1, ent'), s) ∧
    ent_at s ent' (cursor_step rest o).2.
Proof.
  unfold ent_at at 1. destruct (is_cached ent) eqn:Hc.
  - intros (fd & r & Hfd & Hpos & Hl & ->) Hn. by apply ent_step_cached.
  - intros (d & Hd & <-) Hn. by apply ent_step_datum.
Qed.

Lemma ent_run_ok s ent rest os :
  ent_at s ent rest → Forall (λ o, 0 ≤ op_size o) os →
  ent_run ent os s = Ok (cursor_run rest os, s).
Proof.
  intros Hat Hos. revert ent rest Hat.
  induction Hos as [|o os Ho _ IH]; intros ent rest Hat; [done|].
  destruct (ent_step_ok s ent rest o Hat Ho) as (ent' & Hs & Hat').
  simpl. st_step Hs. by st_step (IH _ _ Hat').
Qed.

(** ** Opening an entry *)

(** A handle of the log [g]. *)
Definition log_names (h : gdpfs_log_t G) (g : file_gname) : Prop :=
  gcl_names (gcl_handle h) g ∧ log_gname h = g.

Lemma record_at_app l x recno r :
  0 ≤ recno → record_at l recno = Some r → record_at (l ++ [x]) recno = Some r.
Proof.
  unfold record_at, LAST_RECNO. intros Hr. destruct (Z.eqb_spec recno (-1)); [lia|].
  destruct (recno <=? 0); [done|]. intros Hl. by apply lookup_app_l_Some.
Qed.

Lemma cache_ok_app s L g l x :
  cache_ok s L → L !! g = Some l → cache_ok s (<[g := l ++ [x]]> L).
Proof.
  intros Hc Hg g' recno c Hl. destruct (Hc g' recno c Hl) as (Hn & l' & r & Hl' & Hr & ->).
  split; [done|]. destruct (decide (g = g')) as [<-|Hne].
  - rewrite Hg in Hl'. injection Hl' as <-. exists (l ++ [x]), r. rewrite lookup_insert_eq. eauto using record_at_app.
  - exists l', r. by rewrite lookup_insert_ne.
Qed.

Lemma in_gdp_ok {A} (c : st G A) (s : sys G) a g' :
  c (sys_gdp s) = Ok (a, g') → in_gdp c s = Ok (a, mkSys g' (sys_local s)).
Proof. unfold in_gdp. by intros ->. Qed.

Lemma length_eqb {A} (l : list A) : (Z.of_nat (length l) =? Z.of_nat (length l)) = true.
Proof. apply Z.eqb_refl. Qed.

(** Copying a record to the local file that caches it. *)
Lemma fill_local_file (s : sys G) n r :
  sys_local s !! n = Some [] →
  ∃ s', (let fd := mkLocalFd n 0 in on_fd fd (write r)) s =
      Ok ((Z.of_nat (length r), mkLocalFd n (Z.of_nat (length r))), s') ∧
    s' = mkSys (sys_gdp s) (<[n := Some <$> r]> (sys_local s)).
Proof.
  intros Hl. simpl. unfold on_fd. simpl. rewrite (local_content_some _ _ _ Hl). simpl.
  eexists. split; [done|]. do 2 f_equal. unfold write_at. destruct r; [done|]. simpl.
  by rewrite app_nil_r.
Qed.

Definition open_spec (s : sys G) (L : gdp_logs) (h : gdpfs_log_t G) (l : list (list Z))
    (recno : Z) (bypass : bool) (r : list Z) : Prop :=
  ∃ estat ent s', gdpfs_log_ent_open mode h recno bypass s = Ok ((estat, ent), s') ∧
    EP_STAT_ISOK estat = true ∧ sys_rep s' L ∧ ent_at s' ent r ∧
    (∀ g, sys_local s' !! (g, None) = sys_local s !! (g, None)) ∧
    gdpfs_log_ent_recno ent s' = Ok (recno_of l recno, s') ∧
    gdpfs_log_ent_length ent s' = Ok (Z.of_nat (length r), s').

Section open.
Variables (s : sys G) (L : gdp_logs) (h : gdpfs_log_t G) (g : file_gname) (l : list (list Z)).
Variables (recno : Z) (bypass : bool) (r : list Z).
Hypotheses (Hmode : mode ≠ GDP_MODE_AO) (Hs : sys_rep s L) (Hh : log_names h g).
Hypotheses (Hl : L !! g = Some l) (Hr : record_at l recno = Some r).

Lemma open_direct : (0 <=? recno) && negb bypass = false → open_spec s L h l recno bypass r.
Proof using Hmode Hs Hh Hl Hr.
  intros Hb. unfold open_spec, gdpfs_log_ent_open. rewrite decide_False, Hb by done.
  destruct Hs as [HG Hc], Hh as [Hn _].
  destruct (gcl_read_ok _ _ _ _ _ recno gdp_datum_new r HG Hn Hl Hr)
    as (e & d & g' & Hread & He & Hd & Hrec & HG').
  rewrite (bind_ok _ _ _ gdp_datum_new s) by done.
  st_step (in_gdp_ok _ _ _ _ Hread). rewrite He.
  rewrite datum_new_ok in Hd.
  eexists _, _, _. split_and!; [done|done|by split| |done| |].
  - unfold ent_at. simpl. eauto.
  - unfold gdpfs_log_ent_recno. simpl. unfold mbind, st_bind. simpl. by rewrite Hrec.
  - unfold gdpfs_log_ent_length. simpl. unfold mbind, st_bind. simpl. by rewrite buf_getlength_ok, Hd.
Qed.

Lemma ent_opened (s' : sys G) :
  0 ≤ recno → sys_local s' !! (g, Some recno) = Some (Some <$> r) →
  let ent := mkLogEnt (Some (mkLocalFd (g, Some recno) 0)) recno true None in
  ent_at s' ent r ∧ gdpfs_log_ent_recno ent s' = Ok (recno_of l recno, s') ∧
    gdpfs_log_ent_length ent s' = Ok (Z.of_nat (length r), s').
Proof using Type.
  intros Hn Hf ent. split_and!.
  - unfold ent_at. simpl. eexists _, r. by split_and!.
  - unfold gdpfs_log_ent_recno, recno_of, LAST_RECNO. simpl.
    by destruct (Z.eqb_spec recno (-1)); [lia|].
  - unfold ent. by rewrite cached_length, (local_content_some _ _ _ Hf), length_fmap.
Qed.

Lemma open_hit c :
  (0 <=? recno) && negb bypass = true → sys_local s !! (g, Some recno) = Some c →
  open_spec s L h l recno bypass r.
Proof using Hmode Hs Hh Hl Hr.
  intros Hb Hc. unfold open_spec, gdpfs_log_ent_open. rewrite decide_False, Hb by done. cbv zeta.
  destruct Hs as [HG Hcache], Hh as [_ ->].
  destruct (Hcache _ _ _ Hc) as (Hn & l' & r' & Hl' & Hr' & ->).
  rewrite Hl in Hl'. injection Hl' as <-. rewrite Hr in Hr'. injection Hr' as <-.
  rewrite (bind_ok _ _ _ (Some (mkLocalFd (g, Some recno) 0)) s) by (unfold local_open; by rewrite Hc).
  destruct (ent_opened s Hn Hc) as (? & ? & ?). by eexists _, _, _.
Qed.

Lemma open_miss :
  (0 <=? recno) && negb bypass = true → sys_local s !! (g, Some recno) = None →
  open_spec s L h l recno bypass r.
Proof using Hmode Hs Hh Hl Hr.
  intros Hb Hc. unfold open_spec, gdpfs_log_ent_open. rewrite decide_False, Hb by done. cbv zeta.
  destruct Hs as [HG Hcache], Hh as [Hn ->].
  apply andb_true_iff in Hb as [Hn0%Z.leb_le _].
  rewrite (bind_ok _ _ _ None s) by (unfold local_open; by rewrite Hc).
  rewrite (bind_ok _ _ s (mkLocalFd (g, Some recno) 0) _) by done. cbv beta.
  set (s1 := mkSys (sys_gdp s) _).
  rewrite (bind_ok _ _ s1 gdp_datum_new s1) by done.
  destruct (gcl_read_ok _ _ _ _ _ recno gdp_datum_new r HG Hn Hl Hr)
    as (e & d & g' & Hread & He & Hd & Hrec & HG').
  rewrite datum_new_ok in Hd. st_step (in_gdp_ok _ s1 _ _ Hread). rewrite He.
  change (negb true) with false. cbv iota.
  destruct (buf_read_ok d (gdp_buf_getlength d)) as (d' & -> & Hd' & _).
  { rewrite buf_getlength_ok. lia. }
  rewrite buf_getlength_ok, Nat2Z.id, take_ge, Hd by done. cbv iota.
  set (s2 := mkSys g' _).
  rewrite (bind_ok _ _ s2 tt s2) by (unfold st_assert; by rewrite length_eqb).
  destruct (fill_local_file s2 (g, Some recno) r) as (s3 & Hw & Es3); [apply lookup_insert_eq|].
  st_step Hw. rewrite (bind_ok _ _ s3 tt s3) by (unfold st_assert; by rewrite length_eqb).
  assert (sys_local s3 !! (g, Some recno) = Some (Some <$> r)) as Hl3 by (rewrite Es3; apply lookup_insert_eq).
  st_step (fd_seek s3 (mkLocalFd (g, Some recno) (Z.of_nat (length r))) _ 0 0 Hl3
    ltac:(set_solver) ltac:(done)).
  destruct (ent_opened s3 Hn0 Hl3) as (? & ? & ?).
  eexists _, _, _. split_and!; [done|done| |done| |done|done].
  - rewrite Es3. split; [done|]. intros g1 recno1 c1. simpl.
    destruct (decide ((g, Some recno) = (g1, Some recno1))) as [E|Hne].
    + simplify_eq. rewrite lookup_insert_eq. intros [= <-]. eauto 10.
    + rewrite !lookup_insert_ne by done. apply Hcache.
  - intros g1. rewrite Es3. simpl. by rewrite !lookup_insert_ne by done.
Qed.

Lemma open_ok' : open_spec s L h l recno bypass r.
Proof using Hmode Hs Hh Hl Hr.
  destruct ((0 <=? recno) && negb bypass) eqn:Hb; [|by apply open_direct].
  destruct (sys_local s !! (g, Some recno)) as [c|] eqn:Hc; [by eapply open_hit|by apply open_miss].
Qed.
End open.

(** ** Appending *)

Fixpoint write_all (ent : gdpfs_log_ent G) (chunks : list (list Z)) : st (sys G) (gdpfs_log_ent G) :=
  match chunks with
  | [] => mret ent
  | bs :: chunks => '(_, ent) ← gdpfs_log_ent_write ent bs; write_all ent chunks
  end.

(** An entry written in pieces and appended to a log, as in [do_write]. *)
Definition append_record (h : gdpfs_log_t G) (chunks : list (list Z)) (cb : bool) : st (sys G) stat :=
  ent ← write_all gdpfs_log_ent_init chunks;
  gdpfs_log_append mode h ent cb.


(** ** Entries in memory

    An entry that was opened past the cache is a datum. *)
Definition ent_mem (ent : gdpfs_log_ent G) (n : Z) (rest : list Z) : Prop :=
  is_cached ent = false ∧
  ∃ d, ent_datum ent = Some d ∧ datum_contents d = rest ∧ gdp_datum_getrecno d = n.

Lemma mem_open s L h g l recno r :
  mode ≠ GDP_MODE_AO → sys_rep s L → log_names h g → L !! g = Some l → record_at l recno = Some r →
  ∃ e ent s', gdpfs_log_ent_open mode h recno true s = Ok ((e, ent), s') ∧ EP_STAT_ISOK e = true ∧
    sys_rep s' L ∧ sys_local s' = sys_local s ∧ ent_mem ent (recno_of l recno) r.
Proof.
  intros Hmode [HG Hc] [Hn _] Hl Hr. unfold gdpfs_log_ent_open.
  rewrite decide_False, andb_false_r by done. cbv zeta.
  destruct (gcl_read_ok _ _ _ _ _ recno gdp_datum_new r HG Hn Hl Hr)
    as (e & d & g' & Hread & He & Hd & Hrec & HG').
  rewrite (bind_ok _ _ _ gdp_datum_new s) by done.
  st_step (in_gdp_ok _ _ _ _ Hread). rewrite He.
  eexists _, _, _. split_and!; [done|done|by split|done|]. split; [done|]. exists d.
  by rewrite Hd, datum_new_ok.
Qed.

Lemma mem_open_missing s L h g l recno :
  mode ≠ GDP_MODE_AO → sys_rep s L → log_names h g → L !! g = Some l → record_at l recno = None →
  ∃ ent s', gdpfs_log_ent_open mode h recno true s = Ok ((GDPFS_STAT_NOTFOUND, ent), s') ∧
    is_cached ent = false ∧ ent_datum ent = None ∧ sys_rep s' L ∧ sys_local s' = sys_local s.
Proof.
  intros Hmode [HG Hc] [Hn _] Hl Hr. unfold gdpfs_log_ent_open.
  rewrite decide_False, andb_false_r by done. cbv zeta.
  destruct (gcl_read_missing _ _ _ _ _ recno gdp_datum_new HG Hn Hl Hr) as (d & g' & Hread & HG').
  rewrite (bind_ok _ _ _ gdp_datum_new s) by done.
  st_step (in_gdp_ok _ _ _ _ Hread).
  change (negb (EP_STAT_ISOK (GDP_STAT false GDP_CCODE_NOTFOUND))) with true. cbv iota.
  unfold open_failed. rewrite Z.eqb_refl.
  eexists _, _. split_and!; [done..|by split|done].
Qed.

Section mem.
Context (ent : gdpfs_log_ent G) (n : Z) (rest : list Z) (Hm : ent_mem ent n rest) (s : sys G).

Lemma mem_length : gdpfs_log_ent_length ent s = Ok (Z.of_nat (length rest), s).
Proof using Hm.
  destruct Hm as (Hc & d & Hd & <- & _). unfold gdpfs_log_ent_length, the_datum. rewrite Hc, Hd.
  unfold mbind, st_bind. simpl. by rewrite buf_getlength_ok.
Qed.

Lemma mem_recno : gdpfs_log_ent_recno ent s = Ok (n, s).
Proof using Hm.
  destruct Hm as (Hc & d & Hd & _ & Hn). unfold gdpfs_log_ent_recno, the_datum. rewrite Hc, Hd.
  unfold mbind, st_bind. simpl. by rewrite Hn.
Qed.

Lemma mem_close : gdpfs_log_ent_close ent s = Ok (tt, s).
Proof using Hm.
  destruct Hm as (Hc & d & Hd & _). unfold gdpfs_log_ent_close, the_datum. by rewrite Hc, Hd.
Qed.

Lemma mem_read k : 0 ≤ k →
  ∃ ent', gdpfs_log_ent_read ent k s = Ok ((take (Z.to_nat k) rest, ent'), s) ∧
    ent_mem ent' n (drop (Z.to_nat k) rest).
Proof using Hm.
  intros Hk. destruct Hm as (Hc & d & Hd & <- & Hn). unfold gdpfs_log_ent_read, the_datum. rewrite Hc, Hd.
  destruct (buf_read_ok d k Hk) as (d' & Hr & Hd' & Hn').
  exists (with_datum ent d'). unfold mbind, st_bind. simpl. rewrite Hr. split; [done|].
  split; [done|]. exists d'. split_and!; [done|done|by rewrite Hn'].
Qed.

Lemma mem_peek k : 0 ≤ k → gdpfs_log_ent_peek ent k s = Ok ((take (Z.to_nat k) rest, ent), s).
Proof using Hm.
  intros Hk. destruct Hm as (Hc & d & Hd & <- & Hn). unfold gdpfs_log_ent_peek, the_datum. rewrite Hc, Hd.
  unfold mbind, st_bind. simpl. by rewrite buf_peek_ok.
Qed.

Lemma mem_drain k : 0 ≤ k →
  ∃ r ent', gdpfs_log_ent_drain ent k s = Ok ((r, ent'), s) ∧ ent_mem ent' n (drop (Z.to_nat k) rest).
Proof using Hm.
  intros Hk. destruct Hm as (Hc & d & Hd & <- & Hn). unfold gdpfs_log_ent_drain, the_datum. rewrite Hc, Hd.
  destruct (buf_drain_ok d k Hk) as (r & d' & Hr & Hd' & Hn').
  exists r, (with_datum ent d'). unfold mbind, st_bind. simpl. rewrite Hr. split; [done|].
  split; [done|]. exists d'. split_and!; [done|done|by rewrite Hn'].
Qed.
End mem.

Lemma init_write_ok s : ∀ bs, ∃ ent d,
  gdpfs_log_ent_write gdpfs_log_ent_init bs s = Ok ((0, ent), s) ∧ is_cached ent = false ∧
  ent_datum ent = Some d ∧ datum_contents d = bs.
Proof.
  intros bs. destruct (buf_write_ok gdp_datum_new bs) as (d & Hw & Hd). rewrite datum_new_ok in Hd.
  exists (with_datum gdpfs_log_ent_init d), d. unfold gdpfs_log_ent_write, mbind, st_bind. simpl.
  by rewrite Hw.
Qed.

Lemma ent_write_ok s ent d bs :
  is_cached ent = false → ent_datum ent = Some d →
  ∃ ent' d', gdpfs_log_ent_write ent bs s = Ok ((0, ent'), s) ∧ is_cached ent' = false ∧
    ent_datum ent' = Some d' ∧ datum_contents d' = datum_contents d ++ bs.
Proof.
  intros Hc Hd. destruct (buf_write_ok d bs) as (d' & Hw & Hd').
  exists (with_datum ent d'), d'. unfold gdpfs_log_ent_write, the_datum. rewrite Hc, Hd.
  unfold mbind, st_bind. simpl. by rewrite Hw.
Qed.

Lemma append_ok s L h g l ent d cb :
  mode ≠ GDP_MODE_RO → sys_rep s L → log_names h g → L !! g = Some l → ent_datum ent = Some d →
  ∃ e s', gdpfs_log_append mode h ent cb s = Ok (e, s') ∧ EP_STAT_ISOK e = true ∧
    sys_rep s' (<[g := l ++ [datum_contents d]]> L) ∧ sys_local s' = sys_local s.
Proof.
  intros Hmode [HG Hc] [Hn _] Hl Hd. unfold gdpfs_log_append. rewrite decide_False by done.
  rewrite (bind_ok _ _ s d s) by (unfold the_datum; by rewrite Hd).
  destruct cb;
    [destruct (gcl_append_async_ok _ _ _ _ _ d HG Hn Hl) as (e & g' & Ha & He & HG')
    |destruct (gcl_append_ok _ _ _ _ _ d HG Hn Hl) as (e & g' & Ha & He & HG')];
    exists e, (mkSys g' (sys_local s));
    (split; [by apply in_gdp_ok|]); split_and!; try done;
    (split; [done|by eapply (cache_ok_app _ _ _ _ _ Hc)]).
Qed.

Lemma write_all_ok s ent d chunks :
  is_cached ent = false → ent_datum ent = Some d →
  ∃ ent' d', write_all ent chunks s = Ok (ent', s) ∧ is_cached ent' = false ∧
    ent_datum ent' = Some d' ∧ datum_contents d' = datum_contents d ++ concat chunks.
Proof.
  revert ent d. induction chunks as [|bs chunks IH]; intros ent d Hc Hd.
  { exists ent, d. simpl. by rewrite app_nil_r. }
  destruct (ent_write_ok s ent d bs Hc Hd) as (ent1 & d1 & Hw & Hc1 & Hd1 & E1).
  destruct (IH ent1 d1 Hc1 Hd1) as (ent' & d' & Hall & ? & ? & Hd').
  exists ent', d'. split_and!; [|done|done|by rewrite Hd', E1, <-app_assoc].
  simpl. by st_step Hw.
Qed.

Lemma append_record_ok s L h g l chunks cb :
  mode ≠ GDP_MODE_RO → sys_rep s L → log_names h g → L !! g = Some l →
  ∃ e s', append_record h chunks cb s = Ok (e, s') ∧ EP_STAT_ISOK e = true ∧
    sys_rep s' (<[g := l ++ [concat chunks]]> L) ∧ sys_local s' = sys_local s.
Proof.
  intros Hmode Hs Hh Hl.
  destruct (write_all_ok s gdpfs_log_ent_init gdp_datum_new chunks)
    as (ent & d & Hw & _ & Hd & Hcont); [done|done|].
  rewrite datum_new_ok in Hcont. simpl in Hcont.
  unfold append_record. st_step Hw. rewrite <-Hcont. by apply append_ok.
Qed.
End proof.

(** ** The theorems *)

(** C30: a record that exists can be opened through the local cache, past it or
    into it, and any sequence of reads, peeks and drains of the entry returns
    what a cursor on the bytes of the record returns; its length and its record
    number are those of the record, and the local cache keeps agreeing with
    the logs. *)
Theorem log_ent_refines `{GdpLaws G} mode (s : sys G) L h g l recno bypass r os :
  mode ≠ GDP_MODE_AO → sys_rep s L → log_names h g → L !! g = Some l →
  record_at l recno = Some r → Forall (λ o, 0 ≤ op_size o) os →
  ∃ estat ent s', gdpfs_log_ent_open mode h recno bypass s = Ok ((estat, ent), s') ∧
    EP_STAT_ISOK estat = true ∧ sys_rep s' L ∧
    ent_run ent os s' = Ok (cursor_run r os, s') ∧
    gdpfs_log_ent_recno ent s' = Ok (recno_of l recno, s') ∧
    gdpfs_log_ent_length ent s' = Ok (Z.of_nat (length r), s').
Proof.
  intros Hm Hs Hh Hl Hr Hos.
  destruct (open_ok' mode s L h g l recno bypass r Hm Hs Hh Hl Hr)
    as (e & ent & s' & Hop & He & Hs' & Hat & _ & Hrec & Hlen).
  exists e, ent, s'. split_and!; try done. by apply ent_run_ok.
Qed.

Definition ex_logs : gdp_logs := {[ replicate 32 7 := [[10; 11; 12; 13]; [20; 21]] ]}.
Definition ex_sys : sys gdp_logs := mkSys ex_logs ∅.
Definition ex_log : gdpfs_log_t gdp_logs := mkLog (replicate 32 7) (replicate 32 7).

Lemma ex_sys_rep : sys_rep ex_sys ex_logs.
Proof. split; [done|]. intros g recno c. simpl. by rewrite lookup_empty. Qed.

Lemma log_ent_refines_witness :
  ∃ estat ent s', gdpfs_log_ent_open GDP_MODE_RA ex_log 1 false ex_sys = Ok ((estat, ent), s') ∧
    EP_STAT_ISOK estat = true ∧ sys_rep s' ex_logs ∧
    ent_run ent [CPeek 2; CRead 1; CDrain 1; CRead 5] s' = Ok ([[10; 11]; [10]; []; [12; 13]], s') ∧
    gdpfs_log_ent_recno ent s' = Ok (1, s') ∧ gdpfs_log_ent_length ent s' = Ok (4, s').
Proof.
  apply (log_ent_refines GDP_MODE_RA ex_sys ex_logs ex_log (replicate 32 7)
    [[10; 11; 12; 13]; [20; 21]] 1 false [10; 11; 12; 13] [CPeek 2; CRead 1; CDrain 1; CRead 5]).
  - done.
  - apply ex_sys_rep.
  - done.
  - vm_compute. reflexivity.
  - reflexivity.
  - repeat constructor; done.
Defined.

(** a record written in pieces and appended to a log is the last record of
    the log: opening the entry with number -1 or with the next number succeeds,
    and reading it returns the pieces joined. *)
Theorem log_append_open `{GdpLaws G} (s : sys G) L h g l chunks cb recno bypass :
  sys_rep s L → log_names h g → L !! g = Some l →
  recno = LAST_RECNO ∨ recno = Z.of_nat (length l) + 1 →
  ∃ e s1 estat ent s2, append_record GDP_MODE_RA h chunks cb s = Ok (e, s1) ∧ EP_STAT_ISOK e = true ∧
    gdpfs_log_ent_open GDP_MODE_RA h recno bypass s1 = Ok ((estat, ent), s2) ∧
    EP_STAT_ISOK estat = true ∧
    gdpfs_log_ent_recno ent s2 = Ok (Z.of_nat (length l) + 1, s2) ∧
    ent_run ent [CRead (Z.of_nat (length (concat chunks)))] s2 = Ok ([concat chunks], s2).
Proof.
  intros Hs Hh Hl Hrec.
  destruct (append_record_ok GDP_MODE_RA s L h g l chunks cb) as (e & s1 & Ha & He & Hs1 & _); [done..|].
  assert (record_at (l ++ [concat chunks]) recno = Some (concat chunks) ∧
    recno_of (l ++ [concat chunks]) recno = Z.of_nat (length l) + 1) as [Hr Hn].
  { unfold record_at, recno_of, LAST_RECNO in *. rewrite length_app. simpl.
    destruct Hrec as [-> | ->]; simpl; [rewrite last_snoc; split; [done|lia]|].
    destruct (Z.eqb_spec (Z.of_nat (length l) + 1) (-1)); [lia|].
    destruct (Z.leb_spec (Z.of_nat (length l) + 1) 0); [lia|]. split; [|lia].
    replace (Z.to_nat (Z.of_nat (length l) + 1 - 1)) with (length l) by lia.
    by apply list_lookup_middle. }
  destruct (open_ok' GDP_MODE_RA s1 (<[g := l ++ [concat chunks]]> L) h g (l ++ [concat chunks]) recno bypass (concat chunks))
    as (estat & ent & s2 & Hop & Hest & _ & Hat & _ & Hrecno & _);
    [done|done|done|apply lookup_insert_eq|done|].
  exists e, s1, estat, ent, s2. rewrite Hn in Hrecno. split_and!; try done.
  erewrite ent_run_ok; [|done|repeat constructor; simpl; lia].
  simpl. by rewrite Nat2Z.id, firstn_all.
Qed.

Lemma log_append_open_witness :
  ∃ e s1 estat ent s2, append_record GDP_MODE_RA ex_log [[1; 2]; [3]] false ex_sys = Ok (e, s1) ∧
    EP_STAT_ISOK e = true ∧
    gdpfs_log_ent_open GDP_MODE_RA ex_log 3 false s1 = Ok ((estat, ent), s2) ∧
    EP_STAT_ISOK estat = true ∧
    gdpfs_log_ent_recno ent s2 = Ok (3, s2) ∧ ent_run ent [CRead 3] s2 = Ok ([[1; 2; 3]], s2).
Proof.
  apply (log_append_open ex_sys ex_logs ex_log (replicate 32 7) [[10; 11; 12; 13]; [20; 21]]
    [[1; 2]; [3]] false 3 false ex_sys_rep).
  - done.
  - vm_compute. reflexivity.
  - right. reflexivity.
Defined.

(** opening a record that does not exist through the local cache fails,
    but leaves an empty file in the cache: opening it again succeeds, with an
    entry of no bytes, and keeps doing so after the record was appended. *)
Theorem log_ent_open_poisoned `{GdpLaws G} (s : sys G) L h g l recno :
  sys_rep s L → log_names h g → L !! g = Some l → record_at l recno = None → 0 ≤ recno →
  ∃ ent1 s1 ent2 s2,
    gdpfs_log_ent_open GDP_MODE_RA h recno false s = Ok ((GDPFS_STAT_NOTFOUND, ent1), s1) ∧
    gdpfs_log_ent_open GDP_MODE_RA h recno false s1 = Ok ((GDPFS_STAT_OK, ent2), s2) ∧
    gdpfs_log_ent_length ent2 s2 = Ok (0, s2) ∧ ¬ cache_ok s2 L ∧
    ∀ G', ∃ ent3, gdpfs_log_ent_open GDP_MODE_RA h recno false (mkSys G' (sys_local s2)) =
      Ok ((GDPFS_STAT_OK, ent3), mkSys G' (sys_local s2)) ∧
      gdpfs_log_ent_length ent3 (mkSys G' (sys_local s2)) = Ok (0, mkSys G' (sys_local s2)).
Proof.
  intros [HG Hc] [Hn Hg] Hl Hr Hpos. unfold gdpfs_log_ent_open.
  rewrite decide_False by done. rewrite (proj2 (Z.leb_le _ _) Hpos), Hg.
  change (true && negb false) with true. cbv iota zeta.
  rewrite (bind_ok _ _ s None s).
  2:{ unfold local_open. destruct (sys_local s !! (g, Some recno)) as [c|] eqn:Hf; [|done].
    destruct (Hc _ _ _ Hf) as (_ & l' & r & Hl' & Hr' & _). rewrite Hl in Hl'. injection Hl' as <-.
    by rewrite Hr in Hr'. }
  rewrite (bind_ok _ _ s (mkLocalFd (g, Some recno) 0) _) by done. cbv beta iota.
  set (s1 := mkSys (sys_gdp s) _).
  rewrite (bind_ok _ _ s1 gdp_datum_new s1) by done.
  destruct (gcl_read_missing _ _ _ _ _ recno gdp_datum_new HG Hn Hl Hr) as (d & g' & Hread & HG').
  st_step (in_gdp_ok _ s1 _ _ Hread).
  change (negb (EP_STAT_ISOK (GDP_STAT false GDP_CCODE_NOTFOUND))) with true. cbv iota.
  unfold open_failed. rewrite Z.eqb_refl.
  set (s2 := mkSys g' _).
  assert (∀ s' : sys G, sys_local s' = sys_local s2 →
    local_open (g, Some recno) s' = Ok (Some (mkLocalFd (g, Some recno) 0), s') ∧
    local_content s' (g, Some recno) = []) as Hopen.
  { intros s' Es. unfold local_open, local_content. rewrite Es. simpl. by rewrite lookup_insert_eq. }
  destruct (Hopen s2 eq_refl) as [Ho2 Hl2].
  eexists _, s2, _, s2. split_and!; [done| | | |].
  - st_step Ho2. done.
  - rewrite cached_length. by rewrite Hl2.
  - intros Hbad. destruct (Hbad g recno []) as (_ & l' & r & Hl' & Hr' & _).
    { simpl. apply lookup_insert_eq. }
    rewrite Hl in Hl'. injection Hl' as <-. by rewrite Hr in Hr'.
  - intros G'. destruct (Hopen (mkSys G' (sys_local s2)) eq_refl) as [Ho3 Hl3].
    eexists. split; [by st_step Ho3|].
    rewrite cached_length. by rewrite Hl3.
Qed.

Lemma log_ent_open_poisoned_witness :
  ∃ ent1 s1 ent2 s2,
    gdpfs_log_ent_open GDP_MODE_RA ex_log 3 false ex_sys = Ok ((GDPFS_STAT_NOTFOUND, ent1), s1) ∧
    gdpfs_log_ent_open GDP_MODE_RA ex_log 3 false s1 = Ok ((GDPFS_STAT_OK, ent2), s2) ∧
    gdpfs_log_ent_length ent2 s2 = Ok (0, s2) ∧ ¬ cache_ok s2 ex_logs ∧
    ∀ G', ∃ ent3, gdpfs_log_ent_open GDP_MODE_RA ex_log 3 false (mkSys G' (sys_local s2)) =
      Ok ((GDPFS_STAT_OK, ent3), mkSys G' (sys_local s2)) ∧
      gdpfs_log_ent_length ent3 (mkSys G' (sys_local s2)) = Ok (0, mkSys G' (sys_local s2)).
Proof.
  apply (log_ent_open_poisoned ex_sys ex_logs ex_log (replicate 32 7) [[10; 11; 12; 13]; [20; 21]] 3 ex_sys_rep).
  - done.
  - vm_compute. reflexivity.
  - reflexivity.
  - done.
Defined.
