(* ===== verification/FileIndex.v ===== *)
(** * The FIG tree as the index of a file

    What the file layer uses of the FIG tree: a tree that was made by [ft_init]
    and a sequence of writes and iterations represents a byte map; a write and an
    iteration succeed on it and have the expected results.  The logs that were
    passed hold no checkpoints; no subtree of such a tree comes from one. *)
From S2P Require Import Prelude.
From S2P Require Import Heap.
From S2P Require Import Interval.
From S2P Require Import Types.
From S2P Require Import FigNode.
From S2P Require Import FigTree.
From S2P Require Import FigSpec.
From S2P Require Import FigNodeProof.
From S2P Require Import FigWrite.
From S2P Require Import FigTheorems.
From S2P Require Import FigIter.
From S2P Require Import FigRanges.
From S2P Require Import FigReads.
From S2P Require Import FigAllDirty.

#[local] Open Scope Z_scope.

Inductive index_op :=
  | IWrite (log : gdpfs_log) (start end_ value : Z)
  | IRead (log : gdpfs_log) (fuel : nat) (start end_ : Z).

Definition index_op_ok (o : index_op) : Prop :=
  match o with
  | IWrite log s e v => no_images log ∧ write_ok (s, e, v)
  | IRead log fuel s e => no_images log ∧ byte_index s ∧ byte_index e ∧ s ≤ e ∧ (Z.to_nat (e - s + 1) < fuel)%nat
  end.

Definition index_op_map (m : byte_map) (o : index_op) : byte_map :=
  match o with IWrite _ s e v => bm_write m s e v | IRead _ _ _ _ => m end.

Section index.
Context `{AL : !Allocator}.

Definition index_op_run (t : figtree) (o : index_op) : node_prog figtree :=
  match o with
  | IWrite log s e v => ft_write log t s e v
  | IRead log fuel s e => _ ← ft_read_all log fuel t s e; mret t
  end.

Fixpoint index_ops_run (t : figtree) (os : list index_op) : node_prog figtree :=
  match os with [] => mret t | o :: os => t ← index_op_run t o; index_ops_run t os end.

Definition index_history (os : list index_op) : node_prog figtree :=
  t ← ft_init; index_ops_run t os.

(** The tree and its nodes represent the byte map. *)
Definition index_rep (t : figtree) (σ : heap ft_node) (m : byte_map) : Prop :=
  ∃ os, Forall index_op_ok os ∧ index_history os ∅ = Ok (t, σ) ∧
    ∀ b, byte_index b → m b = foldl index_op_map bm_empty os b.

Lemma index_op_map_ext o m m' b : m b = m' b → index_op_map m o b = index_op_map m' o b.
Proof. destruct o; simpl; [|done]. unfold bm_write. by case_decide. Qed.

Lemma index_ops_map_ext os m m' b : m b = m' b → foldl index_op_map m os b = foldl index_op_map m' os b.
Proof. revert m m'. induction os as [|o os IH]; simpl; [done|]. intros m m' Hm. by apply IH, index_op_map_ext. Qed.

Section wp.
Context `{HG : !heapG ft_node Σ}.

Lemma wp_index_op h t o Φ :
  index_op_ok o → wf (S h) t →
  is_tree (S h) t -∗
  (∀ h' t', ⌜wf (S h') t' ∧ ∀ b, byte_index b →
      lookup_tree (S h') t' b = index_op_map (lookup_tree (S h) t) o b⌝ -∗
     is_tree (S h') t' -∗ Φ (mkFigtree (ptr t'))) -∗
  wp (index_op_run (mkFigtree (ptr t)) o) Φ.
Proof.
  iIntros (Hok Hwf) "Ht HΦ". destruct o as [log s e v|log fuel s e]; cbn [index_op_run].
  - destruct Hok as (_ & Hs & Hse & He). iApply (wp_ft_write with "Ht"); [done..|].
    iIntros (h1 t1 (Hwf1 & Hl1)) "Ht". iApply ("HΦ" with "[%] Ht"). split; [done|].
    intros b Hb. rewrite Hl1 //.
  - destruct Hok as (_ & Hs & He & Hse & Hf). wp_bind.
    iApply (wp_ft_read_all with "Ht"); [done..|]. iIntros (fs _) "Ht". wp_ret.
    by iApply ("HΦ" with "[%] Ht").
Qed.

Lemma wp_index_ops os : ∀ h t Φ,
  Forall index_op_ok os → wf (S h) t →
  is_tree (S h) t -∗
  (∀ h' t', ⌜wf (S h') t' ∧ ∀ b, byte_index b →
      lookup_tree (S h') t' b = foldl index_op_map (lookup_tree (S h) t) os b⌝ -∗
     is_tree (S h') t' -∗ Φ (mkFigtree (ptr t'))) -∗
  wp (index_ops_run (mkFigtree (ptr t)) os) Φ.
Proof.
  induction os as [|o os IH]; iIntros (h t Φ Hos Hwf) "Ht HΦ"; cbn [index_ops_run].
  { wp_ret. by iApply ("HΦ" with "[%] Ht"). }
  apply Forall_cons in Hos as [Ho Hos].
  wp_bind. iApply (wp_index_op with "Ht"); [done..|]. iIntros (h1 t1 (Hwf1 & Hl1)) "Ht".
  iApply (IH with "Ht"); [done..|]. iIntros (h2 t2 (Hwf2 & Hl2)) "Ht".
  iApply ("HΦ" with "[%] Ht"). split; [done|]. intros b Hb. rewrite Hl2 //. simpl.
  by apply index_ops_map_ext, Hl1.
Qed.

Lemma wp_index_history os Φ :
  Forall index_op_ok os →
  (∀ h t, ⌜wf (S h) t ∧ ∀ b, byte_index b → lookup_tree (S h) t b = foldl index_op_map bm_empty os b⌝ -∗
     is_tree (S h) t -∗ Φ (mkFigtree (ptr t))) -∗
  wp (index_history os) Φ.
Proof.
  iIntros (Hos) "HΦ". rewrite /index_history. wp_bind. iApply wp_ft_init.
  iIntros (t (Hwf & Hl)) "Ht". iApply (wp_index_ops with "Ht"); [done..|].
  iIntros (h t' (Hwf' & Hl')) "Ht". iApply ("HΦ" with "[%] Ht"). split; [done|].
  intros b Hb. rewrite Hl' //. apply index_ops_map_ext, Hl.
Qed.
End wp.

Lemma index_ops_run_app os o : ∀ t σ,
  index_ops_run t (os ++ [o]) σ =
    match index_ops_run t os σ with
    | Ok (t', σ') => index_op_run t' o σ'
    | Fault f => Fault f
    end.
Proof.
  induction os as [|o' os IH]; intros t σ; cbn [app index_ops_run]; rewrite /mbind /prog_bind.
  - rewrite /mret /prog_ret. by destruct (index_op_run t o σ) as [[? ?]|].
  - destruct (index_op_run t o' σ) as [[t1 σ1]|]; [|done]. apply IH.
Qed.

Lemma index_history_app os o t σ :
  index_history os ∅ = Ok (t, σ) → index_history (os ++ [o]) ∅ = index_op_run t o σ.
Proof.
  rewrite /index_history /mbind /prog_bind. destruct (ft_init ∅) as [[t0 σ0]|]; [|done].
  intros Hr. by rewrite index_ops_run_app Hr.
Qed.

(** ** The operations *)

Lemma index_init_ok : ∃ t σ, ft_init ∅ = Ok (t, σ) ∧ index_rep t σ bm_empty.
Proof.
  destruct (wp_adequacy (index_history []) ∅ (λ _, True)) as (t & σ & Hr & _).
  { iIntros (Σ HG) "_". iApply wp_index_history; [done|]. auto. }
  exists t, σ. split; [|by exists []].
  move: Hr. rewrite /index_history /mbind /prog_bind. by destruct (ft_init ∅) as [[]|].
Qed.

Lemma index_write_ok log t σ m s e v :
  index_rep t σ m → no_images log → write_ok (s, e, v) →
  ∃ t' σ', ft_write log t s e v σ = Ok (t', σ') ∧ index_rep t' σ' (bm_write m s e v).
Proof.
  intros (os & Hos & Hr & Hm) Hlog Hw. set (o := IWrite log s e v).
  assert (Forall index_op_ok (os ++ [o])) as Hos' by (apply Forall_app; split; [done|by constructor]).
  destruct (wp_adequacy (index_history (os ++ [o])) ∅ (λ _, True)) as (t' & σ' & Hr' & _).
  { iIntros (Σ HG) "_". iApply wp_index_history; [done|]. auto. }
  exists t', σ'. split; [by rewrite (index_history_app _ _ _ _ Hr) in Hr'|].
  exists (os ++ [o]). split_and!; [done..|]. intros b Hb. rewrite foldl_snoc /=.
  rewrite /bm_write. case_decide; [done|by apply Hm].
Qed.

Lemma index_read_ok log fuel t σ m lo hi :
  index_rep t σ m → no_images log → byte_index lo → byte_index hi → lo ≤ hi → (Z.to_nat (hi - lo + 1) < fuel)%nat →
  ∃ fs σ', ft_read_all log fuel t lo hi σ = Ok (fs, σ') ∧ index_rep t σ' m ∧
    figs_in lo hi fs ∧ ∀ b, lo ≤ b ≤ hi → figs_at fs b = m b.
Proof.
  intros (os & Hos & Hr & Hm) Hlog Hlo Hhi Hle Hf. set (o := IRead log fuel lo hi).
  assert (Forall index_op_ok (os ++ [o])) as Hos' by (apply Forall_app; split; [done|by constructor]).
  destruct (wp_adequacy (t ← index_history os; ft_read_all log fuel t lo hi) ∅ (λ fs,
    figs_in lo hi fs ∧ ∀ b, lo ≤ b ≤ hi → figs_at fs b = m b)) as (fs & σ' & Hr' & Hfs).
  { iIntros (Σ HG) "_". wp_bind. iApply wp_index_history; [done|].
    iIntros (h t0 (Hwf & Hl)) "Ht". iApply (wp_ft_read_all with "Ht"); [done..|].
    iIntros (fs (Hin & Hat)) "_". iPureIntro. split; [done|]. intros b Hb. rewrite Hat //.
    rewrite Hl; [|unfold_interval; lia]. symmetry. apply Hm. unfold_interval; lia. }
  assert (ft_read_all log fuel t lo hi σ = Ok (fs, σ')) as Hread.
  { move: Hr'. by rewrite {1}/mbind {1}/prog_bind Hr. }
  exists fs, σ'. destruct Hfs as [Hin Hat]. split_and!; [done| |done|done].
  exists (os ++ [o]). split_and!; [done| |].
  - rewrite (index_history_app _ _ _ _ Hr) /o. cbn [index_op_run]. by rewrite {1}/mbind {1}/prog_bind Hread.
  - intros b Hb. rewrite foldl_snoc /=. by apply Hm.
Qed.

Lemma index_rep_ext t σ m m' :
  index_rep t σ m → (∀ b, byte_index b → m' b = m b) → index_rep t σ m'.
Proof.
  intros (os & Hos & Hr & Hm) He. exists os. split_and!; [done..|]. intros b Hb. by rewrite He // Hm.
Qed.
End index.
