(* ===== verification/File.v ===== *)
(** * Files ([src/gdpfs_file.c])

    A file is a log whose records are metadata headers with data; an open file
    has an index of the log (a FIG tree), a local cache file and a cached header.
    The state of the layer is a record with the globals of the file, the file
    objects by address, and what happens outside the calling thread: the
    producer of logs, and the callbacks of asynchronous appends.  Calls hold the
    locks of the code one at a time, so a call is a step; before each call any
    number of callbacks and productions of logs take place, as the schedule
    [g_sched] says. *)
From S2P Require Import Prelude.
From S2P Require Import State.
From S2P Require Import Types.
From S2P Require Import Posix.
From S2P Require Heap.
From S2P Require Import FigNode.
From S2P Require Import FigTree.
From S2P Require Import FigIter.
From S2P Require Import FigDirty.
From S2P Require Import Bitmap.
From S2P Require Import LogQueue.
From S2P Require Import FileIface.
From S2P Require Import Format.
From S2P Require Import Gdp.
From S2P Require Import LogEnt.
From S2P Require Import Interval.

#[local] Open Scope Z_scope.

(** ** Configuration

    The command line options, and the block size of the local file system. *)
Class FileConfig := {
  use_cache : bool;
  gcl_mode : gdp_iomode;
  HOLE_BLOCK : nat;
}.

(** ** State *)

Abbreviation floc := Heap.loc.
Definition MAX_FHS : Z := 1024.
Definition RC_CAP : Z := 256.

Section types.
Context (G : Type) `{GdpOps G}.

(** The figtree of a file has a heap of its own. *)
Record gdpfs_file_t := mkFile {
  log_handle : gdpfs_log_t G;
  hash_key : file_gname;
  ref_count : Z;
  cache_fd : option local_fd;
  new_file : bool;
  info_cache_valid : bool;
  info_cache : gdpfs_file_info;
  last_recno : Z;
  outstanding_reqs : Z;
  index_flush_reqs : Z;
  recently_closed : bool;
  file_figtree : figtree;
  figtree_nodes : Heap.heap ft_node;
  figtree_initialized : bool;
}.

(** An append whose callback has not run: [free_fileref] or
    [_file_chkpt_finish] with their user data. *)
Inductive callback :=
  | CbFreeFileref (file : floc)
  | CbChkptFinish (file : option floc).

#[export] Instance callback_eq_dec : EqDecision callback.
Proof. solve_decision. Defined.

Inductive async_event :=
  | AsyncCallback (k : nat)   (* the [k]-th pending callback *)
  | AsyncProduce.             (* the producer precreates a log *)

Record gfs := mkGfs {
  g_sys : sys G;
  g_fhs : option bitmap;
  g_files : list (option floc);
  g_objs : gmap floc gdpfs_file_t;
  file_hash : gmap file_gname floc;
  recently_closed_list : list floc;   (* most recent first *)
  recently_closed_size : Z;
  g_queue : queue file_gname;
  g_pending : list callback;
  g_sched : list (list async_event);
}.
End types.
Arguments mkFile {G _} _ _ _ _ _ _ _ _ _ _ _ _ _ _.
Arguments log_handle {G _} _.
Arguments hash_key {G _} _.
Arguments ref_count {G _} _.
Arguments cache_fd {G _} _.
Arguments new_file {G _} _.
Arguments info_cache_valid {G _} _.
Arguments info_cache {G _} _.
Arguments last_recno {G _} _.
Arguments outstanding_reqs {G _} _.
Arguments index_flush_reqs {G _} _.
Arguments recently_closed {G _} _.
Arguments file_figtree {G _} _.
Arguments figtree_nodes {G _} _.
Arguments figtree_initialized {G _} _.
Arguments mkGfs {G _} _ _ _ _ _ _ _ _ _ _.
Arguments g_sys {G _} _.
Arguments g_fhs {G _} _.
Arguments g_files {G _} _.
Arguments g_objs {G _} _.
Arguments file_hash {G _} _.
Arguments recently_closed_list {G _} _.
Arguments recently_closed_size {G _} _.
Arguments g_queue {G _} _.
Arguments g_pending {G _} _.
Arguments g_sched {G _} _.

Section setters.
Context {G : Type} `{GdpOps G}.
Definition set_ref_count (v : Z) (F : gdpfs_file_t G) : gdpfs_file_t G :=
  mkFile (log_handle F) (hash_key F) v (cache_fd F) (new_file F) (info_cache_valid F) (info_cache F)
    (last_recno F) (outstanding_reqs F) (index_flush_reqs F) (recently_closed F) (file_figtree F)
    (figtree_nodes F) (figtree_initialized F).
Definition set_cache_fd (v : option local_fd) (F : gdpfs_file_t G) : gdpfs_file_t G :=
  mkFile (log_handle F) (hash_key F) (ref_count F) v (new_file F) (info_cache_valid F) (info_cache
    F) (last_recno F) (outstanding_reqs F) (index_flush_reqs F) (recently_closed F) (file_figtree F)
    (figtree_nodes F) (figtree_initialized F).
Definition set_new_file (v : bool) (F : gdpfs_file_t G) : gdpfs_file_t G :=
  mkFile (log_handle F) (hash_key F) (ref_count F) (cache_fd F) v (info_cache_valid F) (info_cache
    F) (last_recno F) (outstanding_reqs F) (index_flush_reqs F) (recently_closed F) (file_figtree F)
    (figtree_nodes F) (figtree_initialized F).
Definition set_info_cache_valid (v : bool) (F : gdpfs_file_t G) : gdpfs_file_t G :=
  mkFile (log_handle F) (hash_key F) (ref_count F) (cache_fd F) (new_file F) v (info_cache F)
    (last_recno F) (outstanding_reqs F) (index_flush_reqs F) (recently_closed F) (file_figtree F)
    (figtree_nodes F) (figtree_initialized F).
Definition set_info_cache (v : gdpfs_file_info) (F : gdpfs_file_t G) : gdpfs_file_t G :=
  mkFile (log_handle F) (hash_key F) (ref_count F) (cache_fd F) (new_file F) (info_cache_valid F) v
    (last_recno F) (outstanding_reqs F) (index_flush_reqs F) (recently_closed F) (file_figtree F)
    (figtree_nodes F) (figtree_initialized F).
Definition set_last_recno (v : Z) (F : gdpfs_file_t G) : gdpfs_file_t G :=
  mkFile (log_handle F) (hash_key F) (ref_count F) (cache_fd F) (new_file F) (info_cache_valid F)
    (info_cache F) v (outstanding_reqs F) (index_flush_reqs F) (recently_closed F) (file_figtree F)
    (figtree_nodes F) (figtree_initialized F).
Definition set_outstanding_reqs (v : Z) (F : gdpfs_file_t G) : gdpfs_file_t G :=
  mkFile (log_handle F) (hash_key F) (ref_count F) (cache_fd F) (new_file F) (info_cache_valid F)
    (info_cache F) (last_recno F) v (index_flush_reqs F) (recently_closed F) (file_figtree F)
    (figtree_nodes F) (figtree_initialized F).
Definition set_index_flush_reqs (v : Z) (F : gdpfs_file_t G) : gdpfs_file_t G :=
  mkFile (log_handle F) (hash_key F) (ref_count F) (cache_fd F) (new_file F) (info_cache_valid F)
    (info_cache F) (last_recno F) (outstanding_reqs F) v (recently_closed F) (file_figtree F)
    (figtree_nodes F) (figtree_initialized F).
Definition set_recently_closed (v : bool) (F : gdpfs_file_t G) : gdpfs_file_t G :=
  mkFile (log_handle F) (hash_key F) (ref_count F) (cache_fd F) (new_file F) (info_cache_valid F)
    (info_cache F) (last_recno F) (outstanding_reqs F) (index_flush_reqs F) v (file_figtree F)
    (figtree_nodes F) (figtree_initialized F).
Definition set_figtree_initialized (v : bool) (F : gdpfs_file_t G) : gdpfs_file_t G :=
  mkFile (log_handle F) (hash_key F) (ref_count F) (cache_fd F) (new_file F) (info_cache_valid F)
    (info_cache F) (last_recno F) (outstanding_reqs F) (index_flush_reqs F) (recently_closed F)
    (file_figtree F) (figtree_nodes F) v.
Definition set_figtree (t : figtree) (h : Heap.heap ft_node) (F : gdpfs_file_t G) : gdpfs_file_t G :=
  mkFile (log_handle F) (hash_key F) (ref_count F) (cache_fd F) (new_file F) (info_cache_valid F)
    (info_cache F) (last_recno F) (outstanding_reqs F) (index_flush_reqs F) (recently_closed F) t h
    (figtree_initialized F).

Definition set_sys (v : sys G) (s : gfs G) : gfs G :=
  mkGfs v (g_fhs s) (g_files s) (g_objs s) (file_hash s) (recently_closed_list s)
    (recently_closed_size s) (g_queue s) (g_pending s) (g_sched s).
Definition set_fhs (v : option bitmap) (s : gfs G) : gfs G :=
  mkGfs (g_sys s) v (g_files s) (g_objs s) (file_hash s) (recently_closed_list s)
    (recently_closed_size s) (g_queue s) (g_pending s) (g_sched s).
Definition set_files (v : list (option floc)) (s : gfs G) : gfs G :=
  mkGfs (g_sys s) (g_fhs s) v (g_objs s) (file_hash s) (recently_closed_list s)
    (recently_closed_size s) (g_queue s) (g_pending s) (g_sched s).
Definition set_objs (v : gmap floc (gdpfs_file_t G)) (s : gfs G) : gfs G :=
  mkGfs (g_sys s) (g_fhs s) (g_files s) v (file_hash s) (recently_closed_list s)
    (recently_closed_size s) (g_queue s) (g_pending s) (g_sched s).
Definition set_hash (v : gmap file_gname floc) (s : gfs G) : gfs G :=
  mkGfs (g_sys s) (g_fhs s) (g_files s) (g_objs s) v (recently_closed_list s) (recently_closed_size
    s) (g_queue s) (g_pending s) (g_sched s).
Definition set_queue (v : queue file_gname) (s : gfs G) : gfs G :=
  mkGfs (g_sys s) (g_fhs s) (g_files s) (g_objs s) (file_hash s) (recently_closed_list s)
    (recently_closed_size s) v (g_pending s) (g_sched s).
Definition set_pending (v : list callback) (s : gfs G) : gfs G :=
  mkGfs (g_sys s) (g_fhs s) (g_files s) (g_objs s) (file_hash s) (recently_closed_list s)
    (recently_closed_size s) (g_queue s) v (g_sched s).
Definition set_sched (v : list (list async_event)) (s : gfs G) : gfs G :=
  mkGfs (g_sys s) (g_fhs s) (g_files s) (g_objs s) (file_hash s) (recently_closed_list s)
    (recently_closed_size s) (g_queue s) (g_pending s) v.
Definition set_rc (l : list floc) (n : Z) (s : gfs G) : gfs G :=
  mkGfs (g_sys s) (g_fhs s) (g_files s) (g_objs s) (file_hash s) l n (g_queue s) (g_pending s)
    (g_sched s).
End setters.

Section operations.
Context {G : Type} `{GdpOps G} `{!Heap.Allocator} `{!FileConfig}.

Abbreviation file_prog := (st (gfs G)).

(** ** Access to the parts of the state *)

Definition on_sys {A} (c : st (sys G) A) : file_prog A := λ s,
  match c (g_sys s) with
  | Ok (a, y) => Ok (a, set_sys y s)
  | Fault f => Fault f
  end.

Definition on_fhs (c : option bitmap → res (Z * option bitmap)) : file_prog Z := λ s,
  match c (g_fhs s) with
  | Ok (r, b) => Ok (r, set_fhs b s)
  | Fault f => Fault f
  end.

(** Dereferencing a [gdpfs_file_t *]. *)
Definition the_file (p : floc) : file_prog (gdpfs_file_t G) := λ s,
  match g_objs s !! p with Some F => Ok (F, s) | None => Fault DanglingPtr end.

Definition update_file (p : floc) (f : gdpfs_file_t G → gdpfs_file_t G) : file_prog unit := λ s,
  match g_objs s !! p with
  | Some F => Ok (tt, set_objs (<[p := f F]> (g_objs s)) s)
  | None => Fault DanglingPtr
  end.

(** A call on the cache file, and on the nodes of the FIG tree. *)
Definition on_cache {A} (p : floc) (c : fd_prog A) : file_prog A :=
  F ← the_file p;
  match cache_fd F with
  | None => st_fail AssertFail
  | Some fd =>
      '(a, fd) ← on_sys (on_fd fd c);
      update_file p (set_cache_fd (Some fd));;
      mret a
  end.

Definition on_nodes {A} (p : floc) (c : Heap.prog ft_node A) : file_prog A :=
  F ← the_file p;
  '(a, h) ← st_lift (c (figtree_nodes F));
  update_file p (set_figtree (file_figtree F) h);;
  mret a.

Definition set_tree (p : floc) (t : figtree) : file_prog unit :=
  update_file p (λ F, set_figtree t (figtree_nodes F) F).

(** The log as [subtree_get] reads it.  The cache files this creates are not
    kept. *)
Definition read_record (h : gdpfs_log_t G) (recno : Z) : st (sys G) (option logent) :=
  '(estat, ent) ← gdpfs_log_ent_open gcl_mode h recno false;
  if negb (EP_STAT_ISOK estat) then mret None else
  size ← gdpfs_log_ent_length ent;
  '(bs, ent) ← gdpfs_log_ent_read ent size;
  mret (decode_record bs).

Definition index_log (h : gdpfs_log_t G) (s : gfs G) : gdpfs_log := λ recno,
  match read_record h recno (g_sys s) with Ok (r, _) => r | Fault _ => None end.

(** A call on the FIG tree of a file. *)
Definition on_index {A} (p : floc) (c : gdpfs_log → figtree → Heap.prog ft_node A) : file_prog A :=
  F ← the_file p;
  s ← st_get;
  on_nodes p (c (index_log (log_handle F) s) (file_figtree F)).

(** [ft_write (&file->figtree, start, end, value, file->log_handle)]; byte
    indices are 32 bits wide. *)
Definition index_write (p : floc) (start end_ value : Z) : file_prog unit :=
  t ← on_index p (λ log t, ft_write log t (wrap32 start) (wrap32 end_) value);
  set_tree p t.

Definition index_init (p : floc) : file_prog unit :=
  t ← on_nodes p ft_init;
  set_tree p t.

(** ** Handles *)

Definition file_at (fh : Z) : file_prog (option floc) := λ s,
  match g_files s !! Z.to_nat fh with Some o => Ok (o, s) | None => Fault OutOfBounds end.

Definition lookup_fh (fh : Z) : file_prog (option floc) :=
  set ← on_fhs (λ b, r ← bitmap_is_set b (wrap64 fh); Ok (r, b));
  if set <? 0 then mret None else file_at fh.

(** ** The cache of file contents *)

(** [gdpfs_file_fill_cache (file, buffer, size, offset, true)] *)
Definition gdpfs_file_fill_cache (p : floc) (buffer : list Z) (offset : Z) : file_prog stat :=
  if negb use_cache then mret GDPFS_STAT_INVLDMODE else
  r ← on_cache p (lseek offset 0);
  if r <? 0 then mret GDPFS_STAT_OOMEM else
  n ← on_cache p (write buffer);
  if negb (n =? Z.of_nat (length buffer)) then mret GDPFS_STAT_OOMEM
  else mret GDPFS_STAT_OK.

(** On a hit, the [size] bytes from [offset] on. *)
Definition gdpfs_file_get_cache (p : floc) (size offset : Z) : file_prog (option (list Z)) :=
  if negb use_cache then mret None else
  F ← the_file p;
  let check hit :=
    if hit : bool then
      _ ← on_cache p (lseek offset 0);
      bs ← on_cache p (read size);
      mret (if Z.of_nat (length bs) =? size then Some bs else None)
    else mret None in
  if new_file F then check true
  else if size =? 0 then mret (Some [])
  else
    lrv ← on_cache p (lseek_hole HOLE_BLOCK offset);
    check (negb (lrv =? -1) && (offset + size <=? lrv)).

(** ** The cached header *)

Definition _file_load_info_cache (p : floc) : file_prog stat :=
  F ← the_file p;
  let done e i := update_file p (set_info_cache i);; mret e in
  '(estat, log_ent) ← on_sys (gdpfs_log_ent_open gcl_mode (log_handle F) (-1) true);
  if EP_STAT_IS_SAME estat GDPFS_STAT_NOTFOUND then
    done GDPFS_STAT_OK (mkInfo 0 GDPFS_FILE_TYPE_NEW 0)
  else if negb (EP_STAT_ISOK estat) then done estat (mkInfo 0 GDPFS_FILE_TYPE_UNKNOWN 0)
  else
    '(bs, log_ent) ← on_sys (gdpfs_log_ent_read log_ent sizeof_fmeta);
    if negb (Z.of_nat (length bs) =? sizeof_fmeta)
    then done GDPFS_STAT_CORRUPT (mkInfo 0 GDPFS_FILE_TYPE_UNKNOWN 0)
    else
      match decode_fmeta bs with
      | None => st_fail Uninitialised
      | Some m =>
          on_sys (gdpfs_log_ent_close log_ent);;
          done GDPFS_STAT_OK (mkInfo (fm_file_size m) (fm_file_type m) (fm_file_perm m))
      end.

(** [_file_get_info_raw]; callers that write through the returned pointer
    update [info_cache]. *)
Definition _file_get_info_raw (p : floc) : file_prog (stat * gdpfs_file_info) :=
  F ← the_file p;
  if info_cache_valid F then mret (GDPFS_STAT_OK, info_cache F) else
  estat ← _file_load_info_cache p;
  if negb (EP_STAT_ISOK estat) then F ← the_file p; mret (estat, info_cache F) else
  update_file p (set_info_cache_valid true);;
  F ← the_file p;
  mret (GDPFS_STAT_OK, info_cache F).

Definition no_info : gdpfs_file_info := mkInfo 0 GDPFS_FILE_TYPE_UNKNOWN 0.

Definition gdpfs_file_get_info (fh : Z) : file_prog (stat * gdpfs_file_info) :=
  file ← lookup_fh fh;
  match file with
  | None => mret (GDPFS_STAT_BADFH, no_info)
  | Some p => _file_get_info_raw p
  end.

(** ** Checkpoints *)

Definition add_pending (cb : callback) : file_prog unit :=
  st_modify (λ s, set_pending (g_pending s ++ [cb]) s).

Definition _file_chkpt (p : floc) (do_callback : bool) : file_prog unit :=
  '(estat, info) ← _file_get_info_raw p;
  if negb (EP_STAT_ISOK estat) then st_fail FatalError else
  update_file p (λ F, set_last_recno (last_recno F + 1) F);;
  F ← the_file p;
  chkpt ← on_index p (λ _ t, get_dirty t (last_recno F));
  if (0 <? Z.of_nat (length chkpt)) then
    update_file p (λ F, set_index_flush_reqs (index_flush_reqs F + 1) F);;
    let entry := mkFmeta (file_size info) (file_perm info) (file_type info) GDPFS_LOGENT_TYPE_CHKPT
                   (-1) (sizeof_ft_node * Z.of_nat (length chkpt)) MAGIC_NUMBER in
    '(_, ent) ← on_sys (gdpfs_log_ent_write gdpfs_log_ent_init (encode_fmeta entry));
    '(_, ent) ← on_sys (gdpfs_log_ent_write ent (chkpt ≫= encode_node));
    estat ← on_sys (gdpfs_log_append gcl_mode (log_handle F) ent true);
    st_assert (EP_STAT_ISOK estat);;
    add_pending (CbChkptFinish (if do_callback then Some p else None));;
    on_sys (gdpfs_log_ent_close ent)
  else mret tt.

(** Waiting for the outstanding requests would need the event thread; a file
    without references has none. *)
Definition _file_dealloc (p : floc) : file_prog stat :=
  F ← the_file p;
  if negb (outstanding_reqs F =? 0) then st_fail OutOfFuel else
  _file_chkpt p true;;
  mret GDPFS_STAT_OK.

(** ** References and recently closed files *)

Definition _recently_closed_insert (p : floc) : file_prog stat :=
  F ← the_file p;
  st_assert (negb (recently_closed F));;
  update_file p (set_recently_closed true);;
  s ← st_get;
  let size := recently_closed_size s in
  let l := p :: recently_closed_list s in
  st_assert ((size <=? RC_CAP) && (0 <=? size));;
  if size =? RC_CAP then
    match last l with
    | None => st_fail NullDeref
    | Some oldfile =>
        st_modify (set_rc (take (length l - 1) l) size);;
        update_file oldfile (set_recently_closed false);;
        _file_dealloc oldfile
    end
  else st_modify (set_rc l (size + 1));; mret GDPFS_STAT_OK.

Definition _recently_closed_revive (p : floc) : file_prog unit :=
  F ← the_file p;
  st_assert (recently_closed F);;
  update_file p (set_recently_closed false);;
  st_modify (λ s, set_rc (filter (λ q, q ≠ p) (recently_closed_list s)) (recently_closed_size s - 1) s).

Definition _file_unref (p : floc) : file_prog stat :=
  update_file p (λ F, set_ref_count (wrap32 (ref_count F - 1)) F);;
  F ← the_file p;
  if ref_count F =? 0 then _recently_closed_insert p else mret GDPFS_STAT_OK.

Definition _file_ref (p : floc) : file_prog stat :=
  update_file p (λ F, set_ref_count (wrap32 (ref_count F + 1)) F);;
  mret EP_STAT_OK.

Definition gdpfs_file_close (fh : Z) : file_prog stat :=
  file ← lookup_fh fh;
  match file with
  | None => mret GDPFS_STAT_BADFH
  | Some p => _ ← on_fhs (λ b, bitmap_release b fh); _file_unref p
  end.

(** ** Callbacks *)

Definition free_fileref (p : floc) : file_prog unit :=
  update_file p (λ F, set_outstanding_reqs (outstanding_reqs F - 1) F);;
  _ ← _file_unref p;
  mret tt.

Definition _file_chkpt_finish (file : option floc) : file_prog unit :=
  match file with
  | None => mret tt
  | Some p =>
      update_file p (λ F, set_index_flush_reqs (index_flush_reqs F - 1) F);;
      F ← the_file p;
      if negb (index_flush_reqs F =? 0) then mret tt
      else if negb (ref_count F =? 0) || recently_closed F then mret tt
      else
        st_modify (λ s, set_hash (delete (hash_key F) (file_hash s)) s);;
        _ ← on_nodes p (ft_dealloc (file_figtree F));
        st_modify (λ s, set_objs (delete p (g_objs s)) s)
  end.

Definition run_callback (cb : callback) : file_prog unit :=
  match cb with
  | CbFreeFileref p => free_fileref p
  | CbChkptFinish o => _file_chkpt_finish o
  end.

(** The [k]-th pending callback, if there is one. *)
Definition run_pending (k : nat) : file_prog unit :=
  s ← st_get;
  match g_pending s !! k with
  | None => mret tt
  | Some cb => st_put (set_pending (delete k (g_pending s)) s);; run_callback cb
  end.

(** ** Writing *)

(** [written = size] is returned if the append was accepted; its callback is
    [free_fileref]. *)
Definition do_write (fh : Z) (buf : list Z) (offset : Z) (info : gdpfs_file_info) : file_prog Z :=
  let size := Z.of_nat (length buf) in
  let entry := mkFmeta (file_size info) (file_perm info) (file_type info) GDPFS_LOGENT_TYPE_DATA
                 offset size MAGIC_NUMBER in
  file ← lookup_fh fh;
  match file with
  | None => mret 0
  | Some p =>
    let log_ent := gdpfs_log_ent_init in
    '(r, log_ent) ← on_sys (gdpfs_log_ent_write log_ent (encode_fmeta entry));
    if negb (r =? 0) then on_sys (gdpfs_log_ent_close log_ent);; mret 0 else
    '(r, log_ent) ← on_sys (gdpfs_log_ent_write log_ent buf);
    if negb (r =? 0) then on_sys (gdpfs_log_ent_close log_ent);; mret 0 else
    _ ← _file_ref p;
    update_file p (λ F, set_outstanding_reqs (outstanding_reqs F + 1) F);;
    (if use_cache then _ ← gdpfs_file_fill_cache p buf offset; mret tt else mret tt);;
    update_file p (λ F, set_last_recno (last_recno F + 1) F);;
    F ← the_file p;
    (if 0 <? size then index_write p offset (offset + size - 1) (last_recno F) else mret tt);;
    estat ← on_sys (gdpfs_log_append gcl_mode (log_handle F) log_ent true);
    (if EP_STAT_ISOK estat then add_pending (CbFreeFileref p) else mret tt);;
    on_sys (gdpfs_log_ent_close log_ent);;
    mret (if EP_STAT_ISOK estat then size else 0)
  end.

(** Writing through the pointer that [gdpfs_file_get_info] returned. *)
Definition set_cached_info (fh : Z) (i : gdpfs_file_info) : file_prog unit :=
  file ← lookup_fh fh;
  match file with None => mret tt | Some p => update_file p (set_info_cache i) end.

Definition gdpfs_file_write (fh : Z) (buf : list Z) (offset : Z) : file_prog Z :=
  '(estat, info) ← gdpfs_file_get_info fh;
  if negb (EP_STAT_ISOK estat) then mret 0 else
  let potential_size := wrap64 (offset + Z.of_nat (length buf)) in
  let info := mkInfo (Z.max (file_size info) potential_size) (file_type info) (file_perm info) in
  set_cached_info fh info;;
  do_write fh buf offset info.

(** The length is not used. *)
Definition gdpfs_file_ftruncate (fh file_size : Z) : file_prog Z :=
  '(estat, info) ← gdpfs_file_get_info fh;
  if negb (EP_STAT_ISOK estat) then mret 0 else
  let info := mkInfo 0 (file_type info) (file_perm info) in
  set_cached_info fh info;;
  do_write fh [] 0 info.

Definition gdpfs_file_set_perm (fh perm : Z) : file_prog stat :=
  '(estat, info) ← gdpfs_file_get_info fh;
  if negb (EP_STAT_ISOK estat) then mret estat else
  let info := mkInfo (file_size info) (file_type info) perm in
  set_cached_info fh info;;
  _ ← do_write fh [] 0 info;
  mret GDPFS_STAT_OK.

Definition gdpfs_file_set_info (fh : Z) (info : gdpfs_file_info) : file_prog stat :=
  _ ← do_write fh [] 0 info;
  mret GDPFS_STAT_OK.

(** ** Reading *)

(** [memcpy (buf + pos, bs, ...)] *)
Definition splice (buf : list Z) (pos : Z) (bs : list Z) : list Z :=
  take (Z.to_nat pos) buf ++ bs ++ drop (Z.to_nat pos + length bs) buf.

(** The bytes [left .. right] of a file from the record that holds them. *)
Definition read_from_record (h : gdpfs_log_t G) (recno left right : Z) : st (sys G) (list Z) :=
  '(_, log_ent) ← gdpfs_log_ent_open gcl_mode h recno true;
  data_size ← gdpfs_log_ent_length log_ent;
  '(bs, log_ent) ← gdpfs_log_ent_read log_ent sizeof_fmeta;
  if negb (Z.of_nat (length bs) =? sizeof_fmeta) then st_fail FatalError else
  match decode_fmeta bs with
  | None => st_fail Uninitialised
  | Some entry =>
      if negb (data_size =? wrap64 (sizeof_fmeta + fm_ent_size entry)) then st_fail FatalError else
      '(_, log_ent) ← gdpfs_log_ent_drain log_ent (left - fm_ent_offset entry);
      '(bs, log_ent) ← gdpfs_log_ent_read log_ent (right - left + 1);
      st_assert (Z.of_nat (length bs) =? right - left + 1);;
      gdpfs_log_ent_close log_ent;;
      mret bs
  end.

(** The loop over the ranges of the index; [log] is the log as it was when the
    iteration began (records do not change).  A range with a negative value would
    be read asynchronously by [handle_read], which uses an uninitialised log
    entry. *)
Fixpoint read_loop (fuel : nat) (log : gdpfs_log) (p : floc) (offset : Z) (figterator : figtree_iter)
    (buf : list Z) : file_prog (list Z) :=
  match fuel with
  | O => st_fail OutOfFuel
  | S fuel =>
      '(indexgroup, figterator) ← on_nodes p (fti_next log figterator);
      match indexgroup with
      | None => mret buf
      | Some (mkFig irange value) =>
          let left := i_left irange in
          let right := i_right irange in
          F ← the_file p;
          bs ←
            (if value =? 0 then
               o ← gdpfs_file_get_cache p (right - left + 1) left;
               match o with Some bs => mret bs | None => st_fail AssertFail end
             else if 0 <? value then on_sys (read_from_record (log_handle F) value left right)
             else st_fail Uninitialised);
          read_loop fuel log p offset figterator (splice buf (left - offset) bs)
      end
  end.

(** Reading past the cache: the ranges of the index, zeros elsewhere. *)
Definition read_index (p : floc) (size offset : Z) : file_prog (list Z) :=
  F ← the_file p;
  s ← st_get;
  let log := index_log (log_handle F) s in
  figterator ← on_nodes p (ft_read log (file_figtree F) (wrap32 offset) (wrap32 (offset + size - 1)));
  buf ← read_loop (S (S (Z.to_nat size))) log p offset figterator (replicate (Z.to_nat size) 0);
  _ ← gdpfs_file_fill_cache p buf offset;
  mret buf.

Definition do_read (fh size offset : Z) : file_prog (list Z) :=
  file ← lookup_fh fh;
  match file with
  | None => mret []
  | Some p =>
    '(estat, info) ← _file_get_info_raw p;
    if negb (EP_STAT_ISOK estat) then mret [] else
    if (file_size info <? wrap64 (size + offset)) && (file_size info <? offset) then mret [] else
    let size := if file_size info <? wrap64 (size + offset) then file_size info - offset else size in
    hit ← (if use_cache then gdpfs_file_get_cache p size offset else mret None);
    match hit with
    | Some bs => mret bs
    | None => if 0 <? size then read_index p size offset else mret []
    end
  end.

Definition gdpfs_file_read (fh size offset : Z) : file_prog (list Z) := do_read fh size offset.

Definition gdpfs_file_gname (fh : Z) : file_prog file_gname :=
  file ← file_at fh;
  match file with None => st_fail NullDeref | Some p => F ← the_file p; mret (hash_key F) end.

(** ** Loading the index of a log *)

Definition new_object (h : gdpfs_log_t G) (key : file_gname) (fd : option local_fd) : gdpfs_file_t G :=
  mkFile h key 0 fd false false (mkInfo 0 GDPFS_FILE_TYPE_REGULAR 0) 0 0 0 false
    (mkFigtree None) ∅ false.

(** The header of an entry that fills the whole record. *)
Definition entry_header (bs : list Z) (data_size : Z) : file_prog gdpfs_fmeta :=
  if negb (Z.of_nat (length bs) =? sizeof_fmeta) then st_fail FatalError else
  match decode_fmeta bs with
  | None => st_fail Uninitialised
  | Some entry =>
      if negb (data_size =? wrap64 (sizeof_fmeta + fm_ent_size entry)) then st_fail FatalError
      else mret entry
  end.

(** The root of a checkpoint: the last image of the entry. *)
Definition load_root (p : floc) (ent : gdpfs_log_ent G) (entry : gdpfs_fmeta) (data_size : Z)
    : file_prog unit :=
  st_assert (fm_ent_size entry mod sizeof_ft_node =? 0);;
  st_assert (0 <? fm_ent_size entry);;
  '(_, ent) ← on_sys (gdpfs_log_ent_drain ent (data_size - sizeof_ft_node));
  '(bs, ent) ← on_sys (gdpfs_log_ent_read ent sizeof_ft_node);
  match decode_node (bs ++ replicate (Z.to_nat sizeof_ft_node - length bs) 0) with
  | None => st_fail OutOfBounds
  | Some image =>
      root ← on_nodes p (Heap.alloc image);
      set_tree p (ft_init_with_root root)
  end.

(** The loop from the last record down to the first one or to a checkpoint: the
    entries of the data records, oldest first, and the record number it ends
    with. *)
Fixpoint collect_ents (n : nat) (p : floc) (recno : Z) (ents : list (gdpfs_log_ent G))
    : file_prog (list (gdpfs_log_ent G) * Z) :=
  match n with
  | O => mret (ents, recno)
  | S n =>
      F ← the_file p;
      '(estat, ent) ← on_sys (gdpfs_log_ent_open gcl_mode (log_handle F) recno true);
      st_assert (EP_STAT_ISOK estat);;
      data_size ← on_sys (gdpfs_log_ent_length ent);
      '(bs, ent) ← on_sys (gdpfs_log_ent_peek ent sizeof_fmeta);
      entry ← entry_header bs data_size;
      if decide (fm_logent_type entry = GDPFS_LOGENT_TYPE_CHKPT) then
        load_root p ent entry data_size;; mret (ents, recno)
      else collect_ents n p (recno - 1) (ent :: ents)
  end.

(** Copying the data of an entry to the cache, 1024 bytes at a time. *)
Fixpoint copy_to_cache (fuel : nat) (p : floc) (ent : gdpfs_log_ent G) (ent_offset ent_size read : Z)
    : file_prog (gdpfs_log_ent G) :=
  match fuel with
  | O => st_fail OutOfFuel
  | S fuel =>
      if read <? ent_size then
        let toread := Z.min (ent_size - read) 1024 in
        '(bounce, ent) ← on_sys (gdpfs_log_ent_read ent toread);
        st_assert (toread =? Z.of_nat (length bounce));;
        estat ← gdpfs_file_fill_cache p bounce (ent_offset + read);
        st_assert (EP_STAT_ISOK estat);;
        copy_to_cache fuel p ent ent_offset ent_size (read + toread)
      else mret ent
  end.

Definition replay_ent (p : floc) (ent : gdpfs_log_ent G) : file_prog unit :=
  data_size ← on_sys (gdpfs_log_ent_length ent);
  '(bs, ent) ← on_sys (gdpfs_log_ent_read ent sizeof_fmeta);
  entry ← entry_header bs data_size;
  ent ←
    (if 0 <? fm_ent_size entry then
       recno ← on_sys (gdpfs_log_ent_recno ent);
       index_write p (fm_ent_offset entry) (fm_ent_offset entry + fm_ent_size entry - 1) recno;;
       copy_to_cache (S (Z.to_nat (fm_ent_size entry))) p ent (fm_ent_offset entry) (fm_ent_size entry) 0
     else mret ent);
  on_sys (gdpfs_log_ent_close ent).

Fixpoint replay (p : floc) (ents : list (gdpfs_log_ent G)) : file_prog unit :=
  match ents with
  | [] => mret tt
  | ent :: ents => replay_ent p ent;; replay p ents
  end.

Definition load_index (p : floc) (strict_init : bool) : file_prog unit :=
  F ← the_file p;
  if strict_init then
    index_init p;;
    update_file p (set_last_recno 1);;
    update_file p (set_figtree_initialized true)
  else if negb (figtree_initialized F) then
    '(estat, ent) ← on_sys (gdpfs_log_ent_open gcl_mode (log_handle F) (-1) true);
    recno ← on_sys (gdpfs_log_ent_recno ent);
    update_file p (set_last_recno recno);;
    on_sys (gdpfs_log_ent_close ent);;
    let recno := if EP_STAT_IS_SAME estat GDPFS_STAT_NOTFOUND then 0 else recno in
    '(ents, recno) ← collect_ents (Z.to_nat recno) p recno [];
    (if recno =? 0 then index_init p else mret tt);;
    replay p ents;;
    update_file p (set_figtree_initialized true)
  else mret tt.

(** ** Opening *)

(** The part under [open_lock]: the object of the log, opened, revived or new. *)
Definition find_file (log_name : file_gname) : file_prog (stat * option floc) :=
  s ← st_get;
  match file_hash s !! log_name with
  | None =>
      '(estat, h) ← on_sys (gdpfs_log_open gcl_mode log_name);
      match h with
      | None => mret (estat, None)
      | Some h =>
          fd ← (if use_cache then fd ← on_sys (local_create (log_name, None)); mret (Some fd)
                else mret None);
          s ← st_get;
          let p := Heap.malloc (dom (g_objs s)) in
          st_put (set_hash (<[log_name := p]> (file_hash s))
                    (set_objs (<[p := new_object h log_name fd]> (g_objs s)) s));;
          mret (GDPFS_STAT_OK, Some p)
      end
  | Some p =>
      F ← the_file p;
      (if recently_closed F then _recently_closed_revive p else mret tt);;
      mret (GDPFS_STAT_OK, Some p)
  end.

(** The check of the type, and the initialisation of a new file. *)
Definition check_type (fh : Z) (p : floc) (type : gdpfs_file_type) (perm : Z) (init strict_init : bool)
    : file_prog stat :=
  if decide (type = GDPFS_FILE_TYPE_UNKNOWN) then mret GDPFS_STAT_OK else
  '(estat, current_info) ← _file_get_info_raw p;
  if negb (EP_STAT_ISOK estat) then mret estat else
  if init then
    if decide (file_type current_info = GDPFS_FILE_TYPE_NEW) then
      let info := mkInfo 0 type perm in
      update_file p (set_info_cache info);;
      _ ← do_write fh [] 0 info;
      mret GDPFS_STAT_OK
    else if bool_decide (file_type current_info = GDPFS_FILE_TYPE_UNKNOWN) || strict_init
    then mret GDPFS_STAT_INVLDFTYPE
    else mret GDPFS_STAT_OK
  else if decide (file_type current_info = type) then mret GDPFS_STAT_OK
  else mret GDPFS_STAT_INVLDFTYPE.

(** A handle of [(uint64_t) -1] is written -1. *)
Definition open_file (log_name : file_gname) (type : gdpfs_file_type) (perm : Z)
    (init strict_init : bool) : file_prog (stat * Z) :=
  fh ← on_fhs bitmap_reserve;
  if fh =? UINT64_MINUS_1 then mret (GDPFS_STAT_OOMEM, -1) else
  '(estat, file) ← find_file log_name;
  match file with
  | None => _ ← on_fhs (λ b, bitmap_release b fh); mret (estat, -1)
  | Some p =>
      _ ← _file_ref p;
      _ ← file_at fh;
      st_modify (λ s, set_files (<[Z.to_nat fh := Some p]> (g_files s)) s);;
      (if strict_init then update_file p (set_new_file true) else mret tt);;
      estat ← check_type fh p type perm init strict_init;
      if negb (EP_STAT_ISOK estat) then _ ← gdpfs_file_close fh; mret (estat, -1) else
      load_index p strict_init;;
      mret (GDPFS_STAT_OK, fh)
  end.

Definition gdpfs_file_open (name : file_gname) : file_prog (stat * Z) :=
  open_file name GDPFS_FILE_TYPE_UNKNOWN 0 false false.

Definition gdpfs_file_open_type (name : file_gname) (type : gdpfs_file_type) : file_prog (stat * Z) :=
  open_file name type 0 false false.

Definition gdpfs_file_open_init (name : file_gname) (type : gdpfs_file_type) (perm : Z)
    (strict_init : bool) : file_prog (stat * Z) :=
  open_file name type perm true strict_init.

(** ** Creating *)

Definition zero_name : file_gname := replicate GNAME_SIZE 0.

Definition queue_step (ev : event file_gname) : file_prog (option file_gname) := λ s,
  match step zero_name (g_queue s) ev with
  | Some (q, o) => Ok (o, set_queue q s)
  | None => Fault AssertFail
  end.

(** The producer thread, from its first locked region to its second, unless it
    waits for a free slot. *)
Definition produce : file_prog unit :=
  s ← st_get;
  if negb (bool_decide (q_producer (g_queue s) = PCheck)) then mret tt else
  _ ← queue_step EvProducer;
  s ← st_get;
  if negb (bool_decide (q_producer (g_queue s) = PCreate)) then mret tt else
  '(estat, name) ← on_sys (in_gdp gdp_gcl_create);
  _ ← queue_step (EvCreate (if EP_STAT_ISOK estat then name else None));
  _ ← queue_step EvPublish;
  mret tt.

(** [gdpfs_log_get_precreated], with this thread as consumer 0; it waits for the
    producer if the queue is empty, and its signal wakes the producer if that
    one waits. *)
Definition get_precreated : file_prog (option file_gname) :=
  s ← st_get;
  (if is_empty (g_queue s) then produce else mret tt);;
  s ← st_get;
  let w := if decide (q_producer (g_queue s) = PWait) then Some Producer else None in
  _ ← queue_step (EvCall 0);
  queue_step (EvTake 0 w).

Definition gdpfs_file_create (type : gdpfs_file_type) (perm : Z)
    : file_prog (stat * Z * file_gname) :=
  o ← get_precreated;
  match o with
  | None => st_fail OutOfFuel
  | Some log_iname =>
      '(estat, fh) ← gdpfs_file_open_init log_iname type perm true;
      mret (if EP_STAT_ISOK estat then GDPFS_STAT_OK else estat, fh, log_iname)
  end.

(** ** What happens between calls *)

Definition run_async (ev : async_event) : file_prog unit :=
  match ev with
  | AsyncCallback k => run_pending k
  | AsyncProduce => produce
  end.

Fixpoint run_asyncs (evs : list async_event) : file_prog unit :=
  match evs with
  | [] => mret tt
  | ev :: evs => run_async ev;; run_asyncs evs
  end.

(** Appends are acknowledged eventually: no more than this many are pending. *)
Definition MAX_PENDING : nat := 65536.

Fixpoint drain_pending (n : nat) : file_prog unit :=
  match n with
  | O => mret tt
  | S n =>
      s ← st_get;
      if (length (g_pending s) <? MAX_PENDING)%nat then mret tt
      else run_pending 0;; drain_pending n
  end.

Definition settle : file_prog unit :=
  s ← st_get;
  st_put (set_sched (tail (g_sched s)) s);;
  run_asyncs (default [] (head (g_sched s)));;
  s ← st_get;
  drain_pending (length (g_pending s)).

(** ** Starting and stopping *)

(** [init_gdpfs_file] on a service [y]: the globals are reset and, with the
    cache, [CACHE_DIR] is emptied. *)
Definition init_gdpfs_file (y : sys G) (sched : list (list async_event)) : gfs G :=
  mkGfs (if use_cache then mkSys (sys_gdp y) ∅ else y) (bitmap_create MAX_FHS 0)
    (replicate (Z.to_nat MAX_FHS) None) ∅ ∅ [] 0 (init_queue zero_name 1) [] sched.

Fixpoint chkpt_all (ps : list floc) : file_prog unit :=
  match ps with
  | [] => mret tt
  | p :: ps => _file_chkpt p false;; chkpt_all ps
  end.

Definition stop_gdpfs_file : file_prog unit :=
  s ← st_get;
  chkpt_all (map_to_list (file_hash s)).*2.

End operations.

#[export] Instance file_ops {G} `{GdpOps G} `{!Heap.Allocator} `{!FileConfig} : FileOps (gfs G) := {|
  FileIface.gdpfs_file_open g := settle;; gdpfs_file_open g;
  FileIface.gdpfs_file_open_type g t := settle;; gdpfs_file_open_type g t;
  FileIface.gdpfs_file_open_init g t p b := settle;; gdpfs_file_open_init g t p b;
  FileIface.gdpfs_file_create t p := settle;; gdpfs_file_create t p;
  FileIface.gdpfs_file_close fh := settle;; gdpfs_file_close fh;
  FileIface.gdpfs_file_gname fh := settle;; gdpfs_file_gname fh;
  FileIface.gdpfs_file_read fh n off := settle;; gdpfs_file_read fh n off;
  FileIface.gdpfs_file_write fh bs off := settle;; gdpfs_file_write fh bs off;
  FileIface.gdpfs_file_ftruncate fh n := settle;; gdpfs_file_ftruncate fh n;
  FileIface.gdpfs_file_set_perm fh p := settle;; gdpfs_file_set_perm fh p;
  FileIface.gdpfs_file_get_info fh := settle;; gdpfs_file_get_info fh;
|}.
