(* ===== verification/FileSpec.v ===== *)
(** * Files as sequences of log entries

    The data records of a log in order determine the file: its bytes, its header,
    and the index of the log. *)
From S2P Require Import Prelude.
From S2P Require Import State.
From S2P Require Import Types.
From S2P Require Import FileIface.
From S2P Require Import FigNode.
From S2P Require Import FigTheorems.
From S2P Require Import FigRanges.
From S2P Require Import FigIter.
From S2P Require Import Format.
From S2P Require Import FormatProof.
From S2P Require Import Interval.
From S2P Require Import File.

#[local] Open Scope Z_scope.

(** ** Entries *)

Record fent := mkFent {
  fe_info : gdpfs_file_info;
  fe_off : Z;
  fe_data : list Z;
}.

Definition fe_size (e : fent) : Z := Z.of_nat (length (fe_data e)).

Definition fe_meta (e : fent) : gdpfs_fmeta :=
  mkFmeta (file_size (fe_info e)) (file_perm (fe_info e)) (file_type (fe_info e))
    GDPFS_LOGENT_TYPE_DATA (fe_off e) (fe_size e) MAGIC_NUMBER.

Definition encode_fent (e : fent) : list Z := encode_fmeta (fe_meta e) ++ fe_data e.

Record fent_ok (e : fent) : Prop := {
  fo_info_size : in_width 64 (file_size (fe_info e));
  fo_info_perm : in_width 16 (file_perm (fe_info e));
  fo_info_type : plain_type (file_type (fe_info e)) = true;
  fo_off : 0 ≤ fe_off e;
  fo_end : fe_off e + fe_size e < BYTE_INDEX_MAX;
}.

Lemma fe_meta_ok e : fent_ok e → fmeta_ok (fe_meta e).
Proof.
  intros []. unfold BYTE_INDEX_MAX in *. constructor; simpl; try done; unfold in_width, fe_size in *; lia.
Qed.

Lemma encode_fent_length e : Z.of_nat (length (encode_fent e)) = sizeof_fmeta + fe_size e.
Proof. unfold encode_fent. rewrite length_app, Nat2Z.inj_add, encode_fmeta_length. done. Qed.

Lemma decode_fent e : fent_ok e → decode_fmeta (take (Z.to_nat sizeof_fmeta) (encode_fent e)) = Some (fe_meta e).
Proof. intros He. unfold encode_fent. rewrite take_header. by apply decode_header, fe_meta_ok. Qed.

Lemma drop_fent e : drop (Z.to_nat sizeof_fmeta) (encode_fent e) = fe_data e.
Proof. apply drop_header. Qed.

(** ** What a sequence of entries means *)

Definition no_entry : gdpfs_file_info := mkInfo 0 GDPFS_FILE_TYPE_NEW 0.

Definition info_of (es : list fent) : gdpfs_file_info := from_option fe_info no_entry (last es).

Definition data_of (es : list fent) : gmap Z Z :=
  foldl (λ m e, write_data m (fe_data e) (fe_off e)) ∅ es.

Definition file_of (es : list fent) : afile := mkAfile (info_of es) (data_of es).

Definition data_byte (es : list fent) (b : Z) : Z := default 0 (data_of es !! b).

Definition covers (e : fent) (b : Z) : Prop := fe_off e ≤ b < fe_off e + fe_size e.

#[export] Instance covers_dec e b : Decision (covers e b).
Proof. unfold covers. apply _. Defined.

Definition write_index (m : byte_map) (n : Z) (e : fent) : byte_map :=
  if decide (fe_data e = []) then m else bm_write m (fe_off e) (fe_off e + fe_size e - 1) n.

(** The entries from record number [n] on. *)
Fixpoint index_from (n : Z) (es : list fent) (m : byte_map) : byte_map :=
  match es with [] => m | e :: es => index_from (n + 1) es (write_index m n e) end.

Definition index_of (es : list fent) : byte_map := index_from 1 es bm_empty.

Lemma index_from_snoc es e : ∀ n m,
  index_from n (es ++ [e]) m = write_index (index_from n es m) (n + Z.of_nat (length es)) e.
Proof.
  induction es as [|e' es IH]; intros n m; simpl; [by rewrite Z.add_0_r|].
  rewrite IH. f_equal. lia.
Qed.

Lemma index_of_snoc es e :
  index_of (es ++ [e]) = write_index (index_of es) (Z.of_nat (length es) + 1) e.
Proof. unfold index_of. rewrite index_from_snoc. f_equal. lia. Qed.

Lemma data_of_snoc es e : data_of (es ++ [e]) = write_data (data_of es) (fe_data e) (fe_off e).
Proof. unfold data_of. by rewrite foldl_snoc. Qed.

Lemma info_of_snoc es e : info_of (es ++ [e]) = fe_info e.
Proof. unfold info_of. by rewrite last_snoc. Qed.

Lemma write_index_spec m n e b :
  write_index m n e b = if decide (covers e b) then Some n else m b.
Proof.
  unfold write_index. destruct (decide (fe_data e = [])) as [He|Hne].
  - rewrite decide_False; [done|]. unfold covers, fe_size. rewrite He. simpl. lia.
  - unfold bm_write. destruct (decide (covers e b)) as [Hc|Hc]; unfold covers in Hc.
    + by rewrite decide_True by lia.
    + by rewrite decide_False by lia.
Qed.

Lemma data_byte_snoc es e b :
  data_byte (es ++ [e]) b =
    if decide (covers e b) then default 0 (fe_data e !! Z.to_nat (b - fe_off e)) else data_byte es b.
Proof.
  unfold data_byte. rewrite data_of_snoc, write_data_lookup.
  destruct (decide (covers e b)) as [Hc|Hc]; unfold covers, fe_size in Hc.
  - by rewrite decide_True by lia.
  - by rewrite decide_False by lia.
Qed.

Lemma data_byte_written es i off bs b :
  data_byte (es ++ [mkFent i off bs]) b =
    if decide (off ≤ b < off + Z.of_nat (length bs)) then default 0 (bs !! Z.to_nat (b - off))
    else data_byte es b.
Proof. unfold data_byte. rewrite data_of_snoc, write_data_lookup. simpl. by case_decide. Qed.

(** The index finds the entry with the current value of a byte. *)
Lemma index_of_spec es b :
  match index_of es b with
  | Some r => ∃ e, 1 ≤ r ∧ es !! Z.to_nat (r - 1) = Some e ∧ covers e b ∧
      data_byte es b = default 0 (fe_data e !! Z.to_nat (b - fe_off e))
  | None => data_byte es b = 0
  end.
Proof.
  induction es as [|e es IH] using rev_ind; [done|].
  rewrite index_of_snoc, write_index_spec, data_byte_snoc.
  destruct (decide (covers e b)) as [Hc|Hc].
  - exists e. split_and!; [lia| |done|done].
    replace (Z.to_nat (Z.of_nat (length es) + 1 - 1)) with (length es) by lia. by apply list_lookup_middle.
  - destruct (index_of es b) as [r|]; [|done]. destruct IH as (e' & ? & He' & ? & ?).
    exists e'. split_and!; [done| |done|done]. by apply lookup_app_l_Some.
Qed.

(** Appending an entry changes the abstract file as [gdpfs_file_write] promises. *)
Lemma file_of_snoc es i bs off :
  file_of (es ++ [mkFent i off bs]) = mkAfile i (write_data (data_of es) bs off).
Proof. unfold file_of. by rewrite info_of_snoc, data_of_snoc. Qed.

Lemma af_byte_file_of es b : af_byte (file_of es) b = data_byte es b.
Proof. done. Qed.

Lemma data_byte_negative es b : Forall fent_ok es → b < 0 → data_byte es b = 0.
Proof.
  intros Hok Hb. pose proof (index_of_spec es b) as Hs. destruct (index_of es b) as [r|]; [|done].
  destruct Hs as (e & _ & He & Hc & _). eapply Forall_lookup_1 in He; [|done]. destruct He.
  unfold covers in Hc. lia.
Qed.

(** ** Assembling a buffer from ranges *)

Lemma splice_length buf pos bs :
  0 ≤ pos → pos + Z.of_nat (length bs) ≤ Z.of_nat (length buf) →
  length (splice buf pos bs) = length buf.
Proof. intros. unfold splice. rewrite !length_app, length_take, length_drop. lia. Qed.

Lemma splice_lookup buf pos bs i :
  0 ≤ pos → pos + Z.of_nat (length bs) ≤ Z.of_nat (length buf) →
  splice buf pos bs !! i =
    if decide (Z.to_nat pos ≤ i < Z.to_nat pos + length bs)%nat then bs !! (i - Z.to_nat pos)%nat else buf !! i.
Proof.
  intros Hp Hl. unfold splice. case_decide as Hi.
  - rewrite lookup_app_r by (rewrite length_take; lia). rewrite length_take, lookup_app_l by lia.
    f_equal. lia.
  - destruct (decide (i < Z.to_nat pos)%nat).
    + by rewrite lookup_app_l, lookup_take_lt by (rewrite ?length_take; lia).
    + rewrite lookup_app_r by (rewrite length_take; lia).
      rewrite length_take, lookup_app_r by lia. rewrite lookup_drop. f_equal. lia.
Qed.
