(* ===== verification/FileReload.v ===== *)
(** * Checkpoints of the index of a file

    The checkpoint of an index that was built in memory holds the whole index
    ([index_checkpoint]).  An index that was loaded from a checkpoint is again
    described by its history, the iterations since its root was loaded; every
    iteration yields the ranges of the byte map that was checkpointed. *)
From S2P Require Import Prelude.
From S2P Require Import Heap.
From S2P Require Import Interval.
From S2P Require Import Types.
From S2P Require Import FigNode.
From S2P Require Import FigTree.
From S2P Require Import FigSpec.
From S2P Require Import FigNodeProof.
From S2P Require Import FigTheorems.
From S2P Require Import FigIter.
From S2P Require Import FigRanges.
From S2P Require Import FigReads.
From S2P Require Import FigDirty.
From S2P Require Import FigAllDirty.
From S2P Require Import FigDirtyProof.
From S2P Require Import FigChkpt.
From S2P Require Import FileIndex.

#[local] Open Scope Z_scope.

(** The record [recno] of the log holds the images. *)
Definition holds_images (log : gdpfs_log) (recno : Z) (images : list ft_node) : Prop :=
  ∃ ent, log recno = Some ent ∧ le_payload ent = PNodes images ∧
    fm_ent_size (le_meta ent) = sizeof_ft_node * Z.of_nat (length images) ∧
    fm_logent_type (le_meta ent) = GDPFS_LOGENT_TYPE_CHKPT.

(** An iteration over a loaded tree. *)
Record load_read := mkLoadRead {
  lr_log : gdpfs_log;
  lr_fuel : nat;
  lr_lo : Z;
  lr_hi : Z;
}.

Definition load_read_ok (recno : Z) (images : list ft_node) (r : load_read) : Prop :=
  holds_images (lr_log r) recno images ∧ byte_index (lr_lo r) ∧ byte_index (lr_hi r) ∧ lr_lo r ≤ lr_hi r ∧
  (Z.to_nat (lr_hi r - lr_lo r + 1) < lr_fuel r)%nat.

Section reload.
Context `{AL : !Allocator}.

(** ** The checkpoint of an index in memory *)

Lemma keeps_index_ops os : ∀ t, Forall index_op_ok os → keeps (index_ops_run t os) any.
Proof.
  induction os as [|o os IH]; intros t Hos; cbn [index_ops_run]; [by apply keeps_ret|].
  apply Forall_cons in Hos as [Ho Hos]. apply (keeps_bind _ _ any); [|auto].
  destruct o; cbn [index_op_run]; destruct Ho as [Hlog _]; [by apply keeps_ft_write|].
  apply (keeps_bind _ _ any); [by apply keeps_ft_read_all|]. intros ? _. by apply keeps_ret.
Qed.

Lemma keeps_index_history os : Forall index_op_ok os → keeps (index_history os) any.
Proof.
  intros Hos. apply (keeps_bind _ _ any); [apply keeps_ft_init|]. intros t _. by apply keeps_index_ops.
Qed.

Lemma index_checkpoint recno t σ m :
  index_rep t σ m → ∃ images σ', get_dirty t recno σ = Ok (images, σ') ∧ checkpoint_of recno images m.
Proof.
  intros (os & Hos & Hr & Hm).
  destruct (wp_adequacy_inv all_dirty (index_history os) (λ t, get_dirty t recno) ∅
    (λ images, checkpoint_of recno images m)) as (images & σ' & Hrun & Hc).
  - by intros l n.
  - intros σ1 a σ2 Hσ Hrun. by eapply keeps_index_history.
  - iIntros (Σ HG) "_". iApply wp_index_history; [done|].
    iIntros (h t' (Hwf & Hl)) "Ht %σ' %Hσ Hσ". iDestruct (is_tree_dirty with "Hσ Ht") as "[Hσ Ht]"; [done|].
    iAssert (wp (get_dirty (mkFigtree (ptr t')) recno) (λ images, ⌜checkpoint_of recno images m⌝)%I)
      with "[Ht]" as "Hw".
    { iApply (wp_get_dirty True with "Ht"); [by destruct t'|]. iIntros (images Hs) "_". iPureIntro.
      destruct (Hs I) as (sp & Hst & Hlast). exists h, t', sp. split_and!; [done..|].
      intros b Hb. by rewrite Hl // Hm. }
    iMod ("Hw" with "Hσ") as (images σ'' Hk) "[_ %]". iModIntro. by iExists images, σ''.
  - exists images, σ'. split; [|done]. move: Hrun. by rewrite {1}/mbind {1}/prog_bind Hr.
Qed.

(** ** An index that was loaded *)

Fixpoint reads_run (t : figtree) (rs : list load_read) : node_prog unit :=
  match rs with
  | [] => mret tt
  | r :: rs => _ ← ft_read_all (lr_log r) (lr_fuel r) t (lr_lo r) (lr_hi r); reads_run t rs
  end.

Definition load_history (image : ft_node) (rs : list load_read) : node_prog figtree :=
  root ← alloc image; reads_run (ft_init_with_root root) rs;; mret (ft_init_with_root root).

(** The tree and its nodes represent the byte map of the checkpoint. *)
Definition loaded_rep (recno : Z) (images : list ft_node) (t : figtree) (σ : heap ft_node) (m : byte_map) : Prop :=
  checkpoint_of recno images m ∧ ∃ image rs, last images = Some image ∧ Forall (load_read_ok recno images) rs ∧
    load_history image rs ∅ = Ok (t, σ).

Lemma wp_reads_run `{HG : !heapG ft_node Σ} recno images rs h t l node Φ :
  Forall (load_read_ok recno images) rs → wf (S h) t → loaded recno images (S h) t node →
  l ↦ node -∗ (∀ node', ⌜loaded recno images (S h) t node'⌝ -∗ l ↦ node' -∗ Φ tt) -∗
  wp (reads_run (ft_init_with_root l) rs) Φ.
Proof.
  intros Hrs Hwf. iIntros (Hld) "Hl HΦ". iInduction Hrs as [|r rs Hr Hrs] "IH" forall (node Hld); simpl.
  { wp_ret. by iApply ("HΦ" with "[%] Hl"). }
  destruct Hr as ((ent & Hlog & Hpay & Hsize & Hty) & Hlo & Hhi & Hle & Hfuel). wp_bind.
  iApply (wp_read_loaded (lr_log r) recno images ent Hlog Hpay Hsize Hty with "Hl"); [done..|].
  iIntros (fs _) "(%node' & %Hld' & Hl)". by iApply ("IH" with "[%] Hl").
Qed.

Lemma reads_run_app rs r : ∀ t σ,
  reads_run t (rs ++ [r]) σ =
    match reads_run t rs σ with Ok (_, σ') => reads_run t [r] σ' | Fault f => Fault f end.
Proof.
  induction rs as [|r' rs IH]; intros t σ; [done|]. cbn [app reads_run]. rewrite /mbind /prog_bind.
  destruct (ft_read_all _ _ _ _ _ σ) as [[fs σ1]|]; [|done]. apply IH.
Qed.

Lemma loaded_rep_init recno images image m l σ :
  checkpoint_of recno images m → last images = Some image → alloc image ∅ = Ok (l, σ) →
  loaded_rep recno images (ft_init_with_root l) σ m.
Proof.
  intros Hc Hlast Ha. split; [done|]. exists image, []. split_and!; [done..|].
  by rewrite /load_history /mbind {1}/prog_bind Ha.
Qed.

Lemma loaded_read_ok recno images log fuel t σ m lo hi :
  loaded_rep recno images t σ m → holds_images log recno images → byte_index lo → byte_index hi → lo ≤ hi →
  (Z.to_nat (hi - lo + 1) < fuel)%nat →
  ∃ fs σ', ft_read_all log fuel t lo hi σ = Ok (fs, σ') ∧ loaded_rep recno images t σ' m ∧
    figs_in lo hi fs ∧ ∀ b, lo ≤ b ≤ hi → figs_at fs b = m b.
Proof.
  intros (Hc & image & rs & Hlast & Hrs & Hrun) Hlog Hlo Hhi Hle Hfuel.
  destruct (root_loaded recno images m (λ root, reads_run (ft_init_with_root root) rs;;
      fs ← ft_read_all log fuel (ft_init_with_root root) lo hi; mret (root, fs))
    (λ r, figs_in lo hi r.2 ∧ ∀ b, lo ≤ b ≤ hi → figs_at r.2 b = m b) Hc)
    as (image' & [root fs] & σ' & Hlast' & Hrun' & Hin & Hat).
  { iIntros (h t' Σ HG node l Hwf Hld Hm) "Hl". wp_bind. iApply (wp_reads_run with "Hl"); [done..|].
    iIntros (node' Hld') "Hl". wp_bind. destruct Hlog as (ent & Hl & Hpay & Hsize & Hty).
    iApply (wp_read_loaded log recno images ent Hl Hpay Hsize Hty with "Hl"); [done..|].
    iIntros (fs (Hin & Hat)) "_". wp_ret. iPureIntro. split; [done|]. intros b Hb. rewrite Hat //. apply Hm.
    unfold byte_index in *. lia. }
  rewrite Hlast in Hlast'. injection Hlast' as <-.
  set (r := mkLoadRead log fuel lo hi).
  assert (load_read_ok recno images r) as Hr by done.
  move: Hrun Hrun'. rewrite /load_history /mbind {1 3}/prog_bind.
  destruct (alloc image ∅) as [[l σ0]|] eqn:Ha; [|done]. rewrite {1 2}/prog_bind.
  destruct (reads_run (ft_init_with_root l) rs σ0) as [[[] σ1]|] eqn:Hreads; [|done].
  intros [= <- <-]. rewrite /prog_bind.
  destruct (ft_read_all log fuel (ft_init_with_root l) lo hi σ1) as [[fs' σ2]|] eqn:Hread; [|done].
  intros [= <- <- <-]. exists fs', σ2. split_and!; [done| |done|done].
  split; [done|]. exists image, (rs ++ [r]). split_and!; [done|apply Forall_app; by split; [|constructor]|].
  rewrite /load_history /mbind {1}/prog_bind Ha /prog_bind reads_run_app Hreads.
  cbn [reads_run]. rewrite /mbind /prog_bind. cbn [lr_log lr_fuel lr_lo lr_hi r]. by rewrite Hread.
Qed.
End reload.
