(* ===== verification/FileFocus.v ===== *)
(** * One file object at a time

    Most of a call works on a single file object [p].  [foc s y p F] is the state
    [s] with the object replaced by [F] and the services by [y]; the operations on
    the parts of an object take such states to such states. *)
From S2P Require Import Prelude.
From S2P Require Import State.
From S2P Require Import Types.
From S2P Require Import Posix.
From S2P Require Heap.
From S2P Require Import FigNode.
From S2P Require Import FigTree.
From S2P Require Import FileIface.
From S2P Require Import Gdp.
From S2P Require Import LogEnt.
From S2P Require Import LogEntProof.
From S2P Require Import File.
From S2P Require Import FileSpec.

#[local] Open Scope Z_scope.

(** ** The content of a local file *)

Section sys.
Context {G : Type} `{GdpLaws G}.
Implicit Types (y : sys G) (g : file_gname).

(** The cache of a file. *)
Definition cache_of y g : list (option Z) := local_content y (g, None).

Definition with_cache y g (c : list (option Z)) : sys G :=
  mkSys (sys_gdp y) (<[(g, None) := c]> (sys_local y)).

Lemma cache_of_with y g c : cache_of (with_cache y g c) g = c.
Proof. unfold cache_of, local_content. simpl. by rewrite lookup_insert_eq. Qed.

Lemma cache_of_with_ne y g g' c : g' ≠ g → cache_of (with_cache y g c) g' = cache_of y g'.
Proof. intros Hne. unfold cache_of, local_content. simpl. by rewrite lookup_insert_ne by congruence. Qed.

Lemma with_cache_twice y g c c' : with_cache (with_cache y g c) g c' = with_cache y g c'.
Proof. unfold with_cache. simpl. by rewrite insert_insert_eq. Qed.

Lemma sys_rep_with_cache y g c L : sys_rep y L → sys_rep (with_cache y g c) L.
Proof.
  intros [HG Hc]. split; [done|]. intros g' n c'. simpl. rewrite lookup_insert_ne by congruence. apply Hc.
Qed.

(** The same caches of files. *)
Definition same_caches y y' : Prop := ∀ g, cache_of y' g = cache_of y g.

Lemma same_local y y' : sys_local y' = sys_local y → same_caches y y'.
Proof. intros E g. unfold cache_of, local_content. by rewrite E. Qed.

(** A call that leaves the content of the cache alone. *)
Definition quiet g y y' : Prop := y' = y ∨ y' = with_cache y g (cache_of y g).

Lemma quiet_rep g y y' L : quiet g y y' → sys_rep y L → sys_rep y' L.
Proof. intros [->| ->] Hs; [done|]. by apply sys_rep_with_cache. Qed.

Lemma quiet_caches g y y' : quiet g y y' → same_caches y y'.
Proof.
  intros [->| ->] g'; [done|]. destruct (decide (g' = g)) as [->|]; [apply cache_of_with|].
  by apply cache_of_with_ne.
Qed.

(** Calls on a cache file. *)
Lemma on_fd_cache {A} y g pos (c : fd_prog A) a f :
  c (mkFd (cache_of y g) pos) = Ok (a, f) →
  on_fd (mkLocalFd (g, None) pos) c y =
    Ok ((a, mkLocalFd (g, None) (fd_pos f)), with_cache y g (fd_content f)).
Proof. intros Hc. unfold on_fd. simpl. unfold cache_of in Hc. by rewrite Hc. Qed.
End sys.

(** ** Focus *)

Section focus.
Context {G : Type} `{GdpLaws G} `{!Heap.Allocator} `{!FileConfig}.
Implicit Types (s : gfs G) (y : sys G) (p : floc) (F : gdpfs_file_t G).

Definition foc s y p F : gfs G :=
  mkGfs y (g_fhs s) (g_files s) (<[p := F]> (g_objs s)) (file_hash s)
    (recently_closed_list s) (recently_closed_size s) (g_queue s) (g_pending s) (g_sched s).

Lemma foc_id s p F : g_objs s !! p = Some F → foc s (g_sys s) p F = s.
Proof. intros HF. unfold foc. rewrite insert_id by done. by destruct s. Qed.

Lemma foc_the_file s y p F : the_file p (foc s y p F) = Ok (F, foc s y p F).
Proof. unfold the_file. simpl. by rewrite lookup_insert_eq. Qed.

Lemma foc_update s y p F f : update_file p f (foc s y p F) = Ok (tt, foc s y p (f F)).
Proof.
  unfold update_file, set_objs, foc. simpl. rewrite lookup_insert_eq. by rewrite insert_insert_eq.
Qed.

Lemma foc_sys {A} s y p F (c : st (sys G) A) a y' :
  c y = Ok (a, y') → on_sys c (foc s y p F) = Ok (a, foc s y' p F).
Proof. intros Hc. unfold on_sys. simpl. by rewrite Hc. Qed.

Lemma foc_nodes {A} s y p F (c : Heap.prog ft_node A) a h :
  c (figtree_nodes F) = Ok (a, h) →
  on_nodes p c (foc s y p F) = Ok (a, foc s y p (set_figtree (file_figtree F) h F)).
Proof.
  intros Hc. unfold on_nodes. rewrite (bind_ok _ _ _ _ _ (foc_the_file s y p F)).
  rewrite (bind_ok _ _ _ (a, h) (foc s y p F)) by (unfold st_lift; by rewrite Hc).
  by rewrite (bind_ok _ _ _ _ _ (foc_update s y p F _)).
Qed.

Lemma foc_get s y p F : st_get (foc s y p F) = Ok (foc s y p F, foc s y p F).
Proof. done. Qed.

Lemma foc_index {A} s y p F (c : gdpfs_log → figtree → Heap.prog ft_node A) a h :
  c (index_log (log_handle F) (foc s y p F)) (file_figtree F) (figtree_nodes F) = Ok (a, h) →
  on_index p c (foc s y p F) = Ok (a, foc s y p (set_figtree (file_figtree F) h F)).
Proof.
  intros Hc. unfold on_index. rewrite (bind_ok _ _ _ _ _ (foc_the_file s y p F)).
  rewrite (bind_ok _ _ _ _ _ (foc_get s y p F)). by apply foc_nodes.
Qed.

Lemma set_figtree_twice t h t' h' F : set_figtree t' h' (set_figtree t h F) = set_figtree t' h' F.
Proof. done. Qed.

Lemma foc_index_write s y p F a b v t h :
  ft_write (index_log (log_handle F) (foc s y p F)) (file_figtree F) (wrap32 a) (wrap32 b) v (figtree_nodes F) =
    Ok (t, h) →
  index_write p a b v (foc s y p F) = Ok (tt, foc s y p (set_figtree t h F)).
Proof.
  intros Hc. unfold index_write. erewrite bind_ok; [|by eapply foc_index].
  unfold set_tree. by rewrite foc_update.
Qed.

Lemma foc_index_init s y p F t h :
  ft_init (figtree_nodes F) = Ok (t, h) →
  index_init p (foc s y p F) = Ok (tt, foc s y p (set_figtree t h F)).
Proof.
  intros Hc. unfold index_init. erewrite bind_ok; [|by eapply foc_nodes].
  unfold set_tree. by rewrite foc_update.
Qed.

(** Calls on the cache file of the object. *)
Lemma foc_cache {A} s y p F g pos (c : fd_prog A) a f :
  cache_fd F = Some (mkLocalFd (g, None) pos) →
  c (mkFd (cache_of y g) pos) = Ok (a, f) →
  on_cache p c (foc s y p F) =
    Ok (a, foc s (with_cache y g (fd_content f)) p
             (set_cache_fd (Some (mkLocalFd (g, None) (fd_pos f))) F)).
Proof.
  intros Hfd Hc. unfold on_cache. rewrite (bind_ok _ _ _ _ _ (foc_the_file s y p F)), Hfd.
  erewrite bind_ok; [|apply foc_sys; by apply on_fd_cache]. cbv beta iota.
  by rewrite (bind_ok _ _ _ _ _ (foc_update _ _ _ _ _)).
Qed.

Lemma foc_pending s y p F cb :
  add_pending cb (foc s y p F) = Ok (tt, set_pending (g_pending s ++ [cb]) (foc s y p F)).
Proof. done. Qed.

(** ** The cache *)

Lemma set_cache_fd_twice a b F : set_cache_fd a (set_cache_fd b F) = set_cache_fd a F.
Proof. done. Qed.

Lemma fill_cache_ok s y p F g pos bs off :
  use_cache = true → cache_fd F = Some (mkLocalFd (g, None) pos) → 0 ≤ off →
  ∃ pos', gdpfs_file_fill_cache p bs off (foc s y p F) =
    Ok (GDPFS_STAT_OK, foc s (with_cache y g (write_at (cache_of y g) off bs)) p
      (set_cache_fd (Some (mkLocalFd (g, None) pos')) F)).
Proof.
  intros Huse Hfd Hoff. unfold gdpfs_file_fill_cache. rewrite Huse. cbn [negb].
  erewrite bind_ok.
  2:{ eapply (foc_cache _ _ _ _ _ _ (lseek off 0) off (mkFd (cache_of y g) off) Hfd).
      unfold lseek, lseek_set. simpl. by rewrite (proj2 (Z.ltb_ge _ _)) by lia. }
  cbv beta. rewrite (proj2 (Z.ltb_ge off 0)) by lia.
  erewrite bind_ok; [|eapply (foc_cache _ _ _ _ g off (write bs)); [done|]; unfold write; reflexivity].
  cbv beta. rewrite Z.eqb_refl. cbn [negb fd_content fd_pos]. rewrite cache_of_with, with_cache_twice.
  rewrite set_cache_fd_twice. eexists. done.
Qed.

Lemma find_hole_data block f n : ∀ k j,
  (k ≤ j < find_hole block f n k)%nat → (j < k + n)%nat → in_hole block f j = false.
Proof using Type.
  induction n as [|n IH]; intros k j Hj Hn; [lia|]. simpl in Hj. destruct (in_hole block f k) eqn:E; [lia|].
  destruct (decide (j = k)) as [->|]; [done|]. apply (IH (S k)); lia.
Qed.

(** Where holes are tracked by the byte, the bytes before the next hole were
    written. *)
Lemma find_hole_stored f off k :
  0 ≤ off → off ≤ k < Z.of_nat (find_hole 1 f (length f - Z.to_nat off) (Z.to_nat off)) →
  (find_hole 1 f (length f - Z.to_nat off) (Z.to_nat off) ≤ length f)%nat → is_Some (stored f k).
Proof using Type.
  intros Hoff Hk Hle. assert (in_hole 1 f (Z.to_nat k) = false) as Hh by (apply (find_hole_data 1 f (length f - Z.to_nat off) (Z.to_nat off)); lia).
  unfold in_hole in Hh. rewrite Nat.div_1_r, Nat.mul_1_r in Hh.
  destruct (lookup_lt_is_Some_2 f (Z.to_nat k)) as [o Ho]; [lia|]. rewrite (drop_S _ _ _ Ho) in Hh.
  unfold stored. rewrite (proj2 (Z.leb_le 0 k)), Ho by lia. simpl in Hh |- *. destruct o; [by eexists|done].
Qed.

Lemma find_hole_le block f n k : (k + n ≤ length f)%nat → (find_hole block f n k ≤ length f)%nat.
Proof.
  revert k. induction n as [|n IH]; intros k Hk; simpl; [done|].
  destruct (in_hole block f k); [lia|]. apply IH. lia.
Qed.

(** The cache is read at [off]: all [size] bytes, or a miss.  Unless the file is
    new, there is no hole in the bytes of a hit. *)
Lemma get_cache_ok s y p F g pos size off :
  use_cache = true → cache_fd F = Some (mkLocalFd (g, None) pos) → 0 ≤ off → 0 ≤ size →
  ∃ pos' o y', gdpfs_file_get_cache p size off (foc s y p F) =
    Ok (o, foc s y' p (set_cache_fd (Some (mkLocalFd (g, None) pos')) F)) ∧ quiet g y y' ∧
    ∀ bs, o = Some bs → bs = [] ∧ size = 0 ∨
      bs = read_at (cache_of y g) off size ∧ Z.of_nat (length bs) = size ∧
      (new_file F = false → off + size ≤ Z.of_nat (find_hole HOLE_BLOCK (cache_of y g)
        (length (cache_of y g) - Z.to_nat off) (Z.to_nat off))).
Proof.
  intros Huse Hfd Hoff Hsize. unfold gdpfs_file_get_cache. rewrite Huse. cbn [negb].
  rewrite (bind_ok _ _ _ _ _ (foc_the_file s y p F)). cbv zeta.
  assert (∀ y1 F1 pos1, cache_fd F1 = Some (mkLocalFd (g, None) pos1) → cache_of y1 g = cache_of y g →
    ∃ pos' o, (_ ← on_cache p (lseek off 0); bs ← on_cache p (read size);
       mret (if Z.of_nat (length bs) =? size then Some bs else None)) (foc s y1 p F1) =
      Ok (o, foc s (with_cache y1 g (cache_of y g)) p (set_cache_fd (Some (mkLocalFd (g, None) pos')) F1)) ∧
      ∀ bs, o = Some bs → bs = read_at (cache_of y g) off size ∧ Z.of_nat (length bs) = size) as Hcheck.
  { intros y1 F1 pos1 Hfd1 Hc1. erewrite bind_ok.
    2:{ eapply (foc_cache _ _ _ _ _ _ (lseek off 0) off (mkFd (cache_of y1 g) off) Hfd1).
        unfold lseek, lseek_set. simpl. by rewrite (proj2 (Z.ltb_ge _ _)) by lia. }
    cbv beta. erewrite bind_ok; [|eapply (foc_cache _ _ _ _ g off (read size)); [done|]; unfold read; reflexivity].
    cbv beta. cbn [fd_content fd_pos]. rewrite cache_of_with, with_cache_twice, set_cache_fd_twice, Hc1.
    destruct (Z.eqb_spec (Z.of_nat (length (read_at (cache_of y g) off size))) size) as [Hl|];
      eexists _, _; (split; [done|]); [by intros bs [= <-]|done]. }
  destruct (new_file F) eqn:Hnew.
  { destruct (Hcheck y F pos Hfd eq_refl) as (pos' & o & Hr & Ho). eexists pos', o, _.
    split; [done|]. split; [by right|]. intros bs Hbs. right. by destruct (Ho bs Hbs). }
  destruct (Z.eqb_spec size 0) as [->|Hne].
  { exists pos, (Some []), y. split; [|split; [by left|by intros bs [= <-]; left]].
    unfold mret, st_ret. do 3 f_equal. unfold set_cache_fd. rewrite <-Hfd. by destruct F. }
  assert (∃ lrv q, lseek_hole HOLE_BLOCK off (mkFd (cache_of y g) pos) = Ok (lrv, mkFd (cache_of y g) q) ∧
      (lrv = -1 ∨ lrv = Z.of_nat (find_hole HOLE_BLOCK (cache_of y g)
        (length (cache_of y g) - Z.to_nat off) (Z.to_nat off)))) as (lrv & q & Hlrv & Hhole).
  { unfold lseek_hole. cbn [fd_content]. destruct (_ || _); eauto 10. }
  erewrite bind_ok; [|by eapply foc_cache]. cbv beta. cbn [fd_content fd_pos].
  destruct (negb (lrv =? -1) && (off + size <=? lrv)) eqn:Hhit; cbv iota.
  - destruct (Hcheck (with_cache y g (cache_of y g)) (set_cache_fd (Some (mkLocalFd (g, None) q)) F) q)
      as (pos' & o & Hr & Ho); [done|by rewrite cache_of_with|].
    rewrite with_cache_twice, set_cache_fd_twice in Hr. eexists pos', o, _. split; [exact Hr|].
    split; [by right|].
    intros bs Hbs. right. destruct (Ho bs Hbs). split_and!; [done..|]. intros _.
    apply andb_true_iff in Hhit as [Hh%negb_true_iff%Z.eqb_neq ?%Z.leb_le]. by destruct Hhole as [?| <-].
  - eexists q, None, _. split; [done|]. split; [by right|done].
Qed.
End focus.
