(* ===== verification/FileRead.v ===== *)
(** * Reading a file through its index

    The loop of [do_read] over the ranges of the index assembles the bytes of the
    file from the records that hold them. *)
From S2P Require Import Prelude.
From S2P Require Import State.
From S2P Require Import Types.
From S2P Require Import Posix.
From S2P Require Import Interval.
From S2P Require Import FigNode.
From S2P Require Import FigTree.
From S2P Require Import FigNodeProof.
From S2P Require Import FigRanges.
From S2P Require Import FigTheorems.
From S2P Require Import FigAllDirty.
From S2P Require Import FigIter.
From S2P Require Import FigReads.
From S2P Require Import FileIface.
From S2P Require Import Format.
From S2P Require Import FormatProof.
From S2P Require Import Gdp.
From S2P Require Import LogEnt.
From S2P Require Import LogEntProof.
From S2P Require Import File.
From S2P Require Import FileSpec.
From S2P Require Import FileFocus.
From S2P Require Import FileIndex.

#[local] Open Scope Z_scope.

(** The bytes of the file from [l] on. *)
Definition bytes_of (es : list fent) (l n : Z) : list Z := data_byte es <$> seqZ l n.

Lemma bytes_of_length es l n : 0 ≤ n → Z.of_nat (length (bytes_of es l n)) = n.
Proof. intros Hn. unfold bytes_of. rewrite length_fmap, length_seqZ. lia. Qed.

Lemma bytes_of_lookup es l n i : Z.of_nat i < n → bytes_of es l n !! i = Some (data_byte es (l + Z.of_nat i)).
Proof. intros Hi. unfold bytes_of. rewrite list_lookup_fmap, lookup_seqZ_lt by lia. done. Qed.

(** A range with one value is read from one entry. *)
Lemma entry_slice es e r l n :
  es !! Z.to_nat (r - 1) = Some e → 1 ≤ n →
  (∀ b, l ≤ b < l + n → index_of es b = Some r) →
  take (Z.to_nat n) (drop (Z.to_nat (l - fe_off e)) (fe_data e)) = bytes_of es l n ∧
    1 ≤ r ∧ covers e l ∧ covers e (l + n - 1).
Proof.
  intros He Hn Hidx.
  assert (∀ b, l ≤ b < l + n → 1 ≤ r ∧ covers e b ∧
    data_byte es b = default 0 (fe_data e !! Z.to_nat (b - fe_off e))) as Hb.
  { intros b Hb. pose proof (index_of_spec es b) as Hs. rewrite (Hidx b Hb) in Hs.
    destruct Hs as (e' & ? & He' & ? & ?). rewrite He in He'. by injection He' as <-. }
  destruct (Hb l) as (Hr & Hcl & _); [lia|]. destruct (Hb (l + n - 1)) as (_ & Hcr & _); [lia|].
  split_and!; [|done..]. unfold covers, fe_size in *.
  apply list_eq. intros i. destruct (decide (Z.of_nat i < n)) as [Hi|Hi].
  - rewrite bytes_of_lookup by done. rewrite lookup_take_lt, lookup_drop by lia.
    destruct (Hb (l + Z.of_nat i)) as (_ & _ & ->); [lia|].
    replace (Z.to_nat (l - fe_off e) + i)%nat with (Z.to_nat (l + Z.of_nat i - fe_off e)) by lia.
    destruct (lookup_lt_is_Some_2 (fe_data e) (Z.to_nat (l + Z.of_nat i - fe_off e))) as [v ->]; [lia|done].
  - rewrite lookup_take_ge by lia. symmetry. apply lookup_ge_None_2.
    pose proof (bytes_of_length es l n). lia.
Qed.

Section proof.
Context {G : Type} `{GdpLaws G} `{!Heap.Allocator} `{!FileConfig}.
Hypothesis Hmode : gcl_mode = GDP_MODE_RA.
Implicit Types (s : gfs G) (y : sys G) (p : floc) (F : gdpfs_file_t G).

Lemma record_at_nth {A} (f : A → list Z) (es : list A) r e :
  1 ≤ r → es !! Z.to_nat (r - 1) = Some e → record_at (f <$> es) r = Some (f e).
Proof.
  intros Hr He. unfold record_at, LAST_RECNO.
  destruct (Z.eqb_spec r (-1)); [lia|]. destruct (Z.leb_spec r 0); [lia|].
  by rewrite list_lookup_fmap, He.
Qed.

Lemma record_at_nth_app (es : list fent) more r e :
  1 ≤ r → es !! Z.to_nat (r - 1) = Some e → record_at ((encode_fent <$> es) ++ more) r = Some (encode_fent e).
Proof using Type.
  intros Hr He. unfold record_at, LAST_RECNO.
  destruct (Z.eqb_spec r (-1)); [lia|]. destruct (Z.leb_spec r 0); [lia|].
  apply lookup_app_l_Some. by rewrite list_lookup_fmap, He.
Qed.

(** A log with data entries. *)
Definition log_of (L : gdp_logs) (g : file_gname) (es : list fent) : Prop :=
  L !! g = Some (encode_fent <$> es) ∧ Forall fent_ok es.

(** A log that begins with data entries. *)
Definition log_from (L : gdp_logs) (g : file_gname) (es : list fent) (more : list (list Z)) : Prop :=
  L !! g = Some ((encode_fent <$> es) ++ more) ∧ Forall fent_ok es.

Lemma log_of_from L g es : log_of L g es → log_from L g es [].
Proof using Type. intros [HL Hok]. split; [by rewrite app_nil_r|done]. Qed.

(** ** The log as the FIG tree reads it *)

Lemma read_record_ok y L h g l recno r :
  sys_rep y L → log_names h g → L !! g = Some l → record_at l recno = Some r →
  ∃ y', read_record h recno y = Ok (decode_record r, y').
Proof using Hmode.
  intros Hs Hh HL Hr.
  destruct (open_ok' gcl_mode y L h g l recno false r) as (e & ent & y1 & Hopen & He & _ & Hat & _ & _ & Hlen);
    [by rewrite Hmode|done..|].
  destruct (ent_step_ok y1 ent r (CRead (Z.of_nat (length r))) Hat) as (ent' & Hread & _); [simpl; lia|].
  unfold read_record. st_step Hopen. rewrite He. cbn [negb]. st_step Hlen.
  cbn [ent_step cursor_step fst] in Hread. rewrite Nat2Z.id, take_ge in Hread by done. st_step Hread. by eexists.
Qed.

Lemma read_record_missing y L h g l recno :
  sys_rep y L → log_names h g → L !! g = Some l → record_at l recno = None →
  ∃ y', read_record h recno y = Ok (None, y').
Proof using Hmode.
  intros [HG Hc] [Hn Hg] HL Hr. unfold read_record.
  enough (∃ ent y', gdpfs_log_ent_open gcl_mode h recno false y = Ok ((GDPFS_STAT_NOTFOUND, ent), y')) as (ent & y' & Hopen).
  { st_step Hopen. by eexists. }
  unfold gdpfs_log_ent_open. rewrite decide_False by (by rewrite Hmode). cbv zeta.
  destruct (gcl_read_missing _ _ _ _ _ recno gdp_datum_new HG Hn HL Hr) as (d & g' & Hread & _).
  assert (∀ z, sys_gdp z = sys_gdp y → in_gdp (gdp_gcl_read (gcl_handle h) recno gdp_datum_new) z =
    Ok ((GDP_STAT false GDP_CCODE_NOTFOUND, d), mkSys g' (sys_local z))) as Hin.
  { intros z Hz. apply in_gdp_ok. by rewrite Hz. }
  destruct (0 <=? recno); cbn [andb negb]; cycle 1.
  { rewrite (bind_ok _ _ _ gdp_datum_new y) by done. st_step (Hin y eq_refl).
    unfold open_failed. rewrite Z.eqb_refl. by eexists _, _. }
  rewrite Hg. destruct (sys_local y !! (g, Some recno)) as [c|] eqn:Hl.
  { destruct (Hc _ _ _ Hl) as (_ & l' & r & HL' & Hr' & _). congruence. }
  rewrite (bind_ok _ _ _ None y) by (unfold local_open; by rewrite Hl).
  rewrite (bind_ok _ _ y (mkLocalFd (g, Some recno) 0) _) by done. cbv beta.
  set (y1 := mkSys _ _). rewrite (bind_ok _ _ _ gdp_datum_new y1) by done. st_step (Hin y1 eq_refl).
  unfold open_failed. rewrite Z.eqb_refl. by eexists _, _.
Qed.

Lemma decode_record_fent e : fent_ok e → decode_record (encode_fent e) = Some (mkLogent (fe_meta e) (PData (fe_data e))).
Proof using Type.
  intros He. apply (decode_encode_record (mkLogent (fe_meta e) (PData (fe_data e)))). split; [by apply fe_meta_ok|done].
Qed.

(** A log of data entries has no checkpoints. *)
Lemma index_log_data s y p F L h g es :
  sys_rep y L → log_names h g → log_of L g es → no_images (index_log h (foc s y p F)).
Proof using Hmode.
  intros Hs Hh [HL Hok] r ent. unfold index_log. cbn [g_sys foc].
  destruct (record_at (encode_fent <$> es) r) as [bs|] eqn:Hr.
  - destruct (read_record_ok _ _ _ _ _ _ _ Hs Hh HL Hr) as [y' ->].
    assert (∃ e, e ∈ es ∧ bs = encode_fent e) as (e & He & ->).
    { unfold record_at in Hr. destruct (r =? LAST_RECNO); [rewrite last_lookup in Hr|destruct (r <=? 0); [done|]].
      all: rewrite list_lookup_fmap in Hr; apply fmap_Some in Hr as (e & He & ->); exists e.
      all: split; [by eapply list_elem_of_lookup_2|done]. }
    rewrite decode_record_fent by (by eapply Forall_forall in Hok). intros [= <-]. by eexists.
  - by destruct (read_record_missing _ _ _ _ _ _ Hs Hh HL Hr) as [y' ->].
Qed.

Lemma header_size_ok e : fent_ok e →
  wrap64 (sizeof_fmeta + fm_ent_size (fe_meta e)) = sizeof_fmeta + fe_size e.
Proof.
  intros []. unfold BYTE_INDEX_MAX in *. apply wrap_small. unfold in_width, sizeof_fmeta. simpl.
  unfold fe_size in *. lia.
Qed.

Lemma read_from_record_ok y L h g es more r e l n :
  sys_rep y L → log_names h g → log_from L g es more → es !! Z.to_nat (r - 1) = Some e → 1 ≤ n →
  (∀ b, l ≤ b < l + n → index_of es b = Some r) →
  ∃ y', read_from_record h r l (l + n - 1) y = Ok (bytes_of es l n, y') ∧ sys_rep y' L ∧
    sys_local y' = sys_local y.
Proof using Hmode.
  intros Hs Hh [HL Hok] He Hn Hidx.
  destruct (entry_slice es e r l n He Hn Hidx) as (Hslice & Hr & Hcl & Hcr).
  pose proof (Forall_lookup_1 _ _ _ _ Hok He) as Heok.
  destruct (mem_open gcl_mode y L h g ((encode_fent <$> es) ++ more) r (encode_fent e)) as (estat & ent & y1 & Hopen & _ & Hs1 & Hl1 & Hm);
    [by rewrite Hmode|done|done|exact HL|by apply record_at_nth_app|].
  exists y1. split; [|done]. unfold read_from_record. st_step Hopen.
  st_step (mem_length _ _ _ Hm y1).
  destruct (mem_read _ _ _ Hm y1 sizeof_fmeta) as (ent1 & Hread & Hm1); [done|]. st_step Hread.
  rewrite length_take. rewrite (proj2 (Z.eqb_eq _ _)).
  2:{ pose proof (encode_fent_length e). unfold fe_size, sizeof_fmeta in *. lia. }
  cbn [negb]. rewrite decode_fent by done. rewrite encode_fent_length, header_size_ok, Z.eqb_refl by done.
  cbn [negb]. rewrite drop_fent in Hm1.
  destruct (mem_drain _ _ _ Hm1 y1 (l - fm_ent_offset (fe_meta e))) as (? & ent2 & Hdrain & Hm2).
  { simpl. unfold covers in Hcl. lia. }
  st_step Hdrain.
  destruct (mem_read _ _ _ Hm2 y1 (l + n - 1 - l + 1)) as (ent3 & Hread3 & Hm3); [lia|]. st_step Hread3.
  simpl fm_ent_offset. replace (l + n - 1 - l + 1) with n by lia. rewrite Hslice.
  rewrite bytes_of_length, Z.eqb_refl by lia. unfold st_assert.
  rewrite (bind_ok _ _ y1 tt y1) by done.
  by rewrite (bind_ok _ _ _ _ _ (mem_close _ _ _ Hm3 y1)).
Qed.

(** The buffer after the ranges [fs]. *)
Definition assemble (es : list fent) (off : Z) (fs : list fig) (buf : list Z) : list Z :=
  foldl (λ buf f, splice buf (i_left (fig_irange f) - off)
    (bytes_of es (i_left (fig_irange f)) (i_right (fig_irange f) - i_left (fig_irange f) + 1))) buf fs.

Lemma assemble_lookup es off hi fs : ∀ lo buf i,
  off ≤ lo → Z.of_nat (length buf) = hi - off + 1 → figs_in lo hi fs →
  length (assemble es off fs buf) = length buf ∧
  assemble es off fs buf !! i =
    match figs_at fs (off + Z.of_nat i) with
    | Some _ => Some (data_byte es (off + Z.of_nat i))
    | None => buf !! i
    end.
Proof using Type.
  induction fs as [|f fs IH]; intros lo buf i Hlo Hlen Hin; [done|].
  cbn [figs_in] in Hin. destruct Hin as (_ & Hf1 & Hf2 & Hf3 & Hin). cbn [figs_at].
  set (l := i_left (fig_irange f)) in *. set (r := i_right (fig_irange f)) in *.
  pose proof (bytes_of_length es l (r - l + 1) ltac:(lia)) as Hbl.
  set (buf1 := splice buf (l - off) (bytes_of es l (r - l + 1))).
  change (assemble es off (f :: fs) buf) with (assemble es off fs buf1).
  assert (length buf1 = length buf) as Hl1 by (apply splice_length; lia).
  destruct (IH (r + 1) buf1 i) as [-> ->]; [lia|by rewrite Hl1|done|]. split; [done|].
  destruct (figs_at fs (off + Z.of_nat i)) eqn:Hat.
  - destruct (decide (off + Z.of_nat i ∈ fig_irange f)) as [Hi|]; done.
  - unfold buf1. rewrite splice_lookup by lia.
    destruct (decide (off + Z.of_nat i ∈ fig_irange f)) as [Hi|Hi]; rewrite elem_of_interval in Hi; fold l r in Hi.
    + rewrite decide_True by lia. rewrite bytes_of_lookup by lia. do 2 f_equal. lia.
    + by rewrite decide_False by lia.
Qed.

Lemma read_loop_ok log s p L g es more off hi fuel : ∀ y F it h fs lo buf,
  sys_rep y L → log_names (log_handle F) g → log_from L g es more →
  fti_all log fuel it (figtree_nodes F) = Ok (fs, h) → figs_in lo hi fs →
  (∀ b v, lo ≤ b ≤ hi → figs_at fs b = Some v → index_of es b = Some v) →
  ∃ y', read_loop fuel log p off it buf (foc s y p F) =
      Ok (assemble es off fs buf, foc s y' p (set_figtree (file_figtree F) h F)) ∧
    sys_rep y' L ∧ sys_local y' = sys_local y.
Proof using Hmode.
  induction fuel as [|fuel IH]; intros y F it h fs lo buf Hs Hh HL Hall Hin Hat; [done|].
  cbn [fti_all] in Hall. unfold mbind, Heap.prog_bind in Hall.
  destruct (fti_next log it (figtree_nodes F)) as [[[o it1] h1]|] eqn:Hnext; [|done].
  cbn [read_loop]. erewrite bind_ok; [|by eapply foc_nodes]. cbv beta iota.
  destruct o as [[irange value]|].
  2:{ injection Hall as <- <-. exists y. by split_and!. }
  destruct (fti_all log fuel it1 h1) as [[fs1 h2]|] eqn:Hall1; [|done].
  injection Hall as <- <-. cbn [figs_in fig_irange] in Hin. destruct Hin as (Hne & Hf1 & Hf2 & Hf3 & Hin).
  erewrite bind_ok; [|apply foc_the_file].
  assert (∀ b, i_left irange ≤ b < i_left irange + (i_right irange - i_left irange + 1) →
    index_of es b = Some value) as Hidx.
  { intros b Hb. apply Hat; [lia|]. simpl. rewrite decide_True; [done|]. rewrite elem_of_interval. lia. }
  pose proof (index_of_spec es (i_left irange)) as Hspec. rewrite Hidx in Hspec by lia.
  destruct Hspec as (e & Hv & He & _). rewrite (proj2 (Z.eqb_neq value 0)), (proj2 (Z.ltb_lt 0 value)) by lia.
  destruct (read_from_record_ok y L (log_handle F) g es more value e (i_left irange)
    (i_right irange - i_left irange + 1) Hs Hh HL He ltac:(lia) Hidx) as (y1 & Hread & Hs1 & Hl1).
  replace (i_left irange + (i_right irange - i_left irange + 1) - 1) with (i_right irange) in Hread by lia.
  erewrite bind_ok; [|eapply foc_sys; exact Hread]. cbv beta.
  destruct (IH y1 (set_figtree (file_figtree F) h1 F) it1 h2 fs1 (i_right irange + 1)
    (splice buf (i_left irange - off) (bytes_of es (i_left irange) (i_right irange - i_left irange + 1))))
    as (y2 & Hrest & Hs2 & Hl2); [done..| |].
  { intros b v Hb Hv'. apply Hat; [lia|]. simpl. rewrite decide_False; [done|]. rewrite elem_of_interval. lia. }
  exists y2. split_and!; [exact Hrest|done|congruence].
Qed.

(** Reading past the cache gives the bytes of the file, if the ranges that the
    index yields are those of [index_of es]. *)
Lemma read_index_with s y p F L g es more n off fs h :
  sys_rep y L → log_names (log_handle F) g → log_from L g es more →
  (if use_cache then ∃ pos, cache_fd F = Some (mkLocalFd (g, None) pos) else cache_fd F = None) →
  0 ≤ off → 0 < n → off + n < BYTE_INDEX_MAX →
  ft_read_all (index_log (log_handle F) (foc s y p F)) (S (S (Z.to_nat n))) (file_figtree F) off (off + n - 1)
    (figtree_nodes F) = Ok (fs, h) →
  figs_in off (off + n - 1) fs → (∀ b, off ≤ b ≤ off + n - 1 → figs_at fs b = index_of es b) →
  ∃ y' fd, read_index p n off (foc s y p F) =
      Ok (bytes_of es off n, foc s y' p (set_cache_fd fd (set_figtree (file_figtree F) h F))) ∧
    sys_rep y' L ∧ (∀ g', g' ≠ g → cache_of y' g' = cache_of y g') ∧
    (if use_cache then (∃ pos, fd = Some (mkLocalFd (g, None) pos)) ∧
       cache_of y' g = write_at (cache_of y g) off (bytes_of es off n)
     else fd = None ∧ cache_of y' g = cache_of y g).
Proof using Hmode.
  intros Hs Hh HL Hfd Hoff Hn Hend Hall Hin Hat. unfold read_index.
  rewrite (bind_ok _ _ _ _ _ (foc_the_file s y p F)), (bind_ok _ _ _ _ _ (foc_get s y p F)). cbv zeta.
  set (log := index_log _ _) in *. unfold BYTE_INDEX_MAX in Hend.
  rewrite (wrap_small 32 off), (wrap_small 32 (off + n - 1)) by (unfold in_width; lia).
  set (fuel := S (S (Z.to_nat n))) in *.
  unfold ft_read_all in Hall. unfold mbind, Heap.prog_bind in Hall.
  destruct (ft_read log (file_figtree F) off (off + n - 1) (figtree_nodes F)) as [[it h1]|] eqn:Hread; [|done].
  erewrite bind_ok; [|by eapply foc_nodes]. cbv beta.
  destruct (read_loop_ok log s p L g es more off (off + n - 1) fuel y (set_figtree (file_figtree F) h1 F) it h fs off
    (replicate (Z.to_nat n) 0)) as (y1 & Hloop & Hs1 & Hl1); [done..| |].
  { intros b v Hb Hv. by rewrite <-Hat. }
  assert (assemble es off fs (replicate (Z.to_nat n) 0) = bytes_of es off n) as Hbuf.
  { apply list_eq. intros i.
    destruct (assemble_lookup es off (off + n - 1) fs off (replicate (Z.to_nat n) 0) i) as [_ ->];
      [lia|rewrite length_replicate; lia|done|].
    destruct (decide (Z.of_nat i < n)) as [Hi|Hi].
    - rewrite bytes_of_lookup by done. destruct (figs_at fs (off + Z.of_nat i)) eqn:Hf; [done|].
      rewrite lookup_replicate_2 by lia. rewrite Hat in Hf by lia.
      pose proof (index_of_spec es (off + Z.of_nat i)) as Hsp. rewrite Hf in Hsp. by rewrite Hsp.
    - rewrite (figs_at_out _ _ _ _ Hin) by lia. rewrite (lookup_ge_None_2 (replicate _ _)) by (rewrite length_replicate; lia).
      symmetry. apply lookup_ge_None_2. pose proof (bytes_of_length es off n). lia. }
  rewrite Hbuf in Hloop. rewrite set_figtree_twice in Hloop. erewrite bind_ok; [|exact Hloop]. cbv beta.
  destruct use_cache eqn:Huse.
  - destruct Hfd as [pos Hfd].
    destruct (fill_cache_ok s y1 p (set_figtree (file_figtree F) h F) g pos (bytes_of es off n) off Huse Hfd Hoff)
      as (pos' & Hfill).
    erewrite bind_ok; [|exact Hfill].
    eexists _, _. split_and!; [done|by apply sys_rep_with_cache| |by eexists|].
    + intros g' Hne. rewrite cache_of_with_ne by done. by apply same_local.
    + rewrite cache_of_with. f_equal. by apply same_local.
  - erewrite bind_ok; [|by unfold gdpfs_file_fill_cache; rewrite Huse].
    exists y1, None. split_and!; [|done| |done|].
    + unfold set_cache_fd, set_figtree. simpl. by rewrite Hfd.
    + intros g' _. by apply same_local.
    + by apply same_local.
Qed.

Lemma read_index_ok s y p F L g es n off :
  sys_rep y L → log_names (log_handle F) g → log_of L g es →
  index_rep (file_figtree F) (figtree_nodes F) (index_of es) →
  (if use_cache then ∃ pos, cache_fd F = Some (mkLocalFd (g, None) pos) else cache_fd F = None) →
  0 ≤ off → 0 < n → off + n < BYTE_INDEX_MAX →
  ∃ y' h fd, read_index p n off (foc s y p F) =
      Ok (bytes_of es off n, foc s y' p (set_cache_fd fd (set_figtree (file_figtree F) h F))) ∧
    sys_rep y' L ∧ index_rep (file_figtree F) h (index_of es) ∧
    (∀ g', g' ≠ g → cache_of y' g' = cache_of y g') ∧
    (if use_cache then (∃ pos, fd = Some (mkLocalFd (g, None) pos)) ∧
       cache_of y' g = write_at (cache_of y g) off (bytes_of es off n)
     else fd = None ∧ cache_of y' g = cache_of y g).
Proof using Hmode.
  intros Hs Hh HL Hidx Hfd Hoff Hn Hend.
  destruct (index_read_ok (index_log (log_handle F) (foc s y p F)) (S (S (Z.to_nat n))) (file_figtree F)
    (figtree_nodes F) (index_of es) off (off + n - 1) Hidx) as (fs & h & Hall & Hidx' & Hin & Hat);
    [by eapply index_log_data|unfold byte_index, BYTE_INDEX_MIN, BYTE_INDEX_MAX in *; lia..|lia|].
  destruct (read_index_with s y p F L g es [] n off fs h) as (y' & fd & Hr & ? & ? & ?);
    [done|done|by apply log_of_from|done..|].
  by exists y', h, fd.
Qed.
End proof.
