(* ===== verification/FileRep.v ===== *)
(** * The invariant of the file layer

    [rep U s E hs L]: in the state [s] of [File.v] the logs are [L], the files are
    the sequences of entries [E], and the open handles are [hs].  The index of an
    open file that is not in [U] is loaded. *)
From S2P Require Import Prelude.
From S2P Require Import State.
From S2P Require Import Types.
From S2P Require Import Posix.
From S2P Require Heap.
From S2P Require Import FigNode.
From S2P Require Import Bitmap.
From S2P Require Import LogQueue.
From S2P Require Import FileIface.
From S2P Require Import Gdp.
From S2P Require Import LogEnt.
From S2P Require Import LogEntProof.
From S2P Require Import File.
From S2P Require Import FileIndex.
From S2P Require Import FileSpec.
From S2P Require Import FileFocus.
From S2P Require Import FileRead.

#[local] Open Scope Z_scope.

(** ** Counting references *)

Definition handles_of (hs : gmap Z file_gname) (g : file_gname) : nat :=
  size (filter (λ kv, kv.2 = g) hs).

Definition acks_of (p : floc) (l : list callback) : nat :=
  length (filter (λ cb, cb = CbFreeFileref p) l).

Lemma handles_of_insert hs fh g g' :
  hs !! fh = None → handles_of (<[fh := g]> hs) g' = (handles_of hs g' + if decide (g = g') then 1 else 0)%nat.
Proof.
  intros Hn. unfold handles_of. destruct (decide (g = g')) as [<-|Hne].
  - rewrite map_filter_insert_True by done. rewrite map_size_insert_None; [lia|].
    apply map_lookup_filter_None. by left.
  - rewrite map_filter_insert_not' by (naive_solver congruence). lia.
Qed.

Lemma handles_of_delete hs fh g g' :
  hs !! fh = Some g → handles_of hs g' = (handles_of (delete fh hs) g' + if decide (g = g') then 1 else 0)%nat.
Proof.
  intros Hg. rewrite <-(insert_delete_id hs fh g Hg) at 1.
  by rewrite handles_of_insert by apply lookup_delete_eq.
Qed.

Lemma handles_of_pos hs fh g : hs !! fh = Some g → (0 < handles_of hs g)%nat.
Proof. intros Hg. rewrite (handles_of_delete _ _ _ g Hg), decide_True by done. lia. Qed.

Lemma acks_of_app p l l' : acks_of p (l ++ l') = (acks_of p l + acks_of p l')%nat.
Proof. unfold acks_of. by rewrite filter_app, length_app. Qed.

Lemma acks_of_cons p q l : acks_of p (CbFreeFileref q :: l) = ((if decide (q = p) then 1 else 0) + acks_of p l)%nat.
Proof.
  unfold acks_of. rewrite filter_cons. destruct (decide (q = p)) as [->|Hne].
  - by rewrite decide_True.
  - rewrite decide_False by congruence. done.
Qed.

Lemma acks_of_delete p q l k :
  l !! k = Some (CbFreeFileref q) →
  acks_of p l = (acks_of p (delete k l) + if decide (q = p) then 1 else 0)%nat.
Proof.
  intros Hk. apply list_elem_of_split_length in Hk as (l1 & l2 & -> & ->).
  rewrite delete_middle, !acks_of_app, acks_of_cons. lia.
Qed.

(** ** Caches *)

Definition cache_sound (c : list (option Z)) (es : list fent) : Prop :=
  ∀ b v, stored c b = Some v → v = data_byte es b.
Definition cache_full (c : list (option Z)) (es : list fent) : Prop :=
  ∀ b, 0 ≤ b → byte_at c b = data_byte es b.

Lemma cache_full_sound c es : cache_full c es → cache_sound c es.
Proof.
  intros Hf b v Hs. unfold stored in Hs. destruct (Z.leb_spec 0 b); [|done].
  rewrite <-Hf by done. unfold byte_at, stored. rewrite (proj2 (Z.leb_le _ _)) by done. by rewrite Hs.
Qed.

Definition has_data (es : list fent) : Prop := Exists (λ e, fe_data e ≠ []) es.

Section rep.
Context {G : Type} `{GdpLaws G} `{!Heap.Allocator} `{!FileConfig}.
Implicit Types (s : gfs G) (y : sys G) (p : floc) (F : gdpfs_file_t G).
Implicit Types (E : gmap file_gname (list fent)) (hs : gmap Z file_gname) (L : gdp_logs).

(** ** Objects *)

Record object_ok y (g : file_gname) (es : list fent) F : Prop := {
  oo_log : log_names (log_handle F) g;
  oo_key : hash_key F = g;
  oo_info : info_cache_valid F = true → info_cache F = info_of es;
  oo_fd : if use_cache then ∃ pos, cache_fd F = Some (mkLocalFd (g, None) pos) else cache_fd F = None;
  oo_flush : index_flush_reqs F = 0;
  oo_index :
    if figtree_initialized F then
      last_recno F = Z.of_nat (length es) ∧
      index_rep (file_figtree F) (figtree_nodes F) (index_of es) ∧
      (use_cache = true → cache_full (cache_of y g) es)
    else figtree_nodes F = ∅ ∧ (has_data es → use_cache = true);
}.

(** The counters of an object agree with the handles and the pending
    callbacks. *)
Record counts_ok F (handles acks : nat) : Prop := {
  co_refs : ref_count F = Z.of_nat (handles + acks);
  co_reqs : outstanding_reqs F = Z.of_nat acks;
  co_closed : recently_closed F = bool_decide (handles + acks = 0)%nat;
}.

(** The names that were created in advance. *)
Record queue_rep (q : queue file_gname) E L : Prop := {
  qr_ok : queue_ok q;
  qr_producer : q_producer q = PCheck ∨ q_producer q = PWait;
  qr_consumers : q_consumers q = [CIdle];
  qr_nodup : NoDup (contents zero_name q);
  qr_fresh g : g ∈ contents zero_name q → L !! g = Some [] ∧ E !! g = None ∧
    length g = GNAME_SIZE ∧ Forall (in_width 8) g;
  qr_room : Z.of_nat (size L) + 2048 ≤ MAX_LOGS + Z.of_nat (size E) + Z.of_nat (length (contents zero_name q));
}.

Record rep (U : gset file_gname) s E hs L : Prop := {
  rp_mode : gcl_mode = GDP_MODE_RA;
  rp_sys : sys_rep (g_sys s) L;
  rp_logs g es : E !! g = Some es → log_of L g es;
  rp_sound g es : E !! g = Some es → use_cache = true → cache_sound (cache_of (g_sys s) g) es;
  rp_fresh g : E !! g = None → use_cache = true → cache_sound (cache_of (g_sys s) g) [];
  rp_hash g p : file_hash s !! g = Some p → ∃ F es, g_objs s !! p = Some F ∧ E !! g = Some es ∧
    object_ok (g_sys s) g es F ∧ counts_ok F (handles_of hs g) (acks_of p (g_pending s)) ∧
    (g ∉ U → handles_of hs g ≠ 0%nat → figtree_initialized F = true);
  rp_unhashed g es : E !! g = Some es → file_hash s !! g = None → has_data es → use_cache = true;
  rp_fhs : ∃ b, g_fhs s = Some b ∧ bm_size b = MAX_FHS ∧ represents b (dom hs);
  rp_files : length (g_files s) = Z.to_nat MAX_FHS;
  rp_handles fh g : hs !! fh = Some g →
    ∃ p, file_hash s !! g = Some p ∧ g_files s !! Z.to_nat fh = Some (Some p);
  rp_pending cb : cb ∈ g_pending s → ∃ g p, cb = CbFreeFileref p ∧ file_hash s !! g = Some p;
  rp_pending_len : (length (g_pending s) ≤ MAX_PENDING)%nat;
  rp_rc_nodup : NoDup (recently_closed_list s);
  rp_rc p : p ∈ recently_closed_list s ↔
    ∃ g F, file_hash s !! g = Some p ∧ g_objs s !! p = Some F ∧ recently_closed F = true;
  rp_rc_size : recently_closed_size s = Z.of_nat (length (recently_closed_list s));
  rp_count : Z.of_nat (size E) ≤ RC_CAP;
  rp_queue : queue_rep (g_queue s) E L;
}.

(** An object is the object of one name. *)
Lemma rep_hash_inj U s E hs L g g' p :
  rep U s E hs L → file_hash s !! g = Some p → file_hash s !! g' = Some p → g = g'.
Proof.
  intros [] Hg Hg'. destruct (rp_hash0 _ _ Hg) as (F & es1 & HF & _ & Ho & _).
  destruct (rp_hash0 _ _ Hg') as (F' & es2 & HF' & _ & Ho' & _).
  pose proof (oo_key _ _ _ _ Ho). pose proof (oo_key _ _ _ _ Ho'). congruence.
Qed.

Lemma object_ok_caches y y' g es F : cache_of y' g = cache_of y g → object_ok y g es F → object_ok y' g es F.
Proof. intros Hc []. constructor; try done. by rewrite Hc. Qed.

(** ** Changing one object *)

Section change.
Variables (U U' : gset file_gname) (s : gfs G) (E : gmap file_gname (list fent)).
Variables (hs hs' : gmap Z file_gname) (L : gdp_logs).
Variables (g : file_gname) (p : floc) (es es' : list fent) (F' : gdpfs_file_t G) (y' : sys G).
Variables (fhs' : option bitmap) (files' : list (option floc)) (rc' : list floc) (pend' : list callback).
Variable (sched' : list (list async_event)).
Hypothesis Hrep : rep U s E hs L.
Hypothesis Hp : file_hash s !! g = Some p ∨ file_hash s !! g = None ∧ g_objs s !! p = None.
Hypothesis Hes : E !! g = Some es.

Record change : Prop := {
  ch_sys : sys_rep y' (<[g := encode_fent <$> es']> L);
  ch_ok : Forall fent_ok es';
  ch_caches g' : g' ≠ g → cache_of y' g' = cache_of (g_sys s) g';
  ch_sound : use_cache = true → cache_sound (cache_of y' g) es';
  ch_object : object_ok y' g es' F';
  ch_counts : counts_ok F' (handles_of hs' g) (acks_of p pend');
  ch_loaded : g ∉ U' → handles_of hs' g ≠ 0%nat → figtree_initialized F' = true;
  ch_U : U ⊆ U' ∪ {[g]};
  ch_other_handles g' : g' ≠ g → handles_of hs' g' = handles_of hs g';
  ch_other_acks p' : p' ≠ p → acks_of p' pend' = acks_of p' (g_pending s);
  ch_fhs : ∃ b, fhs' = Some b ∧ bm_size b = MAX_FHS ∧ represents b (dom hs');
  ch_files : length files' = Z.to_nat MAX_FHS;
  ch_handles fh g' : hs' !! fh = Some g' →
    g' = g ∧ files' !! Z.to_nat fh = Some (Some p) ∨
    g' ≠ g ∧ hs !! fh = Some g' ∧ files' !! Z.to_nat fh = g_files s !! Z.to_nat fh;
  ch_pending cb : cb ∈ pend' → cb = CbFreeFileref p ∨ cb ∈ g_pending s;
  ch_pending_len : (length pend' ≤ MAX_PENDING)%nat;
  ch_rc_nodup : NoDup rc';
  ch_rc q : q ≠ p → q ∈ rc' ↔ q ∈ recently_closed_list s;
  ch_rc_p : p ∈ rc' ↔ recently_closed F' = true;
}.

Definition changed : gfs G :=
  mkGfs y' fhs' files' (<[p := F']> (g_objs s)) (<[g := p]> (file_hash s)) rc' (Z.of_nat (length rc'))
    (g_queue s) pend' sched'.

Lemma change_other g' p' : g' ≠ g → file_hash s !! g' = Some p' → p' ≠ p.
Proof using Hrep Hp.
  intros Hne Hg' ->. destruct Hp as [Hg|[Hg Ho]].
  - apply Hne. by eapply rep_hash_inj.
  - destruct (rp_hash _ _ _ _ _ Hrep _ _ Hg') as (F & ? & HF & _). congruence.
Qed.

Lemma rep_change : change → rep U' changed (<[g := es']> E) hs' (<[g := encode_fent <$> es']> L).
Proof using Hrep Hp Hes.
  intros []. pose proof Hrep as []. constructor; simpl; try done.
  - intros g' es1. destruct (decide (g = g')) as [<-|Hne].
    + rewrite lookup_insert_eq. intros [= <-]. split; [apply lookup_insert_eq|done].
    + rewrite lookup_insert_ne by done. intros Hg'. unfold log_of. rewrite lookup_insert_ne by done. by apply rp_logs0.
  - intros g' es1. destruct (decide (g = g')) as [<-|Hne].
    + rewrite lookup_insert_eq. by intros [= <-].
    + rewrite lookup_insert_ne by done. intros Hg' Hu. rewrite ch_caches0 by done. by apply rp_sound0.
  - intros g' Hg' Hu. destruct (decide (g = g')) as [<-|Hne]; [by rewrite lookup_insert_eq in Hg'|].
    rewrite lookup_insert_ne in Hg' by done. rewrite ch_caches0 by done. by apply rp_fresh0.
  - intros g' p'. destruct (decide (g = g')) as [<-|Hne].
    + rewrite lookup_insert_eq. intros [= <-]. exists F', es'. by rewrite !lookup_insert_eq.
    + rewrite lookup_insert_ne by done. intros Hg'.
      pose proof (change_other g' p' (not_eq_sym Hne) Hg') as Hp'.
      destruct (rp_hash0 _ _ Hg') as (F1 & es1 & ? & ? & ? & ? & Hl). exists F1, es1.
      rewrite !lookup_insert_ne by done. rewrite ch_other_handles0, ch_other_acks0 by done.
      split_and!; [done..| |done|].
      * eapply object_ok_caches; [|done]. by apply ch_caches0.
      * intros HU. apply Hl. intros [Hin|Hin%elem_of_singleton]%ch_U0%elem_of_union; congruence.
  - intros g' es1. destruct (decide (g = g')) as [<-|Hne]; [by rewrite !lookup_insert_eq|].
    rewrite !lookup_insert_ne by done. by apply rp_unhashed0.
  - intros fh g' Hg'. destruct (ch_handles0 fh g' Hg') as [[-> ?]|(Hne & Hg & ->)].
    + exists p. by rewrite lookup_insert_eq.
    + rewrite lookup_insert_ne by done. by apply rp_handles0.
  - intros cb Hcb. destruct (ch_pending0 cb Hcb) as [->|Hcb'].
    + exists g, p. by rewrite lookup_insert_eq.
    + destruct (rp_pending0 cb Hcb') as (g' & p' & -> & Hg'). destruct (decide (g = g')) as [<-|Hne].
      * exists g, p. rewrite lookup_insert_eq. destruct Hp as [?|[? ?]]; split; congruence.
      * exists g', p'. by rewrite lookup_insert_ne.
  - intros q. destruct (decide (q = p)) as [->|Hne].
    + rewrite ch_rc_p0. split.
      * intros Hr. exists g, F'. by rewrite !lookup_insert_eq.
      * intros (g' & F1 & _ & HF & Hr). rewrite lookup_insert_eq in HF. by injection HF as <-.
    + rewrite ch_rc0 by done. rewrite rp_rc0. split.
      * intros (g' & F1 & Hg' & HF & Hr). exists g', F1. rewrite (lookup_insert_ne _ p q) by done.
        rewrite lookup_insert_ne; [done|]. intros <-. destruct Hp as [?|[? ?]]; congruence.
      * intros (g' & F1 & Hg' & HF & Hr). rewrite (lookup_insert_ne _ p q) in HF by done.
        exists g', F1. destruct (decide (g = g')) as [<-|Hg].
        -- rewrite lookup_insert_eq in Hg'. congruence.
        -- rewrite lookup_insert_ne in Hg' by done. done.
  - rewrite map_size_insert_Some by eauto. done.
  - destruct rp_queue0. constructor; try done.
    + intros g' Hg'. destruct (qr_fresh0 g' Hg') as (? & ? & ?).
      assert (g ≠ g') by congruence. by rewrite !lookup_insert_ne.
    + assert (size (<[g := es']> E) = size E) as -> by (apply map_size_insert_Some; by eexists).
      assert (size (<[g := encode_fent <$> es']> L) = size L) as ->; [|done].
      apply map_size_insert_Some. eexists. by apply rp_logs0.
Qed.
End change.
End rep.
