(* ===== verification/FileStep.v ===== *)
(** * Reading and writing one file

    The calls of [do_read] and [do_write] on the object of an open file, and the
    invariant of the layer after them. *)
From S2P Require Import Prelude.
From S2P Require Import State.
From S2P Require Import Types.
From S2P Require Import Posix.
From S2P Require Heap.
From S2P Require Import Interval.
From S2P Require Import FigNode.
From S2P Require Import FigTree.
From S2P Require Import FigTheorems.
From S2P Require Import Bitmap.
From S2P Require Import FileIface.
From S2P Require Import Format.
From S2P Require Import FormatProof.
From S2P Require Import Gdp.
From S2P Require Import LogEnt.
From S2P Require Import LogEntProof.
From S2P Require Import File.
From S2P Require Import FileIndex.
From S2P Require Import FileSpec.
From S2P Require Import FileFocus.
From S2P Require Import FileRead.
From S2P Require Import FileRep.

#[local] Open Scope Z_scope.

Section proof.
Context {G : Type} `{GdpLaws G} `{!Heap.Allocator} `{!FileConfig}.
Implicit Types (s : gfs G) (y : sys G) (p : floc) (F : gdpfs_file_t G).
Implicit Types (E : gmap file_gname (list fent)) (hs : gmap Z file_gname) (L : gdp_logs).

(** ** Handles *)

Lemma rep_handle_range U s E hs L fh g : rep U s E hs L → hs !! fh = Some g → 0 ≤ fh < MAX_FHS.
Proof.
  intros Hr Hg. destruct (rp_fhs _ _ _ _ _ Hr) as (b & _ & <- & _ & Hb & _). apply Hb.
  by apply elem_of_dom_2 in Hg.
Qed.

Lemma lookup_fh_foc U s E hs L fh g p y F :
  rep U s E hs L → hs !! fh = Some g → file_hash s !! g = Some p →
  lookup_fh fh (foc s y p F) = Ok (Some p, foc s y p F).
Proof.
  intros Hr Hg Hp. pose proof (rep_handle_range _ _ _ _ _ _ _ Hr Hg) as Hfh.
  destruct (rp_fhs _ _ _ _ _ Hr) as (b & Hb & Hsize & Hrep). unfold MAX_FHS in *.
  destruct (rp_handles _ _ _ _ _ Hr _ _ Hg) as (p' & Hp' & Hf). rewrite Hp in Hp'. injection Hp' as <-.
  assert (bitmap_is_set (g_fhs s) (wrap64 fh) = Ok 1) as Hset.
  { rewrite Hb, wrap_small by (unfold in_width; lia). unfold bitmap_is_set.
    rewrite (proj2 (Z.ltb_ge _ _)) by lia.
    destruct (rep_read b (dom hs) Hrep fh) as (field & Hread & Hv & _); [lia|].
    unfold mbind, res_bind. rewrite Hread, Hv, bool_decide_eq_true_2; [done|]. by apply elem_of_dom_2 in Hg. }
  unfold lookup_fh. erewrite bind_ok.
  2:{ unfold on_fhs. simpl. rewrite Hset. simpl. done. }
  cbv beta. change (1 <? 0) with false. cbv iota. unfold file_at. simpl. rewrite Hf. done.
Qed.

(** ** The cached header *)

Definition load_info (es : list fent) F : gdpfs_file_t G :=
  set_info_cache_valid true (set_info_cache (info_of es) F).

Lemma stat_ok_found e : EP_STAT_ISOK e = true → EP_STAT_IS_SAME e GDPFS_STAT_NOTFOUND = false.
Proof. intros He. unfold EP_STAT_IS_SAME. case_bool_decide; [by subst|done]. Qed.

Lemma last_record (es : list fent) :
  record_at (encode_fent <$> es) (-1) = encode_fent <$> last es.
Proof. unfold record_at, LAST_RECNO. simpl. apply fmap_last. Qed.

(** The header is that of the last record. *)
Lemma load_info_last s y p F L g l r m :
  gcl_mode = GDP_MODE_RA → sys_rep y L → log_names (log_handle F) g → L !! g = Some l → last l = Some r →
  (Z.to_nat sizeof_fmeta ≤ length r)%nat → decode_fmeta (take (Z.to_nat sizeof_fmeta) r) = Some m →
  ∃ y', _file_load_info_cache p (foc s y p F) =
      Ok (GDPFS_STAT_OK, foc s y' p (set_info_cache (mkInfo (fm_file_size m) (fm_file_type m) (fm_file_perm m)) F)) ∧
    sys_rep y' L ∧ sys_local y' = sys_local y.
Proof.
  intros Hmode Hs Hh HL Hlast Hlen Hdec. unfold _file_load_info_cache.
  rewrite (bind_ok _ _ _ _ _ (foc_the_file s y p F)). cbv zeta.
  destruct (mem_open gcl_mode y L (log_handle F) g l (-1) r) as (estat & ent & y1 & Hopen & Hest & Hs1 & Hl1 & Hm);
    [by rewrite Hmode|done..|].
  erewrite bind_ok; [|apply foc_sys; exact Hopen]. cbv beta iota.
  rewrite stat_ok_found, Hest by done. cbn [negb].
  destruct (mem_read _ _ _ Hm y1 sizeof_fmeta) as (ent1 & Hread & Hm1); [done|].
  erewrite bind_ok; [|apply foc_sys; exact Hread]. cbv beta iota.
  rewrite length_take, (proj2 (Z.eqb_eq _ _)) by (unfold sizeof_fmeta in *; lia).
  cbn [negb]. rewrite Hdec.
  erewrite bind_ok; [|apply foc_sys, (mem_close _ _ _ Hm1)]. cbv beta.
  erewrite bind_ok; [|apply foc_update]. by exists y1.
Qed.

Lemma load_info_empty s y p F L g :
  gcl_mode = GDP_MODE_RA → sys_rep y L → log_names (log_handle F) g → L !! g = Some [] →
  ∃ y', _file_load_info_cache p (foc s y p F) = Ok (GDPFS_STAT_OK, foc s y' p (set_info_cache no_entry F)) ∧
    sys_rep y' L ∧ sys_local y' = sys_local y.
Proof.
  intros Hmode Hs Hh HL. unfold _file_load_info_cache. rewrite (bind_ok _ _ _ _ _ (foc_the_file s y p F)). cbv zeta.
  destruct (mem_open_missing gcl_mode y L (log_handle F) g [] (-1)) as (ent & y1 & Hopen & _ & _ & Hs1 & Hl1);
    [by rewrite Hmode|done..|].
  erewrite bind_ok; [|apply foc_sys; exact Hopen]. cbv beta iota.
  change (EP_STAT_IS_SAME GDPFS_STAT_NOTFOUND GDPFS_STAT_NOTFOUND) with true. cbv iota.
  erewrite bind_ok; [|apply foc_update]. by exists y1.
Qed.

Lemma get_info_raw_by s y p F L i :
  sys_rep y L → (info_cache_valid F = true → info_cache F = i) →
  (∃ y', _file_load_info_cache p (foc s y p F) = Ok (GDPFS_STAT_OK, foc s y' p (set_info_cache i F)) ∧
    sys_rep y' L ∧ sys_local y' = sys_local y) →
  ∃ y', _file_get_info_raw p (foc s y p F) =
      Ok ((GDPFS_STAT_OK, i), foc s y' p (set_info_cache_valid true (set_info_cache i F))) ∧
    sys_rep y' L ∧ sys_local y' = sys_local y.
Proof.
  intros Hs Hi (y' & Hload & Hs' & Hl'). unfold _file_get_info_raw.
  rewrite (bind_ok _ _ _ _ _ (foc_the_file s y p F)).
  destruct (info_cache_valid F) eqn:Hv.
  - exists y. split; [|done]. rewrite Hi by done. unfold set_info_cache, set_info_cache_valid.
    simpl. rewrite <-Hi, <-Hv by done. by destruct F.
  - exists y'. split; [|done]. st_step Hload. cbn [EP_STAT_ISOK negb].
    erewrite bind_ok; [|apply foc_update]. by erewrite bind_ok; [|apply foc_the_file].
Qed.

Lemma get_info_raw_ok s y p F L g es :
  gcl_mode = GDP_MODE_RA → sys_rep y L → log_names (log_handle F) g → log_of L g es →
  (info_cache_valid F = true → info_cache F = info_of es) →
  ∃ y', _file_get_info_raw p (foc s y p F) = Ok ((GDPFS_STAT_OK, info_of es), foc s y' p (load_info es F)) ∧
    sys_rep y' L ∧ sys_local y' = sys_local y.
Proof.
  intros Hmode Hs Hh [HL Hok] Hi. apply get_info_raw_by; [done..|]. unfold info_of.
  destruct (last es) as [e|] eqn:Hlast; simpl.
  - assert (fent_ok e) as He.
    { rewrite last_lookup in Hlast. by eapply Forall_lookup_1. }
    destruct (load_info_last s y p F L g (encode_fent <$> es) (encode_fent e) (fe_meta e)) as (y' & Hload & ? & ?);
      [done..|by rewrite fmap_last, Hlast| |by apply decode_fent|].
    { pose proof (encode_fent_length e). unfold fe_size, sizeof_fmeta in *. lia. }
    exists y'. split; [|done]. rewrite Hload. simpl. by destruct (fe_info e).
  - apply last_None in Hlast as ->. by apply (load_info_empty _ _ _ _ _ g).
Qed.

Lemma object_ok_load_info y g es F : object_ok y g es F → object_ok y g es (load_info es F).
Proof. intros []. by constructor. Qed.

(** ** The cache under reads and writes *)

Lemma sound_write c es off bs i :
  0 ≤ off → cache_sound c es → cache_sound (write_at c off bs) (es ++ [mkFent i off bs]).
Proof.
  intros Ho Hs b v. rewrite stored_write_at, data_byte_written by done.
  case_decide; [by intros ->|]. apply Hs.
Qed.

Lemma full_write c es off bs i :
  0 ≤ off → cache_full c es → cache_full (write_at c off bs) (es ++ [mkFent i off bs]).
Proof.
  intros Ho Hs b Hb. rewrite byte_at_write_at, data_byte_written by done.
  case_decide; [done|]. by apply Hs.
Qed.

(** Writing back what the file holds. *)
Lemma full_refresh c es off n :
  0 ≤ off → 0 ≤ n → cache_full c es → cache_full (write_at c off (bytes_of es off n)) es.
Proof.
  intros Ho Hn Hs b Hb. rewrite byte_at_write_at by done. rewrite (bytes_of_length es off n) by done.
  case_decide as Hc; [|by apply Hs]. rewrite bytes_of_lookup by lia. simpl. f_equal. lia.
Qed.

Lemma full_read c es off n :
  0 ≤ off → cache_full c es → Z.of_nat (length (read_at c off n)) = n → read_at c off n = bytes_of es off n.
Proof.
  intros Ho Hf Hl. apply list_eq. intros i. destruct (decide (Z.of_nat i < n)) as [Hi|Hi].
  - rewrite read_at_lookup, bytes_of_lookup by lia. f_equal. apply Hf. lia.
  - rewrite !lookup_ge_None_2; [done| |lia]. pose proof (bytes_of_length es off n). lia.
Qed.

(** ** Reading *)

(** What stays of an object when it is read. *)
Record read_only y y' g es F F' : Prop := {
  ro_object : object_ok y' g es F';
  ro_refs : ref_count F' = ref_count F;
  ro_reqs : outstanding_reqs F' = outstanding_reqs F;
  ro_closed : recently_closed F' = recently_closed F;
  ro_init : figtree_initialized F' = figtree_initialized F;
  ro_caches g' : g' ≠ g → cache_of y' g' = cache_of y g';
}.

(** [do_read] on an object whose cache and index are right: [Inv] holds before the
    cache is looked up, [Post] at the end. *)
Lemma do_read_by (Inv Post : sys G → gdpfs_file_t G → Prop) s p fh es n off y F :
  lookup_fh fh (foc s y p F) = Ok (Some p, foc s y p F) →
  0 ≤ off → 0 ≤ n → off + n < BYTE_INDEX_MAX → 0 ≤ file_size (info_of es) →
  (∃ y1 F1, _file_get_info_raw p (foc s y p F) = Ok ((GDPFS_STAT_OK, info_of es), foc s y1 p F1) ∧ Inv y1 F1) →
  (∀ y F, Inv y F → Post y F) →
  (∀ y F m, use_cache = true → Inv y F → 0 ≤ m → ∃ o y' F',
    gdpfs_file_get_cache p m off (foc s y p F) = Ok (o, foc s y' p F') ∧ Inv y' F' ∧
    ∀ bs, o = Some bs → bs = bytes_of es off m) →
  (∀ y F m, Inv y F → 0 < m → off + m < BYTE_INDEX_MAX → ∃ y' F',
    read_index p m off (foc s y p F) = Ok (bytes_of es off m, foc s y' p F') ∧ Post y' F') →
  ∃ y' F', do_read fh n off (foc s y p F) = Ok (read_file (file_of es) n off, foc s y' p F') ∧ Post y' F'.
Proof.
  intros Hfh Hoff Hn Hend Hsize (y1 & F1 & Hinfo & Hinv) Hpost Hcache Hindex. unfold do_read.
  rewrite (bind_ok _ _ _ _ _ Hfh). cbv beta iota.
  rewrite (bind_ok _ _ _ _ _ Hinfo). cbv beta iota. cbn [EP_STAT_ISOK negb].
  set (m := if file_size (info_of es) <? wrap64 (n + off) then file_size (info_of es) - off else n).
  unfold BYTE_INDEX_MAX in *.
  assert (wrap64 (n + off) = off + n) as Hwrap by (rewrite wrap_small; [lia|unfold in_width; lia]).
  destruct ((file_size (info_of es) <? wrap64 (n + off)) && (file_size (info_of es) <? off)) eqn:Hpast.
  { exists y1, F1. apply andb_true_iff in Hpast as [_ Hpast%Z.ltb_lt]. split; [|by apply Hpost].
    unfold read_file. simpl af_info. by rewrite Z.max_l by lia. }
  assert (0 ≤ m ∧ m ≤ n ∧ Z.max 0 (Z.min n (file_size (info_of es) - off)) = m) as (Hm & Hmn & Hmax).
  { unfold m. rewrite Hwrap in *. apply andb_false_iff in Hpast.
    destruct (Z.ltb_spec (file_size (info_of es)) (off + n)); [|lia].
    destruct Hpast as [?|?%Z.ltb_ge]; [done|lia]. }
  assert (read_file (file_of es) n off = bytes_of es off m) as ->.
  { unfold read_file. simpl af_info. by rewrite Hmax. }
  clearbody m. clear Hpast Hmax.
  assert (∀ y2 F2, Inv y2 F2 → ∃ y' F', (if 0 <? m then read_index p m off else mret []) (foc s y2 p F2) =
      Ok (bytes_of es off m, foc s y' p F') ∧ Post y' F') as Hmiss.
  { intros y2 F2 Hinv2. destruct (Z.ltb_spec 0 m) as [Hpos|]; [apply Hindex; [done|done|lia]|].
    exists y2, F2. split; [|by apply Hpost]. unfold bytes_of. by replace m with 0 by lia. }
  destruct use_cache eqn:Hu.
  - destruct (Hcache y1 F1 m eq_refl Hinv Hm) as (o & y2 & F2 & Hget & Hinv2 & Hhit).
    rewrite (bind_ok _ _ _ _ _ Hget). cbv beta. destruct o as [bs|]; [|by apply Hmiss].
    exists y2, F2. rewrite (Hhit bs eq_refl). split; [done|by apply Hpost].
  - rewrite (bind_ok _ _ _ None (foc s y1 p F1)) by done. by apply Hmiss.
Qed.

Lemma do_read_foc U s E hs L fh g p es n off y F :
  rep U s E hs L → hs !! fh = Some g → file_hash s !! g = Some p →
  sys_rep y L → log_of L g es → object_ok y g es F → figtree_initialized F = true →
  0 ≤ off → 0 ≤ n → off + n < BYTE_INDEX_MAX → 0 ≤ file_size (info_of es) →
  ∃ y' F', do_read fh n off (foc s y p F) = Ok (read_file (file_of es) n off, foc s y' p F') ∧
    sys_rep y' L ∧ read_only y y' g es F F'.
Proof.
  intros Hr Hg Hp Hs HL Ho Hinit Hoff Hn Hend Hsize.
  pose proof (rp_mode _ _ _ _ _ Hr) as Hmode. set (Inv y' F' := sys_rep y' L ∧ read_only y y' g es F F').
  apply (do_read_by Inv Inv); try done.
  - by apply (lookup_fh_foc _ _ _ _ _ _ _ _ y F Hr Hg Hp).
  - destruct (get_info_raw_ok s y p F L g es) as (y1 & Hinfo & Hs1 & Hl1); [done|done|apply Ho|done|apply Ho|].
    eexists y1, _. split; [exact Hinfo|]. pose proof (same_local _ _ Hl1) as Hc1. split; [done|].
    constructor; try done. apply object_ok_load_info. eapply object_ok_caches; [|done]. apply Hc1.
  - intros y1 F1 m Hu [Hs1 Hro] Hm. pose proof Hro as [Ho1 ? ? ? Hi1 Hc1]. rewrite Hinit in Hi1.
    pose proof (oo_fd _ _ _ _ Ho1) as Hfd. rewrite Hu in Hfd. destruct Hfd as [pos Hfd].
    destruct (get_cache_ok s y1 p F1 g pos m off Hu Hfd Hoff Hm) as (pos' & o & y2 & Hget & Hq & Hhit).
    pose proof (quiet_caches _ _ _ Hq) as Hc2. eexists o, y2, _. split; [exact Hget|].
    split; [split; [by eapply quiet_rep|]|].
    + constructor; simpl; try done; [|by rewrite Hinit|by intros g' Hne; rewrite Hc2, Hc1].
      eapply object_ok_caches; [apply Hc2|]. destruct Ho1. constructor; try done. simpl. rewrite Hu. by eexists.
    + intros bs Hbs. destruct (Hhit bs Hbs) as [[-> ->]|(-> & Hl & _)]; [done|].
      apply full_read; [done| |done]. pose proof (oo_index _ _ _ _ Ho1) as Hx. rewrite Hi1 in Hx. by apply Hx.
  - intros y2 F2 m [Hs2 Hro2] Hm Hend2. destruct Hro2. rewrite Hinit in ro_init0.
    pose proof (oo_index _ _ _ _ ro_object0) as Hidx2. rewrite ro_init0 in Hidx2.
    destruct Hidx2 as (Hlast & Hidx2 & Hfull2).
    destruct (read_index_ok Hmode s y2 p F2 L g es m off Hs2 (oo_log _ _ _ _ ro_object0) HL Hidx2
      (oo_fd _ _ _ _ ro_object0)) as (y3 & h & fd & Hread & Hs3 & Hidx3 & Hc3 & Hfd3); [done..|].
    eexists y3, _. split; [exact Hread|]. split; [done|]. constructor; simpl; try done.
    + destruct ro_object0. constructor; simpl; try done.
      * by destruct use_cache; [destruct Hfd3|destruct Hfd3].
      * rewrite ro_init0. split_and!; [done..|]. intros Hu. rewrite Hu in Hfd3. destruct Hfd3 as [_ ->].
        apply full_refresh; [done|lia|]. by apply Hfull2.
    + by rewrite Hinit.
    + intros g' Hne. rewrite Hc3 by done. by apply ro_caches0.
Qed.

(** ** The invariant after a change of one object *)

Lemma rep_object U U' s E hs L g p F es es' F' y' pend' :
  rep U s E hs L → file_hash s !! g = Some p → g_objs s !! p = Some F → E !! g = Some es →
  sys_rep y' (<[g := encode_fent <$> es']> L) → Forall fent_ok es' →
  (∀ g', g' ≠ g → cache_of y' g' = cache_of (g_sys s) g') →
  (use_cache = true → cache_sound (cache_of y' g) es') →
  object_ok y' g es' F' → counts_ok F' (handles_of hs g) (acks_of p pend') →
  recently_closed F' = recently_closed F →
  (g ∉ U' → handles_of hs g ≠ 0%nat → figtree_initialized F' = true) → U ⊆ U' ∪ {[g]} →
  (pend' = g_pending s ∨ pend' = g_pending s ++ [CbFreeFileref p]) → (length pend' ≤ MAX_PENDING)%nat →
  rep U' (set_pending pend' (foc s y' p F')) (<[g := es']> E) hs (<[g := encode_fent <$> es']> L).
Proof.
  intros Hr Hp HF Hes Hs' Hok Hc Hsound Ho Hcnt Hcl Hl HU Hpend Hlen.
  assert (set_pending pend' (foc s y' p F') =
    changed s g p F' y' (g_fhs s) (g_files s) (recently_closed_list s) pend' (g_sched s)) as ->.
  { unfold set_pending, foc, changed. simpl. f_equal; [by rewrite insert_id|apply (rp_rc_size _ _ _ _ _ Hr)]. }
  apply (rep_change U U' s E hs hs L g p es); [done|by left|done|]. pose proof Hr as [].
  constructor; try done.
  - intros p' Hne. destruct Hpend as [->| ->]; [done|].
    rewrite acks_of_app, acks_of_cons, decide_False by done.
    change (acks_of p' []) with 0%nat. lia.
  - intros fh g' Hg'. destruct (rp_handles _ _ Hg') as (p' & Hp' & Hf).
    destruct (decide (g' = g)) as [->|]; [left|by right]. split; [done|]. congruence.
  - intros cb Hcb. destruct Hpend as [->| ->]; [by right|].
    apply elem_of_app in Hcb as [?|?%list_elem_of_singleton]; [by right|by left].
  - rewrite rp_rc. split.
    + intros (g' & F1 & _ & HF1 & ?). rewrite HF in HF1. injection HF1 as <-. by rewrite Hcl.
    + intros Hr'. exists g, F. rewrite <-Hcl. done.
Qed.

(** The facts about an open handle. *)
Record at_handle s E hs L (fh : Z) (g : file_gname) (p : floc) F (es : list fent) : Prop := {
  ah_handle : hs !! fh = Some g;
  ah_hash : file_hash s !! g = Some p;
  ah_obj : g_objs s !! p = Some F;
  ah_es : E !! g = Some es;
  ah_log : log_of L g es;
  ah_ok : object_ok (g_sys s) g es F;
  ah_counts : counts_ok F (handles_of hs g) (acks_of p (g_pending s));
}.

Lemma rep_at_handle U s E hs L fh g : rep U s E hs L → hs !! fh = Some g →
  ∃ p F es, at_handle s E hs L fh g p F es ∧ (g ∉ U → figtree_initialized F = true).
Proof.
  intros Hr Hg. destruct (rp_handles _ _ _ _ _ Hr _ _ Hg) as (p & Hp & _).
  destruct (rp_hash _ _ _ _ _ Hr _ _ Hp) as (F & es & HF & Hes & Ho & Hc & Hl).
  exists p, F, es. split; [constructor; try done; by eapply rp_logs|].
  intros HU. apply Hl; [done|]. pose proof (handles_of_pos _ _ _ Hg). lia.
Qed.

Lemma log_of_insert L g es : log_of L g es → <[g := encode_fent <$> es]> L = L.
Proof. intros [? _]. by apply insert_id. Qed.

(** A call that reads the file. *)
Lemma rep_read_only U s E hs L fh g p F es y' F' :
  rep U s E hs L → at_handle s E hs L fh g p F es → sys_rep y' L →
  read_only (g_sys s) y' g es F F' → (use_cache = true → cache_sound (cache_of y' g) es) →
  rep U (foc s y' p F') E hs L.
Proof.
  intros Hr [] Hs' [] Hcs. pose proof Hr as [].
  pose proof (rep_object U U s E hs L g p F es es F' y' (g_pending s)) as Hro.
  rewrite log_of_insert, insert_id in Hro by done. apply Hro; try done.
  - apply ah_log0.
  - destruct ah_counts0. constructor; congruence.
  - intros HU Hh. rewrite ro_init0. destruct (rp_hash _ _ ah_hash0) as (F1 & es1 & HF1 & _ & _ & _ & Hl).
    assert (F1 = F) as -> by congruence. by apply Hl.
  - set_solver.
  - by left.
Qed.

(** ** Reading *)

Lemma read_sound y y' g es F F' :
  read_only y y' g es F F' → figtree_initialized F = true → use_cache = true → cache_sound (cache_of y' g) es.
Proof.
  intros [] Hi Hu. apply cache_full_sound. destruct ro_object0. rewrite ro_init0, Hi in oo_index.
  by apply oo_index.
Qed.

Lemma do_read_ok U s E hs L fh g es n off :
  rep U s E hs L → hs !! fh = Some g → E !! g = Some es → g ∉ U →
  0 ≤ off → 0 ≤ n → off + n < BYTE_INDEX_MAX →
  ∃ s', do_read fh n off s = Ok (read_file (file_of es) n off, s') ∧ rep U s' E hs L.
Proof.
  intros Hr Hg Hes HU Hoff Hn Hend.
  destruct (rep_at_handle _ _ _ _ _ _ _ Hr Hg) as (p & F & es1 & Ha & Hinit). pose proof Ha as [].
  assert (es1 = es) as -> by congruence.
  assert (0 ≤ file_size (info_of es)) as Hsize.
  { unfold info_of. destruct (last es) as [e|] eqn:Hlast; [|done]. simpl.
    rewrite last_lookup in Hlast. apply (fo_info_size e). eapply Forall_lookup_1; [apply ah_log0|done]. }
  destruct (do_read_foc U s E hs L fh g p es n off (g_sys s) F) as (y' & F' & Hread & Hs' & Hro);
    try done; [apply Hr|by apply Hinit|].
  rewrite foc_id in Hread by done. exists (foc s y' p F'). split; [done|].
  eapply rep_read_only; try done. intros Hu. eapply read_sound; [done|by apply Hinit|done].
Qed.

Lemma info_only y y' g es F :
  sys_local y' = sys_local y → object_ok y g es F → read_only y y' g es F (load_info es F).
Proof.
  intros Hl Ho. pose proof (same_local _ _ Hl) as Hc. constructor; try done.
  apply object_ok_load_info. eapply object_ok_caches; [|done]. apply Hc.
Qed.

(** Loading the header leaves the files alone. *)
Lemma get_info_handle U s E hs L fh g p F es :
  rep U s E hs L → at_handle s E hs L fh g p F es →
  ∃ y', gdpfs_file_get_info fh s = Ok ((GDPFS_STAT_OK, info_of es), foc s y' p (load_info es F)) ∧
    sys_rep y' L ∧ sys_local y' = sys_local (g_sys s) ∧ rep U (foc s y' p (load_info es F)) E hs L.
Proof.
  intros Hr Ha. pose proof Ha as [].
  destruct (get_info_raw_ok s (g_sys s) p F L g es) as (y' & Hinfo & Hs' & Hl');
    [apply Hr|apply Hr|apply ah_ok0|done|apply ah_ok0|].
  exists y'. split_and!; [|done|done|].
  - assert (gdpfs_file_get_info fh (foc s (g_sys s) p F) =
      Ok ((GDPFS_STAT_OK, info_of es), foc s y' p (load_info es F))) as Hrun.
    { unfold gdpfs_file_get_info.
      by rewrite (bind_ok _ _ _ _ _ (lookup_fh_foc _ _ _ _ _ _ _ _ (g_sys s) F Hr ah_handle0 ah_hash0)). }
    by rewrite foc_id in Hrun.
  - eapply rep_read_only; try done; [by apply info_only|].
    intros Hu. rewrite (same_local _ _ Hl' g). by eapply rp_sound.
Qed.

Lemma get_info_ok' U s E hs L fh g es :
  rep U s E hs L → hs !! fh = Some g → E !! g = Some es →
  ∃ s', gdpfs_file_get_info fh s = Ok ((GDPFS_STAT_OK, info_of es), s') ∧ rep U s' E hs L.
Proof.
  intros Hr Hg Hes. destruct (rep_at_handle _ _ _ _ _ _ _ Hr Hg) as (p & F & es1 & Ha & _).
  assert (es1 = es) as -> by (destruct Ha; congruence).
  destruct (get_info_handle _ _ _ _ _ _ _ _ _ _ Hr Ha) as (y' & ? & _ & _ & ?). eauto.
Qed.

Lemma gname_ok' U s E hs L fh g :
  rep U s E hs L → hs !! fh = Some g → gdpfs_file_gname fh s = Ok (g, s).
Proof.
  intros Hr Hg. destruct (rep_at_handle _ _ _ _ _ _ _ Hr Hg) as (p & F & es & [] & _).
  destruct (rp_handles _ _ _ _ _ Hr _ _ Hg) as (p' & Hp' & Hf).
  assert (p' = p) as -> by congruence. unfold gdpfs_file_gname.
  rewrite (bind_ok _ _ s (Some p) s) by (unfold file_at; by rewrite Hf).
  rewrite (bind_ok _ _ s F s) by (unfold the_file; by rewrite ah_obj0).
  by rewrite (oo_key _ _ _ _ ah_ok0).
Qed.

(** ** Writing *)

Lemma MAX_PENDING_eq : Z.of_nat MAX_PENDING = 65536.
Proof. by vm_compute. Qed.

(** The counters of an object do not wrap. *)
Lemma refs_bound U s E hs L g p :
  rep U s E hs L → in_width 32 (Z.of_nat (handles_of hs g + acks_of p (g_pending s)) + 1).
Proof.
  intros Hr. assert (handles_of hs g ≤ 1024)%nat.
  { destruct (rp_fhs _ _ _ _ _ Hr) as (b & _ & Hb & _ & Hin & _).
    transitivity (size hs); [apply map_subseteq_size, map_filter_subseteq|].
    rewrite <-size_dom. transitivity (size (list_to_set (seqZ 0 1024) : gset Z)).
    - apply subseteq_size. intros i Hi. apply elem_of_list_to_set, elem_of_seqZ.
      specialize (Hin i Hi). unfold MAX_FHS in Hb. lia.
    - rewrite size_list_to_set by apply NoDup_seqZ. by rewrite length_seqZ. }
  assert (acks_of p (g_pending s) ≤ MAX_PENDING)%nat.
  { etransitivity; [|apply (rp_pending_len _ _ _ _ _ Hr)]. apply length_filter. }
  pose proof MAX_PENDING_eq. unfold in_width. change (2 ^ 32) with 4294967296. lia.
Qed.

(** The object after a write. *)
Definition written F (t : figtree) (h : Heap.heap ft_node) (fd : option local_fd) : gdpfs_file_t G :=
  set_last_recno (last_recno F + 1) (set_figtree t h (set_cache_fd fd
    (set_outstanding_reqs (outstanding_reqs F + 1) (set_ref_count (wrap32 (ref_count F + 1)) F)))).

Lemma do_write_foc U s E hs L fh g p es y F bs off i :
  rep U s E hs L → hs !! fh = Some g → file_hash s !! g = Some p →
  sys_rep y L → log_of L g es → log_names (log_handle F) g →
  (if use_cache then ∃ pos, cache_fd F = Some (mkLocalFd (g, None) pos) else cache_fd F = None) →
  (figtree_initialized F = true → last_recno F = Z.of_nat (length es) ∧
     index_rep (file_figtree F) (figtree_nodes F) (index_of es)) →
  (bs ≠ [] → figtree_initialized F = true) → fent_ok (mkFent i off bs) →
  ∃ y' t h fd, do_write fh bs off i (foc s y p F) =
      Ok (Z.of_nat (length bs), set_pending (g_pending s ++ [CbFreeFileref p]) (foc s y' p (written F t h fd))) ∧
    sys_rep y' (<[g := encode_fent <$> (es ++ [mkFent i off bs])]> L) ∧
    (∀ g', g' ≠ g → cache_of y' g' = cache_of y g') ∧
    (if use_cache then (∃ pos, fd = Some (mkLocalFd (g, None) pos)) ∧
       cache_of y' g = write_at (cache_of y g) off bs
     else fd = None ∧ cache_of y' g = cache_of y g) ∧
    (figtree_initialized F = true → index_rep t h (index_of (es ++ [mkFent i off bs]))) ∧
    (figtree_initialized F = false → h = figtree_nodes F).
Proof.
  intros Hr Hg Hp Hs HL Hh Hfd Hidx Hinit He. unfold do_write. cbv zeta.
  pose proof (rp_mode _ _ _ _ _ Hr) as Hmode.
  rewrite (bind_ok _ _ _ _ _ (lookup_fh_foc _ _ _ _ _ _ _ _ y F Hr Hg Hp)). cbv beta iota.
  set (e := mkFent i off bs) in *. change (mkFmeta _ _ _ _ _ _ _) with (fe_meta e).
  destruct (init_write_ok y (encode_fmeta (fe_meta e))) as (ent1 & d1 & Hw1 & Hc1 & Hd1 & E1).
  erewrite bind_ok; [|apply foc_sys; exact Hw1]. cbv beta iota. change (negb (0 =? 0)) with false. cbv iota.
  destruct (ent_write_ok y ent1 d1 bs Hc1 Hd1) as (ent2 & d2 & Hw2 & Hc2 & Hd2 & E2).
  erewrite bind_ok; [|apply foc_sys; exact Hw2]. cbv beta iota. change (negb (0 =? 0)) with false. cbv iota.
  rewrite E1 in E2. change (encode_fmeta (fe_meta e) ++ bs) with (encode_fent e) in E2.
  erewrite bind_ok; [|unfold _file_ref; erewrite bind_ok; [|apply foc_update]; reflexivity]. cbv beta.
  erewrite bind_ok; [|apply foc_update]. cbv beta.
  set (F1 := set_outstanding_reqs _ _).
  destruct He as [_ _ _ Hoff Hend]. simpl in Hoff.
  assert (∃ y1 fd, (if use_cache then _ ← gdpfs_file_fill_cache p bs off; mret tt else mret tt) (foc s y p F1) =
      Ok (tt, foc s y1 p (set_cache_fd fd F1)) ∧ sys_rep y1 L ∧
    (∀ g', g' ≠ g → cache_of y1 g' = cache_of y g') ∧
    (if use_cache then (∃ pos, fd = Some (mkLocalFd (g, None) pos)) ∧
       cache_of y1 g = write_at (cache_of y g) off bs
     else fd = None ∧ cache_of y1 g = cache_of y g)) as (y1 & fd & Hfill & Hs1 & Hca & Hcg).
  { destruct use_cache eqn:Hu.
    - destruct Hfd as [pos Hfd].
      destruct (fill_cache_ok s y p F1 g pos bs off Hu Hfd Hoff) as (pos' & Hf).
      eexists _, _. split; [by erewrite bind_ok; [|exact Hf]|].
      split_and!; [by apply sys_rep_with_cache|intros; by apply cache_of_with_ne|by eexists|apply cache_of_with].
    - exists y, None. split_and!; try done. unfold mret, st_ret. do 3 f_equal. unfold set_cache_fd.
      rewrite <-Hfd. by destruct F. }
  rewrite (bind_ok _ _ _ _ _ Hfill). cbv beta. clear Hfill.
  erewrite bind_ok; [|apply foc_update]. cbv beta. rewrite (bind_ok _ _ _ _ _ (foc_the_file _ _ _ _)).
  set (F2 := set_last_recno _ _).
  assert (∃ t h, (if 0 <? Z.of_nat (length bs) then
      index_write p off (off + Z.of_nat (length bs) - 1) (last_recno F2) else mret tt) (foc s y1 p F2) =
      Ok (tt, foc s y1 p (set_figtree t h F2)) ∧
    (figtree_initialized F = true → index_rep t h (index_of (es ++ [e]))) ∧
    (figtree_initialized F = false → h = figtree_nodes F)) as (t & h & Hiw & Hidx' & Hnodes).
  { destruct (Z.ltb_spec 0 (Z.of_nat (length bs))) as [Hpos|Hnil].
    - assert (bs ≠ []) as Hne by (intros ->; done). specialize (Hinit Hne).
      destruct (Hidx Hinit) as [Hlast Hrepi].
      assert (last_recno F2 = Z.of_nat (length es) + 1) as Hl2 by (simpl; lia).
      unfold fe_size, BYTE_INDEX_MAX in Hend. simpl in Hend.
      assert (FigTheorems.write_ok (off, off + Z.of_nat (length bs) - 1, last_recno F2)) as Hwok.
      { unfold FigTheorems.write_ok, BYTE_INDEX_MIN, BYTE_INDEX_MAX. lia. }
      destruct (index_write_ok (index_log (log_handle F2) (foc s y1 p F2)) (file_figtree F2) (figtree_nodes F2)
        _ _ _ _ Hrepi (index_log_data Hmode _ _ _ _ _ _ _ _ Hs1 Hh HL) Hwok) as (t & h & Hwr & Hrep'). exists t, h. split_and!; [|intros _|by rewrite Hinit].
      + apply foc_index_write. rewrite !wrap_small by (unfold in_width; lia). exact Hwr.
      + rewrite index_of_snoc. unfold write_index. rewrite decide_False by done. by rewrite <-Hl2.
    - assert (bs = []) as Hb by (destruct bs; [done|simpl in Hnil; lia]).
      exists (file_figtree F), (figtree_nodes F). split_and!; [done| |done].
      intros Hi. destruct (Hidx Hi) as [_ Hrepi]. eapply index_rep_ext; [done|].
      intros b _. rewrite index_of_snoc. unfold write_index. by rewrite decide_True. }
  rewrite (bind_ok _ _ _ _ _ Hiw). cbv beta. clear Hiw.
  destruct (append_ok gcl_mode y1 L (log_handle F2) g (encode_fent <$> es) ent2 d2 true)
    as (ea & y2 & Happ & Hea & Hs2 & Hl2); [by rewrite Hmode|done|done|apply HL|done|].
  erewrite bind_ok; [|apply foc_sys; exact Happ]. cbv beta. rewrite Hea.
  erewrite bind_ok; [|apply foc_pending]. cbv beta.
  erewrite bind_ok.
  2:{ unfold on_sys. simpl. unfold gdpfs_log_ent_close, the_datum. rewrite Hc2, Hd2. simpl. done. }
  exists y2, t, h, fd. pose proof (same_local _ _ Hl2) as Hcc. split_and!; try done.
  - rewrite E2 in Hs2. rewrite fmap_app. done.
  - intros g' Hne. rewrite (Hcc g'). by apply Hca.
  - by rewrite (Hcc g).
Qed.

Lemma has_data_snoc es e : has_data (es ++ [e]) ↔ has_data es ∨ fe_data e ≠ [].
Proof. unfold has_data. rewrite Exists_app, Exists_cons, Exists_nil. naive_solver. Qed.

Lemma written_ok y y' g es F fd t h i off bs :
  object_ok y g es F → 0 ≤ off → (bs ≠ [] → figtree_initialized F = true) →
  (if use_cache then (∃ pos, fd = Some (mkLocalFd (g, None) pos)) ∧
     cache_of y' g = write_at (cache_of y g) off bs
   else fd = None ∧ cache_of y' g = cache_of y g) →
  (figtree_initialized F = true → index_rep t h (index_of (es ++ [mkFent i off bs]))) →
  (figtree_initialized F = false → h = figtree_nodes F) →
  object_ok y' g (es ++ [mkFent i off bs]) (written (set_info_cache i (load_info es F)) t h fd).
Proof.
  intros [] Hoff Hinit Hfd Ht Hh. constructor; simpl; try done.
  - by rewrite info_of_snoc.
  - destruct use_cache; apply Hfd.
  - destruct (figtree_initialized F) eqn:Hi.
    + destruct oo_index as (Hlast & _ & Hfull). split_and!; [rewrite length_app; simpl; lia|by apply Ht|].
      intros Hu. rewrite Hu in Hfd. destruct Hfd as [_ ->]. apply full_write; [done|]. by apply Hfull.
    + destruct oo_index as [Hn Hd]. split; [by rewrite Hh|].
      intros [?|Hne]%has_data_snoc; [by apply Hd|]. by discriminate (Hinit Hne).
Qed.

Lemma written_counts U s E hs L g p F es t h fd i k :
  rep U s E hs L → (0 < k)%nat → k = handles_of hs g →
  counts_ok F (handles_of hs g) (acks_of p (g_pending s)) →
  counts_ok (written (set_info_cache i (load_info es F)) t h fd) (handles_of hs g)
    (acks_of p (g_pending s ++ [CbFreeFileref p])).
Proof.
  intros Hr Hk -> [Hc1 Hc2 Hc3]. pose proof (refs_bound _ _ _ _ _ g p Hr) as Hb.
  assert (acks_of p (g_pending s ++ [CbFreeFileref p]) = S (acks_of p (g_pending s))) as ->.
  { rewrite acks_of_app, acks_of_cons, decide_True by done. change (acks_of p []) with 0%nat. lia. }
  constructor; simpl.
  - rewrite Hc1, wrap_small by done. lia.
  - rewrite Hc2. lia.
  - rewrite Hc3, !bool_decide_eq_false_2 by lia. done.
Qed.

(** A write on the object of a handle, after its header was loaded and changed. *)
Lemma do_write_ok U s E hs L fh g p F es y bs off i :
  rep U s E hs L → at_handle s E hs L fh g p F es →
  sys_rep y L → sys_local y = sys_local (g_sys s) →
  (g ∉ U → figtree_initialized F = true) → (bs ≠ [] → figtree_initialized F = true) →
  fent_ok (mkFent i off bs) → (length (g_pending s) < MAX_PENDING)%nat →
  ∃ s', do_write fh bs off i (foc s y p (set_info_cache i (load_info es F))) = Ok (Z.of_nat (length bs), s') ∧
    rep U s' (<[g := es ++ [mkFent i off bs]]> E) hs (<[g := encode_fent <$> (es ++ [mkFent i off bs])]> L) ∧
    file_hash s' = file_hash s ∧
    ∃ F', g_objs s' !! p = Some F' ∧ figtree_initialized F' = figtree_initialized F.
Proof.
  intros Hr Ha Hs Hl HU Hinit He Hpend. pose proof Ha as []. pose proof (same_local _ _ Hl) as Hcc.
  pose proof (fo_off _ He) as Hoff. simpl in Hoff.
  destruct (do_write_foc U s E hs L fh g p es y (set_info_cache i (load_info es F)) bs off i Hr ah_handle0 ah_hash0
    Hs ah_log0 (oo_log _ _ _ _ ah_ok0) (oo_fd _ _ _ _ ah_ok0)) as (y' & t & h & fd & Hw & Hs' & Hc & Hfd & Ht & Hh);
    [|done|done|].
  { intros Hi. pose proof (oo_index _ _ _ _ ah_ok0) as Hx. simpl in Hi. rewrite Hi in Hx. by destruct Hx as (? & ? & _). }
  eexists. split; [exact Hw|].
  assert (if use_cache then (∃ pos, fd = Some (mkLocalFd (g, None) pos)) ∧
     cache_of y' g = write_at (cache_of (g_sys s) g) off bs
   else fd = None ∧ cache_of y' g = cache_of (g_sys s) g) as Hfd' by (by rewrite <-(Hcc g)).
  split; [|split; [done|]]; cycle 1.
  { eexists. split; [apply lookup_insert_eq|done]. }
  eapply rep_object; try done.
  - apply Forall_app. split; [apply ah_log0|by constructor].
  - intros g' Hne. rewrite Hc by done. apply Hcc.
  - intros Hu. rewrite Hu in Hfd'. destruct Hfd' as [_ ->]. apply sound_write; [done|]. by eapply rp_sound.
  - by eapply written_ok.
  - eapply written_counts; [done| |done|done]. by eapply handles_of_pos.
  - intros Hn _. by apply HU.
  - set_solver.
  - by right.
  - rewrite length_app. simpl. lia.
Qed.

(** [gdpfs_file_write], [gdpfs_file_ftruncate] and [gdpfs_file_set_perm]: the
    header is loaded, changed and written with the data. *)
Lemma set_cached_info_foc U s E hs L fh g p y F i :
  rep U s E hs L → hs !! fh = Some g → file_hash s !! g = Some p →
  set_cached_info fh i (foc s y p F) = Ok (tt, foc s y p (set_info_cache i F)).
Proof.
  intros Hr Hg Hp. unfold set_cached_info. rewrite (bind_ok _ _ _ _ _ (lookup_fh_foc _ _ _ _ _ _ _ _ y F Hr Hg Hp)).
  apply foc_update.
Qed.

Lemma update_ok {A} U s E hs L fh g es bs off (f : gdpfs_file_info → gdpfs_file_info) (fin : Z → A) (bad : stat → A) :
  rep U s E hs L → hs !! fh = Some g → E !! g = Some es → g ∉ U →
  fent_ok (mkFent (f (info_of es)) off bs) → (length (g_pending s) < MAX_PENDING)%nat →
  ∃ s' L', ('(estat, info) ← gdpfs_file_get_info fh;
      if negb (EP_STAT_ISOK estat) then mret (bad estat) else
      set_cached_info fh (f info);; r ← do_write fh bs off (f info); mret (fin r)) s =
      Ok (fin (Z.of_nat (length bs)), s') ∧
    rep U s' (<[g := es ++ [mkFent (f (info_of es)) off bs]]> E) hs L'.
Proof.
  intros Hr Hg Hes HU He Hpend.
  destruct (rep_at_handle _ _ _ _ _ _ _ Hr Hg) as (p & F & es1 & Ha & Hinit).
  assert (es1 = es) as -> by (destruct Ha; congruence).
  destruct (get_info_handle _ _ _ _ _ _ _ _ _ _ Hr Ha) as (y & Hinfo & Hs & Hl & _).
  rewrite (bind_ok _ _ _ _ _ Hinfo). cbv beta iota. cbn [EP_STAT_ISOK negb].
  pose proof Ha as [].
  rewrite (bind_ok _ _ _ _ _ (set_cached_info_foc _ _ _ _ _ _ _ _ y _ _ Hr ah_handle0 ah_hash0)).
  destruct (do_write_ok U s E hs L fh g p F es y bs off (f (info_of es))) as (s' & Hw & Hr' & _); try done.
  { intros _. by apply Hinit. }
  eexists s', _. split; [|exact Hr']. by rewrite (bind_ok _ _ _ _ _ Hw).
Qed.

End proof.
