(* ===== verification/FileSettle.v ===== *)
(** * What happens between calls

    Callbacks of appends and the producer of logs keep the invariant; closing a
    handle drops a reference like a callback. *)
From S2P Require Import Prelude.
From S2P Require Import State.
From S2P Require Import Types.
From S2P Require Import Posix.
From S2P Require Heap.
From S2P Require Import FigNode.
From S2P Require Import Bitmap.
From S2P Require Import LogQueue.
From S2P Require Import FileIface.
From S2P Require Import Gdp.
From S2P Require Import LogEnt.
From S2P Require Import LogEntProof.
From S2P Require Import File.
From S2P Require Import FileSpec.
From S2P Require Import FileFocus.
From S2P Require Import FileRead.
From S2P Require Import FileRep.
From S2P Require Import FileStep.

#[local] Open Scope Z_scope.

(** A list with distinct tags in a set is no longer than the set. *)
Lemma tagged_length {A B} `{Countable B} (l : list A) (tag : B → A → Prop) : ∀ D : gset B,
  NoDup l → (∀ a, a ∈ l → ∃ b, b ∈ D ∧ tag b a) →
  (∀ b a a', tag b a → tag b a' → a = a') → (length l ≤ size D)%nat.
Proof.
  induction l as [|a l IH]; intros D Hnd Htag Hfun; simpl; [lia|].
  apply NoDup_cons in Hnd as [Ha Hnd].
  destruct (Htag a) as (b & Hb & Hba); [by left|].
  assert (length l ≤ size (D ∖ {[b]}))%nat as Hle.
  { apply IH; [done| |done]. intros a' Ha'. destruct (Htag a') as (b' & Hb' & Hba'); [by right|].
    exists b'. split; [|done]. apply elem_of_difference. split; [done|].
    intros ->%elem_of_singleton. rewrite (Hfun b a a') in Ha by done. done. }
  assert (size D = S (size (D ∖ {[b]}))) as ->; [|lia].
  rewrite (union_difference_singleton_L b D) at 1 by done.
  rewrite size_union by set_solver. by rewrite size_singleton.
Qed.

Section proof.
Context {G : Type} `{GdpLaws G} `{!Heap.Allocator} `{!FileConfig}.
Implicit Types (s : gfs G) (y : sys G) (p : floc) (F : gdpfs_file_t G).
Implicit Types (E : gmap file_gname (list fent)) (hs : gmap Z file_gname) (L : gdp_logs).

(** ** Dropping a reference *)

(** The list of recently closed files is never full when a file is inserted. *)
Lemma rc_room U s E hs L g p :
  rep U s E hs L → file_hash s !! g = Some p → p ∉ recently_closed_list s →
  0 ≤ recently_closed_size s < RC_CAP.
Proof.
  intros Hr Hp Hnot. pose proof Hr as []. rewrite rp_rc_size. split; [lia|].
  assert (length (p :: recently_closed_list s) ≤ size (dom E))%nat as Hle.
  { apply (tagged_length _ (λ g p, file_hash s !! g = Some p)); [by apply NoDup_cons| |congruence].
    intros q [->|Hq]%elem_of_cons.
    - exists g. split; [|done]. destruct (rp_hash _ _ Hp) as (F & es & _ & ? & _). by eapply elem_of_dom_2.
    - apply rp_rc in Hq as (g' & F & Hg' & _). exists g'. split; [|done].
      destruct (rp_hash _ _ Hg') as (F' & es & _ & ? & _). by eapply elem_of_dom_2. }
  rewrite size_dom in Hle. simpl in Hle. lia.
Qed.

Definition closed_list s p (n : nat) : list floc :=
  if decide (n = 0%nat) then p :: recently_closed_list s else recently_closed_list s.

Definition unreffed (n : nat) F : gdpfs_file_t G :=
  set_recently_closed (bool_decide (n = 0%nat)) (set_ref_count (Z.of_nat n) F).

Lemma unref_foc s y p F n :
  ref_count F = Z.of_nat n + 1 → in_width 32 (Z.of_nat n + 1) → recently_closed F = false →
  0 ≤ recently_closed_size s < RC_CAP →
  recently_closed_size s = Z.of_nat (length (recently_closed_list s)) →
  _file_unref p (foc s y p F) =
    Ok (GDPFS_STAT_OK, set_rc (closed_list s p n) (Z.of_nat (length (closed_list s p n))) (foc s y p (unreffed n F))).
Proof.
  intros Hrc Hw Hcl Hroom Hsize. unfold _file_unref.
  rewrite (bind_ok _ _ _ _ _ (foc_update _ _ _ _ _)), (bind_ok _ _ _ _ _ (foc_the_file _ _ _ _)). cbv beta.
  set (F1 := set_ref_count _ _).
  assert (F1 = set_ref_count (Z.of_nat n) F) as ->.
  { unfold F1. f_equal. rewrite Hrc, wrap_small; [lia|]. unfold in_width in *. lia. }
  unfold closed_list, unreffed.
  change (ref_count (set_ref_count (Z.of_nat n) F)) with (Z.of_nat n).
  destruct (decide (n = 0%nat)) as [->|Hn].
  - change (Z.of_nat 0 =? 0) with true. cbv iota. unfold _recently_closed_insert.
    rewrite (bind_ok _ _ _ _ _ (foc_the_file _ _ _ _)). cbv beta.
    change (recently_closed (set_ref_count (Z.of_nat 0) F)) with (recently_closed F). rewrite Hcl.
    rewrite (bind_ok _ _ _ tt (foc s y p (set_ref_count (Z.of_nat 0) F))) by done.
    rewrite (bind_ok _ _ _ _ _ (foc_update _ _ _ _ _)), (bind_ok _ _ _ _ _ (foc_get _ _ _ _)). cbv beta zeta.
    change (recently_closed_size (foc _ _ _ _)) with (recently_closed_size s).
    change (recently_closed_list (foc _ _ _ _)) with (recently_closed_list s).
    rewrite (proj2 (Z.leb_le _ _)), (proj2 (Z.leb_le 0 _)) by lia. unfold st_assert. cbn [andb].
    rewrite (bind_ok _ _ _ tt _) by done. rewrite (proj2 (Z.eqb_neq _ _)) by lia.
    unfold mbind, st_bind, st_modify, mret, st_ret. rewrite bool_decide_eq_true_2 by done.
    do 3 f_equal. simpl length. lia.
  - rewrite (proj2 (Z.eqb_neq _ _)) by lia. unfold mret, st_ret. do 2 f_equal.
    rewrite bool_decide_eq_false_2, <-Hsize by done. unfold set_rc, foc. simpl. f_equal.
    unfold set_recently_closed, set_ref_count. simpl. by rewrite <-Hcl.
Qed.

(** The state after a reference to [p] was dropped: a handle or a callback. *)
Definition released s p F (n acks : nat) fhs' pend' : gfs G :=
  mkGfs (g_sys s) fhs' (g_files s)
    (<[p := unreffed n (set_outstanding_reqs (Z.of_nat acks) F)]> (g_objs s)) (file_hash s)
    (closed_list s p n) (Z.of_nat (length (closed_list s p n))) (g_queue s) pend' (g_sched s).

Lemma rep_release U s E hs L g p F es n acks hs' fhs' pend' :
  rep U s E hs L → file_hash s !! g = Some p → g_objs s !! p = Some F → E !! g = Some es →
  handles_of hs' g = (n - acks)%nat → (handles_of hs' g ≤ handles_of hs g)%nat → acks_of p pend' = acks → (acks ≤ n)%nat →
  (handles_of hs g + acks_of p (g_pending s) = S n)%nat →
  (∀ g', g' ≠ g → handles_of hs' g' = handles_of hs g') →
  (∀ p', p' ≠ p → acks_of p' pend' = acks_of p' (g_pending s)) →
  hs' ⊆ hs → (∀ cb, cb ∈ pend' → cb ∈ g_pending s) → (length pend' ≤ length (g_pending s))%nat →
  (∃ b, fhs' = Some b ∧ bm_size b = MAX_FHS ∧ represents b (dom hs')) →
  rep U (released s p F n acks fhs' pend') E hs' L.
Proof.
  intros Hr Hp HF Hes Hh Hmono Hac Hle Hn Hoh Hoa Hsub Hpend Hlen Hfhs.
  pose proof (rp_hash _ _ _ _ _ Hr _ _ Hp) as (F0 & es0 & HF0 & Hes0 & Ho & Hcnt & Hload).
  assert (F0 = F) as -> by congruence. assert (es0 = es) as -> by congruence.
  assert (recently_closed F = false) as Hcl by (rewrite (co_closed _ _ _ Hcnt); apply bool_decide_eq_false_2; lia).
  assert (p ∉ recently_closed_list s) as Hnot.
  { intros (g' & F1 & _ & HF1 & Hc)%(rp_rc _ _ _ _ _ Hr). congruence. }
  set (F' := unreffed n (set_outstanding_reqs (Z.of_nat acks) F)).
  assert (released s p F n acks fhs' pend' =
    changed s g p F' (g_sys s) fhs' (g_files s) (closed_list s p n) pend' (g_sched s)) as ->.
  { unfold released, changed. f_equal. by rewrite insert_id. }
  pose proof (rep_change U U s E hs hs' L g p es es F' (g_sys s) fhs' (g_files s) (closed_list s p n) pend'
    (g_sched s) Hr (or_introl Hp) Hes) as Hch.
  pose proof (rp_logs _ _ _ _ _ Hr _ _ Hes) as Hlog.
  rewrite log_of_insert, insert_id in Hch by done. apply Hch. pose proof Hr as [].
  constructor; try done.
  - by rewrite log_of_insert.
  - apply Hlog.
  - by apply rp_sound.
  - by destruct Ho.
  - constructor; simpl.
    + f_equal. lia.
    + by rewrite Hac.
    + f_equal. apply bool_decide_ext. lia.
  - intros HU Hne. apply Hload; [done|]. lia.
  - set_solver.
  - intros fh g' Hg'. pose proof (lookup_weaken _ _ _ _ Hg' Hsub) as Hg.
    destruct (rp_handles _ _ Hg) as (p' & Hp' & Hf).
    destruct (decide (g' = g)) as [->|]; [left|by right]. split; [done|]. congruence.
  - intros cb Hcb. right. by apply Hpend.
  - lia.
  - unfold closed_list. case_decide; [by apply NoDup_cons|done].
  - intros q Hq. unfold closed_list. case_decide; [|done]. rewrite elem_of_cons. naive_solver.
  - unfold closed_list, F'. simpl. case_decide as Hn0.
    + rewrite bool_decide_eq_true_2 by done. rewrite elem_of_cons. naive_solver.
    + by rewrite bool_decide_eq_false_2 by done.
Qed.

Lemma handles_of_mono hs hs' g : hs' ⊆ hs → (handles_of hs' g ≤ handles_of hs g)%nat.
Proof. intros Hs. apply map_subseteq_size. by apply map_filter_subseteq_mono. Qed.

(** Closing a handle. *)
Lemma close_ok' U s E hs L fh g :
  rep U s E hs L → hs !! fh = Some g →
  ∃ s', gdpfs_file_close fh s = Ok (GDPFS_STAT_OK, s') ∧ rep U s' E (delete fh hs) L ∧
    g_files s' = g_files s ∧ file_hash s' = file_hash s.
Proof.
  intros Hr Hg. destruct (rep_at_handle _ _ _ _ _ _ _ Hr Hg) as (p & F & es & Ha & _). pose proof Ha as [].
  destruct (rp_fhs _ _ _ _ _ Hr) as (b & Hb & Hsize & Hrep).
  destruct (bitmap_release_spec b (dom hs) fh Hrep) as (b' & Hrel & Hsize' & Hrep'); [by eapply elem_of_dom_2|].
  pose proof (handles_of_delete hs fh g g Hg) as Hcount. rewrite decide_True in Hcount by done.
  set (acks := acks_of p (g_pending s)) in *. set (n := (handles_of (delete fh hs) g + acks)%nat).
  destruct ah_counts as [Hc1 Hc2 Hc3]. fold acks in Hc1, Hc2, Hc3.
  assert (recently_closed F = false) as Hcl by (rewrite Hc3; apply bool_decide_eq_false_2; lia).
  assert (p ∉ recently_closed_list s) as Hnot.
  { intros (g' & F1 & _ & HF1 & Hc)%(rp_rc _ _ _ _ _ Hr). congruence. }
  exists (released s p F n acks (Some b') (g_pending s)). split; [|split; [|done]].
  - unfold gdpfs_file_close. rewrite <-(foc_id s p F) at 1 by done.
    rewrite (bind_ok _ _ _ _ _ (lookup_fh_foc _ _ _ _ _ _ _ _ (g_sys s) F Hr ah_handle ah_hash)). cbv beta iota.
    rewrite (bind_ok _ _ _ 0 (foc (set_fhs (Some b') s) (g_sys s) p F)).
    2:{ unfold on_fhs. simpl. by rewrite Hb, Hrel. }
    rewrite (unref_foc _ _ _ _ n).
    + f_equal. f_equal. unfold released, set_rc, foc. simpl. f_equal. f_equal. unfold unreffed.
      f_equal. f_equal. unfold set_outstanding_reqs. rewrite <-Hc2. by destruct F.
    + rewrite Hc1. unfold n. lia.
    + pose proof (refs_bound _ _ _ _ _ g p Hr) as Hbd. fold acks in Hbd. unfold in_width, n in *. lia.
    + done.
    + by apply (rc_room U s E hs L g p).
    + apply (rp_rc_size _ _ _ _ _ Hr).
  - eapply rep_release; try done.
    + unfold n. lia.
    + lia.
    + unfold n. lia.
    + unfold n. fold acks. lia.
    + intros g' Hne. rewrite (handles_of_delete hs fh g g' Hg), decide_False by done. lia.
    + apply delete_subseteq.
    + exists b'. split_and!; [done|congruence|]. by rewrite dom_delete_L.
Qed.

(** The callback of an append. *)
Lemma free_fileref_ok U s E hs L k p :
  rep U s E hs L → g_pending s !! k = Some (CbFreeFileref p) →
  ∃ s', free_fileref p (set_pending (delete k (g_pending s)) s) = Ok (tt, s') ∧ rep U s' E hs L ∧
    g_pending s' = delete k (g_pending s) ∧ g_sched s' = g_sched s.
Proof.
  intros Hr Hk. destruct (rp_pending _ _ _ _ _ Hr (CbFreeFileref p)) as (g & p' & [= <-] & Hp).
  { by eapply list_elem_of_lookup_2. }
  destruct (rp_hash _ _ _ _ _ Hr _ _ Hp) as (F & es & HF & Hes & Ho & Hcnt & _).
  pose proof (acks_of_delete p p (g_pending s) k Hk) as Hcount. rewrite decide_True in Hcount by done.
  set (acks := acks_of p (delete k (g_pending s))) in *.
  set (n := (handles_of hs g + acks)%nat). destruct Hcnt as [Hc1 Hc2 Hc3].
  assert (recently_closed F = false) as Hcl by (rewrite Hc3; apply bool_decide_eq_false_2; lia).
  assert (p ∉ recently_closed_list s) as Hnot.
  { intros (g' & F1 & _ & HF1 & Hc)%(rp_rc _ _ _ _ _ Hr). congruence. }
  exists (released s p F n acks (g_fhs s) (delete k (g_pending s))). split_and!; [|..]; [| |done|done].
  - unfold free_fileref. set (s1 := set_pending _ s).
    rewrite <-(foc_id s1 p F HF) at 1.
    rewrite (bind_ok _ _ _ _ _ (foc_update _ _ _ _ _)).
    erewrite bind_ok.
    2:{ apply (unref_foc _ _ _ _ n).
        - simpl. rewrite Hc1. unfold n. lia.
        - pose proof (refs_bound _ _ _ _ _ g p Hr) as Hbd. unfold in_width, n in *. lia.
        - done.
        - by apply (rc_room U s E hs L g p).
        - apply (rp_rc_size _ _ _ _ _ Hr). }
    cbv beta. unfold mret, st_ret. f_equal. f_equal. unfold released, set_rc, foc. simpl. f_equal. f_equal.
    unfold unreffed. f_equal. f_equal. f_equal. lia.
  - eapply rep_release; try done.
    + unfold n. lia.
    + unfold n. lia.
    + unfold n. lia.
    + intros p' Hne. rewrite (acks_of_delete p' p (g_pending s) k Hk), decide_False by done. lia.
    + intros cb Hcb. apply list_elem_of_lookup in Hcb as [i Hi].
      eapply elem_of_submseteq; [by eapply list_elem_of_lookup_2|].
      apply sublist_submseteq, sublist_delete.
    + apply sublist_length, sublist_delete.
    + apply Hr.
Qed.

(** ** The producer *)

Lemma rep_queue_change U s E hs L y' L' q' :
  rep U s E hs L → sys_rep y' L' → sys_local y' = sys_local (g_sys s) →
  (∀ g es, E !! g = Some es → L' !! g = L !! g) → queue_rep q' E L' →
  rep U (set_queue q' (set_sys y' s)) E hs L'.
Proof.
  intros Hr Hs Hl HL Hq. pose proof (same_local _ _ Hl) as Hc. pose proof Hr as []. constructor; simpl; try done.
  - intros g es Hes. destruct (rp_logs g es Hes). split; [|done]. by rewrite (HL g es Hes).
  - intros g es Hes Hu. rewrite (Hc g). by apply rp_sound.
  - intros g Hg Hu. rewrite (Hc g). by apply rp_fresh.
  - intros g p Hp. destruct (rp_hash g p Hp) as (F & es & ? & ? & Ho & ? & ?). exists F, es. split_and!; try done.
    eapply object_ok_caches; [|done]. apply Hc.
Qed.

Lemma set_queue_same s q : q = g_queue s → set_queue q (set_sys (g_sys s) s) = s.
Proof. intros ->. by destruct s. Qed.

Lemma sys_rep_new_log y L g : sys_rep y L → L !! g = None → ∀ y', sys_local y' = sys_local y →
  gdp_rep (sys_gdp y') (<[g := []]> L) → sys_rep y' (<[g := []]> L).
Proof.
  intros [_ Hc] Hg y' Hl HG. split; [done|]. intros g' n c. rewrite Hl. intros Hcl.
  destruct (Hc g' n c Hcl) as (Hn & l & r & Hlg & ?). split; [done|]. exists l, r.
  by rewrite lookup_insert_ne by congruence.
Qed.

Lemma queue_step_ok s ev q o :
  step zero_name (g_queue s) ev = Some (q, o) → queue_step ev s = Ok (o, set_queue q s).
Proof. intros Hs. unfold queue_step. by rewrite Hs. Qed.

(** A precreation on a queue with room. *)
Lemma precreate_ok q E L g :
  queue_rep q E L → q_producer q = PCheck → is_full q = false → L !! g = None →
  (∀ g' es, E !! g' = Some es → is_Some (L !! g')) → length g = GNAME_SIZE → Forall (in_width 8) g →
  ∃ q3, step zero_name (set_producer PCreate q) (EvCreate (Some g)) =
      Some (set_producer PPublish (_precreate_log (precreated_back q) (Some g) (set_producer PCreate q)), None) ∧
    step zero_name (set_producer PPublish (_precreate_log (precreated_back q) (Some g) (set_producer PCreate q)))
      EvPublish = Some (q3, None) ∧
    queue_rep q3 E (<[g := []]> L) ∧ contents zero_name q3 = contents zero_name q ++ [g].
Proof.
  intros [] Hpc Hfull HL HE Hlen Hw.
  set (q1 := set_producer PCreate q). set (q2 := set_producer PPublish _).
  assert (step zero_name q EvProducer = Some (q1, None)) as S1.
  { simpl. rewrite decide_True by done. unfold producer_lock. by rewrite Hfull. }
  assert (step zero_name q1 (EvCreate (Some g)) = Some (q2, None)) as S2 by done.
  set (q3 := set_producer PCheck (producer_publish q2)).
  assert (step zero_name q2 EvPublish = Some (q3, None)) as S3 by done.
  pose proof (step_ok zero_name _ _ _ _ qr_ok S1) as Hq1.
  pose proof (step_ok zero_name _ _ _ _ Hq1 S2) as Hq2.
  pose proof (step_ok zero_name _ _ _ _ Hq2 S3) as Hq3.
  assert (contents zero_name q3 = contents zero_name q ++ [g]) as Hcont.
  { pose proof (step_fifo zero_name _ _ _ _ qr_ok S1 eq_refl) as C1.
    pose proof (step_fifo zero_name _ _ _ _ Hq1 S2 eq_refl) as C2.
    pose proof (step_fifo zero_name _ _ _ _ Hq2 S3 eq_refl) as C3.
    unfold created_by, pending, option_list in *. rewrite Hpc in C1.
    change (q_producer q1) with PCreate in C1, C2. change (q_producer q2) with PPublish in C2, C3.
    change (q_producer q3) with PCheck in C3. rewrite !app_nil_r in *. simpl in C1, C2, C3.
    by rewrite C1, C2, <-C3. }
  exists q3. split_and!; [done|done| |done].
  assert (q_consumers q3 = [CIdle]) as Hcons.
  { unfold q3, producer_publish. cbv zeta. simpl. case_match; simpl; by rewrite qr_consumers. }
  constructor; rewrite ?Hcont; try done.
  - by left.
  - apply NoDup_app. split_and!; [done| |by apply NoDup_singleton].
    intros g' Hg' ->%list_elem_of_singleton. destruct (qr_fresh g Hg') as [? _]. congruence.
  - intros g' [Hg'| ->%list_elem_of_singleton]%elem_of_app.
    + destruct (qr_fresh g' Hg') as (? & ? & ? & ?). rewrite lookup_insert_ne by congruence. done.
    + rewrite lookup_insert_eq. split_and!; try done. destruct (E !! g) as [es|] eqn:Hes; [|done].
      destruct (HE g es Hes). congruence.
  - rewrite length_app, map_size_insert_None by done. simpl. lia.
Qed.

Lemma contents_le (q : queue file_gname) : (length (contents zero_name q) < 1024)%nat.
Proof.
  unfold contents. rewrite length_fmap, length_seq. pose proof (length_le q). unfold PRECREATED_MAX in *. lia.
Qed.

Lemma produce_ok U s E hs L :
  rep U s E hs L →
  ∃ s' L', produce s = Ok (tt, s') ∧ rep U s' E hs L' ∧ g_pending s' = g_pending s ∧ g_sched s' = g_sched s ∧
    (is_empty (g_queue s) = true → q_producer (g_queue s) = PCheck → contents zero_name (g_queue s') ≠ []).
Proof.
  intros Hr. pose proof (rp_queue _ _ _ _ _ Hr) as Hq. unfold produce.
  rewrite (bind_ok _ _ s s s) by done. case_bool_decide as Hpc; cbn [negb].
  2:{ exists s, L. split_and!; done. }
  pose proof Hq as []. set (q := g_queue s) in *.
  assert (step zero_name q EvProducer = Some (producer_lock q, None)) as S1.
  { simpl. by rewrite decide_True. }
  rewrite (bind_ok _ _ _ _ _ (queue_step_ok s EvProducer _ _ S1)). cbv beta.
  set (s1 := set_queue (producer_lock q) s). rewrite (bind_ok _ _ s1 s1 s1) by done.
  change (g_queue s1) with (producer_lock q).
  destruct (is_full q) eqn:Hfull.
  { assert (producer_lock q = set_producer PWait q) as El by (unfold producer_lock; by rewrite Hfull).
    rewrite El. cbn [q_producer set_producer]. change (negb (bool_decide (PWait = PCreate))) with true. cbv iota.
    pose proof (step_ok zero_name _ _ _ _ qr_ok S1) as Hq1. rewrite El in Hq1.
    exists s1, L. split_and!; try done.
    - replace s1 with (set_queue (set_producer PWait q) (set_sys (g_sys s) s)) by (unfold s1; rewrite El; by destruct s).
      apply (rep_queue_change U s E hs L); [done|apply Hr|done|done|].
      constructor; try done; [by right|..]; try (intros g Hg; by apply qr_fresh).
    - intros He. pose proof (empty_not_full q qr_ok He). congruence. }
  assert (producer_lock q = set_producer PCreate q) as El by (unfold producer_lock; by rewrite Hfull).
  rewrite El. cbn [q_producer set_producer]. change (negb (bool_decide (PCreate = PCreate))) with false. cbv iota.
  destruct (rp_sys _ _ _ _ _ Hr) as [HG Hc].
  assert (Z.of_nat (size L) < MAX_LOGS) as Hroom.
  { pose proof (contents_le q). pose proof (rp_count _ _ _ _ _ Hr). unfold RC_CAP in *. lia. }
  destruct (gcl_create_ok _ _ HG Hroom) as (e & g & g' & Hcr & He & Hlen & Hw & HLg & HG').
  rewrite (bind_ok _ _ s1 (e, Some g) (set_sys (mkSys g' (sys_local (g_sys s))) s1)).
  2:{ unfold on_sys. change (g_sys s1) with (g_sys s). by rewrite (in_gdp_ok _ _ _ _ Hcr). }
  cbv beta iota. rewrite He.
  destruct (precreate_ok q E L g Hq Hpc Hfull HLg) as (q3 & S2 & S3 & Hq3 & Hcont);
    [intros ?? Hes; eexists; by apply (rp_logs _ _ _ _ _ Hr _ _ Hes)|done|done|].
  set (s2 := set_sys _ s1). assert (g_queue s2 = set_producer PCreate q) as Eq2 by exact El.
  rewrite <-Eq2 in S2. rewrite (bind_ok _ _ _ _ _ (queue_step_ok s2 _ _ _ S2)). cbv beta.
  rewrite <-Eq2 in S3.
  match type of S3 with step _ ?q2 _ = _ =>
    rewrite (bind_ok _ _ _ _ _ (queue_step_ok (set_queue q2 s2) _ _ _ S3)) end.
  exists (set_queue q3 (set_sys (mkSys g' (sys_local (g_sys s))) s)), (<[g := []]> L). split_and!; try done.
  - apply (rep_queue_change U s E hs L); [done| |done| |done].
    + apply (sys_rep_new_log (g_sys s)); [split; done|done|done|done].
    + intros g1 es Hes. rewrite lookup_insert_ne; [done|]. intros <-.
      destruct (rp_logs _ _ _ _ _ Hr _ _ Hes). congruence.
  - intros _ _. simpl. rewrite Hcont. by destruct (contents zero_name q).
Qed.

(** ** Settling *)

Lemma delete_out {A} (l : list A) k : l !! k = None → delete k l = l.
Proof.
  revert k. induction l as [|x l IH]; intros [|k] Hk; simpl in *; try done. f_equal. by apply IH.
Qed.

Lemma run_pending_ok U s E hs L k :
  rep U s E hs L → ∃ s', run_pending k s = Ok (tt, s') ∧ rep U s' E hs L ∧
    g_pending s' = delete k (g_pending s) ∧ g_sched s' = g_sched s.
Proof.
  intros Hr. unfold run_pending. rewrite (bind_ok _ _ s s s) by done.
  destruct (g_pending s !! k) as [cb|] eqn:Hk.
  - rewrite (bind_ok _ _ s tt (set_pending (delete k (g_pending s)) s)) by done.
    destruct (rp_pending _ _ _ _ _ Hr cb) as (g & p & -> & _); [by eapply list_elem_of_lookup_2|].
    by apply free_fileref_ok.
  - exists s. split_and!; try done. symmetry. by apply delete_out.
Qed.

Lemma run_asyncs_ok U evs : ∀ s E hs L,
  rep U s E hs L → ∃ s' L', run_asyncs evs s = Ok (tt, s') ∧ rep U s' E hs L'.
Proof.
  induction evs as [|ev evs IH]; intros s E hs L Hr; [by exists s, L|]. cbn [run_asyncs].
  assert (∃ s1 L1, run_async ev s = Ok (tt, s1) ∧ rep U s1 E hs L1) as (s1 & L1 & Hrun & Hr1).
  { destruct ev as [k|].
    - destruct (run_pending_ok U s E hs L k Hr) as (s1 & ? & ? & _). by exists s1, L.
    - destruct (produce_ok U s E hs L Hr) as (s1 & L1 & ? & ? & _). by exists s1, L1. }
  rewrite (bind_ok _ _ _ _ _ Hrun). by apply IH with L1.
Qed.

Lemma drain_pending_ok U n : ∀ s E hs L,
  rep U s E hs L → (length (g_pending s) ≤ n)%nat →
  ∃ s', drain_pending n s = Ok (tt, s') ∧ rep U s' E hs L ∧ (length (g_pending s') < MAX_PENDING)%nat.
Proof.
  assert (0 < MAX_PENDING)%nat as Hpos by (pose proof MAX_PENDING_eq; lia).
  induction n as [|n IH]; intros s E hs L Hr Hn; cbn [drain_pending].
  { exists s. split_and!; [done|done|lia]. }
  rewrite (bind_ok _ _ s s s) by done.
  destruct (Nat.ltb_spec (length (g_pending s)) MAX_PENDING) as [|Hge]; [by exists s|].
  destruct (run_pending_ok U s E hs L 0 Hr) as (s1 & Hrun & Hr1 & Hp1 & _).
  rewrite (bind_ok _ _ _ _ _ Hrun). apply IH; [done|]. rewrite Hp1, length_delete.
  - lia.
  - apply lookup_lt_is_Some_2. lia.
Qed.

Lemma rep_sched U s E hs L sched : rep U s E hs L → rep U (set_sched sched s) E hs L.
Proof. intros []. by constructor. Qed.

Lemma settle_ok U s E hs L :
  rep U s E hs L →
  ∃ s' L', settle s = Ok (tt, s') ∧ rep U s' E hs L' ∧ (length (g_pending s') < MAX_PENDING)%nat.
Proof.
  intros Hr. unfold settle. rewrite (bind_ok _ _ s s s) by done.
  rewrite (bind_ok _ _ s tt (set_sched (tail (g_sched s)) s)) by done.
  destruct (run_asyncs_ok U (default [] (head (g_sched s))) _ E hs L (rep_sched _ _ _ _ _ (tail (g_sched s)) Hr))
    as (s1 & L1 & Hrun & Hr1).
  rewrite (bind_ok _ _ _ _ _ Hrun), (bind_ok _ _ s1 s1 s1) by done.
  destruct (drain_pending_ok U (length (g_pending s1)) s1 E hs L1 Hr1) as (s2 & Hd & Hr2 & Hl2); [done|].
  by exists s2, L1.
Qed.

End proof.
