(* ===== verification/FileLoad.v ===== *)
(** * Loading the index of a log

    [load_index] goes back to the first record of the log and replays the entries
    into a new FIG tree and into the cache file. *)
From S2P Require Import Prelude.
From S2P Require Import State.
From S2P Require Import Types.
From S2P Require Import Posix.
From S2P Require Heap.
From S2P Require Import Interval.
From S2P Require Import FigNode.
From S2P Require Import FigTree.
From S2P Require Import FigTheorems.
From S2P Require Import FileIface.
From S2P Require Import Format.
From S2P Require Import FormatProof.
From S2P Require Import Gdp.
From S2P Require Import LogEnt.
From S2P Require Import LogEntProof.
From S2P Require Import File.
From S2P Require Import FileIndex.
From S2P Require Import FileSpec.
From S2P Require Import FileFocus.
From S2P Require Import FileRead.
From S2P Require Import FileRep.
From S2P Require Import FileStep.

#[local] Open Scope Z_scope.

Lemma put_back {A} `{Countable A} (X : gset A) x : X ⊆ X ∖ {[x]} ∪ {[x]}.
Proof. intros y Hy. destruct (decide (y = x)); set_solver. Qed.

Section proof.
Context {G : Type} `{GdpLaws G} `{!Heap.Allocator} `{!FileConfig}.
Implicit Types (s : gfs G) (y : sys G) (p : floc) (F : gdpfs_file_t G).
Implicit Types (E : gmap file_gname (list fent)) (hs : gmap Z file_gname) (L : gdp_logs).

(** ** Entries in memory *)

Fixpoint ents_rep (n : Z) (ents : list (gdpfs_log_ent G)) (es : list fent) : Prop :=
  match ents, es with
  | [], [] => True
  | ent :: ents, e :: es => ent_mem ent n (encode_fent e) ∧ ents_rep (n + 1) ents es
  | _, _ => False
  end.

Lemma entry_header_ok e bs (s : gfs G) :
  fent_ok e → bs = take (Z.to_nat sizeof_fmeta) (encode_fent e) →
  entry_header bs (Z.of_nat (length (encode_fent e))) s = Ok (fe_meta e, s).
Proof.
  intros He ->. unfold entry_header. rewrite length_take, (proj2 (Z.eqb_eq _ _)).
  2:{ pose proof (encode_fent_length e). unfold fe_size, sizeof_fmeta in *. lia. }
  cbn [negb]. rewrite decode_fent by done. rewrite encode_fent_length, header_size_ok, Z.eqb_refl by done. done.
Qed.

Lemma collect_ents_ok s p F L g es k : ∀ y ents,
  gcl_mode = GDP_MODE_RA → sys_rep y L → log_names (log_handle F) g → log_of L g es →
  (k ≤ length es)%nat → ents_rep (Z.of_nat k + 1) ents (drop k es) →
  ∃ y' ents', collect_ents k p (Z.of_nat k) ents (foc s y p F) = Ok ((ents', 0), foc s y' p F) ∧
    sys_rep y' L ∧ sys_local y' = sys_local y ∧ ents_rep 1 ents' es.
Proof.
  induction k as [|k IH]; intros y ents Hmode Hs Hh HL Hk He; cbn [collect_ents].
  { exists y, ents. by rewrite drop_0 in He. }
  rewrite (bind_ok _ _ _ _ _ (foc_the_file s y p F)). destruct HL as [HL Hok].
  destruct (lookup_lt_is_Some_2 es k) as [e Hke]; [lia|].
  pose proof (Forall_lookup_1 _ _ _ _ Hok Hke) as Heok.
  destruct (mem_open gcl_mode y L (log_handle F) g (encode_fent <$> es) (Z.of_nat (S k)) (encode_fent e))
    as (estat & ent & y1 & Hopen & Hest & Hs1 & Hl1 & Hm); [by rewrite Hmode|done|done|done| |].
  { apply record_at_nth; [lia|]. by replace (Z.to_nat (Z.of_nat (S k) - 1)) with k by lia. }
  erewrite bind_ok; [|apply foc_sys; exact Hopen]. cbv beta iota. rewrite Hest. unfold st_assert.
  rewrite (bind_ok _ _ _ tt (foc s y1 p F)) by done.
  erewrite bind_ok; [|apply foc_sys, (mem_length _ _ _ Hm)]. cbv beta.
  erewrite bind_ok; [|apply foc_sys, (mem_peek _ _ _ Hm); done]. cbv beta iota.
  erewrite bind_ok; [|by apply entry_header_ok]. cbv beta.
  rewrite decide_False by done.
  replace (Z.of_nat (S k) - 1) with (Z.of_nat k) by lia.
  destruct (IH y1 (ent :: ents)) as (y2 & ents' & Hrun & Hs2 & Hl2 & Hr); [done..|lia| |].
  - rewrite (drop_S _ _ _ Hke). cbn [ents_rep]. split.
    + unfold recno_of, LAST_RECNO in Hm. rewrite (proj2 (Z.eqb_neq _ _)) in Hm by lia.
      by replace (Z.of_nat k + 1) with (Z.of_nat (S k)) by lia.
    + by replace (Z.of_nat k + 1 + 1) with (Z.of_nat (S k) + 1) by lia.
  - exists y2, ents'. split_and!; [exact Hrun|done|congruence|done].
Qed.

(** ** Copying to the cache *)

Lemma copy_ok s p L g data n off fuel : ∀ y F ent read pos,
  use_cache = true → 0 ≤ off → 0 ≤ read → sys_rep y L → cache_fd F = Some (mkLocalFd (g, None) pos) →
  ent_mem ent n (drop (Z.to_nat read) data) → (Z.to_nat (Z.of_nat (length data) - read) < fuel)%nat →
  ∃ ent' y' pos' rest, copy_to_cache fuel p ent off (Z.of_nat (length data)) read (foc s y p F) =
      Ok (ent', foc s y' p (set_cache_fd (Some (mkLocalFd (g, None) pos')) F)) ∧
    sys_rep y' L ∧ ent_mem ent' n rest ∧ (∀ g', g' ≠ g → cache_of y' g' = cache_of y g') ∧
    ∀ b, byte_at (cache_of y' g) b =
      if decide (off + read ≤ b < off + Z.of_nat (length data)) then default 0 (data !! Z.to_nat (b - off))
      else byte_at (cache_of y g) b.
Proof.
  induction fuel as [|fuel IH]; intros y F ent read pos Hu Hoff Hread Hs Hfd Hm Hf; [lia|].
  cbn [copy_to_cache]. destruct (Z.ltb_spec read (Z.of_nat (length data))) as [Hlt|Hge].
  2:{ exists ent, y, pos, (drop (Z.to_nat read) data). split_and!; try done.
      - unfold mret, st_ret. do 3 f_equal. unfold set_cache_fd. rewrite <-Hfd. by destruct F.
      - intros b. by rewrite decide_False by lia. }
  cbv zeta. set (n1 := Z.min (Z.of_nat (length data) - read) 1024).
  destruct (mem_read _ _ _ Hm y n1) as (ent1 & Hrd & Hm1); [lia|].
  erewrite bind_ok; [|apply foc_sys; exact Hrd]. cbv beta iota.
  set (bs := take (Z.to_nat n1) (drop (Z.to_nat read) data)) in *.
  assert (Z.of_nat (length bs) = n1) as Hbs by (unfold bs; rewrite length_take, length_drop; lia).
  rewrite Hbs, Z.eqb_refl. unfold st_assert. rewrite (bind_ok _ _ _ tt (foc s y p F)) by done.
  destruct (fill_cache_ok s y p F g pos bs (off + read) Hu Hfd) as (pos1 & Hfill); [lia|].
  erewrite bind_ok; [|exact Hfill]. cbv beta. cbn [EP_STAT_ISOK]. erewrite bind_ok; [|done]. cbv beta.
  set (y1 := with_cache _ _ _). set (F1 := set_cache_fd _ F).
  rewrite drop_drop in Hm1.
  destruct (IH y1 F1 ent1 (read + n1) pos1) as (ent2 & y2 & pos2 & rest & Hrun & Hs2 & Hm2 & Hc2 & Hb2);
    [done|done|lia|by apply sys_rep_with_cache|done| |lia|].
  { by replace (Z.to_nat (read + n1)) with (Z.to_nat read + Z.to_nat n1)%nat by lia. }
  exists ent2, y2, pos2, rest. split_and!; [exact Hrun|done|done| |].
  - intros g' Hne. rewrite Hc2 by done. by apply cache_of_with_ne.
  - intros b. rewrite Hb2. unfold y1. rewrite cache_of_with, byte_at_write_at, Hbs by lia.
    destruct (decide (off + (read + n1) ≤ b < off + Z.of_nat (length data))).
    + by rewrite decide_True by lia.
    + destruct (decide (off + read ≤ b < off + read + n1)).
      * rewrite decide_True by lia. unfold bs. rewrite lookup_take_lt, lookup_drop by lia.
        do 2 f_equal. lia.
      * by rewrite decide_False by lia.
Qed.
(** ** Replaying entries *)

(** The cache after the entries [es] were copied over [c0]. *)
Definition cache_over (c0 : list (option Z)) (es : list fent) (c : list (option Z)) : Prop :=
  ∀ b, byte_at c b = if index_of es b then data_byte es b else byte_at c0 b.

Lemma cache_over_nil c : cache_over c [] c.
Proof. done. Qed.

(** Copying everything over a sound cache fills it. *)
Lemma cache_over_full c0 es c : cache_sound c0 es → cache_over c0 es c → cache_full c es.
Proof.
  intros Hs Hc b Hb. rewrite Hc. pose proof (index_of_spec es b) as Hi.
  destruct (index_of es b); [done|]. unfold byte_at. destruct (stored c0 b) as [v|] eqn:Hv; [|done].
  by apply Hs in Hv as ->.
Qed.

Lemma cache_over_snoc c0 es e c c' :
  cache_over c0 es c →
  (∀ b, byte_at c' b = if decide (covers e b) then default 0 (fe_data e !! Z.to_nat (b - fe_off e)) else byte_at c b) →
  cache_over c0 (es ++ [e]) c'.
Proof.
  intros Hc Hc' b. rewrite Hc', index_of_snoc, write_index_spec, data_byte_snoc. by destruct (decide (covers e b)).
Qed.

Definition fd_ok (g : file_gname) (fd : option local_fd) : Prop :=
  if use_cache then ∃ pos, fd = Some (mkLocalFd (g, None) pos) else fd = None.

Lemma replay_ent_ok s p L g all es e c0 ent y F :
  gcl_mode = GDP_MODE_RA → log_names (log_handle F) g → log_of L g all → sys_rep y L → ent_mem ent (Z.of_nat (length es) + 1) (encode_fent e) → fent_ok e →
  (fe_data e ≠ [] → use_cache = true) → fd_ok g (cache_fd F) →
  index_rep (file_figtree F) (figtree_nodes F) (index_of es) →
  (use_cache = true → cache_over c0 es (cache_of y g)) →
  ∃ y' t h fd, replay_ent p ent (foc s y p F) = Ok (tt, foc s y' p (set_cache_fd fd (set_figtree t h F))) ∧
    sys_rep y' L ∧ index_rep t h (index_of (es ++ [e])) ∧ fd_ok g fd ∧
    (∀ g', g' ≠ g → cache_of y' g' = cache_of y g') ∧
    (use_cache = true → cache_over c0 (es ++ [e]) (cache_of y' g)).
Proof.
  intros Hmode Hh HL Hs Hm He Hu Hfd Hidx Hco. unfold replay_ent.
  erewrite bind_ok; [|apply foc_sys, (mem_length _ _ _ Hm)]. cbv beta.
  destruct (mem_read _ _ _ Hm y sizeof_fmeta) as (ent1 & Hrd & Hm1); [done|].
  erewrite bind_ok; [|apply foc_sys; exact Hrd]. cbv beta iota.
  erewrite bind_ok; [|by apply entry_header_ok]. cbv beta. rewrite drop_fent in Hm1.
  change (fm_ent_size (fe_meta e)) with (fe_size e). change (fm_ent_offset (fe_meta e)) with (fe_off e).
  destruct (Z.ltb_spec 0 (fe_size e)) as [Hpos|Hnil].
  - assert (fe_data e ≠ []) as Hne by (unfold fe_size in Hpos; by destruct (fe_data e)).
    specialize (Hu Hne). unfold fd_ok in *. rewrite Hu in *. destruct Hfd as [pos Hfd].
    destruct He as [_ _ _ Hoff Hend]. unfold BYTE_INDEX_MAX in Hend.
    assert (FigTheorems.write_ok (fe_off e, fe_off e + fe_size e - 1, Z.of_nat (length es) + 1)) as Hwok.
    { unfold FigTheorems.write_ok, BYTE_INDEX_MIN, BYTE_INDEX_MAX. lia. }
    destruct (index_write_ok (index_log (log_handle F) (foc s y p F)) (file_figtree F) (figtree_nodes F)
      _ _ _ _ Hidx (index_log_data Hmode _ _ _ _ _ _ _ _ Hs Hh HL) Hwok) as (t & h & Hwr & Hrep').
    destruct (copy_ok s p L g (fe_data e) (Z.of_nat (length es) + 1) (fe_off e) (S (Z.to_nat (fe_size e))) y
      (set_figtree t h F) ent1 0 pos Hu Hoff) as (ent2 & y2 & pos2 & rest & Hrun & Hs2 & Hm2 & Hc2 & Hb2);
      [done|done|done|done|unfold fe_size; lia|].
    erewrite bind_ok; cycle 1.
    { erewrite bind_ok; [|apply foc_sys, (mem_recno _ _ _ Hm1)]. cbv beta.
      erewrite bind_ok; [exact Hrun|].
      apply foc_index_write. rewrite !wrap_small by (unfold in_width; lia). exact Hwr. }
    cbv beta. rewrite (foc_sys _ _ _ _ _ _ _ (mem_close _ _ _ Hm2 y2)).
    eexists y2, t, h, _. split_and!; [done|done| |by eexists|done|].
    + rewrite index_of_snoc. unfold write_index. by rewrite decide_False.
    + intros _. eapply cache_over_snoc; [by apply Hco|]. intros b. rewrite Hb2. unfold covers, fe_size.
      rewrite Z.add_0_r. done.
  - assert (fe_data e = []) as Hn by (unfold fe_size in Hnil; destruct (fe_data e); [done|simpl in Hnil; lia]).
    rewrite (bind_ok _ _ _ ent1 (foc s y p F)) by done. cbv beta.
    rewrite (foc_sys _ _ _ _ _ _ _ (mem_close _ _ _ Hm1 y)).
    exists y, (file_figtree F), (figtree_nodes F), (cache_fd F). split_and!; try done.
    + by destruct F.
    + eapply index_rep_ext; [done|]. intros b _. rewrite index_of_snoc. unfold write_index. by rewrite decide_True.
    + intros Hc. eapply cache_over_snoc; [by apply Hco|]. intros b. rewrite decide_False; [done|].
      unfold covers, fe_size. rewrite Hn. simpl. lia.
Qed.

Lemma replay_ok s p L g all c0 ents : gcl_mode = GDP_MODE_RA → log_of L g all → ∀ es1 es0 y F,
  log_names (log_handle F) g → sys_rep y L → ents_rep (Z.of_nat (length es0) + 1) ents es1 → Forall fent_ok es1 →
  (has_data es1 → use_cache = true) → fd_ok g (cache_fd F) →
  index_rep (file_figtree F) (figtree_nodes F) (index_of es0) →
  (use_cache = true → cache_over c0 es0 (cache_of y g)) →
  ∃ y' t h fd, replay p ents (foc s y p F) = Ok (tt, foc s y' p (set_cache_fd fd (set_figtree t h F))) ∧
    sys_rep y' L ∧ index_rep t h (index_of (es0 ++ es1)) ∧ fd_ok g fd ∧
    (∀ g', g' ≠ g → cache_of y' g' = cache_of y g') ∧
    (use_cache = true → cache_over c0 (es0 ++ es1) (cache_of y' g)).
Proof.
  intros Hmode HL.
  induction ents as [|ent ents IH]; intros [|e es1] es0 y F Hh Hs Hm Hok Hu Hfd Hidx Hco; try done; cbn [replay].
  { rewrite app_nil_r. exists y, (file_figtree F), (figtree_nodes F), (cache_fd F).
    split_and!; try done. by destruct F. }
  destruct Hm as [Hm Hms]. apply Forall_cons in Hok as [He Hok]. unfold has_data in Hu. rewrite Exists_cons in Hu.
  destruct (replay_ent_ok s p L g all es0 e c0 ent y F) as (y1 & t1 & h1 & fd1 & Hr1 & Hs1 & Hi1 & Hf1 & Hc1 & Ho1);
    try done; [by intros; apply Hu; left|].
  erewrite bind_ok; [|exact Hr1]. cbv beta.
  destruct (IH es1 (es0 ++ [e]) y1 (set_cache_fd fd1 (set_figtree t1 h1 F)))
    as (y2 & t2 & h2 & fd2 & Hr2 & Hs2 & Hi2 & Hf2 & Hc2 & Ho2); try done; [|by intros; apply Hu; right|].
  { rewrite length_app, Nat2Z.inj_add. done. }
  rewrite <-app_assoc in *. exists y2, t2, h2, fd2. split_and!; [exact Hr2|done..| |done].
  intros g' Hne. by rewrite Hc2, Hc1.
Qed.

(** ** The whole of [load_index] *)

(** What stays of an object when its index is loaded. *)
Record loaded y y' g es F F' : Prop := {
  ld_object : object_ok y' g es F';
  ld_refs : ref_count F' = ref_count F;
  ld_reqs : outstanding_reqs F' = outstanding_reqs F;
  ld_closed : recently_closed F' = recently_closed F;
  ld_init : figtree_initialized F' = true;
  ld_caches g' : g' ≠ g → cache_of y' g' = cache_of y g';
}.

Lemma load_index_foc s y p F L g es :
  gcl_mode = GDP_MODE_RA → sys_rep y L → log_of L g es → object_ok y g es F → es ≠ [] →
  figtree_initialized F = false → (use_cache = true → cache_sound (cache_of y g) es) →
  ∃ y' F', load_index p false (foc s y p F) = Ok (tt, foc s y' p F') ∧ sys_rep y' L ∧ loaded y y' g es F F'.
Proof.
  intros Hmode Hs HL Ho Hne Hni Hsound. pose proof (oo_index _ _ _ _ Ho) as Hx. rewrite Hni in Hx.
  destruct Hx as [Hnodes Hu]. pose proof HL as [HL1 Hok].
  destruct (last es) as [e|] eqn:Hlast; [|by apply last_None in Hlast].
  destruct (mem_open gcl_mode y L (log_handle F) g (encode_fent <$> es) (-1) (encode_fent e))
    as (estat & ent & y1 & Hopen & Hest & Hs1 & Hl1 & Hm); [by rewrite Hmode|done|apply Ho|done| |].
  { by rewrite last_record, Hlast. }
  unfold recno_of in Hm. change (-1 =? LAST_RECNO) with true in Hm. cbv iota in Hm. rewrite length_fmap in Hm.
  unfold load_index. rewrite (bind_ok _ _ _ _ _ (foc_the_file s y p F)). rewrite Hni. cbn [negb].
  erewrite bind_ok; [|apply foc_sys; exact Hopen]. cbv beta iota.
  erewrite bind_ok; [|apply foc_sys, (mem_recno _ _ _ Hm)]. cbv beta.
  erewrite bind_ok; [|apply foc_update]. cbv beta.
  erewrite bind_ok; [|apply foc_sys, (mem_close _ _ _ Hm)]. cbv beta zeta.
  rewrite stat_ok_found, Nat2Z.id by done. set (F1 := set_last_recno _ F).
  destruct (collect_ents_ok s p F1 L g es (length es) y1 [])
    as (y2 & ents & Hcol & Hs2 & Hl2 & Hents); [done|done|apply Ho|done|done|by rewrite drop_all|].
  erewrite bind_ok; [|exact Hcol]. cbv beta iota. change (0 =? 0) with true. cbv iota.
  destruct index_init_ok as (t0 & h0 & Hinit & Hrep0).
  erewrite bind_ok; [|by apply foc_index_init; simpl; rewrite Hnodes]. cbv beta.
  pose proof (same_local _ _ (eq_trans Hl2 Hl1)) as Hcc.
  destruct (replay_ok s p L g es (cache_of y g) ents Hmode HL es [] y2 (set_figtree t0 h0 F1))
    as (y3 & t & h & fd & Hr & Hs3 & Hi3 & Hf3 & Hc3 & Ho3); try done; [apply (oo_log _ _ _ _ Ho)|..].
  { apply (oo_fd _ _ _ _ Ho). }
  { intros _. rewrite (Hcc g). apply cache_over_nil. }
  erewrite bind_ok; [|exact Hr]. cbv beta. erewrite foc_update.
  eexists y3, _. split_and!; [done|done|]. destruct Ho. constructor; simpl; try done.
  - constructor; simpl; try done. split_and!; [done|done|]. intros Hc.
    eapply cache_over_full; [by apply Hsound|by apply Ho3].
  - intros g' Hg'. rewrite Hc3 by done. apply Hcc.
Qed.

Lemma object_counts U s E hs L g p F es :
  rep U s E hs L → file_hash s !! g = Some p → g_objs s !! p = Some F → E !! g = Some es →
  object_ok (g_sys s) g es F ∧ counts_ok F (handles_of hs g) (acks_of p (g_pending s)).
Proof. intros Hr Hp HF Hes. destruct (rp_hash _ _ _ _ _ Hr _ _ Hp) as (F1 & es1 & ? & ? & ? & ? & _). by simplify_eq. Qed.

(** The object of [p] after its index was loaded. *)
Lemma rep_loaded U s E hs L g p F es y' F' :
  rep U s E hs L → file_hash s !! g = Some p → g_objs s !! p = Some F → E !! g = Some es →
  sys_rep y' L → loaded (g_sys s) y' g es F F' →
  rep (U ∖ {[g]}) (foc s y' p F') E hs L.
Proof.
  intros Hr Hp HF Hes Hs' []. destruct (object_counts _ _ _ _ _ _ _ _ _ Hr Hp HF Hes) as [Ho Hcnt].
  pose proof (rp_logs _ _ _ _ _ Hr _ _ Hes) as Hlog. pose proof Hr as [].
  pose proof (rep_object U (U ∖ {[g]}) s E hs L g p F es es F' y' (g_pending s)) as Hro.
  rewrite log_of_insert, insert_id in Hro by done. apply Hro; try done.
  - apply Hlog.
  - intros Hu. apply cache_full_sound. destruct ld_object0. rewrite ld_init0 in oo_index. by apply oo_index.
  - destruct Hcnt. constructor; congruence.
  - apply put_back.
  - by left.
Qed.

Lemma load_index_ok U s E hs L g p F es :
  rep U s E hs L → file_hash s !! g = Some p → g_objs s !! p = Some F → E !! g = Some es → es ≠ [] →
  ∃ s', load_index p false s = Ok (tt, s') ∧ rep (U ∖ {[g]}) s' E hs L.
Proof.
  intros Hr Hp HF Hes Hne. destruct (object_counts _ _ _ _ _ _ _ _ _ Hr Hp HF Hes) as [Ho Hcnt].
  destruct (figtree_initialized F) eqn:Hi.
  - exists s. split.
    + unfold load_index. rewrite (bind_ok _ _ s F s) by (unfold the_file; by rewrite HF). by rewrite Hi.
    + rewrite <-(foc_id s p F HF). apply (rep_loaded U s E hs L g p F es); [done..|apply Hr|by constructor].
  - destruct (load_index_foc s (g_sys s) p F L g es) as (y' & F' & Hload & Hs' & Hl); try done; try apply Hr; try done.
    rewrite foc_id in Hload by done. eexists. split; [exact Hload|]. by apply (rep_loaded U s E hs L g p F es).
Qed.

(** A new file has its header as the only entry; its index is empty. *)
Lemma load_index_strict U s E hs L g p F e :
  rep U s E hs L → file_hash s !! g = Some p → g_objs s !! p = Some F → E !! g = Some [e] → fe_data e = [] →
  figtree_initialized F = false →
  ∃ s', load_index p true s = Ok (tt, s') ∧ rep (U ∖ {[g]}) s' E hs L.
Proof.
  intros Hr Hp HF Hes Hd Hni. destruct (object_counts _ _ _ _ _ _ _ _ _ Hr Hp HF Hes) as [Ho Hcnt].
  pose proof (oo_index _ _ _ _ Ho) as Hx. rewrite Hni in Hx. destruct Hx as [Hnodes _].
  destruct index_init_ok as (t0 & h0 & Hinit & Hrep0).
  pose proof (rp_sound _ _ _ _ _ Hr _ _ Hes) as Hsound.
  assert (∀ b, index_of [e] b = None) as Hempty.
  { intros b. unfold index_of. simpl. unfold write_index. by rewrite decide_True. }
  set (F' := set_figtree_initialized true (set_last_recno 1 (set_figtree t0 h0 F))).
  exists (foc s (g_sys s) p F'). split.
  - rewrite <-(foc_id s p F HF) at 1. unfold load_index.
    rewrite (bind_ok _ _ _ _ _ (foc_the_file _ _ p F)).
    erewrite bind_ok; [|by apply foc_index_init; rewrite Hnodes]. cbv beta.
    erewrite bind_ok; [|apply foc_update]. cbv beta. by rewrite foc_update.
  - apply (rep_loaded U s E hs L g p F [e]); [done..|apply Hr|]. constructor; try done. destruct Ho. constructor; simpl; try done.
    split_and!; [done| |].
    + eapply index_rep_ext; [done|]. intros b _. apply Hempty.
    + intros Hu. eapply cache_over_full; [by apply Hsound|]. intros b. by rewrite Hempty.
Qed.

End proof.
