(* ===== verification/FileOpen.v ===== *)
(** * Opening files

    [open_file] reserves a handle, finds or makes the object of the log, checks
    or sets the type of the file, and loads its index. *)
From S2P Require Import Prelude.
From S2P Require Import State.
From S2P Require Import Types.
From S2P Require Import Posix.
From S2P Require Heap.
From S2P Require Import FigNode.
From S2P Require Import FigTheorems.
From S2P Require Import Bitmap.
From S2P Require Import FileIface.
From S2P Require Import Gdp.
From S2P Require Import LogEnt.
From S2P Require Import LogEntProof.
From S2P Require Import File.
From S2P Require Import FileSpec.
From S2P Require Import FileFocus.
From S2P Require Import FileRead.
From S2P Require Import FileRep.
From S2P Require Import FileStep.
From S2P Require Import FileSettle.
From S2P Require Import FileLoad.

#[local] Open Scope Z_scope.

Section proof.
Context {G : Type} `{GdpLaws G} `{!Heap.Allocator} `{!FileConfig}.
Implicit Types (s : gfs G) (y : sys G) (p : floc) (F : gdpfs_file_t G).
Implicit Types (E : gmap file_gname (list fent)) (hs : gmap Z file_gname) (L : gdp_logs).

(** ** Reserving a handle *)

Lemma reserve_ok U s E hs L :
  rep U s E hs L → (size hs < Z.to_nat MAX_FHS)%nat →
  ∃ fh b, on_fhs bitmap_reserve s = Ok (fh, set_fhs (Some b) s) ∧ 0 ≤ fh < MAX_FHS ∧ hs !! fh = None ∧
    bm_size b = MAX_FHS ∧ represents b ({[fh]} ∪ dom hs).
Proof.
  intros Hr Hsize. destruct (rp_fhs _ _ _ _ _ Hr) as (b & Hb & Hbs & Hrep).
  pose proof (least_free_spec MAX_FHS (dom hs) ltac:(done)) as Hl.
  destruct (least_free MAX_FHS (dom hs)) as [n|].
  - destruct Hl as (Hn & Hfree & Hleast).
    destruct (bitmap_reserve_spec b (dom hs) n Hrep) as (b' & Hres & Hs' & Hrep'); [by rewrite Hbs|done..|].
    exists n, b'. split; [unfold on_fhs; by rewrite Hb, Hres|]. split; [done|].
    split_and!; [by apply not_elem_of_dom|by rewrite Hs'|done].
  - assert (size (list_to_set (seqZ 0 MAX_FHS) : gset Z) ≤ size (dom hs))%nat as Hle.
    { apply subseteq_size. intros i Hi%elem_of_list_to_set%elem_of_seqZ. apply Hl. lia. }
    rewrite size_list_to_set, length_seqZ, size_dom in Hle by apply NoDup_seqZ. lia.
Qed.

(** ** Finding the object *)

(** The object that [find_file] finds, and the state of the services and the
    list of recently closed files then. *)
Record found (U : gset file_gname) s E hs L (g : file_gname) (es : list fent) p F y' (rc' : list floc) : Prop := {
  fd_obj : file_hash s !! g = Some p ∨ file_hash s !! g = None ∧ g_objs s !! p = None;
  fd_sys : sys_rep y' L;
  fd_caches : same_caches (g_sys s) y';
  fd_object : object_ok y' g es F;
  fd_refs : ref_count F = Z.of_nat (handles_of hs g + acks_of p (g_pending s));
  fd_reqs : outstanding_reqs F = Z.of_nat (acks_of p (g_pending s));
  fd_closed : recently_closed F = false;
  fd_nodup : NoDup rc';
  fd_rc q : q ≠ p → q ∈ rc' ↔ q ∈ recently_closed_list s;
  fd_rc_p : p ∉ rc';
  fd_new : file_hash s !! g = None → figtree_initialized F = false;
  fd_loaded : g ∉ U → handles_of hs g ≠ 0%nat → figtree_initialized F = true;
}.

Lemma set_local_create y (n : local_name) :
  same_caches y (mkSys (sys_gdp y) (<[n := local_content y n]> (sys_local y))).
Proof.
  intros g. unfold cache_of, local_content. simpl. destruct (decide (n = (g, None))) as [->|].
  - by rewrite lookup_insert_eq.
  - by rewrite lookup_insert_ne.
Qed.

Lemma sys_rep_create y g L :
  sys_rep y L → sys_rep (mkSys (sys_gdp y) (<[(g, None) := local_content y (g, None)]> (sys_local y))) L.
Proof. apply sys_rep_with_cache. Qed.

Lemma filter_out_length (l : list floc) p :
  NoDup l → p ∈ l → Z.of_nat (length (filter (λ q, q ≠ p) l)) = Z.of_nat (length l) - 1.
Proof.
  induction l as [|q l IH]; [set_solver|]. intros [Hq Hnd]%NoDup_cons Hin.
  destruct (decide (q = p)) as [->|Hne].
  - rewrite filter_cons_False by naive_solver. assert (filter (λ q, q ≠ p) l = l) as ->; [|simpl; lia].
    clear -Hq. induction l as [|x l IH]; [done|]. apply not_elem_of_cons in Hq as [Hx Hl].
    rewrite filter_cons_True by done. by rewrite IH.
  - rewrite filter_cons_True by done. simpl. apply elem_of_cons in Hin as [->|Hin]; [done|].
    specialize (IH Hnd Hin). lia.
Qed.

Lemma find_file_hashed U s E hs L g es p b :
  rep U s E hs L → E !! g = Some es → file_hash s !! g = Some p →
  ∃ F rc', find_file g (set_fhs b s) =
      Ok ((GDPFS_STAT_OK, Some p), changed s g p F (g_sys s) b (g_files s) rc' (g_pending s) (g_sched s)) ∧
    found U s E hs L g es p F (g_sys s) rc'.
Proof.
  intros Hr Hes Hp. destruct (rp_hash _ _ _ _ _ Hr _ _ Hp) as (F & es1 & HF & Hes1 & Ho & Hc & Hl).
  assert (es1 = es) as -> by congruence. destruct Hc as [Hc1 Hc2 Hc3]. pose proof Hr as [].
  unfold find_file. rewrite (bind_ok _ _ (set_fhs b s) (set_fhs b s) (set_fhs b s)) by done.
  change (file_hash (set_fhs b s)) with (file_hash s). rewrite Hp.
  rewrite (bind_ok _ _ (set_fhs b s) F (set_fhs b s)) by (unfold the_file; simpl; by rewrite HF).
  destruct (recently_closed F) eqn:Hcl.
  - set (rc' := filter (λ q, q ≠ p) (recently_closed_list s)).
    assert (p ∈ recently_closed_list s) as Hin by (apply rp_rc; by exists g, F).
    pose proof (filter_out_length _ _ rp_rc_nodup Hin) as Hlen.
    exists (set_recently_closed false F), rc'. split.
    + unfold _recently_closed_revive.
      erewrite bind_ok; cycle 1.
      { rewrite (bind_ok _ _ (set_fhs b s) F (set_fhs b s)) by (unfold the_file; simpl; by rewrite HF).
        rewrite Hcl. unfold st_assert. rewrite (bind_ok _ _ _ tt (set_fhs b s)) by done.
        erewrite bind_ok; [|unfold update_file; simpl; by rewrite HF]. done. }
      cbv beta. unfold mret, st_ret. do 2 f_equal. unfold changed, set_rc, set_objs, set_fhs. simpl.
      rewrite (insert_id (file_hash s)) by done. f_equal. fold rc' in Hlen |- *. lia.
    + constructor; simpl; try done.
      * by left.
      * by destruct Ho.
      * by apply NoDup_filter.
      * intros q Hq. unfold rc'. rewrite list_elem_of_filter. naive_solver.
      * unfold rc'. rewrite list_elem_of_filter. naive_solver.
      * congruence.
  - exists F, (recently_closed_list s). split.
    + rewrite (bind_ok _ _ _ tt (set_fhs b s)) by done. unfold mret, st_ret. do 2 f_equal.
      unfold changed, set_fhs. rewrite !insert_id by done. by rewrite rp_rc_size.
    + constructor; try done.
      * by left.
      * intros (g' & F1 & _ & HF1 & Hcl1)%rp_rc. congruence.
      * congruence.
Qed.

Lemma no_handles U s E hs L g : rep U s E hs L → file_hash s !! g = None → handles_of hs g = 0%nat.
Proof.
  intros Hr Hg. unfold handles_of. apply map_size_empty_iff, map_empty. intros fh.
  apply map_lookup_filter_None. destruct (hs !! fh) as [g'|] eqn:Hfh; [|by left]. right.
  intros ? [= <-] Heq. simpl in Heq. subst g'. destruct (rp_handles _ _ _ _ _ Hr _ _ Hfh) as (p & Hp & _). congruence.
Qed.

Lemma no_acks U s E hs L p : rep U s E hs L → g_objs s !! p = None → acks_of p (g_pending s) = 0%nat.
Proof.
  intros Hr Hp. unfold acks_of. destruct (filter _ (g_pending s)) as [|cb l] eqn:Hl; [done|].
  assert (cb ∈ cb :: l) as Hin by (by left). rewrite <-Hl in Hin. apply list_elem_of_filter in Hin as [-> Hin].
  destruct (rp_pending _ _ _ _ _ Hr _ Hin) as (g & p' & [= <-] & Hg).
  destruct (rp_hash _ _ _ _ _ Hr _ _ Hg) as (F & ? & HF & _). congruence.
Qed.

Lemma find_file_new U s E hs L g es b :
  rep U s E hs L → E !! g = Some es → file_hash s !! g = None →
  ∃ p F y' rc', find_file g (set_fhs b s) =
      Ok ((GDPFS_STAT_OK, Some p), changed s g p F y' b (g_files s) rc' (g_pending s) (g_sched s)) ∧
    found U s E hs L g es p F y' rc'.
Proof.
  intros Hr Hes Hp. pose proof (rp_logs _ _ _ _ _ Hr _ _ Hes) as [HL Hok]. pose proof (rp_sys _ _ _ _ _ Hr) as [HG Hc].
  destruct (gcl_open_ok _ _ g gcl_mode HG) as (e & c & g' & Hopen & He & Hn & HG'); [by eexists|].
  set (p := Heap.malloc (dom (g_objs s))).
  assert (g_objs s !! p = None) as Hobj by (apply not_elem_of_dom, Heap.malloc_fresh).
  set (y1 := mkSys g' (sys_local (g_sys s))).
  assert (sys_rep y1 L) as Hs1 by (by split).
  assert (∃ y2 fd, (if use_cache then fd ← on_sys (local_create (g, None)); mret (Some fd) else mret None)
      (set_sys y1 (set_fhs b s)) = Ok (fd, set_sys y2 (set_fhs b s)) ∧ sys_rep y2 L ∧ same_caches (g_sys s) y2 ∧
    if use_cache then ∃ pos, fd = Some (mkLocalFd (g, None) pos) else fd = None) as (y2 & fd & Hfd & Hs2 & Hc2 & Hpos).
  { destruct use_cache eqn:Hu.
    - eexists _, _. split; [done|]. split_and!; [by apply sys_rep_create|apply (set_local_create y1)|by eexists].
    - exists y1, None. by split_and!. }
  set (F := new_object (mkLog c g) g fd). exists p, F, y2, (recently_closed_list s). split.
  - unfold find_file. rewrite (bind_ok _ _ (set_fhs b s) (set_fhs b s) (set_fhs b s)) by done.
    change (file_hash (set_fhs b s)) with (file_hash s). rewrite Hp.
    erewrite bind_ok; cycle 1.
    { unfold on_sys, gdpfs_log_open. change (g_sys (set_fhs b s)) with (g_sys s).
      rewrite (bind_ok _ _ _ _ _ (in_gdp_ok _ _ _ _ Hopen)). cbv beta iota. rewrite He. done. }
    cbv beta iota. erewrite bind_ok; [|exact Hfd]. cbv beta.
    erewrite bind_ok; [|done]. cbv beta zeta. change (g_objs (set_sys y2 (set_fhs b s))) with (g_objs s). fold p.
    erewrite bind_ok; [|done]. cbv beta. unfold mret, st_ret. do 2 f_equal.
    unfold changed, set_hash, set_objs, set_sys, set_fhs. simpl. by rewrite (rp_rc_size _ _ _ _ _ Hr).
  - constructor; simpl; try done.
    + by right.
    + constructor; simpl; try done. split; [done|]. by apply (rp_unhashed _ _ _ _ _ Hr g es).
    + by rewrite (no_handles _ _ _ _ _ _ Hr Hp), (no_acks _ _ _ _ _ _ Hr Hobj).
    + by rewrite (no_acks _ _ _ _ _ _ Hr Hobj).
    + apply Hr.
    + intros (g1 & F1 & _ & HF1 & _)%(rp_rc _ _ _ _ _ Hr). congruence.
    + intros _ Hh. by rewrite (no_handles _ _ _ _ _ _ Hr Hp) in Hh.
Qed.

Lemma find_file_ok U s E hs L g es b :
  rep U s E hs L → E !! g = Some es →
  ∃ p F y' rc', find_file g (set_fhs b s) =
      Ok ((GDPFS_STAT_OK, Some p), changed s g p F y' b (g_files s) rc' (g_pending s) (g_sched s)) ∧
    found U s E hs L g es p F y' rc'.
Proof.
  intros Hr Hes. destruct (file_hash s !! g) as [p|] eqn:Hp.
  - destruct (find_file_hashed U s E hs L g es p b Hr Hes Hp) as (F & rc' & ? & ?). eauto 10.
  - by apply (find_file_new U).
Qed.

(** ** A new handle on the object *)

Definition attached s g p F y' b rc' (fh : Z) : gfs G :=
  changed s g p (set_ref_count (wrap32 (ref_count F + 1)) F) y' (Some b)
    (<[Z.to_nat fh := Some p]> (g_files s)) rc' (g_pending s) (g_sched s).

Lemma attached_rep U U' s E hs L g es p F y' b rc' fh :
  rep U s E hs L → E !! g = Some es → 0 ≤ fh < MAX_FHS → hs !! fh = None → bm_size b = MAX_FHS →
  represents b ({[fh]} ∪ dom hs) → found U s E hs L g es p F y' rc' →
  U ⊆ U' ∪ {[g]} → (g ∉ U' → figtree_initialized F = true) →
  rep U' (attached s g p F y' b rc' fh) E (<[fh := g]> hs) L.
Proof.
  intros Hr Hes Hfh Hfree Hbs Hb [] HU Hload. pose proof (rp_logs _ _ _ _ _ Hr _ _ Hes) as Hlog.
  pose proof (rep_change U U' s E hs (<[fh := g]> hs) L g p es es
    (set_ref_count (wrap32 (ref_count F + 1)) F) y' (Some b) (<[Z.to_nat fh := Some p]> (g_files s)) rc'
    (g_pending s) (g_sched s) Hr fd_obj0 Hes) as Hch.
  rewrite log_of_insert, (insert_id E) in Hch by done. apply Hch. clear Hch. pose proof Hr as [].
  pose proof (handles_of_insert hs fh g g Hfree) as Hn. rewrite decide_True in Hn by done.
  constructor; try done.
  - by rewrite log_of_insert.
  - apply Hlog.
  - intros Hu. rewrite (fd_caches0 g). by apply rp_sound.
  - by destruct fd_object0.
  - constructor; simpl; rewrite ?Hn.
    + rewrite fd_refs0, wrap_small by (by eapply refs_bound). lia.
    + done.
    + rewrite fd_closed0. symmetry. apply bool_decide_eq_false_2. lia.
  - intros Hx _. by apply Hload.
  - intros g' Hne. rewrite handles_of_insert, decide_False by done. lia.
  - exists b. by rewrite dom_insert_L.
  - by rewrite length_insert.
  - intros fh' g'. destruct (decide (fh = fh')) as [<-|Hne].
    + rewrite lookup_insert_eq. intros [= <-]. left. split; [done|].
      rewrite list_lookup_insert_eq; [done|]. rewrite rp_files. lia.
    + rewrite lookup_insert_ne by done. intros Hg'.
      pose proof (rep_handle_range _ _ _ _ _ _ _ Hr Hg').
      rewrite list_lookup_insert_ne by lia.
      destruct (decide (g' = g)) as [->|]; [left|by right]. split; [done|].
      destruct (rp_handles _ _ Hg') as (p' & Hp' & ->). destruct fd_obj0 as [?|[? ?]]; congruence.
  - by right.
  - simpl. rewrite fd_closed0. by split.
Qed.

Lemma attach_ok {A} U s E hs L g es fh b (bad : stat → st (gfs G) A) (k : floc → st (gfs G) A) :
  rep U s E hs L → E !! g = Some es → 0 ≤ fh < MAX_FHS → hs !! fh = None → bm_size b = MAX_FHS →
  represents b ({[fh]} ∪ dom hs) →
  ∃ p s2, ('(estat, file) ← find_file g;
      match file with
      | None => bad estat
      | Some p =>
          _ ← _file_ref p; _ ← file_at fh;
          st_modify (λ s, set_files (<[Z.to_nat fh := Some p]> (g_files s)) s);; k p
      end) (set_fhs (Some b) s) = k p s2 ∧
    (∀ U', U ⊆ U' ∪ {[g]} → g ∈ U' ∨ g ∉ U ∧ handles_of hs g ≠ 0%nat → rep U' s2 E (<[fh := g]> hs) L) ∧
    file_hash s2 !! g = Some p ∧ g_pending s2 = g_pending s ∧
    (file_hash s !! g = None → ∃ F, g_objs s2 !! p = Some F ∧ figtree_initialized F = false).
Proof.
  intros Hr Hes Hfh Hfree Hbs Hb.
  destruct (find_file_ok U s E hs L g es (Some b) Hr Hes) as (p & F & y' & rc' & Hfind & Hf).
  exists p, (attached s g p F y' b rc' fh). split_and!.
  - rewrite (bind_ok _ _ _ _ _ Hfind). cbv beta iota. set (s1 := changed _ _ _ _ _ _ _ _ _ _).
    assert (update_file p (λ F, set_ref_count (wrap32 (ref_count F + 1)) F) s1 =
      Ok (tt, changed s g p (set_ref_count (wrap32 (ref_count F + 1)) F) y' (Some b) (g_files s) rc'
        (g_pending s) (g_sched s))) as Hup.
    { unfold update_file, s1, changed, set_objs. simpl. by rewrite lookup_insert_eq, insert_insert_eq. }
    erewrite bind_ok; [|unfold _file_ref; by rewrite (bind_ok _ _ _ _ _ Hup)]. cbv beta.
    set (s2 := changed _ _ _ _ _ _ _ _ _ _).
    destruct (lookup_lt_is_Some_2 (g_files s) (Z.to_nat fh)) as [o Ho].
    { rewrite (rp_files _ _ _ _ _ Hr). lia. }
    rewrite (bind_ok _ _ s2 o s2) by (unfold file_at; simpl; by rewrite Ho).
    erewrite bind_ok; [|done]. done.
  - intros U' HU Hg. eapply attached_rep; try done. destruct Hg as [?|[? ?]]; [done|].
    intros _. by apply (fd_loaded _ _ _ _ _ _ _ _ _ _ _ Hf).
  - simpl. apply lookup_insert_eq.
  - done.
  - intros Hn. eexists. split; [apply lookup_insert_eq|]. simpl. by apply (fd_new _ _ _ _ _ _ _ _ _ _ _ Hf).
Qed.

(** ** The type of a file *)

Lemma raw_info_at U s E hs L fh g p F es :
  rep U s E hs L → at_handle s E hs L fh g p F es →
  ∃ y', _file_get_info_raw p s = Ok ((GDPFS_STAT_OK, info_of es), foc s y' p (load_info es F)) ∧
    sys_rep y' L ∧ sys_local y' = sys_local (g_sys s) ∧ rep U (foc s y' p (load_info es F)) E hs L.
Proof.
  intros Hr Ha. pose proof Ha as [].
  destruct (get_info_raw_ok s (g_sys s) p F L g es) as (y' & Hinfo & Hs' & Hl');
    [apply Hr|apply Hr|apply ah_ok|done|apply ah_ok|].
  rewrite foc_id in Hinfo by done. exists y'. split_and!; [done..|].
  eapply rep_read_only; try done; [by apply info_only|].
  intros Hu. rewrite (same_local _ _ Hl' g). by eapply rp_sound.
Qed.

Lemma info_plain es : Forall fent_ok es → es ≠ [] → plain_type (file_type (info_of es)) = true.
Proof.
  intros Hok Hne. unfold info_of. destruct (last es) as [e|] eqn:Hl; [|by apply last_None in Hl].
  rewrite last_lookup in Hl. apply (fo_info_type e). by eapply Forall_lookup_1.
Qed.

(** Without initialisation the type must match; otherwise the log must not have
    another type. *)
Lemma check_type_same U s E hs L fh g p F es type perm init :
  rep U s E hs L → at_handle s E hs L fh g p F es → es ≠ [] →
  ∃ s', check_type fh p type perm init false s =
      Ok (if init || type_matches type (file_of es) then GDPFS_STAT_OK else GDPFS_STAT_INVLDFTYPE, s') ∧
    rep U s' E hs L ∧ file_hash s' = file_hash s ∧
    ∃ F', g_objs s' !! p = Some F' ∧ figtree_initialized F' = figtree_initialized F.
Proof.
  intros Hr Ha Hne. pose proof Ha as []. unfold check_type, type_matches. simpl.
  destruct (decide (type = GDPFS_FILE_TYPE_UNKNOWN)) as [->|Hu].
  { exists s. rewrite bool_decide_eq_true_2, orb_true_r by done. split_and!; [done..|]. by exists F. }
  destruct (raw_info_at _ _ _ _ _ _ _ _ _ _ Hr Ha) as (y' & Hinfo & _ & _ & Hr').
  eexists. split; [|split; [exact Hr'|]]; [|split; [done|eexists; split; [apply lookup_insert_eq|done]]].
  rewrite (bind_ok _ _ _ _ _ Hinfo). cbv beta iota. cbn [EP_STAT_ISOK negb].
  rewrite (bool_decide_eq_false_2 _ Hu).
  pose proof (info_plain es (proj2 ah_log) Hne) as Hp.
  destruct init; simpl.
  - rewrite decide_False by (intros Hx; by rewrite Hx in Hp).
    by rewrite bool_decide_eq_false_2 by (intros Hx; by rewrite Hx in Hp).
  - destruct (decide (file_type (info_of es) = type)); [by rewrite bool_decide_eq_true_2|by rewrite bool_decide_eq_false_2].
Qed.

Lemma header_ok type perm :
  plain_type type = true → in_width 16 perm → fent_ok (mkFent (mkInfo 0 type perm) 0 []).
Proof. intros Ht Hp. by constructor. Qed.

(** A log without entries is initialised with a header. *)
Lemma check_type_new U s E hs L fh g p F type perm strict :
  rep U s E hs L → at_handle s E hs L fh g p F [] → (g ∉ U → figtree_initialized F = true) →
  plain_type type = true → in_width 16 perm → (length (g_pending s) < MAX_PENDING)%nat →
  ∃ s' L', check_type fh p type perm true strict s = Ok (GDPFS_STAT_OK, s') ∧
    rep U s' (<[g := [mkFent (mkInfo 0 type perm) 0 []]]> E) hs L' ∧ file_hash s' = file_hash s ∧
    ∃ F', g_objs s' !! p = Some F' ∧ figtree_initialized F' = figtree_initialized F.
Proof.
  intros Hr Ha Hload Ht Hperm Hpend. unfold check_type. rewrite decide_False by (by intros ->).
  destruct (raw_info_at _ _ _ _ _ _ _ _ _ _ Hr Ha) as (y' & Hinfo & Hs & Hl & _).
  rewrite (bind_ok _ _ _ _ _ Hinfo). cbv beta iota. cbn [EP_STAT_ISOK negb]. rewrite decide_True by done. cbv zeta.
  rewrite (bind_ok _ _ _ _ _ (foc_update _ _ _ _ _)).
  destruct (do_write_ok U s E hs L fh g p F [] y' [] 0 (mkInfo 0 type perm))
    as (s' & Hw & Hr' & Hh & Hobj); [done..|by apply header_ok|done|].
  rewrite (bind_ok _ _ _ _ _ Hw). eexists s', _. by split_and!.
Qed.

(** ** [open_file] *)

Lemma at_handle_of U s E hs L fh g p es :
  rep U s E hs L → hs !! fh = Some g → file_hash s !! g = Some p → E !! g = Some es →
  ∃ F, at_handle s E hs L fh g p F es ∧ (g ∉ U → figtree_initialized F = true).
Proof.
  intros Hr Hg Hp Hes. destruct (rep_at_handle _ _ _ _ _ _ _ Hr Hg) as (p1 & F & es1 & Ha & Hl).
  pose proof Ha as []. simplify_eq. by exists F.
Qed.

(** Part of the invariant does not depend on which indices are loaded. *)
Lemma rep_forget s E hs L g : rep {[g]} s E hs L → handles_of hs g = 0%nat → rep ∅ s E hs L.
Proof.
  intros Hr Hn. pose proof Hr as []. constructor; try done.
  intros g' p Hp. destruct (rp_hash _ _ Hp) as (F & es & ? & ? & ? & ? & Hl). exists F, es. split_and!; try done.
  intros _ Hh. apply Hl; [|done]. intros ->%elem_of_singleton. done.
Qed.

Lemma mark_new U s E hs L fh g p F es :
  rep U s E hs L → at_handle s E hs L fh g p F es →
  ∃ s', update_file p (set_new_file true) s = Ok (tt, s') ∧ rep U s' E hs L ∧ file_hash s' = file_hash s ∧
    g_pending s' = g_pending s ∧ g_objs s' !! p = Some (set_new_file true F).
Proof.
  intros Hr Ha. pose proof Ha as []. exists (foc s (g_sys s) p (set_new_file true F)).
  split; [rewrite <-(foc_id s p F) at 1 by done; apply foc_update|].
  split; [|split_and!; [done..|apply lookup_insert_eq]].
  eapply rep_read_only; try done; [apply Hr| |by eapply rp_sound].
  constructor; try done. by destruct ah_ok.
Qed.

(** [open_file] after the handle was made. *)
Definition open_rest (type : gdpfs_file_type) (perm : Z) (init strict_init : bool) (fh : Z) (p : floc)
    : st (gfs G) (stat * Z) :=
  (if strict_init then update_file p (set_new_file true) else mret tt);;
  estat ← check_type fh p type perm init strict_init;
  if negb (EP_STAT_ISOK estat) then _ ← gdpfs_file_close fh; mret (estat, -1) else
  load_index p strict_init;;
  mret (GDPFS_STAT_OK, fh).

Lemma open_file_split s E hs L g es type perm init strict :
  rep ∅ s E hs L → E !! g = Some es → (size hs < Z.to_nat MAX_FHS)%nat →
  ∃ fh p s2, open_file g type perm init strict s = open_rest type perm init strict fh p s2 ∧
    0 ≤ fh ∧ hs !! fh = None ∧ g_pending s2 = g_pending s ∧
    (∀ U, g ∈ U ∨ handles_of hs g ≠ 0%nat → rep U s2 E (<[fh := g]> hs) L) ∧ file_hash s2 !! g = Some p ∧
    (file_hash s !! g = None → ∃ F, g_objs s2 !! p = Some F ∧ figtree_initialized F = false).
Proof.
  intros Hr Hes Hsize.
  destruct (reserve_ok _ _ _ _ _ Hr Hsize) as (fh & b & Hres & Hfh & Hfree & Hbs & Hb).
  destruct (attach_ok ∅ s E hs L g es fh b (λ estat, _ ← on_fhs (λ b, bitmap_release b fh); mret (estat, -1))
    (open_rest type perm init strict fh) Hr Hes Hfh Hfree Hbs Hb) as (p & s2 & Hrun & Hrep & Hp & Hpend & Hnew).
  exists fh, p, s2. split_and!; [|lia|done|done| |done|done].
  - rewrite <-Hrun. unfold open_file. rewrite (bind_ok _ _ _ _ _ Hres). cbv beta.
    rewrite (proj2 (Z.eqb_neq fh _)); [done|]. unfold MAX_FHS in Hfh. unfold UINT64_MINUS_1. lia.
  - intros U HU. apply Hrep; [set_solver|]. destruct HU as [?|?]; [by left|by right].
Qed.

Lemma open_existing s E hs L g es type perm init :
  rep ∅ s E hs L → E !! g = Some es → es ≠ [] → (size hs < Z.to_nat MAX_FHS)%nat →
  if init || type_matches type (file_of es) then
    ∃ fh s', open_file g type perm init false s = Ok ((GDPFS_STAT_OK, fh), s') ∧ 0 ≤ fh ∧ hs !! fh = None ∧
      rep ∅ s' E (<[fh := g]> hs) L
  else ∃ s', open_file g type perm init false s = Ok ((GDPFS_STAT_INVLDFTYPE, -1), s') ∧ rep ∅ s' E hs L.
Proof.
  intros Hr Hes Hne Hsize.
  destruct (open_file_split s E hs L g es type perm init false Hr Hes Hsize)
    as (fh & p & s2 & -> & Hfh & Hfree & _ & Hrep & Hp & _).
  set (U := if decide (handles_of hs g = 0%nat) then {[g]} else ∅ : gset file_gname).
  assert (rep U s2 E (<[fh := g]> hs) L) as Hr2.
  { apply Hrep. unfold U. case_decide; [left; by apply elem_of_singleton|by right]. }
  destruct (at_handle_of U s2 E (<[fh := g]> hs) L fh g p es Hr2) as (F & Ha & _); [apply lookup_insert_eq|done|done|].
  destruct (check_type_same U s2 E _ L fh g p F es type perm init Hr2 Ha Hne) as (s3 & Hct & Hr3 & Hh3 & F3 & HF3 & _).
  unfold open_rest. rewrite (bind_ok _ _ s2 tt s2) by done. rewrite (bind_ok _ _ _ _ _ Hct). cbv beta.
  destruct (init || type_matches type (file_of es)); cbn [EP_STAT_ISOK negb].
  - destruct (load_index_ok U s3 E (<[fh := g]> hs) L g p F3 es Hr3) as (s4 & Hload & Hr4); [by rewrite Hh3|done..|].
    rewrite (bind_ok _ _ _ _ _ Hload). exists fh, s4. split_and!; [done..|].
    replace ∅ with (U ∖ {[g]}); [done|]. unfold U. case_decide; set_solver.
  - destruct (close_ok' U s3 E (<[fh := g]> hs) L fh g Hr3) as (s4 & Hclose & Hr4 & _); [apply lookup_insert_eq|].
    rewrite (bind_ok _ _ _ _ _ Hclose). exists s4. split; [done|]. rewrite delete_insert_id in Hr4 by done.
    unfold U in Hr4. case_decide; [by eapply rep_forget|done].
Qed.

Lemma open_empty s E hs L g type perm strict :
  rep ∅ s E hs L → E !! g = Some [] → (size hs < Z.to_nat MAX_FHS)%nat →
  plain_type type = true → in_width 16 perm → (length (g_pending s) < MAX_PENDING)%nat →
  (strict = true → file_hash s !! g = None) →
  ∃ fh s' L', open_file g type perm true strict s = Ok ((GDPFS_STAT_OK, fh), s') ∧ 0 ≤ fh ∧ hs !! fh = None ∧
    rep ∅ s' (<[g := [mkFent (mkInfo 0 type perm) 0 []]]> E) (<[fh := g]> hs) L'.
Proof.
  intros Hr Hes Hsize Ht Hperm Hpend Hstrict.
  destruct (open_file_split s E hs L g [] type perm true strict Hr Hes Hsize)
    as (fh & p & s2 & -> & Hfh & Hfree & Hpend2 & Hrep & Hp & Hnew).
  assert (rep {[g]} s2 E (<[fh := g]> hs) L) as Hr2 by (apply Hrep; left; by apply elem_of_singleton).
  destruct (at_handle_of {[g]} s2 E (<[fh := g]> hs) L fh g p [] Hr2) as (F & Ha & _); [apply lookup_insert_eq|done|done|].
  unfold open_rest.
  assert (∃ s3 F3, (if strict then update_file p (set_new_file true) else mret tt) s2 = Ok (tt, s3) ∧
    at_handle s3 E (<[fh := g]> hs) L fh g p F3 [] ∧ rep {[g]} s3 E (<[fh := g]> hs) L ∧
    g_pending s3 = g_pending s ∧ (strict = true → figtree_initialized F3 = false)) as
    (s3 & F3 & Hmark & Ha3 & Hr3 & Hpend3 & Hni).
  { destruct strict; [|by exists s2, F].
    destruct (mark_new _ _ _ _ _ _ _ _ _ _ Hr2 Ha) as (s3 & Hup & Hr3 & Hh3 & Hp3 & Ho3).
    destruct (at_handle_of {[g]} s3 E (<[fh := g]> hs) L fh g p [] Hr3) as (F3 & Ha3 & _);
      [apply lookup_insert_eq|by rewrite Hh3|done|].
    exists s3, F3. split_and!; [done..|congruence|]. intros _. destruct (Hnew (Hstrict eq_refl)) as (F1 & HF1 & Hi).
    pose proof (ah_obj _ _ _ _ _ _ _ _ _ Ha). pose proof (ah_obj _ _ _ _ _ _ _ _ _ Ha3). by simplify_eq. }
  rewrite (bind_ok _ _ _ _ _ Hmark).
  destruct (check_type_new {[g]} s3 E (<[fh := g]> hs) L fh g p F3 type perm strict Hr3 Ha3)
    as (s4 & L' & Hct & Hr4 & Hh4 & F4 & HF4 & Hi4); [set_solver|done|done|by rewrite Hpend3|].
  rewrite (bind_ok _ _ _ _ _ Hct). cbv beta. cbn [EP_STAT_ISOK negb].
  assert (file_hash s4 !! g = Some p) as Hp4 by (rewrite Hh4; apply Ha3).
  assert (∃ s5, load_index p strict s4 = Ok (tt, s5) ∧
    rep ({[g]} ∖ {[g]}) s5 (<[g := [mkFent (mkInfo 0 type perm) 0 []]]> E) (<[fh := g]> hs) L') as (s5 & Hload & Hr5).
  { destruct strict.
    - eapply load_index_strict; [done..|apply lookup_insert_eq|done|]. rewrite Hi4. by apply Hni.
    - eapply load_index_ok; [done..|apply lookup_insert_eq|done]. }
  rewrite (bind_ok _ _ _ _ _ Hload). exists fh, s5, L'. split_and!; [done..|].
  by rewrite difference_diag_L in Hr5.
Qed.

End proof.
