(* ===== verification/FileCreate.v ===== *)
(** * Creating files

    [gdpfs_file_create] takes the name of a log that the producer created in
    advance, and initialises the log as a new file. *)
From S2P Require Import Prelude.
From S2P Require Import State.
From S2P Require Import Types.
From S2P Require Import Posix.
From S2P Require Heap.
From S2P Require Import Bitmap.
From S2P Require Import LogQueue.
From S2P Require Import FileIface.
From S2P Require Import Gdp.
From S2P Require Import LogEnt.
From S2P Require Import LogEntProof.
From S2P Require Import File.
From S2P Require Import FileSpec.
From S2P Require Import FileFocus.
From S2P Require Import FileRead.
From S2P Require Import FileRep.
From S2P Require Import FileSettle.
From S2P Require Import FileOpen.

#[local] Open Scope Z_scope.

Section proof.
Context {G : Type} `{GdpLaws G} `{!Heap.Allocator} `{!FileConfig}.
Implicit Types (s : gfs G) (y : sys G) (p : floc) (F : gdpfs_file_t G).
Implicit Types (E : gmap file_gname (list fent)) (hs : gmap Z file_gname) (L : gdp_logs).

(** ** Taking a name from the queue *)

Definition take_signal (q : queue file_gname) : option thread :=
  if decide (q_producer q = PWait) then Some Producer else None.

Lemma queue_take q E L :
  queue_rep q E L → contents zero_name q ≠ [] →
  ∃ g q1 q2, step zero_name q (EvCall 0) = Some (q1, None) ∧
    step zero_name q1 (EvTake 0 (take_signal q)) = Some (q2, Some g) ∧
    g ∈ contents zero_name q ∧ queue_rep q2 (<[g := []]> E) L.
Proof.
  intros [] Hne. set (q1 := set_consumer 0 CCheck q).
  assert (step zero_name q (EvCall 0) = Some (q1, None)) as S1.
  { simpl. by rewrite qr_consumers. }
  pose proof (step_ok zero_name _ _ _ _ qr_ok S1) as Hq1.
  pose proof (step_fifo zero_name _ _ _ _ qr_ok S1 eq_refl) as C1.
  assert (is_empty q1 = false) as He.
  { apply not_true_iff_false. intros He. apply Hne, contents_empty; done. }
  set (q1' := mkQueue (next (precreated_front q1)) (precreated_back q1) (precreated_logs q1)
                     (q_producer q1) (q_consumers q1)).
  assert (∃ q1'', signal (take_signal q) q1' = Some q1'' ∧ q_producer q1'' = PCheck ∧ q_consumers q1'' = [CCheck])
    as (q1'' & Hsig & Hp1 & Hc1).
  { unfold take_signal, signal. change (q_producer q) with (q_producer q1').
    destruct qr_producer as [Hp|Hp].
    - rewrite decide_False by (intros Hx; change (q_producer q = PWait) in Hx; congruence).
      exists q1'. unfold no_waiter, waiting. change (q_producer q1') with (q_producer q). rewrite Hp.
      change (q_consumers q1') with (<[0%nat := CCheck]> (q_consumers q)). rewrite qr_consumers. done.
    - rewrite decide_True by done. unfold waiting. change (q_producer q1') with (q_producer q).
      rewrite bool_decide_eq_true_2 by done. eexists. split; [done|]. split; [done|]. simpl. by rewrite qr_consumers. }
  set (g := slot zero_name q1 (precreated_front q1)). set (q2 := set_consumer 0 CIdle q1'').
  assert (step zero_name q1 (EvTake 0 (take_signal q)) = Some (q2, Some g)) as S2.
  { simpl. rewrite decide_True by (by rewrite qr_consumers).
    unfold gdpfs_log_get_precreated. rewrite He. fold q1'. by rewrite Hsig. }
  pose proof (step_ok zero_name _ _ _ _ Hq1 S2) as Hq2.
  pose proof (step_fifo zero_name _ _ _ _ Hq1 S2 eq_refl) as C2.
  assert (contents zero_name q = g :: contents zero_name q2) as Hcont.
  { assert (pending zero_name q1 = []) as Hp0.
    { unfold pending. change (q_producer q1) with (q_producer q). by destruct qr_producer as [->| ->]. }
    assert (pending zero_name q2 = []) as Hp2 by (unfold pending; change (q_producer q2) with (q_producer q1''); by rewrite Hp1).
    assert (pending zero_name q = []) as Hpq by exact Hp0.
    rewrite Hp0, Hpq in C1. rewrite Hp0, Hp2 in C2. simpl in C1, C2. rewrite !app_nil_r in *. congruence. }
  exists g, q1, q2. split_and!; [done|done|rewrite Hcont; by left|].
  rewrite Hcont in qr_nodup, qr_fresh, qr_room. apply NoDup_cons in qr_nodup as [Hnotin Hnd].
  constructor; try done.
  - left. exact Hp1.
  - change (q_consumers q2) with (<[0%nat := CIdle]> (q_consumers q1'')). by rewrite Hc1.
  - intros g' Hg'. destruct (qr_fresh g') as (? & ? & ? & ?); [by right|].
    rewrite lookup_insert_ne; [done|]. by intros ->.
  - destruct (qr_fresh g) as (_ & HE & _); [by left|]. rewrite map_size_insert_None by done.
    simpl in qr_room. lia.
Qed.

(** A name from the queue becomes a file without entries. *)
Lemma rep_take U s E hs L g q :
  rep U s E hs L → g ∈ contents zero_name (g_queue s) → queue_rep q (<[g := []]> E) L →
  Z.of_nat (size E) < RC_CAP →
  rep U (set_queue q s) (<[g := []]> E) hs L ∧ file_hash s !! g = None ∧ E !! g = None ∧
    length g = GNAME_SIZE ∧ Forall (in_width 8) g.
Proof.
  intros Hr Hg Hq Hroom. destruct (qr_fresh _ _ _ (rp_queue _ _ _ _ _ Hr) g Hg) as (HL & HE & Hlen & Hw).
  assert (file_hash s !! g = None) as Hh.
  { destruct (file_hash s !! g) as [p|] eqn:Hp; [|done].
    destruct (rp_hash _ _ _ _ _ Hr _ _ Hp) as (F & es & _ & Hes & _). congruence. }
  split_and!; try done. pose proof Hr as []. constructor; simpl; try done.
  - intros g' es. destruct (decide (g = g')) as [<-|Hne].
    + rewrite lookup_insert_eq. intros [= <-]. by split.
    + rewrite lookup_insert_ne by done. apply rp_logs.
  - intros g' es. destruct (decide (g = g')) as [<-|Hne].
    + rewrite lookup_insert_eq. intros [= <-]. by apply rp_fresh.
    + rewrite lookup_insert_ne by done. apply rp_sound.
  - intros g'. destruct (decide (g = g')) as [<-|Hne]; [by rewrite lookup_insert_eq|].
    rewrite lookup_insert_ne by done. apply rp_fresh.
  - intros g' p Hp. destruct (rp_hash _ _ Hp) as (F & es & ? & ? & ?). exists F, es.
    rewrite lookup_insert_ne by congruence. done.
  - intros g' es. destruct (decide (g = g')) as [<-|Hne].
    + rewrite lookup_insert_eq. intros [= <-] _ Hd. by apply Exists_nil in Hd.
    + rewrite lookup_insert_ne by done. apply rp_unhashed.
  - rewrite map_size_insert_None by done. lia.
Qed.

Lemma get_precreated_ok U s E hs L :
  rep U s E hs L → Z.of_nat (size E) < RC_CAP →
  ∃ g s' L', get_precreated s = Ok (Some g, s') ∧ rep U s' (<[g := []]> E) hs L' ∧ g_pending s' = g_pending s ∧
    file_hash s' !! g = None ∧ E !! g = None ∧ length g = GNAME_SIZE ∧ Forall (in_width 8) g.
Proof.
  intros Hr Hroom. unfold get_precreated. rewrite (bind_ok _ _ s s s) by done.
  assert (∃ s1 L1, (if is_empty (g_queue s) then produce else mret tt) s = Ok (tt, s1) ∧ rep U s1 E hs L1 ∧
    g_pending s1 = g_pending s ∧ contents zero_name (g_queue s1) ≠ []) as (s1 & L1 & Hrun & Hr1 & Hp1 & Hne).
  { pose proof (rp_queue _ _ _ _ _ Hr) as []. destruct (is_empty (g_queue s)) eqn:He.
    - destruct (produce_ok U s E hs L Hr) as (s1 & L1 & Hrun & Hr1 & Hp1 & _ & Hcont). exists s1, L1.
      split_and!; try done. apply Hcont; [done|]. destruct qr_producer as [|Hw]; [done|].
      apply (ok_prod_wait _ qr_ok) in Hw. pose proof (empty_not_full _ qr_ok He). congruence.
    - exists s, L. split_and!; try done. rewrite is_empty_length in He by apply qr_ok.
      apply bool_decide_eq_false in He. unfold contents. intros Hx%fmap_nil_inv.
      by destruct (length_of (g_queue s)). }
  rewrite (bind_ok _ _ _ _ _ Hrun), (bind_ok _ _ s1 s1 s1) by done. cbv zeta.
  change (if decide (q_producer (g_queue s1) = PWait) then Some Producer else None) with (take_signal (g_queue s1)).
  destruct (queue_take _ _ _ (rp_queue _ _ _ _ _ Hr1) Hne) as (g & q1 & q2 & S1 & S2 & Hin & Hq2).
  rewrite (bind_ok _ _ _ _ _ (queue_step_ok s1 _ _ _ S1)). cbv beta.
  rewrite (queue_step_ok (set_queue q1 s1) _ q2 (Some g) S2).
  destruct (rep_take U s1 E hs L1 g q2 Hr1 Hin Hq2 Hroom) as (Hr2 & Hh & HE & ? & ?).
  exists g, (set_queue q2 s1), L1. by split_and!.
Qed.

(** ** Creating *)

Lemma create_ok' s E hs L type perm :
  rep ∅ s E hs L → (size hs < Z.to_nat MAX_FHS)%nat → Z.of_nat (size E) < RC_CAP →
  plain_type type = true → in_width 16 perm → (length (g_pending s) < MAX_PENDING)%nat →
  ∃ g fh s' L', gdpfs_file_create type perm s = Ok ((GDPFS_STAT_OK, fh, g), s') ∧
    length g = GNAME_SIZE ∧ Forall (in_width 8) g ∧ 0 ≤ fh ∧ E !! g = None ∧ hs !! fh = None ∧
    rep ∅ s' (<[g := [mkFent (mkInfo 0 type perm) 0 []]]> E) (<[fh := g]> hs) L'.
Proof.
  intros Hr Hsize Hroom Ht Hperm Hpend. unfold gdpfs_file_create.
  destruct (get_precreated_ok _ _ _ _ _ Hr Hroom) as (g & s1 & L1 & Hget & Hr1 & Hp1 & Hh & HE & Hlen & Hw).
  rewrite (bind_ok _ _ _ _ _ Hget). cbv beta iota.
  destruct (open_empty s1 (<[g := []]> E) hs L1 g type perm true Hr1) as (fh & s2 & L2 & Hopen & Hfh & Hfree & Hr2);
    [apply lookup_insert_eq|done..|by rewrite Hp1|done|].
  unfold gdpfs_file_open_init. rewrite (bind_ok _ _ _ _ _ Hopen). cbv beta iota. cbn [EP_STAT_ISOK].
  rewrite insert_insert_eq in Hr2. exists g, fh, s2, L2. by split_and!.
Qed.

End proof.
