(* ===== verification/FileLaws.v ===== *)
(** * The file layer meets its contract

    The operations of [File.v] on any log service that satisfies [GdpLaws] are an
    instance of [FileLaws]: the logs represent files, and every schedule of
    callbacks and creations between the calls is allowed. *)
From S2P Require Import Prelude.
From S2P Require Import State.
From S2P Require Import Types.
From S2P Require Import Posix.
From S2P Require Heap.
From S2P Require Import Interval.
From S2P Require Import FigNode.
From S2P Require Import Bitmap.
From S2P Require Import LogQueue.
From S2P Require Import FileIface.
From S2P Require Import Format.
From S2P Require Import Gdp.
From S2P Require Import LogEnt.
From S2P Require Import LogEntProof.
From S2P Require Import File.
From S2P Require Import FileSpec.
From S2P Require Import FileFocus.
From S2P Require Import FileRead.
From S2P Require Import FileRep.
From S2P Require Import FileStep.
From S2P Require Import FileSettle.
From S2P Require Import FileOpen.
From S2P Require Import FileCreate.

#[local] Open Scope Z_scope.

Section laws.
Context {G : Type} `{GdpLaws G} `{!Heap.Allocator} `{!FileConfig}.
Implicit Types (s : gfs G) (E : gmap file_gname (list fent)) (hs : gmap Z file_gname) (L : gdp_logs).

(** Only files with a header are open between calls. *)
Definition handles_ok E hs : Prop := ∀ fh g, hs !! fh = Some g → ∃ e es, E !! g = Some (e :: es).

Definition files_rep s (a : afs) : Prop :=
  ∃ E L, rep ∅ s E (a_handles a) L ∧ a_files a = file_of <$> E ∧ handles_ok E (a_handles a).

(** Every call is preceded by what happens between calls. *)
Lemma settled {A} s a (c : st (gfs G) A) (P : A → gfs G → Prop) :
  files_rep s a →
  (∀ s1 E L, rep ∅ s1 E (a_handles a) L → a_files a = file_of <$> E → handles_ok E (a_handles a) →
     (length (g_pending s1) < MAX_PENDING)%nat → ∃ r s', c s1 = Ok (r, s') ∧ P r s') →
  ∃ r s', (settle;; c) s = Ok (r, s') ∧ P r s'.
Proof.
  intros (E & L & Hr & Hfiles & Hh) Hc. destruct (settle_ok _ _ _ _ _ Hr) as (s1 & L1 & Hrun & Hr1 & Hp).
  rewrite (bind_ok _ _ _ _ _ Hrun). by apply (Hc s1 E L1).
Qed.

Lemma file_lookup E g f : (file_of <$> E) !! g = Some f → ∃ es, E !! g = Some es ∧ f = file_of es.
Proof. rewrite lookup_fmap. destruct (E !! g); [|done]. intros [= <-]. eauto. Qed.

Lemma handles_ok_insert E hs g es : es ≠ [] → handles_ok E hs → handles_ok (<[g := es]> E) hs.
Proof.
  intros Hne Hh fh g' Hg. destruct (decide (g = g')) as [<-|Hn].
  - rewrite lookup_insert_eq. destruct es as [|e es]; [done|]. eauto.
  - rewrite lookup_insert_ne by done. by eapply Hh.
Qed.

Lemma handles_ok_open E hs fh g es : E !! g = Some es → es ≠ [] → handles_ok E hs → handles_ok E (<[fh := g]> hs).
Proof.
  intros Hes Hne Hh fh' g'. destruct (decide (fh = fh')) as [<-|Hn].
  - rewrite lookup_insert_eq. intros [= <-]. destruct es as [|e es]; [done|]. eauto.
  - rewrite lookup_insert_ne by done. apply Hh.
Qed.

Lemma handles_ok_close E hs fh : handles_ok E hs → handles_ok E (delete fh hs).
Proof. intros Hh fh' g' [_ Hg]%lookup_delete_Some. by eapply Hh. Qed.

Lemma nonempty_plain es : plain_type (file_type (info_of es)) = true → es ≠ [].
Proof. by intros Hp ->. Qed.

(** ** Opening *)

Lemma law_open s a g f type :
  files_rep s a → a_files a !! g = Some f → plain_type (file_type (af_info f)) = true →
  (size (a_handles a) < 1024)%nat → type_matches type f = true →
  ∃ r s', (settle;; open_file g type 0 false false) s = Ok (r, s') ∧
    ∃ fh, r = (GDPFS_STAT_OK, fh) ∧ 0 ≤ fh ∧ a_handles a !! fh = None ∧ files_rep s' (set_handle a fh g).
Proof.
  intros Hr Hf Hp Hsize Hm. apply (settled s a); [done|]. intros s1 E L Hr1 Hfiles Hh _.
  rewrite Hfiles in Hf. apply file_lookup in Hf as (es & Hes & ->). pose proof (nonempty_plain _ Hp) as Hne.
  pose proof (open_existing s1 E _ L g es type 0 false Hr1 Hes Hne Hsize) as Hopen.
  rewrite Hm in Hopen. destruct Hopen as (fh & s2 & Hopen & Hfh & Hfree & Hr2).
  exists (GDPFS_STAT_OK, fh), s2. split; [done|]. exists fh. split_and!; [done..|].
  exists E, L. split_and!; [done..|]. by eapply handles_ok_open.
Qed.

Lemma law_mismatch s a g f type :
  files_rep s a → a_files a !! g = Some f → plain_type (file_type (af_info f)) = true →
  (size (a_handles a) < 1024)%nat → type_matches type f = false →
  ∃ r s', (settle;; open_file g type 0 false false) s = Ok (r, s') ∧
    r = (GDPFS_STAT_INVLDFTYPE, -1) ∧ files_rep s' a.
Proof.
  intros Hr Hf Hp Hsize Hm. apply (settled s a); [done|]. intros s1 E L Hr1 Hfiles Hh _.
  rewrite Hfiles in Hf. apply file_lookup in Hf as (es & Hes & ->). pose proof (nonempty_plain _ Hp) as Hne.
  pose proof (open_existing s1 E _ L g es type 0 false Hr1 Hes Hne Hsize) as Hopen.
  rewrite Hm in Hopen. destruct Hopen as (s2 & Hopen & Hr2).
  eexists _, s2. split_and!; [done..|]. by exists E, L.
Qed.

Lemma file_of_header type perm : file_of [mkFent (mkInfo 0 type perm) 0 []] = mkAfile (mkInfo 0 type perm) ∅.
Proof. done. Qed.

Lemma law_open_init s a g f type perm :
  files_rep s a → a_files a !! g = Some f → (size (a_handles a) < 1024)%nat →
  plain_type type = true → in_width 16 perm →
  ∃ r s', (settle;; open_file g type perm true false) s = Ok (r, s') ∧
    ∃ fh, r = (GDPFS_STAT_OK, fh) ∧ 0 ≤ fh ∧ a_handles a !! fh = None ∧
      files_rep s' (set_handle (init_file a g f type perm) fh g).
Proof.
  intros Hr Hf Hsize Ht Hperm. apply (settled s a); [done|]. intros s1 E L Hr1 Hfiles Hh Hpend.
  rewrite Hfiles in Hf. apply file_lookup in Hf as (es & Hes & ->). unfold init_file.
  destruct (decide (es = [])) as [->|Hne].
  - destruct (open_empty s1 E _ L g type perm false Hr1) as (fh & s2 & L2 & Hopen & Hfh & Hfree & Hr2); [done..|].
    eexists _, s2. split; [done|]. exists fh. split_and!; try done.
    rewrite decide_True by done. eexists _, L2. split_and!; [exact Hr2| |].
    + simpl. by rewrite fmap_insert, Hfiles.
    + eapply handles_ok_open; [apply lookup_insert_eq|done|]. by apply handles_ok_insert.
  - pose proof (open_existing s1 E _ L g es type perm true Hr1 Hes Hne Hsize) as Hopen. simpl in Hopen.
    destruct Hopen as (fh & s2 & Hopen & Hfh & Hfree & Hr2).
    eexists _, s2. split; [done|]. exists fh. split_and!; try done.
    pose proof (info_plain es (proj2 (rp_logs _ _ _ _ _ Hr1 _ _ Hes)) Hne) as Hp. rewrite decide_False.
    2:{ simpl. intros Hx. by rewrite Hx in Hp. }
    exists E, L. split_and!; try done. by eapply handles_ok_open.
Qed.

Lemma law_create s a type perm :
  files_rep s a → (size (a_handles a) < 1024)%nat → Z.of_nat (size (a_files a)) < RC_CAP →
  plain_type type = true → in_width 16 perm →
  ∃ r s', (settle;; gdpfs_file_create type perm) s = Ok (r, s') ∧
    ∃ g fh, r = (GDPFS_STAT_OK, fh, g) ∧ length g = GNAME_SIZE ∧ Forall (in_width 8) g ∧ 0 ≤ fh ∧
      a_files a !! g = None ∧ a_handles a !! fh = None ∧
      files_rep s' (set_handle (set_file a g (mkAfile (mkInfo 0 type perm) ∅)) fh g).
Proof.
  intros Hr Hsize Hroom Ht Hperm. apply (settled s a); [done|]. intros s1 E L Hr1 Hfiles Hh Hpend.
  rewrite Hfiles, map_size_fmap in Hroom.
  destruct (create_ok' s1 E _ L type perm Hr1) as (g & fh & s2 & L2 & Hc & Hlen & Hw & Hfh & HE & Hfree & Hr2); [done..|].
  eexists _, s2. split; [done|]. exists g, fh. split_and!; try done.
  - by rewrite Hfiles, lookup_fmap, HE.
  - eexists _, L2. split_and!; [exact Hr2| |].
    + simpl. by rewrite fmap_insert, Hfiles.
    + eapply handles_ok_open; [apply lookup_insert_eq|done|]. by apply handles_ok_insert.
Qed.
(** ** Calls on a handle *)

Lemma handle_entries s1 E L a fh g f :
  rep ∅ s1 E (a_handles a) L → a_files a = file_of <$> E → handles_ok E (a_handles a) → handle_file a fh g f →
  ∃ es, a_handles a !! fh = Some g ∧ E !! g = Some es ∧ f = file_of es ∧ es ≠ [] ∧ Forall fent_ok es.
Proof.
  intros Hr Hfiles Hh [Hg Hf]. rewrite Hfiles in Hf. apply file_lookup in Hf as (es & Hes & ->).
  exists es. destruct (Hh _ _ Hg) as (e & es1 & Hes1). rewrite Hes in Hes1. injection Hes1 as ->.
  split_and!; try done. by apply (rp_logs _ _ _ _ _ Hr _ _ Hes).
Qed.

Lemma info_of_widths es : Forall fent_ok es → in_width 64 (file_size (info_of es)) ∧ in_width 16 (file_perm (info_of es)).
Proof.
  intros Hok. unfold info_of. destruct (last es) as [e|] eqn:Hl; [|done]. simpl.
  rewrite last_lookup in Hl. eapply Forall_lookup_1 in Hl; [|done]. by destruct Hl.
Qed.

Lemma law_close s a fh g :
  files_rep s a → a_handles a !! fh = Some g →
  ∃ r s', (settle;; gdpfs_file_close fh) s = Ok (r, s') ∧ files_rep s' (drop_handle a fh).
Proof.
  intros Hr Hg. apply (settled s a); [done|]. intros s1 E L Hr1 Hfiles Hh _.
  destruct (close_ok' ∅ s1 E _ L fh g Hr1 Hg) as (s2 & Hc & Hr2 & _).
  eexists _, s2. split; [done|]. exists E, L. split_and!; try done. by apply handles_ok_close.
Qed.

Lemma law_gname s a fh g :
  files_rep s a → a_handles a !! fh = Some g →
  ∃ r s', (settle;; gdpfs_file_gname fh) s = Ok (r, s') ∧ r = g ∧ files_rep s' a.
Proof.
  intros Hr Hg. apply (settled s a); [done|]. intros s1 E L Hr1 Hfiles Hh _.
  exists g, s1. split; [by eapply gname_ok'|]. split; [done|]. by exists E, L.
Qed.

Lemma law_read s a fh g f n off :
  files_rep s a → handle_file a fh g f → 0 ≤ off → 0 ≤ n → off + n < BYTE_INDEX_MAX →
  ∃ r s', (settle;; gdpfs_file_read fh n off) s = Ok (r, s') ∧ r = read_file f n off ∧ files_rep s' a.
Proof.
  intros Hr Hf Hoff Hn Hend. apply (settled s a); [done|]. intros s1 E L Hr1 Hfiles Hh _.
  destruct (handle_entries _ _ _ _ _ _ _ Hr1 Hfiles Hh Hf) as (es & Hg & Hes & -> & _).
  destruct (do_read_ok ∅ s1 E _ L fh g es n off Hr1 Hg Hes) as (s2 & Hrd & Hr2); [set_solver|done..|].
  eexists _, s2. split_and!; [exact Hrd|done|]. by exists E, L.
Qed.

Lemma law_get_info s a fh g f :
  files_rep s a → handle_file a fh g f →
  ∃ r s', (settle;; gdpfs_file_get_info fh) s = Ok (r, s') ∧ r = (GDPFS_STAT_OK, af_info f) ∧ files_rep s' a.
Proof.
  intros Hr Hf. apply (settled s a); [done|]. intros s1 E L Hr1 Hfiles Hh _.
  destruct (handle_entries _ _ _ _ _ _ _ Hr1 Hfiles Hh Hf) as (es & Hg & Hes & -> & _).
  destruct (get_info_ok' ∅ s1 E _ L fh g es Hr1 Hg Hes) as (s2 & Hi & Hr2).
  eexists _, s2. split_and!; [exact Hi|done|]. by exists E, L.
Qed.

(** The header is changed by [fi], and [bs] written at [off]. *)
Definition update {A} (fh : Z) (bs : list Z) (off : Z) (fi : gdpfs_file_info → gdpfs_file_info)
    (fin : Z → A) (bad : stat → A) : st (gfs G) A :=
  '(estat, info) ← gdpfs_file_get_info fh;
  if negb (EP_STAT_ISOK estat) then mret (bad estat) else
  set_cached_info fh (fi info);; r ← do_write fh bs off (fi info); mret (fin r).

Lemma law_update {A} s a fh g f bs off fi (fin : Z → A) (bad : stat → A) :
  files_rep s a → handle_file a fh g f →
  (∀ es, f = file_of es → es ≠ [] → Forall fent_ok es → fent_ok (mkFent (fi (info_of es)) off bs)) →
  ∃ r s', (settle;; update fh bs off fi fin bad) s = Ok (r, s') ∧ r = fin (Z.of_nat (length bs)) ∧
    files_rep s' (set_file a g (mkAfile (fi (af_info f)) (write_data (af_data f) bs off))).
Proof.
  intros Hr Hf He. apply (settled s a); [done|]. intros s1 E L Hr1 Hfiles Hh Hpend.
  destruct (handle_entries _ _ _ _ _ _ _ Hr1 Hfiles Hh Hf) as (es & Hg & Hes & -> & Hne & Hok).
  destruct (update_ok ∅ s1 E _ L fh g es bs off fi fin bad Hr1 Hg Hes) as (s2 & L2 & Hu & Hr2);
    [set_solver|by apply He|done|].
  eexists _, s2. split_and!; [exact Hu|done|]. eexists _, L2. split_and!; [exact Hr2| |].
  - simpl. rewrite fmap_insert, file_of_snoc, Hfiles. done.
  - apply handles_ok_insert; [|done]. by destruct es.
Qed.

(** A call that ends with [do_write]. *)
Lemma update_tail s fh bs off fi (bad : Z) :
  update fh bs off fi id (λ _, bad) s =
    ('(estat, info) ← gdpfs_file_get_info fh;
     if negb (EP_STAT_ISOK estat) then mret bad else
     set_cached_info fh (fi info);; do_write fh bs off (fi info)) s.
Proof.
  unfold update, mbind, st_bind. destruct (gdpfs_file_get_info fh s) as [[[estat info] s1]|]; [|done].
  destruct (negb (EP_STAT_ISOK estat)); [done|].
  destruct (set_cached_info fh (fi info) s1) as [[? s2]|]; [|done].
  by destruct (do_write fh bs off (fi info) s2) as [[? ?]|].
Qed.

Lemma bind_settle {A} s (c c' : st (gfs G) A) : (∀ s1, c s1 = c' s1) → (settle;; c) s = (settle;; c') s.
Proof. intros Hc. unfold mbind, st_bind. destruct (settle s) as [[? ?]|]; [apply Hc|done]. Qed.

Lemma law_write s a fh g f bs off :
  files_rep s a → handle_file a fh g f → 0 ≤ off → off + Z.of_nat (length bs) < BYTE_INDEX_MAX →
  ∃ r s', (settle;; gdpfs_file_write fh bs off) s = Ok (r, s') ∧ r = Z.of_nat (length bs) ∧
    files_rep s' (set_file a g (write_file f bs off)).
Proof.
  intros Hr Hf Hoff Hend.
  assert (wrap64 (off + Z.of_nat (length bs)) = off + Z.of_nat (length bs)) as Hw.
  { apply wrap_small. unfold BYTE_INDEX_MAX in Hend. unfold in_width. lia. }
  destruct (law_update s a fh g f bs off (λ i, mkInfo (Z.max (file_size i) (wrap64 (off + Z.of_nat (length bs))))
    (file_type i) (file_perm i)) id (λ _, 0) Hr Hf) as (r & s2 & Hu & Hres & Hr2).
  - intros es _ Hne Hok. destruct (info_of_widths es Hok) as [Hs Hp]. rewrite Hw.
    constructor; simpl; [|done|by apply info_plain|done|done].
    unfold BYTE_INDEX_MAX in Hend. unfold in_width in *. lia.
  - exists r, s2. split_and!; [|done|].
    + rewrite <-Hu. apply bind_settle. intros s1. by rewrite update_tail.
    + simpl in Hr2. rewrite Hw in Hr2. exact Hr2.
Qed.

Lemma law_ftruncate s a fh g f n :
  files_rep s a → handle_file a fh g f →
  ∃ r s', (settle;; gdpfs_file_ftruncate fh n) s = Ok (r, s') ∧ r = 0 ∧
    files_rep s' (set_file a g (mkAfile (with_size (af_info f) 0) (af_data f))).
Proof.
  intros Hr Hf.
  destruct (law_update s a fh g f [] 0 (λ i, mkInfo 0 (file_type i) (file_perm i)) id (λ _, 0) Hr Hf)
    as (r & s2 & Hu & Hres & Hr2).
  - intros es _ Hne Hok. destruct (info_of_widths es Hok) as [Hs Hp]. constructor; simpl; try done. by apply info_plain.
  - exists r, s2. split_and!; [|done|done]. rewrite <-Hu. apply bind_settle. intros s1. by rewrite update_tail.
Qed.

Lemma law_set_perm s a fh g f p :
  files_rep s a → handle_file a fh g f → in_width 16 p →
  ∃ r s', (settle;; gdpfs_file_set_perm fh p) s = Ok (r, s') ∧ r = GDPFS_STAT_OK ∧
    files_rep s' (set_file a g (mkAfile (with_perm (af_info f) p) (af_data f))).
Proof.
  intros Hr Hf Hp.
  apply (law_update s a fh g f [] 0 (λ i, mkInfo (file_size i) (file_type i) p) (λ _, GDPFS_STAT_OK) id Hr Hf).
  intros es _ Hne Hok. destruct (info_of_widths es Hok) as [Hs _]. constructor; simpl; try done. by apply info_plain.
Qed.
End laws.

(** ** The instance *)

#[export] Program Instance file_laws {G} `{GdpLaws G} `{!Heap.Allocator} `{!FileConfig} : FileLaws (gfs G) := {|
  file_rep := files_rep;
  max_handles := 1024;
  max_files := RC_CAP;
  max_offset := BYTE_INDEX_MAX;
|}.
Next Obligation.
  intros G ? ? ? ? s a g f type Hr Hf Hp Hs Hm. destruct (law_open s a g f type) as (? & s' & Hrun & fh & -> & ?); [done..|]. by exists fh, s'.
Qed.
Next Obligation.
  intros G ? ? ? ? s a g f type Hr Hf Hs Hp Hm. destruct (law_mismatch s a g f type) as (? & s' & Hrun & -> & ?); [done..|]. by exists s'.
Qed.
Next Obligation.
  intros G ? ? ? ? s a g f Hr Hf Hp Hs.
  destruct (law_open s a g f GDPFS_FILE_TYPE_UNKNOWN) as (? & s' & Hrun & fh & -> & ?); [done..|]. by exists fh, s'.
Qed.
Next Obligation.
  intros G ? ? ? ? s a type perm Hr Hs Hn Ht Hp.
  destruct (law_create s a type perm) as (? & s' & Hrun & g & fh & -> & ?); [done..|]. by exists g, fh, s'.
Qed.
Next Obligation.
  intros G ? ? ? ? s a g f type perm Hr Hf Hs Ht Hp.
  destruct (law_open_init s a g f type perm) as (? & s' & Hrun & fh & -> & ?); [done..|]. by exists fh, s'.
Qed.
Next Obligation. intros G ? ? ? ? s a fh g Hr Hg.
  destruct (law_close s a fh g) as (r & s' & ? & ?); [done..|]. by exists r, s'. Qed.
Next Obligation.
  intros G ? ? ? ? s a fh g Hr Hg. destruct (law_gname s a fh g) as (? & s' & ? & -> & ?); [done..|]. by exists s'.
Qed.
Next Obligation.
  intros G ? ? ? ? s a fh g f n off Hr Hf ? ? ?. destruct (law_read s a fh g f n off) as (? & s' & ? & -> & ?); [done..|]. by exists s'.
Qed.
Next Obligation.
  intros G ? ? ? ? s a fh g f bs off Hr Hf ? ? _. destruct (law_write s a fh g f bs off) as (? & s' & ? & -> & ?); [done..|]. by exists s'.
Qed.
Next Obligation.
  intros G ? ? ? ? s a fh g f n Hr Hf. destruct (law_ftruncate s a fh g f n) as (? & s' & ? & -> & ?); [done..|]. by exists s'.
Qed.
Next Obligation.
  intros G ? ? ? ? s a fh g f p Hr Hf Hp. destruct (law_set_perm s a fh g f p) as (? & s' & ? & -> & ?); [done..|]. by exists s'.
Qed.
Next Obligation.
  intros G ? ? ? ? s a fh g f Hr Hf. destruct (law_get_info s a fh g f) as (? & s' & ? & -> & ?); [done..|]. by exists s'.
Qed.
