(* ===== verification/FileStart.v ===== *)
(** * Starting the file layer

    [init_gdpfs_file] on logs that hold files represents these files, with no file
    open; and the logs of a running file layer hold its files at any time between
    two calls. *)
From S2P Require Import Prelude.
From S2P Require Import State.
From S2P Require Import Types.
From S2P Require Import Posix.
From S2P Require Heap.
From S2P Require Import Bitmap.
From S2P Require Import LogQueue.
From S2P Require Import FileIface.
From S2P Require Import Gdp.
From S2P Require Import LogEnt.
From S2P Require Import LogEntProof.
From S2P Require Import File.
From S2P Require Import FileSpec.
From S2P Require Import FileFocus.
From S2P Require Import FileRead.
From S2P Require Import FileRep.
From S2P Require Import FileLaws.

#[local] Open Scope Z_scope.

Section start.
Context {G : Type} `{GdpLaws G} `{!Heap.Allocator} `{!FileConfig}.
Implicit Types (s : gfs G) (y : sys G) (L : gdp_logs) (files : gmap file_gname afile).

(** The logs hold the files. *)
Definition logs_hold L files : Prop :=
  ∃ E, files = file_of <$> E ∧ ∀ g es, E !! g = Some es → log_of L g es.

(** There is room for the logs that are created in advance. *)
Definition log_room L : Prop := Z.of_nat (size L) + 2048 ≤ MAX_LOGS.

Lemma init_queue_rep (E : gmap file_gname (list fent)) L :
  log_room L → queue_rep (init_queue zero_name 1) E L.
Proof.
  unfold log_room. intros HL.
  assert (contents zero_name (init_queue zero_name 1) = []) as Hc by (by vm_compute).
  constructor; rewrite ?Hc; try done.
  - by left.
  - by apply NoDup_nil.
  - intros g Hg. by apply not_elem_of_nil in Hg.
  - simpl. lia.
Qed.

Lemma sound_nil es : cache_sound [] es.
Proof. intros b v. unfold stored. by destruct (0 <=? b). Qed.

(** ** Starting *)

Lemma mount_rep y sched L files :
  use_cache = true → gcl_mode = GDP_MODE_RA → gdp_rep (sys_gdp y) L → logs_hold L files →
  Z.of_nat (size files) ≤ RC_CAP → log_room L →
  files_rep (init_gdpfs_file y sched) (mkAfs files ∅).
Proof.
  intros Hu Hmode HG (E & -> & HE) Hsize HL. exists E, L.
  assert (∀ g, cache_of (mkSys (sys_gdp y) ∅) g = []) as Hcache.
  { intros g. unfold cache_of, local_content. simpl. by rewrite lookup_empty. }
  split_and!; [|done|intros fh g Hg; simpl in Hg; by apply lookup_empty_Some in Hg].
  unfold init_gdpfs_file. rewrite Hu. rewrite map_size_fmap in Hsize.
  constructor; simpl; try done.
  - intros g es _ _. rewrite Hcache. apply sound_nil.
  - intros g _ _. rewrite Hcache. apply sound_nil.
  - destruct (bitmap_create_spec MAX_FHS) as (b & -> & Hbs & Hb); [done|]. exists b. by rewrite dom_empty_L.
  - intros cb Hcb. by apply not_elem_of_nil in Hcb.
  - lia.
  - by apply NoDup_nil.
  - intros p. split; [by intros ?%not_elem_of_nil|by intros (g & F & Hg & _)].
  - by apply init_queue_rep.
Qed.

(** What survives when the process is killed. *)
Lemma rep_on_disk s a :
  files_rep s a → ∃ L, gdp_rep (sys_gdp (g_sys s)) L ∧ logs_hold L (a_files a) ∧ gcl_mode = GDP_MODE_RA ∧
    Z.of_nat (size (a_files a)) ≤ RC_CAP.
Proof.
  intros (E & L & Hr & Hfiles & _). exists L. split; [apply (rp_sys _ _ _ _ _ Hr)|]. split; [|split].
  - exists E. split; [done|]. apply (rp_logs _ _ _ _ _ Hr).
  - apply Hr.
  - rewrite Hfiles, map_size_fmap. apply (rp_count _ _ _ _ _ Hr).
Qed.

End start.
