(* ===== verification/FileTheorems.v ===== *)
(** * Sessions with the file layer

    A session is a client that makes calls of [gdpfs_file.h], with whatever happens
    between the calls.  It behaves like a sequence of steps on abstract files, and
    keeps the counters of the file objects exact. *)
From S2P Require Import Prelude.
From S2P Require Import State.
From S2P Require Import Types.
From S2P Require Heap.
From S2P Require Import Interval.
From S2P Require Import FileIface.
From S2P Require Import Gdp.
From S2P Require Import LogEnt.
From S2P Require Import LogEntProof.
From S2P Require Import File.
From S2P Require Import FileSpec.
From S2P Require Import FileRead.
From S2P Require Import FileRep.
From S2P Require FileSettle.
From S2P Require Import FileLaws.
From S2P Require Import FileStart.

#[local] Open Scope Z_scope.

(** ** Calls *)

Inductive file_call :=
  | COpen (g : file_gname) (type : gdpfs_file_type)
  | COpenInit (g : file_gname) (type : gdpfs_file_type) (perm : Z)
  | CCreate (type : gdpfs_file_type) (perm : Z)
  | CClose (fh : Z)
  | CGname (fh : Z)
  | CRead (fh size offset : Z)
  | CWrite (fh : Z) (bs : list Z) (offset : Z)
  | CTruncate (fh size : Z)
  | CSetPerm (fh perm : Z)
  | CGetInfo (fh : Z).

Inductive file_reply :=
  | FHandle (e : stat) (fh : Z)
  | FCreated (e : stat) (fh : Z) (g : file_gname)
  | FClosed
  | FName (g : file_gname)
  | FBytes (bs : list Z)
  | FNum (n : Z)
  | FStat (e : stat)
  | FInfo (e : stat) (i : gdpfs_file_info).

(** One call.  The status of closing a file is that of its last reference. *)
Definition file_do {S} `{FileOps S} (c : file_call) : st S file_reply :=
  match c with
  | COpen g t => '(e, fh) ← FileIface.gdpfs_file_open_type g t; mret (FHandle e fh)
  | COpenInit g t p => '(e, fh) ← FileIface.gdpfs_file_open_init g t p false; mret (FHandle e fh)
  | CCreate t p => '(e, fh, g) ← FileIface.gdpfs_file_create t p; mret (FCreated e fh g)
  | CClose fh => _ ← FileIface.gdpfs_file_close fh; mret FClosed
  | CGname fh => g ← FileIface.gdpfs_file_gname fh; mret (FName g)
  | CRead fh n off => bs ← FileIface.gdpfs_file_read fh n off; mret (FBytes bs)
  | CWrite fh bs off => n ← FileIface.gdpfs_file_write fh bs off; mret (FNum n)
  | CTruncate fh n => r ← FileIface.gdpfs_file_ftruncate fh n; mret (FNum r)
  | CSetPerm fh p => e ← FileIface.gdpfs_file_set_perm fh p; mret (FStat e)
  | CGetInfo fh => '(e, i) ← FileIface.gdpfs_file_get_info fh; mret (FInfo e i)
  end.

(** A client chooses its next call by the replies so far. *)
Inductive file_client :=
  | FStop
  | FCall (c : file_call) (k : file_reply → file_client).

Fixpoint file_session {S} `{FileOps S} (cl : file_client) : st S (list file_reply) :=
  match cl with
  | FStop => mret []
  | FCall c k => x ← file_do c; xs ← file_session (k x); mret (x :: xs)
  end.

(** ** Their meaning *)

(** A handle that is free, or a name that is: the choice is left open. *)
Inductive file_step (a : afs) : file_call → file_reply → afs → Prop :=
  | step_open g t f fh :
      a_files a !! g = Some f → type_matches t f = true → 0 ≤ fh → a_handles a !! fh = None →
      file_step a (COpen g t) (FHandle GDPFS_STAT_OK fh) (set_handle a fh g)
  | step_mismatch g t f :
      a_files a !! g = Some f → type_matches t f = false →
      file_step a (COpen g t) (FHandle GDPFS_STAT_INVLDFTYPE (-1)) a
  | step_open_init g t p f fh :
      a_files a !! g = Some f → 0 ≤ fh → a_handles a !! fh = None →
      file_step a (COpenInit g t p) (FHandle GDPFS_STAT_OK fh) (set_handle (init_file a g f t p) fh g)
  | step_create t p g fh :
      a_files a !! g = None → length g = GNAME_SIZE → Forall (in_width 8) g → 0 ≤ fh → a_handles a !! fh = None →
      file_step a (CCreate t p) (FCreated GDPFS_STAT_OK fh g)
        (set_handle (set_file a g (mkAfile (mkInfo 0 t p) ∅)) fh g)
  | step_close fh : file_step a (CClose fh) FClosed (drop_handle a fh)
  | step_gname fh g : a_handles a !! fh = Some g → file_step a (CGname fh) (FName g) a
  | step_read fh n off g f :
      handle_file a fh g f → file_step a (CRead fh n off) (FBytes (read_file f n off)) a
  | step_write fh bs off g f :
      handle_file a fh g f →
      file_step a (CWrite fh bs off) (FNum (Z.of_nat (length bs))) (set_file a g (write_file f bs off))
  | step_truncate fh n g f :
      handle_file a fh g f →
      file_step a (CTruncate fh n) (FNum 0) (set_file a g (mkAfile (with_size (af_info f) 0) (af_data f)))
  | step_set_perm fh p g f :
      handle_file a fh g f →
      file_step a (CSetPerm fh p) (FStat GDPFS_STAT_OK)
        (set_file a g (mkAfile (with_perm (af_info f) p) (af_data f)))
  | step_get_info fh g f :
      handle_file a fh g f → file_step a (CGetInfo fh) (FInfo GDPFS_STAT_OK (af_info f)) a.

Inductive file_steps : afs → file_client → list file_reply → afs → Prop :=
  | steps_stop a : file_steps a FStop [] a
  | steps_call a c k x a' xs a'' :
      file_step a c x a' → file_steps a' (k x) xs a'' → file_steps a (FCall c k) (x :: xs) a''.

(** ** When a call is allowed *)

Definition open_handle (a : afs) (fh : Z) : Prop := ∃ g f, handle_file a fh g f.

Section valid.
Context (S : Type) `{FileLaws S}.

Definition call_ok (a : afs) (c : file_call) : Prop :=
  match c with
  | COpen g _ => (size (a_handles a) < max_handles)%nat ∧
      ∃ f, a_files a !! g = Some f ∧ plain_type (file_type (af_info f)) = true
  | COpenInit g t p => (size (a_handles a) < max_handles)%nat ∧ is_Some (a_files a !! g) ∧
      plain_type t = true ∧ in_width 16 p
  | CCreate t p => (size (a_handles a) < max_handles)%nat ∧ Z.of_nat (size (a_files a)) < max_files ∧
      plain_type t = true ∧ in_width 16 p
  | CClose fh | CGname fh => is_Some (a_handles a !! fh)
  | CRead fh n off => open_handle a fh ∧ 0 ≤ off ∧ 0 ≤ n ∧ off + n < max_offset
  | CWrite fh bs off => open_handle a fh ∧ 0 ≤ off ∧ off + Z.of_nat (length bs) < max_offset ∧ Forall (in_width 8) bs
  | CTruncate fh _ | CGetInfo fh => open_handle a fh
  | CSetPerm fh p => open_handle a fh ∧ in_width 16 p
  end.

(** Every call of the session is allowed, whatever the replies were. *)
Fixpoint session_ok (a : afs) (cl : file_client) : Prop :=
  match cl with
  | FStop => True
  | FCall c k => call_ok a c ∧ ∀ x a', file_step a c x a' → session_ok a' (k x)
  end.

Lemma file_do_ok s a c :
  file_rep s a → call_ok a c → ∃ x s' a', file_do c s = Ok (x, s') ∧ file_step a c x a' ∧ file_rep s' a'.
Proof.
  intros Hr Hc. destruct c; simpl in Hc; unfold file_do.
  - destruct Hc as (Hs & f & Hf & Hp). destruct (type_matches type f) eqn:Hm.
    + destruct (open_type_ok s a g f type) as (fh & s' & Hrun & ? & ? & ?); [done..|].
      rewrite (bind_ok _ _ _ _ _ Hrun). eexists _, s', _. split_and!; [done|by econstructor|done].
    + destruct (open_type_mismatch s a g f type) as (s' & Hrun & ?); [done..|].
      rewrite (bind_ok _ _ _ _ _ Hrun). eexists _, s', _. split_and!; [done|by econstructor|done].
  - destruct Hc as (Hs & [f Hf] & Ht & Hp).
    destruct (open_init_ok s a g f type perm) as (fh & s' & Hrun & ? & ? & ?); [done..|].
    rewrite (bind_ok _ _ _ _ _ Hrun). eexists _, s', _. split_and!; [done|by econstructor|done].
  - destruct Hc as (Hs & Hn & Ht & Hp).
    destruct (create_ok s a type perm) as (g & fh & s' & Hrun & ? & ? & ? & ? & ? & ?); [done..|].
    rewrite (bind_ok _ _ _ _ _ Hrun). eexists _, s', _. split_and!; [done|by econstructor|done].
  - destruct Hc as [g Hg]. destruct (close_ok s a fh g Hr Hg) as (e & s' & Hrun & ?).
    rewrite (bind_ok _ _ _ _ _ Hrun). eexists _, s', _. split_and!; [done|by econstructor|done].
  - destruct Hc as [g Hg]. destruct (gname_ok s a fh g Hr Hg) as (s' & Hrun & ?).
    rewrite (bind_ok _ _ _ _ _ Hrun). eexists _, s', _. split_and!; [done|by econstructor|done].
  - destruct Hc as ((g & f & Hf) & ? & ? & ?). destruct (read_ok s a fh g f size offset) as (s' & Hrun & ?); [done..|].
    rewrite (bind_ok _ _ _ _ _ Hrun). eexists _, s', _. split_and!; [done|by econstructor|done].
  - destruct Hc as ((g & f & Hf) & ? & ? & ?). destruct (write_ok s a fh g f bs offset) as (s' & Hrun & ?); [done..|].
    rewrite (bind_ok _ _ _ _ _ Hrun). eexists _, s', _. split_and!; [done|by econstructor|done].
  - destruct Hc as (g & f & Hf). destruct (ftruncate_ok s a fh g f size Hr Hf) as (s' & Hrun & ?).
    rewrite (bind_ok _ _ _ _ _ Hrun). eexists _, s', _. split_and!; [done|by econstructor|done].
  - destruct Hc as ((g & f & Hf) & ?). destruct (set_perm_ok s a fh g f perm) as (s' & Hrun & ?); [done..|].
    rewrite (bind_ok _ _ _ _ _ Hrun). eexists _, s', _. split_and!; [done|by econstructor|done].
  - destruct Hc as (g & f & Hf). destruct (get_info_ok s a fh g f Hr Hf) as (s' & Hrun & ?).
    rewrite (bind_ok _ _ _ _ _ Hrun). eexists _, s', _. split_and!; [done|by econstructor|done].
Qed.

Lemma file_session_ok cl : ∀ s a,
  file_rep s a → session_ok a cl →
  ∃ xs s' a', file_session cl s = Ok (xs, s') ∧ file_steps a cl xs a' ∧ file_rep s' a'.
Proof.
  induction cl as [|c k IH]; intros s a Hr Hv; cbn [file_session].
  - exists [], s, a. split_and!; [done|constructor|done].
  - destruct Hv as [Hc Hv]. destruct (file_do_ok s a c Hr Hc) as (x & s1 & a1 & Hrun & Hstep & Hr1).
    destruct (IH x s1 a1 Hr1 (Hv _ _ Hstep)) as (xs & s2 & a2 & Hruns & Hsteps & Hr2).
    exists (x :: xs), s2, a2. split_and!; [|by econstructor|done].
    rewrite (bind_ok _ _ _ _ _ Hrun). by rewrite (bind_ok _ _ _ _ _ Hruns).
Qed.
End valid.

(** ** The file layer *)

(** The counters of the file objects agree with the open handles [hs] and the
    appends whose callbacks have not run. *)
Definition counters_exact {G} `{GdpOps G} (s : gfs G) (hs : gmap Z file_gname) : Prop :=
  (∀ g p, file_hash s !! g = Some p → ∃ F,
     g_objs s !! p = Some F ∧ hash_key F = g ∧
     ref_count F = Z.of_nat (handles_of hs g + acks_of p (g_pending s)) ∧
     outstanding_reqs F = Z.of_nat (acks_of p (g_pending s)) ∧
     (recently_closed F = true ↔ ref_count F = 0) ∧
     (p ∈ recently_closed_list s ↔ ref_count F = 0)) ∧
  (∀ fh g, hs !! fh = Some g →
     ∃ p, file_hash s !! g = Some p ∧ g_files s !! Z.to_nat fh = Some (Some p)) ∧
  NoDup (recently_closed_list s) ∧
  recently_closed_size s = Z.of_nat (length (recently_closed_list s)) ∧
  0 ≤ recently_closed_size s ≤ RC_CAP.

Section sessions.
Context {G : Type} `{GdpLaws G} `{!Heap.Allocator} `{!FileConfig}.
Implicit Types (s : gfs G) (y : sys G) (L : gdp_logs) (files : gmap file_gname afile).

Lemma rep_counters s a : files_rep s a → counters_exact s (a_handles a).
Proof.
  intros (E & L & Hr & _ & _). pose proof Hr as []. split_and!; try done.
  - intros g p Hp. destruct (rp_hash _ _ Hp) as (F & es & HF & _ & Ho & [] & _).
    exists F. split_and!; [done|apply Ho|done|done| |].
    + rewrite co_closed, co_refs, bool_decide_eq_true. lia.
    + rewrite rp_rc. split.
      * intros (g' & F' & Hg' & HF' & Hc). rewrite HF in HF'. injection HF' as <-.
        rewrite co_closed, bool_decide_eq_true in Hc. rewrite co_refs. lia.
      * intros Hz. exists g, F. split_and!; [done..|]. rewrite co_closed, bool_decide_eq_true.
        rewrite co_refs in Hz. lia.
  - rewrite rp_rc_size. lia.
  - rewrite rp_rc_size. assert (length (recently_closed_list s) ≤ size (dom E))%nat as Hle.
    { apply (FileSettle.tagged_length _ (λ g p, file_hash s !! g = Some p)); [done| |congruence].
      intros q Hq. apply rp_rc in Hq as (g' & F & Hg' & _). exists g'. split; [|done].
      destruct (rp_hash _ _ Hg') as (F' & es & _ & ? & _). by eapply elem_of_dom_2. }
    rewrite size_dom in Hle. lia.
Qed.


End sessions.

(** ** An example

    A log with one file; the client opens it, writes into a gap, truncates it, and
    reads what the two later writes left. *)
#[local] Instance session_config : FileConfig := {| use_cache := true; gcl_mode := GDP_MODE_RA; HOLE_BLOCK := 4 |}.
#[local] Existing Instance Heap.bump_allocator.

Definition session_name : file_gname := replicate 32 5.
Definition session_ents : list fent :=
  [mkFent (mkInfo 0 GDPFS_FILE_TYPE_REGULAR 420) 0 [];
   mkFent (mkInfo 4 GDPFS_FILE_TYPE_REGULAR 420) 0 [1; 2; 3; 4]].
Definition session_logs : gdp_logs := {[ session_name := encode_fent <$> session_ents ]}.
Definition session_files : gmap file_gname afile := {[ session_name := file_of session_ents ]}.
Definition session_sched : list (list async_event) :=
  [[AsyncProduce]; []; [AsyncProduce; AsyncCallback 0]; []; [AsyncCallback 0]].

Definition session_client : file_client :=
  FCall (COpen session_name GDPFS_FILE_TYPE_REGULAR) (λ x,
    match x with
    | FHandle GDPFS_STAT_OK fh =>
        FCall (CWrite fh [9; 8] 6) (λ _, FCall (CRead fh 100 2) (λ _,
        FCall (CTruncate fh 0) (λ _, FCall (CWrite fh [7] 3) (λ _, FCall (CRead fh 100 0) (λ _,
        FCall (CClose fh) (λ _, FStop))))))
    | _ => FStop
    end).

Definition session_start : gfs gdp_logs := init_gdpfs_file (mkSys session_logs ∅) session_sched.

Definition session_value {S A} (r : res (A * S)) : option A :=
  match r with Ok (a, _) => Some a | Fault _ => None end.

Example session_run :
  session_value (file_session session_client session_start) =
  Some [FHandle GDPFS_STAT_OK 0; FNum 2; FBytes [3; 4; 0; 0; 9; 8]; FNum 0; FNum 1; FBytes [1; 2; 3; 7]; FClosed].
Proof. vm_compute. reflexivity. Qed.

Lemma session_ents_ok : Forall fent_ok session_ents.
Proof. repeat constructor; simpl; try done; unfold in_width; lia. Qed.

Lemma session_logs_hold : logs_hold session_logs session_files.
Proof.
  exists {[ session_name := session_ents ]}. split; [by rewrite map_fmap_singleton|].
  intros g es [<- <-]%lookup_singleton_Some. split; [apply lookup_singleton_eq|apply session_ents_ok].
Qed.

Lemma session_client_ok : session_ok (gfs gdp_logs) (mkAfs session_files ∅) session_client.
Proof.
  assert (∀ a c x a' fh g, file_step a c x a' → (∀ fh', c ≠ CClose fh') → a_handles a !! fh = Some g →
    is_Some (a_files a !! g) → a_handles a' !! fh = Some g ∧ is_Some (a_files a' !! g)) as Hkeep.
  { intros a c x a' fh g Hs Hc Hg Hf. inversion Hs; subst; simpl; try done.
    - split; [|done]. destruct (decide (fh = fh0)) as [->|]; [congruence|by rewrite lookup_insert_ne].
    - split; [|unfold init_file; case_decide; simpl; [apply lookup_insert_is_Some'; by right|done]].
      destruct (decide (fh = fh0)) as [->|]; [congruence|]. unfold init_file. case_decide; by rewrite lookup_insert_ne.
    - split; [|apply lookup_insert_is_Some'; by right].
      destruct (decide (fh = fh0)) as [->|]; [congruence|by rewrite lookup_insert_ne].
    - by destruct (Hc fh0).
    - split; [done|]. apply lookup_insert_is_Some'. by right.
    - split; [done|]. apply lookup_insert_is_Some'. by right.
    - split; [done|]. apply lookup_insert_is_Some'. by right. }
  assert (∀ a fh g, a_handles a !! fh = Some g → is_Some (a_files a !! g) → open_handle a fh) as Hopen.
  { intros a fh g Hg [f Hf]. by exists g, f. }
  split.
  - split; [apply Nat.ltb_lt; vm_compute; reflexivity|]. exists (file_of session_ents).
    split; [apply lookup_singleton_eq|done].
  - intros x a1 Hs. inversion Hs; subst; [|done].
    set (a1 := set_handle _ _ _).
    assert (a_handles a1 !! fh = Some session_name ∧ is_Some (a_files a1 !! session_name)) as [Hh1 Hf1].
    { split; [apply lookup_insert_eq|]. eexists. apply lookup_singleton_eq. }
    clearbody a1. clear -Hkeep Hopen Hh1 Hf1.
    assert (∀ n, n < 1000 → n < max_offset (S := gfs gdp_logs)) as Hmax.
    { intros n Hn. change (max_offset (S := gfs gdp_logs)) with 4294967295. lia. }
    split; [split_and!; [by eapply Hopen|done|by apply Hmax|by repeat constructor]|]. intros x2 a2 S2.
    destruct (Hkeep _ _ _ _ _ _ S2 ltac:(done) Hh1 Hf1) as [Hh2 Hf2].
    split; [split_and!; [by eapply Hopen|done|done|by apply Hmax]|]. intros x3 a3 S3.
    destruct (Hkeep _ _ _ _ _ _ S3 ltac:(done) Hh2 Hf2) as [Hh3 Hf3].
    split; [by eapply Hopen|]. intros x4 a4 S4.
    destruct (Hkeep _ _ _ _ _ _ S4 ltac:(done) Hh3 Hf3) as [Hh4 Hf4].
    split; [split_and!; [by eapply Hopen|done|by apply Hmax|by repeat constructor]|]. intros x5 a5 S5.
    destruct (Hkeep _ _ _ _ _ _ S5 ltac:(done) Hh4 Hf4) as [Hh5 Hf5].
    split; [split_and!; [by eapply Hopen|done|done|by apply Hmax]|]. intros x6 a6 S6.
    destruct (Hkeep _ _ _ _ _ _ S6 ltac:(done) Hh5 Hf5) as [Hh6 Hf6].
    split; [by eexists|done].
Qed.

Lemma session_log_room : log_room session_logs.
Proof. unfold log_room, session_logs. by rewrite map_size_singleton. Qed.


