(* ===== verification/FileFaults.v ===== *)
(** * What the file layer does not guard against

    Calls outside the contract of [FileLaws], and configurations that
    [gdpfs_file.c] accepts but does not serve. *)
From S2P Require Import Prelude.
From S2P Require Import State.
From S2P Require Import Types.
From S2P Require Heap.
From S2P Require Import Bitmap.
From S2P Require Import FileIface.
From S2P Require Import Gdp.
From S2P Require Import LogEnt.
From S2P Require Import LogEntProof.
From S2P Require Import File.
From S2P Require Import FileSpec.
From S2P Require Import FileFocus.
From S2P Require Import FileRead.
From S2P Require Import FileRep.
From S2P Require Import FileStep.
From S2P Require Import FileSettle.
From S2P Require Import FileOpen.
From S2P Require Import FileLaws.
From S2P Require Import FileStart.

#[local] Open Scope Z_scope.

Section faults.
Context {G : Type} `{GdpLaws G} `{!Heap.Allocator} `{!FileConfig}.
Implicit Types (s : gfs G) (y : sys G) (L : gdp_logs).

(** The file that a handle leads to, through the test of [lookup_fh]. *)
Definition file_behind s (fh : Z) : res (option floc) :=
  match lookup_fh fh s with Ok (o, _) => Ok o | Fault f => Fault f end.

(** [bitmap_is_set] returns 0 for a clear bit; [lookup_fh] looks for a negative
    number. *)
Lemma lookup_fh_clear s b X fh o :
  g_fhs s = Some b → bm_size b = MAX_FHS → represents b X → 0 ≤ fh < MAX_FHS → fh ∉ X →
  g_files s !! Z.to_nat fh = Some o → file_behind s fh = Ok o.
Proof.
  intros Hb Hs HX Hfh Hn Hf. unfold MAX_FHS in *.
  assert (bitmap_is_set (g_fhs s) (wrap64 fh) = Ok 0) as Hset.
  { rewrite Hb, wrap_small by (unfold in_width; lia). unfold bitmap_is_set.
    rewrite (proj2 (Z.ltb_ge _ _)) by lia.
    destruct (rep_read b X HX fh) as (field & Hread & Hv & _); [lia|].
    unfold mbind, res_bind. by rewrite Hread, Hv, bool_decide_eq_false_2. }
  unfold file_behind, lookup_fh. erewrite bind_ok.
  2:{ unfold on_fhs. rewrite Hset. done. }
  cbv beta. change (0 <? 0) with false. cbv iota. unfold file_at. simpl. by rewrite Hf.
Qed.


(** A log without entries that no file object uses. *)
Definition fresh_log s a (g : file_gname) : Prop :=
  file_hash s !! g = None ∧ ∃ f, a_files a !! g = Some f ∧ file_type (af_info f) = GDPFS_FILE_TYPE_NEW.

Lemma load_index_empty U s E hs L fh g p F :
  rep U s E hs L → at_handle s E hs L fh g p F [] → figtree_initialized F = false →
  load_index p false s = Fault DanglingPtr.
Proof.
  intros Hr [] Hi. destruct ah_log as [HL _].
  destruct (mem_open_missing gcl_mode (g_sys s) L (log_handle F) g [] (-1))
    as (ent & y1 & Hopen & Hc & Hd & _ & _);
    [by rewrite (rp_mode _ _ _ _ _ Hr)|apply Hr|apply ah_ok|exact HL|done|].
  rewrite <-(foc_id s p F) by done. unfold load_index.
  rewrite (bind_ok _ _ _ _ _ (foc_the_file s (g_sys s) p F)), Hi. cbn [negb].
  erewrite bind_ok; [|apply foc_sys; exact Hopen]. cbv beta iota.
  unfold mbind, st_bind, on_sys, gdpfs_log_ent_recno, the_datum. by rewrite Hc, Hd.
Qed.

(** A log without entries cannot be opened without a type.  [load_index]
    asks the entry that it failed to open for its record number; the datum was
    freed by the failed open. *)
Theorem open_empty_log_faults s a g :
  files_rep s a → fresh_log s a g → (size (a_handles a) < 1024)%nat →
  gdpfs_file_open g s = Fault DanglingPtr.
Proof.
  intros (E & L & Hr & Hfiles & _) (Hnew & f & Hf & Ht) Hsize.
  rewrite Hfiles in Hf. apply file_lookup in Hf as (es & Hes & ->).
  assert (es = []) as ->.
  { destruct (decide (es = [])) as [|Hne]; [done|].
    pose proof (info_plain es (proj2 (rp_logs _ _ _ _ _ Hr _ _ Hes)) Hne) as Hp. simpl in Ht. by rewrite Ht in Hp. }
  destruct (open_file_split s E _ L g [] GDPFS_FILE_TYPE_UNKNOWN 0 false false Hr Hes Hsize)
    as (fh & p & s2 & Hrun & _ & _ & _ & Hrep & Hp & Hni).
  destruct (Hni Hnew) as (F & HF & Hi).
  assert (rep {[g]} s2 E (<[fh := g]> (a_handles a)) L) as Hr2 by (apply Hrep; left; by apply elem_of_singleton).
  destruct (at_handle_of {[g]} s2 E _ L fh g p [] Hr2) as (F1 & Ha & _); [apply lookup_insert_eq|done|done|].
  assert (F1 = F) as -> by (pose proof (ah_obj _ _ _ _ _ _ _ _ _ Ha); congruence).
  unfold gdpfs_file_open. rewrite Hrun. unfold open_rest.
  rewrite (bind_ok _ _ s2 tt s2) by done. unfold check_type. rewrite decide_True by done.
  rewrite (bind_ok _ _ s2 GDPFS_STAT_OK s2) by done. cbn [EP_STAT_ISOK negb].
  unfold mbind, st_bind. by rewrite (load_index_empty _ _ _ _ _ _ _ _ _ Hr2 Ha Hi).
Qed.
End faults.

(** ** Examples *)

Definition outcome {S A} (r : res (A * S)) : res A :=
  match r with Ok (a, _) => Ok a | Fault f => Fault f end.

Definition fault_name : file_gname := replicate 32 5.
Definition fault_ents : list fent :=
  [mkFent (mkInfo 0 GDPFS_FILE_TYPE_REGULAR 420) 0 []; mkFent (mkInfo 2 GDPFS_FILE_TYPE_REGULAR 420) 0 [1; 2]].

#[local] Existing Instance Heap.bump_allocator.

(** Without the cache a file with data cannot be opened again.  [load_index]
    copies the data of every entry to the cache and insists that this succeeds;
    [gdpfs_file_fill_cache] refuses when the cache is disabled. *)
Theorem nocache_open_aborts :
  let config := {| use_cache := false; gcl_mode := GDP_MODE_RA; HOLE_BLOCK := 4 |} in
  let start ents := init_gdpfs_file (mkSys ({[ fault_name := encode_fent <$> ents ]} : gdp_logs) ∅) [] in
  let opened ents := gdpfs_file_open_type fault_name GDPFS_FILE_TYPE_REGULAR (start ents) in
  outcome (opened fault_ents) = Fault AssertFail ∧ outcome (opened (take 1 fault_ents)) = Ok (GDPFS_STAT_OK, 0).
Proof. split; vm_compute; reflexivity. Qed.

Section witnesses.
#[local] Instance fault_config : FileConfig := {| use_cache := true; gcl_mode := GDP_MODE_RA; HOLE_BLOCK := 4 |}.

Definition fault_start (ents : list fent) : gfs gdp_logs :=
  init_gdpfs_file (mkSys {[ fault_name := encode_fent <$> ents ]} ∅) [].

Lemma fault_rep ents : Forall fent_ok ents →
  files_rep (fault_start ents) (mkAfs {[ fault_name := file_of ents ]} ∅).
Proof.
  intros Hok. apply (mount_rep _ _ {[ fault_name := encode_fent <$> ents ]}).
  - done.
  - done.
  - done.
  - exists {[ fault_name := ents ]}. split; [by rewrite map_fmap_singleton|].
    intros g es [<- <-]%lookup_singleton_Some. split; [apply lookup_singleton_eq|done].
  - by rewrite map_size_singleton.
  - unfold log_room. by rewrite map_size_singleton.
Qed.

Lemma open_empty_log_faults_witness :
  gdpfs_file_open fault_name (fault_start []) = Fault DanglingPtr.
Proof.
  apply (open_empty_log_faults (fault_start []) (mkAfs {[ fault_name := file_of [] ]} ∅)).
  - by apply fault_rep.
  - split; [done|]. exists (file_of []). split; [apply lookup_singleton_eq|done].
  - apply Nat.ltb_lt. vm_compute. reflexivity.
Defined.

Lemma fault_ents_ok : Forall fent_ok fault_ents.
Proof. repeat constructor; simpl; try done; unfold in_width; lia. Qed.

End witnesses.
