(* ===== verification/FileRestart.v ===== *)
(** * Stopping and starting again

    [gdpfs_stop] checkpoints the indices of the files in memory; a process that
    opens such a file afterwards starts from the checkpoint and does not replay
    the log, so that its cache file is empty. *)
From S2P Require Import Prelude.
From S2P Require Import State.
From S2P Require Import Types.
From S2P Require Import Posix.
From S2P Require Heap.
From S2P Require Import Interval.
From S2P Require Import FigNode.
From S2P Require Import FigTree.
From S2P Require Import FigTheorems.
From S2P Require Import FigRanges.
From S2P Require Import FigIter.
From S2P Require Import FigReads.
From S2P Require Import FigDirty.
From S2P Require Import FigChkpt.
From S2P Require Import Bitmap.
From S2P Require LogQueue.
From S2P Require Import FileIface.
From S2P Require Import Format.
From S2P Require Import FormatProof.
From S2P Require Import Gdp.
From S2P Require Import LogEnt.
From S2P Require Import LogEntProof.
From S2P Require Import File.
From S2P Require Import FileIndex.
From S2P Require Import FileSpec.
From S2P Require Import FileReload.
From S2P Require Import FileFocus.
From S2P Require Import FileRead.
From S2P Require Import FileRep.
From S2P Require Import FileStep.
From S2P Require Import FileLoad.
From S2P Require Import FileLaws.
From S2P Require Import FileStart.

#[local] Open Scope Z_scope.

(** ** The record of a checkpoint *)

Definition chkpt_record (i : gdpfs_file_info) (images : list ft_node) : logent :=
  mkLogent (mkFmeta (file_size i) (file_perm i) (file_type i) GDPFS_LOGENT_TYPE_CHKPT (-1)
    (sizeof_ft_node * Z.of_nat (length images)) MAGIC_NUMBER) (PNodes images).

Definition info_in_width (i : gdpfs_file_info) : Prop := in_width 64 (file_size i) ∧ in_width 16 (file_perm i).

(** The images can be written to a record without loss. *)
Definition images_fit (images : list ft_node) : Prop :=
  Forall node_image_ok images ∧ sizeof_fmeta + sizeof_ft_node * Z.of_nat (length images) < 2 ^ 64.

Lemma chkpt_meta_ok i images : info_in_width i → images_fit images → fmeta_ok (le_meta (chkpt_record i images)).
Proof.
  intros [Hs Hp] [_ Hf]. unfold sizeof_fmeta, sizeof_ft_node in *.
  constructor; simpl; try done; unfold in_width, sizeof_ft_node in *; lia.
Qed.

Lemma chkpt_record_ok i images : info_in_width i → images_fit images → record_ok (chkpt_record i images).
Proof. intros Hi Hf. split; [by apply chkpt_meta_ok|apply Hf]. Qed.

Lemma chkpt_record_length i images : images_fit images →
  Z.of_nat (length (encode_record (chkpt_record i images))) =
    sizeof_fmeta + sizeof_ft_node * Z.of_nat (length images).
Proof.
  intros [Hf _]. unfold encode_record. simpl le_payload. cbv iota.
  by rewrite length_app, Nat2Z.inj_add, encode_fmeta_length, encode_nodes_length.
Qed.

(** The image of the root is at the end. *)
Lemma chkpt_record_last i first image : images_fit (first ++ [image]) →
  drop (Z.to_nat (sizeof_fmeta + sizeof_ft_node * Z.of_nat (length first)))
    (encode_record (chkpt_record i (first ++ [image]))) = encode_node image.
Proof.
  intros [Hf _]. apply Forall_app in Hf as [Hf _]. unfold encode_record.
  change (le_payload _) with (PNodes (first ++ [image])). cbv iota.
  rewrite bind_app, bind_cons. change ([] ≫= encode_node) with (@nil Z). rewrite app_nil_r, app_assoc. apply drop_app_length'.
  pose proof (encode_nodes_length _ Hf) as Hl. rewrite length_app.
  pose proof (encode_fmeta_length (le_meta (chkpt_record i (first ++ [image])))) as Hm.
  unfold sizeof_fmeta, sizeof_ft_node in *. lia.
Qed.

Lemma info_fits es : Forall fent_ok es → info_in_width (info_of es).
Proof.
  intros Hok. unfold info_of. destruct (last es) as [e|] eqn:Hl; [|done].
  rewrite last_lookup in Hl. destruct (Forall_lookup_1 _ _ _ _ Hok Hl). done.
Qed.

Section proof.
Context {G : Type} `{GdpLaws G} `{!Heap.Allocator} `{!FileConfig}.
Implicit Types (s : gfs G) (y : sys G) (p : floc) (F : gdpfs_file_t G).
Implicit Types (E : gmap file_gname (list fent)) (hs : gmap Z file_gname) (L : gdp_logs).

(** The log of a file after a checkpoint of its index. *)
Definition checkpointed (es : list fent) (images : list ft_node) (l : list (list Z)) : Prop :=
  l = (encode_fent <$> es) ++ [encode_record (chkpt_record (info_of es) images)] ∧ Forall fent_ok es ∧
  images_fit images ∧ checkpoint_of (Z.of_nat (length es) + 1) images (index_of es).

(** ** Taking the checkpoint *)

(** What a checkpoint needs of an object. *)
Record chkpt_ready g es F : Prop := {
  cr_log : log_names (log_handle F) g;
  cr_info : info_cache_valid F = true → info_cache F = info_of es;
  cr_last : last_recno F = Z.of_nat (length es);
  cr_index : index_rep (file_figtree F) (figtree_nodes F) (index_of es);
  cr_fit images σ : get_dirty (file_figtree F) (last_recno F + 1) (figtree_nodes F) = Ok (images, σ) → images_fit images;
}.

Lemma checkpoint_nonempty recno images m : checkpoint_of recno images m → images ≠ [].
Proof.
  intros (h & t & sp & Hwf & _ & Hlast & _) ->. destruct t; [done|].
  destruct Hlast as (? & ? & Hn & _); [done|]. by destruct (app_cons_not_nil _ _ _ Hn).
Qed.

Lemma file_chkpt_foc s y p F L g es cb :
  gcl_mode = GDP_MODE_RA → sys_rep y L → log_of L g es → chkpt_ready g es F →
  ∃ y' F' images l pend, _file_chkpt p cb (foc s y p F) = Ok (tt, set_pending pend (foc s y' p F')) ∧
    sys_rep y' (<[g := l]> L) ∧ checkpointed es images l.
Proof.
  intros Hmode Hs HL []. unfold _file_chkpt.
  destruct (get_info_raw_ok s y p F L g es) as (y1 & Hinfo & Hs1 & Hl1); [done..|].
  rewrite (bind_ok _ _ _ _ _ Hinfo). cbv beta iota. cbn [EP_STAT_ISOK negb]. clear Hinfo.
  erewrite bind_ok; [|apply foc_update]. cbv beta.
  erewrite bind_ok; [|apply foc_the_file]. cbv beta. set (F1 := set_last_recno _ _).
  assert (last_recno F1 = Z.of_nat (length es) + 1) as Hl2 by (simpl; by rewrite cr_last0).
  destruct (index_checkpoint (last_recno F1) _ _ _ cr_index0) as (images & σ & Hget & Hc).
  pose proof (cr_fit0 _ _ Hget) as Hfit. rewrite Hl2 in Hc.
  erewrite bind_ok; [|by eapply foc_index]. cbv beta.
  destruct (Z.ltb_spec 0 (Z.of_nat (length images))) as [_|Hz].
  2:{ pose proof (checkpoint_nonempty _ _ _ Hc). by destruct images. }
  erewrite bind_ok; [|apply foc_update]. cbv beta zeta.
  set (r := chkpt_record (info_of es) images).
  change (mkFmeta _ _ _ _ _ _ _) with (le_meta r).
  destruct (init_write_ok y1 (encode_fmeta (le_meta r))) as (ent1 & d1 & Hw1 & Hc1 & Hd1 & E1).
  erewrite bind_ok; [|apply foc_sys; exact Hw1]. cbv beta iota.
  destruct (ent_write_ok y1 ent1 d1 (images ≫= encode_node) Hc1 Hd1) as (ent2 & d2 & Hw2 & Hc2 & Hd2 & E2).
  erewrite bind_ok; [|apply foc_sys; exact Hw2]. cbv beta iota. rewrite E1 in E2.
  destruct (append_ok gcl_mode y1 L (log_handle F1) g (encode_fent <$> es) ent2 d2 true)
    as (ea & y2 & Happ & Hea & Hs2 & _); [by rewrite Hmode|done|done|apply HL|done|].
  erewrite bind_ok; [|apply foc_sys; exact Happ]. cbv beta. rewrite Hea.
  unfold st_assert. erewrite bind_ok; [|done]. cbv beta.
  erewrite bind_ok; [|apply foc_pending]. cbv beta.
  eexists y2, _, images, ((encode_fent <$> es) ++ [datum_contents d2]), _. split_and!.
  - unfold on_sys. simpl. unfold gdpfs_log_ent_close, the_datum. by rewrite Hc2, Hd2.
  - done.
  - unfold checkpointed. rewrite E2. split_and!; [reflexivity|apply HL|done|done].
Qed.

(** ** Stopping *)

(** In the middle of [stop_gdpfs_file]: the files in [todo] are as in [s]. *)
Record stopping s E L (todo : list floc) s' L' : Prop := {
  sp_hash : file_hash s' = file_hash s;
  sp_sys : sys_rep (g_sys s') L';
  sp_todo g p : p ∈ todo → file_hash s !! g = Some p → g_objs s' !! p = g_objs s !! p ∧ L' !! g = L !! g;
  sp_done g p es : p ∉ todo → file_hash s !! g = Some p → E !! g = Some es →
    ∃ l images, L' !! g = Some l ∧ checkpointed es images l;
}.

Section stop.
Context (U : gset file_gname) (s : gfs G) (E : gmap file_gname (list fent)) (hs : gmap Z file_gname) (L : gdp_logs).
Hypothesis Hrep : rep U s E hs L.
Hypothesis Hloaded : ∀ g p F, file_hash s !! g = Some p → g_objs s !! p = Some F → figtree_initialized F = true.
Hypothesis Hfit : ∀ g p F images σ, file_hash s !! g = Some p → g_objs s !! p = Some F →
  get_dirty (file_figtree F) (last_recno F + 1) (figtree_nodes F) = Ok (images, σ) → images_fit images.

Lemma hashed_ready g p es :
  file_hash s !! g = Some p → E !! g = Some es → ∃ F, g_objs s !! p = Some F ∧ chkpt_ready g es F ∧ log_of L g es.
Proof using Hrep Hloaded Hfit.
  intros Hp Hes. destruct (rp_hash _ _ _ _ _ Hrep _ _ Hp) as (F & es1 & HF & Hes1 & Ho & _).
  assert (es1 = es) as -> by congruence. exists F. split; [done|]. split; [|by eapply rp_logs].
  pose proof (oo_index _ _ _ _ Ho) as Hx. rewrite (Hloaded _ _ _ Hp HF) in Hx. destruct Hx as (Hl & Hi & _).
  destruct Ho. constructor; [done..|]. intros images σ. by apply (Hfit g p).
Qed.

Lemma chkpt_all_ok ps : ∀ s' L', NoDup ps → (∀ p, p ∈ ps → ∃ g, file_hash s !! g = Some p) →
  stopping s E L ps s' L' → ∃ s2 L2, chkpt_all ps s' = Ok (tt, s2) ∧ stopping s E L [] s2 L2.
Proof using Hrep Hloaded Hfit.
  induction ps as [|p ps IH]; intros s' L' Hnd Hps Hst; [by exists s', L'|].
  apply NoDup_cons in Hnd as [Hnp Hnd]. destruct (Hps p) as [g Hp]; [by left|].
  destruct (rp_hash _ _ _ _ _ Hrep _ _ Hp) as (_ & es & _ & Hes & _).
  destruct (hashed_ready _ _ _ Hp Hes) as (F & HF & Hready & Hlog).
  pose proof Hst as [Hhash Hsys Htodo Hdone]. destruct (Htodo g p) as [HF' HL']; [by left|done|].
  rewrite HF in HF'. assert (log_of L' g es) as Hlog' by (split; [rewrite HL'|]; apply Hlog).
  destruct (file_chkpt_foc s' (g_sys s') p F L' g es false) as (y' & F' & images & l & pend & Hrun & Hs2 & Hc);
    [apply Hrep|done..|].
  rewrite (foc_id s' p F HF') in Hrun. cbn [chkpt_all]. rewrite (bind_ok _ _ _ _ _ Hrun).
  apply (IH _ (<[g := l]> L')); [done|by intros q ?; apply Hps; right|].
  assert (∀ g' q, q ≠ p → file_hash s !! g' = Some q → g ≠ g') as Hne by (intros g' q Hq Hg' <-; congruence).
  constructor; simpl; try done.
  - intros g' q Hq Hg'. assert (q ≠ p) as Hqp by (by intros ->).
    rewrite !lookup_insert_ne by eauto. apply Htodo; [by right|done].
  - intros g' q es' Hq Hg' Hes'. destruct (decide (q = p)) as [->|Hqp].
    + assert (g' = g) as -> by (by eapply rep_hash_inj). exists l, images. rewrite lookup_insert_eq.
      split; [done|]. by replace es' with es by congruence.
    + rewrite lookup_insert_ne by eauto. apply (Hdone g' q); [|done..]. by apply not_elem_of_cons.
Qed.

(** [gdpfs_stop] checkpoints every file in memory. *)
Lemma stop_ok : ∃ s' L', stop_gdpfs_file s = Ok (tt, s') ∧ sys_rep (g_sys s') L' ∧
  ∀ g p es, file_hash s !! g = Some p → E !! g = Some es → ∃ l images, L' !! g = Some l ∧ checkpointed es images l.
Proof using Hrep Hloaded Hfit.
  destruct (chkpt_all_ok (map_to_list (file_hash s)).*2 s L) as (s' & L' & Hrun & [? ? _ Hdone]).
  - apply NoDup_fmap_2_strong; [|apply NoDup_map_to_list].
    intros [g p] [g' p'] Hg%elem_of_map_to_list Hg'%elem_of_map_to_list Heq. simpl in Heq. subst p'.
    f_equal. by eapply rep_hash_inj.
  - intros p ([g q] & -> & Hg%elem_of_map_to_list)%list_elem_of_fmap. by exists g.
  - constructor; try done; [apply Hrep|]. intros g p es Hp Hg. destruct Hp. apply list_elem_of_fmap.
    exists (g, p). by split; [|apply elem_of_map_to_list].
  - exists s', L'. split_and!; [|done|].
    + unfold stop_gdpfs_file. by rewrite (bind_ok _ _ s s s) by done.
    + intros g p es Hp Hes. eapply Hdone; [|done..]. by apply not_elem_of_nil.
Qed.
End stop.

(** ** Loading the index *)

Section load.
Context (L : gdp_logs) (g : file_gname) (es : list fent) (images : list ft_node) (l : list (list Z)).
Hypothesis Hmode : gcl_mode = GDP_MODE_RA.
Hypothesis HL : L !! g = Some l.
Hypothesis Hl : checkpointed es images l.

Let r := chkpt_record (info_of es) images.

Lemma chkpt_last : last l = Some (encode_record r).
Proof using Hl. rewrite (proj1 Hl). by rewrite last_snoc. Qed.

Lemma chkpt_at recno : recno = -1 ∨ recno = Z.of_nat (length es) + 1 → record_at l recno = Some (encode_record r).
Proof using Hl.
  intros [->| ->]; unfold record_at, LAST_RECNO; [apply chkpt_last|].
  rewrite (proj1 Hl). rewrite (proj2 (Z.eqb_neq _ _)), (proj2 (Z.leb_gt _ _)) by lia.
  apply list_lookup_middle. rewrite length_fmap. lia.
Qed.

Lemma chkpt_recno : Z.of_nat (length l) = Z.of_nat (length es) + 1.
Proof using Hl. rewrite (proj1 Hl). rewrite length_app, length_fmap. simpl. lia. Qed.

Lemma chkpt_ok : record_ok r ∧ info_in_width (info_of es) ∧ images_fit images.
Proof using Hl.
  destruct Hl as (_ & Hok & Hf & _). pose proof (info_fits _ Hok). split_and!; [by apply chkpt_record_ok|done|done].
Qed.

Lemma chkpt_long : (Z.to_nat sizeof_fmeta ≤ length (encode_record r))%nat.
Proof using Hl.
  destruct chkpt_ok as (_ & _ & Hf). pose proof (chkpt_record_length (info_of es) images Hf) as Hlen. fold r in Hlen.
  unfold sizeof_fmeta, sizeof_ft_node in *. lia.
Qed.

Lemma chkpt_header : decode_fmeta (take (Z.to_nat sizeof_fmeta) (encode_record r)) = Some (le_meta r).
Proof using Hl. unfold encode_record. rewrite take_header. apply decode_header. apply chkpt_ok. Qed.

(** The log as the index reads it, whatever is cached. *)
Lemma chkpt_in_log h s y p F :
  sys_rep y L → log_names h g → holds_images (index_log h (foc s y p F)) (Z.of_nat (length es) + 1) images.
Proof using Hmode HL Hl.
  intros Hs Hh. destruct (read_record_ok Hmode y L h g l (Z.of_nat (length es) + 1) (encode_record r)) as [y' Hr];
    [done|done|done|apply chkpt_at; by right|].
  exists r. unfold index_log. cbn [g_sys foc]. rewrite Hr. split; [apply decode_encode_record, chkpt_ok|done].
Qed.

Lemma chkpt_entry_header (s : gfs G) :
  entry_header (take (Z.to_nat sizeof_fmeta) (encode_record r)) (Z.of_nat (length (encode_record r))) s = Ok (le_meta r, s).
Proof using Hl.
  destruct chkpt_ok as (_ & _ & Hf). pose proof (chkpt_record_length (info_of es) images Hf) as Hlen. fold r in Hlen.
  unfold entry_header. rewrite length_take, (proj2 (Z.eqb_eq _ _)) by (pose proof chkpt_long; unfold sizeof_fmeta in *; lia).
  cbn [negb]. rewrite chkpt_header, Hlen. destruct Hf as [_ Hf].
  change (fm_ent_size (le_meta r)) with (sizeof_ft_node * Z.of_nat (length images)).
  rewrite wrap_small by (unfold in_width, sizeof_fmeta, sizeof_ft_node in *; lia). by rewrite Z.eqb_refl.
Qed.

Lemma load_root_ok s y p F ent :
  figtree_nodes F = ∅ → ent_mem ent (Z.of_nat (length es) + 1) (encode_record r) →
  ∃ t σ, load_root p ent (le_meta r) (Z.of_nat (length (encode_record r))) (foc s y p F) =
      Ok (tt, foc s y p (set_figtree t σ F)) ∧
    loaded_rep (Z.of_nat (length es) + 1) images t σ (index_of es).
Proof using Hl.
  intros Hn Hm. destruct chkpt_ok as (_ & _ & Hf). pose proof (chkpt_record_length (info_of es) images Hf) as Hlen.
  destruct Hl as (_ & _ & _ & Hc). destruct (last images) as [image|] eqn:Hlast.
  2:{ apply last_None in Hlast. by apply checkpoint_nonempty in Hc. }
  apply last_Some in Hlast as [first Himg]. unfold load_root.
  assert (0 < Z.of_nat (length images)) as Hpos by (rewrite Himg, length_app; simpl; lia).
  change (fm_ent_size (le_meta r)) with (sizeof_ft_node * Z.of_nat (length images)).
  unfold st_assert. rewrite Z.mul_comm, Z_mod_mult, (proj2 (Z.ltb_lt _ _)) by (unfold sizeof_ft_node; lia).
  erewrite bind_ok; [|done]. cbv beta. erewrite bind_ok; [|done]. cbv beta. fold r in Hlen. rewrite Hlen.
  set (k := sizeof_fmeta + sizeof_ft_node * Z.of_nat (length first)).
  replace (sizeof_fmeta + sizeof_ft_node * Z.of_nat (length images) - sizeof_ft_node) with k
    by (unfold k; rewrite Himg, length_app; simpl; lia).
  destruct (mem_drain _ _ _ Hm y k) as (z & ent1 & Hdrain & Hm1); [unfold k, sizeof_fmeta, sizeof_ft_node; lia|].
  erewrite bind_ok; [|apply foc_sys; exact Hdrain]. cbv beta iota.
  assert (node_image_ok image) as Hio.
  { destruct Hf as [Hf _]. rewrite Himg in Hf. apply Forall_app in Hf as [_ Hf]. by inversion Hf. }
  assert (drop (Z.to_nat k) (encode_record r) = encode_node image) as Hdrop.
  { unfold r, k. rewrite Himg in Hf |- *. by apply chkpt_record_last. }
  rewrite Hdrop in Hm1. destruct (mem_read _ _ _ Hm1 y sizeof_ft_node) as (ent2 & Hread & _); [done|].
  erewrite bind_ok; [|apply foc_sys; exact Hread]. cbv beta iota.
  rewrite take_ge by (pose proof (encode_node_length _ Hio); unfold sizeof_ft_node in *; lia).
  rewrite decode_encode_node by done.
  destruct (Heap.alloc image ∅) as [[root σ]|] eqn:Ha; [|done].
  erewrite bind_ok; [|by eapply foc_nodes; rewrite Hn]. cbv beta. unfold set_tree. rewrite foc_update.
  exists (ft_init_with_root root), σ. split; [done|]. eapply loaded_rep_init; [done| |done].
  rewrite Himg. apply last_snoc.
Qed.

Lemma load_index_chkpt s y p F :
  sys_rep y L → log_names (log_handle F) g → figtree_initialized F = false → figtree_nodes F = ∅ →
  ∃ y' t σ, load_index p false (foc s y p F) =
      Ok (tt, foc s y' p (set_figtree_initialized true (set_figtree t σ (set_last_recno (Z.of_nat (length es) + 1) F)))) ∧
    sys_rep y' L ∧ sys_local y' = sys_local y ∧ loaded_rep (Z.of_nat (length es) + 1) images t σ (index_of es).
Proof using Hmode HL Hl.
  intros Hs Hh Hni Hnodes.
  destruct (mem_open gcl_mode y L (log_handle F) g l (-1) (encode_record r))
    as (estat & ent & y1 & Hopen & Hest & Hs1 & Hl1 & Hm); [by rewrite Hmode|done..|by apply chkpt_at; left|].
  unfold recno_of in Hm. change (-1 =? LAST_RECNO) with true in Hm. cbv iota in Hm. rewrite chkpt_recno in Hm.
  unfold load_index. rewrite (bind_ok _ _ _ _ _ (foc_the_file s y p F)). rewrite Hni. cbn [negb].
  erewrite bind_ok; [|apply foc_sys; exact Hopen]. cbv beta iota.
  erewrite bind_ok; [|apply foc_sys, (mem_recno _ _ _ Hm)]. cbv beta.
  erewrite bind_ok; [|apply foc_update]. cbv beta.
  erewrite bind_ok; [|apply foc_sys, (mem_close _ _ _ Hm)]. cbv beta zeta.
  rewrite stat_ok_found by done. set (F1 := set_last_recno _ F).
  replace (Z.to_nat (Z.of_nat (length es) + 1)) with (S (length es)) by lia. cbn [collect_ents].
  destruct (mem_open gcl_mode y1 L (log_handle F1) g l (Z.of_nat (length es) + 1) (encode_record r))
    as (estat2 & ent2 & y2 & Hopen2 & Hest2 & Hs2 & Hl2 & Hm2); [by rewrite Hmode|done..|by apply chkpt_at; right|].
  unfold recno_of, LAST_RECNO in Hm2. rewrite (proj2 (Z.eqb_neq _ _)) in Hm2 by lia.
  destruct (load_root_ok s y2 p F1 ent2) as (t & σ & Hroot & Hrep); [done|done|].
  erewrite bind_ok; cycle 1.
  { erewrite bind_ok; [|apply foc_the_file]. cbv beta.
    erewrite bind_ok; [|apply foc_sys; exact Hopen2]. cbv beta iota. rewrite Hest2. unfold st_assert.
    erewrite bind_ok; [|done]. cbv beta.
    erewrite bind_ok; [|apply foc_sys, (mem_length _ _ _ Hm2)]. cbv beta.
    erewrite bind_ok; [|apply foc_sys, (mem_peek _ _ _ Hm2); done]. cbv beta iota.
    erewrite bind_ok; [|by apply chkpt_entry_header]. cbv beta.
    rewrite decide_True by done. erewrite bind_ok; [|exact Hroot]. reflexivity. }
  cbv beta iota. rewrite (proj2 (Z.eqb_neq _ 0)) by lia. erewrite bind_ok; [|done]. cbv beta.
  erewrite bind_ok; [|done]. cbv beta. rewrite foc_update.
  exists y2, t, σ. split_and!; [done|done|congruence|done].
Qed.

(** ** Reading through the checkpoint *)

(** An object whose index was loaded from the checkpoint.  Its cache holds
    nothing wrong, but it does not hold everything. *)
Record restarted y F : Prop := {
  rs_sys : sys_rep y L;
  rs_log : log_names (log_handle F) g;
  rs_info : info_cache_valid F = true → info_cache F = info_of es;
  rs_new : new_file F = false;
  rs_fd : ∃ pos, cache_fd F = Some (mkLocalFd (g, None) pos);
  rs_index : loaded_rep (Z.of_nat (length es) + 1) images (file_figtree F) (figtree_nodes F) (index_of es);
  rs_sound : cache_sound (cache_of y g) es;
}.

(** The cache is not trusted beyond what it holds: nothing is cached, or holes are
    tracked by the byte. *)
Definition hits_sound y : Prop := HOLE_BLOCK = 1%nat ∨ cache_of y g = [].

Lemma restarted_info s y p F :
  restarted y F → ∃ y1 F1, _file_get_info_raw p (foc s y p F) = Ok ((GDPFS_STAT_OK, info_of es), foc s y1 p F1) ∧
    restarted y1 F1 ∧ cache_of y1 g = cache_of y g.
Proof using Hmode HL Hl.
  intros []. destruct (get_info_raw_by s y p F L (info_of es)) as (y1 & Hinfo & Hs1 & Hl1); [done..| |].
  { destruct (load_info_last s y p F L g l (encode_record r) (le_meta r)) as (y' & Hload & ? & ?);
      [done..|apply chkpt_last|apply chkpt_long|apply chkpt_header|].
    exists y'. split; [|done]. rewrite Hload. simpl. by destruct (info_of es). }
  eexists y1, _. split; [exact Hinfo|]. pose proof (same_local _ _ Hl1 g) as Hc. split; [|done].
  constructor; try done. by rewrite Hc.
Qed.

Lemma sound_hit c off m :
  0 ≤ off → cache_sound c es → Z.of_nat (length (read_at c off m)) = m →
  off + m ≤ Z.of_nat (find_hole 1 c (length c - Z.to_nat off) (Z.to_nat off)) →
  read_at c off m = bytes_of es off m.
Proof using Type.
  intros Hoff Hs Hlen Hhole. apply list_eq. intros i. destruct (decide (Z.of_nat i < m)) as [Hi|Hi].
  - rewrite read_at_lookup, bytes_of_lookup by lia. f_equal.
    destruct (find_hole_stored c off (off + Z.of_nat i) Hoff) as [v Hv]; [lia| |].
    { apply find_hole_le. rewrite read_at_length in Hlen. lia. }
    unfold byte_at. rewrite Hv. by apply Hs.
  - rewrite !lookup_ge_None_2; [done| |lia]. pose proof (bytes_of_length es off m). lia.
Qed.

Lemma restarted_cache s y p F off m :
  use_cache = true → 0 ≤ off → 0 ≤ m → restarted y F → hits_sound y →
  ∃ o y' F', gdpfs_file_get_cache p m off (foc s y p F) = Ok (o, foc s y' p F') ∧ restarted y' F' ∧
    cache_of y' g = cache_of y g ∧ ∀ bs, o = Some bs → bs = bytes_of es off m.
Proof using Type.
  intros Hu Hoff Hm [] Hh. destruct rs_fd0 as [pos Hfd].
  destruct (get_cache_ok s y p F g pos m off Hu Hfd Hoff Hm) as (pos' & o & y2 & Hget & Hq & Hhit).
  pose proof (quiet_caches _ _ _ Hq g) as Hc. eexists o, y2, _. split; [exact Hget|]. split_and!; [|done|].
  - constructor; try done; [by eapply quiet_rep|by eexists|by rewrite Hc].
  - intros bs Hbs. destruct (Hhit bs Hbs) as [[-> ->]|(-> & Hlen & Hhole)]; [done|]. specialize (Hhole rs_new0).
    destruct Hh as [Hb|He].
    + rewrite Hb in Hhole. by apply sound_hit.
    + rewrite He in Hlen |- *. assert (m = 0) as ->; [|done]. rewrite <-Hlen. unfold read_at. by rewrite drop_nil, take_nil.
Qed.

Lemma sound_refresh c off n : 0 ≤ off → 0 ≤ n → cache_sound c es → cache_sound (write_at c off (bytes_of es off n)) es.
Proof using Type.
  intros Hoff Hn Hs b v. rewrite stored_write_at by done. rewrite (bytes_of_length es off n) by done.
  case_decide as Hb; [|by apply Hs]. rewrite bytes_of_lookup by lia. intros [= <-]. f_equal. lia.
Qed.

Lemma restarted_index s y p F off m :
  use_cache = true → 0 ≤ off → 0 < m → off + m < BYTE_INDEX_MAX → restarted y F →
  ∃ y' F', read_index p m off (foc s y p F) = Ok (bytes_of es off m, foc s y' p F') ∧ restarted y' F'.
Proof using Hmode HL Hl.
  intros Hu Hoff Hm Hend []. unfold BYTE_INDEX_MAX in Hend.
  destruct (loaded_read_ok (Z.of_nat (length es) + 1) images (index_log (log_handle F) (foc s y p F))
    (S (S (Z.to_nat m))) (file_figtree F) (figtree_nodes F) (index_of es) off (off + m - 1) rs_index0)
    as (fs & σ & Hall & Hrep & Hin & Hat);
    [by apply chkpt_in_log|unfold byte_index, BYTE_INDEX_MIN, BYTE_INDEX_MAX; lia..|lia|].
  assert (log_from L g es [encode_record r]) as Hfrom.
  { split; [rewrite HL; by rewrite (proj1 Hl)|by destruct Hl as (_ & ? & _)]. }
  destruct (read_index_with Hmode s y p F L g es [encode_record r] m off fs σ)
    as (y' & fd & Hr & Hs' & Hc' & Hfd'); [done..|by rewrite Hu|done|done|done|done|done|done|].
  rewrite Hu in Hfd'. destruct Hfd' as [Hfd' Hc]. eexists y', _. split; [exact Hr|].
  constructor; try done. rewrite Hc. apply sound_refresh; [done|lia|done].
Qed.

Lemma restarted_read s y p F fh n off :
  use_cache = true → 0 ≤ off → 0 ≤ n → off + n < BYTE_INDEX_MAX → restarted y F → hits_sound y →
  lookup_fh fh (foc s y p F) = Ok (Some p, foc s y p F) →
  ∃ y' F', gdpfs_file_read fh n off (foc s y p F) = Ok (read_file (file_of es) n off, foc s y' p F') ∧ restarted y' F'.
Proof using Hmode HL Hl.
  intros Hu Hoff Hn Hend Hr Hh Hfh. destruct chkpt_ok as (_ & [[Hsize _] _] & _).
  apply (do_read_by (λ y F, restarted y F ∧ hits_sound y) restarted); try done.
  - destruct (restarted_info s y p F Hr) as (y1 & F1 & Hinfo & Hr1 & Hc1). exists y1, F1.
    split_and!; [done|done|]. unfold hits_sound. by rewrite Hc1.
  - by intros ? ? [? _].
  - intros y1 F1 m _ [Hr1 Hh1] Hm.
    destruct (restarted_cache s y1 p F1 off m) as (o & y2 & F2 & Hget & Hr2 & Hc2 & Hhit); [done..|].
    exists o, y2, F2. split_and!; [done|done| |done]. unfold hits_sound. by rewrite Hc2.
  - intros y1 F1 m [Hr1 _] Hm Hend1. by apply restarted_index.
Qed.

(** ** Opening the file in a new process *)

Lemma first_handle :
  ∃ b, bitmap_reserve (bitmap_create MAX_FHS 0) = Ok (0, b) ∧ bitmap_is_set b (wrap64 0) = Ok 1.
Proof using Type. eexists. split; vm_compute; reflexivity. Qed.

(** A process with one open file and no objects yet. *)
Definition one_open b fs y p q : gfs G := mkGfs y b (<[0%nat := Some p]> fs) ∅ {[g := p]} [] 0 q [] [].

Lemma one_open_handle b (o : option floc) fs y0 q y p F :
  bitmap_is_set b (wrap64 0) = Ok 1 →
  lookup_fh 0 (foc (one_open b (o :: fs) y0 p q) y p F) = Ok (Some p, foc (one_open b (o :: fs) y0 p q) y p F).
Proof using Type.
  intros Hb. unfold lookup_fh. erewrite bind_ok.
  2:{ unfold on_fhs. cbn [g_fhs foc one_open]. rewrite Hb. reflexivity. }
  cbv beta. reflexivity.
Qed.

Lemma open_restarted y :
  use_cache = true → gdp_rep (sys_gdp y) L →
  ∃ b o fs y0 p q y' F',
    gdpfs_file_open g (init_gdpfs_file y []) = Ok ((GDPFS_STAT_OK, 0), foc (one_open b (o :: fs) y0 p q) y' p F') ∧
    bitmap_is_set b (wrap64 0) = Ok 1 ∧ restarted y' F' ∧ cache_of y' g = [].
Proof using Hmode HL Hl.
  intros Hu HG. unfold init_gdpfs_file. rewrite Hu. set (q := LogQueue.init_queue _ _).
  destruct first_handle as (b & Hres & Hset). set (b0 := bitmap_create MAX_FHS 0) in *. clearbody b0.
  change (replicate (Z.to_nat MAX_FHS) None) with (@None floc :: replicate 1023 None).
  set (fs := replicate 1023 None). clearbody fs.
  destruct (gcl_open_ok _ _ g gcl_mode HG) as (e & c & g' & Hopen & He & Hn & HG'); [by eexists|].
  set (p := Heap.malloc ∅). set (y1 := mkSys g' (<[(g, None) := []]> ∅) : sys G).
  set (F0 := new_object (mkLog c g) g (Some (mkLocalFd (g, None) 0))). set (F1 := set_ref_count 1 F0).
  assert (sys_rep y1 L) as Hs1.
  { split; [done|]. intros g1 n c1. simpl. by rewrite lookup_insert_ne, lookup_empty by congruence. }
  destruct (load_index_chkpt (one_open b (None :: fs) y1 p q) y1 p F1) as (y2 & t & σ & Hload & Hs2 & Hl2 & Hrep); [done..|].
  exists b, None, fs, y1, p, q, y2. eexists. split; [|split; [done|]].
  - unfold gdpfs_file_open, open_file.
    erewrite bind_ok; [|unfold on_fhs; cbn [g_fhs]; rewrite Hres; reflexivity]. cbv beta.
    change (0 =? UINT64_MINUS_1) with false. cbv iota.
    erewrite bind_ok; cycle 1.
    { unfold find_file. erewrite bind_ok; [|reflexivity]. cbn [file_hash set_fhs]. rewrite lookup_empty.
      erewrite bind_ok; cycle 1.
      { unfold on_sys, gdpfs_log_open. cbn [g_sys set_fhs].
        rewrite (bind_ok _ _ _ _ _ (in_gdp_ok _ (mkSys (sys_gdp y) ∅) _ _ Hopen)). cbv beta iota. rewrite He. reflexivity. }
      cbv beta iota. rewrite Hu. erewrite bind_ok; [|reflexivity]. cbv beta.
      erewrite bind_ok; [|reflexivity]. cbv beta zeta. erewrite bind_ok; [|reflexivity]. reflexivity. }
    cbv beta iota. cbn [g_objs set_sys set_fhs g_sys]. rewrite dom_empty_L. fold p.
    set (s1 := set_hash _ _).
    erewrite bind_ok; cycle 1.
    { unfold _file_ref. erewrite bind_ok; [reflexivity|]. unfold update_file, s1. cbn [set_hash set_objs g_objs].
      rewrite lookup_insert_eq. reflexivity. }
    cbv beta. erewrite bind_ok; [|reflexivity]. cbv beta. erewrite bind_ok; [|reflexivity]. cbv beta.
    erewrite bind_ok; [|reflexivity]. cbv beta. unfold check_type. rewrite decide_True by done.
    erewrite bind_ok; [|reflexivity]. cbv beta. cbn [EP_STAT_ISOK negb].
    assert (∀ z, z = foc (one_open b (None :: fs) y1 p q) y1 p F1 → (load_index p false;; mret (GDPFS_STAT_OK, 0)) z =
      Ok ((GDPFS_STAT_OK, 0), foc (one_open b (None :: fs) y1 p q) y2 p
        (set_figtree_initialized true (set_figtree t σ (set_last_recno (Z.of_nat (length es) + 1) F1))))) as Hz.
    { intros z ->. by rewrite (bind_ok _ _ _ _ _ Hload). }
    apply Hz. rewrite insert_insert_eq. reflexivity.
  - pose proof (same_local _ _ Hl2 g) as Hc. assert (cache_of y1 g = []) as Hc1.
    { unfold cache_of, local_content. simpl. by rewrite lookup_insert_eq. }
    split; [|congruence]. constructor; simpl; try done; [by eexists|].
    rewrite Hc, Hc1. intros k v Hk. unfold stored in Hk. by destruct (0 <=? k); [rewrite lookup_nil in Hk|].
Qed.

(** *** Reading *)

Lemma restarted_reads b (o : option floc) fs y0 q p rs : use_cache = true → bitmap_is_set b (wrap64 0) = Ok 1 →
  Forall (λ r, 0 ≤ r.1 ∧ 0 ≤ r.2 ∧ r.2 + r.1 < BYTE_INDEX_MAX) rs → ∀ y F, restarted y F →
  HOLE_BLOCK = 1%nat ∨ (length rs ≤ 1)%nat ∧ cache_of y g = [] →
  ∃ s', mapM (λ r, gdpfs_file_read 0 r.1 r.2) rs (foc (one_open b (o :: fs) y0 p q) y p F) =
    Ok ((λ r, read_file (file_of es) r.1 r.2) <$> rs, s').
Proof using Hmode HL Hl.
  intros Hu Hset. induction 1 as [|[n off] rs (Hn & Hoff & Hend) Hrs IH]; intros y F Hr Hb; [by eexists|].
  simpl in *. assert (hits_sound y) as Hh by (destruct Hb as [?|[_ ?]]; [by left|by right]).
  destruct (restarted_read (one_open b (o :: fs) y0 p q) y p F 0 n off Hu Hoff Hn Hend Hr Hh
      (one_open_handle _ _ _ _ _ _ _ _ Hset))
    as (y1 & F1 & Hread & Hr1).
  rewrite (bind_ok _ _ _ _ _ Hread). destruct Hb as [Hb|[Hlen _]].
  - destruct (IH y1 F1 Hr1 (or_introl Hb)) as [s' Hs']. rewrite (bind_ok _ _ _ _ _ Hs'). by eexists.
  - destruct rs; [by eexists|]. simpl in Hlen. lia.
Qed.
End load.
End proof.

(** ** The theorem *)

Section theorems.
Context {G : Type} `{GdpLaws G} `{!Heap.Allocator} `{!FileConfig}.
Implicit Types (s : gfs G).

(** Every file in memory has its index loaded, and its checkpoint fits a
    record. *)
Definition indices_fit s : Prop := ∀ g p F,
  file_hash s !! g = Some p → g_objs s !! p = Some F → figtree_initialized F = true ∧
  ∀ images σ, get_dirty (file_figtree F) (last_recno F + 1) (figtree_nodes F) = Ok (images, σ) → images_fit images.

(** A new process on the same log service. *)
Definition new_process s (local : gmap local_name (list (option Z))) : gfs G :=
  init_gdpfs_file (mkSys (sys_gdp (g_sys s)) local) [].

(** Opening a file and reading [size] bytes at [offset], for each of the pairs. *)
Definition open_and_read (g : file_gname) (reads : list (Z * Z)) : st (gfs G) (stat * list (list Z)) :=
  '(estat, fh) ← gdpfs_file_open g;
  bss ← mapM (λ r, gdpfs_file_read fh r.1 r.2) reads;
  mret (estat, bss).

(** C3: A clean stop keeps the files.  [gdpfs_stop] succeeds and checkpoints every
    file in memory; in a new process, with anything left in the cache directory,
    the file can be opened, and a read through the checkpoint returns what the
    file held.  All later reads do so too if the local file system tracks holes
    by the byte; otherwise only the first one is sure to. *)
Theorem restart_reads s a g f local reads :
  use_cache = true → files_rep s a → indices_fit s → a_files a !! g = Some f → is_Some (file_hash s !! g) →
  Forall (λ r, 0 ≤ r.1 ∧ 0 ≤ r.2 ∧ r.2 + r.1 < BYTE_INDEX_MAX) reads →
  HOLE_BLOCK = 1%nat ∨ (length reads ≤ 1)%nat →
  ∃ s1 s2, stop_gdpfs_file s = Ok (tt, s1) ∧
    open_and_read g reads (new_process s1 local) =
      Ok ((GDPFS_STAT_OK, (λ r, read_file f r.1 r.2) <$> reads), s2).
Proof.
  intros Hu (E & L & Hr & Hfiles & _) Hfit Hf [p Hp] Hreads Hb.
  rewrite Hfiles in Hf. apply file_lookup in Hf as (es & Hes & ->).
  destruct (stop_ok ∅ s E (a_handles a) L Hr) as (s1 & L1 & Hstop & [HG _] & Hall).
  { intros g1 p1 F1 Hg1 HF1. by apply (Hfit g1 p1 F1). }
  { intros g1 p1 F1 images σ Hg1 HF1. by apply (Hfit g1 p1 F1). }
  destruct (Hall g p es Hp Hes) as (l & images & HL & Hc). pose proof (rp_mode _ _ _ _ _ Hr) as Hmode.
  destruct (open_restarted L1 g es images l Hmode HL Hc (mkSys (sys_gdp (g_sys s1)) local) Hu HG)
    as (b & o & fs & y0 & p' & q & y' & F' & Hopen & Hset & Hrs & Hempty).
  destruct (restarted_reads L1 g es images l Hmode HL Hc b o fs y0 q p' reads Hu Hset Hreads y' F' Hrs)
    as (s2 & Hread); [by destruct Hb as [?|?]; [left|right]|].
  exists s1, s2. split; [done|]. unfold open_and_read, new_process.
  rewrite (bind_ok _ _ _ _ _ Hopen). cbv beta iota. by rewrite (bind_ok _ _ _ _ _ Hread).
Qed.
End theorems.

(** ** An example *)

#[local] Instance restart_config : FileConfig := {| use_cache := true; gcl_mode := GDP_MODE_RA; HOLE_BLOCK := 4 |}.
#[local] Existing Instance Heap.bump_allocator.

Definition restart_name : file_gname := replicate 32 9.
Definition restart_ents : list fent :=
  [mkFent (mkInfo 0 GDPFS_FILE_TYPE_REGULAR 420) 0 [];
   mkFent (mkInfo 8 GDPFS_FILE_TYPE_REGULAR 420) 0 [1; 2; 3; 4; 5; 6; 7; 8]].
Definition restart_logs : gdp_logs := {[ restart_name := encode_fent <$> restart_ents ]}.

(** The state of a process that has opened the file. *)
Definition restart_state : gfs gdp_logs :=
  match FileIface.gdpfs_file_open restart_name (init_gdpfs_file (mkSys restart_logs ∅) []) with
  | Ok (_, s) => s
  | Fault _ => init_gdpfs_file (mkSys restart_logs ∅) []
  end.

(** The bytes read in a new process, after [gdpfs_stop] or without it. *)
Definition restart_run (stop : bool) (reads : list (Z * Z)) : res (list (list Z)) :=
  match (if stop then stop_gdpfs_file else mret tt) restart_state with
  | Ok (_, s) =>
      match open_and_read restart_name reads (new_process s ∅) with Ok (x, _) => Ok x.2 | Fault e => Fault e end
  | Fault e => Fault e
  end.


(** The file is checkpointed [chkpts] times, as evicting it does, then two bytes are
    written through handle 0; a new process reads them after a clean stop. *)
Fixpoint checkpoints (n : nat) (p : floc) : st (gfs gdp_logs) unit :=
  match n with
  | O => mret tt
  | S n => _ ← _file_dealloc p; checkpoints n p
  end.

Definition skew_run (chkpts : nat) : res (list (list Z)) :=
  match (checkpoints chkpts 2;; _ ← gdpfs_file_write 0 [9; 9] 2; stop_gdpfs_file) restart_state with
  | Ok (_, s) =>
      match open_and_read restart_name [(2, 2)] (new_process s ∅) with Ok (x, _) => Ok x.2 | Fault e => Fault e end
  | Fault e => Fault e
  end.


Definition restart_file : afile := file_of restart_ents.

Lemma restart_state_rep :
  ∃ fh, files_rep restart_state (set_handle (mkAfs {[ restart_name := restart_file ]} ∅) fh restart_name).
Proof.
  assert (Forall fent_ok restart_ents) as Hok by (repeat constructor; simpl; try done; unfold in_width; lia).
  destruct (law_open (init_gdpfs_file (mkSys restart_logs ∅) []) (mkAfs {[ restart_name := restart_file ]} ∅)
    restart_name restart_file GDPFS_FILE_TYPE_UNKNOWN) as (r & s' & Hrun & fh & _ & _ & _ & Hrep).
  - apply (mount_rep _ _ restart_logs); [done|done|done| | |].
    + exists {[ restart_name := restart_ents ]}. split; [by rewrite map_fmap_singleton|].
      intros g es [<- <-]%lookup_singleton_Some. split; [apply lookup_singleton_eq|done].
    + by rewrite map_size_singleton.
    + unfold log_room, restart_logs. by rewrite map_size_singleton.
  - apply lookup_singleton_eq.
  - done.
  - change (size (∅ : gmap Z file_gname) < 1024)%nat. rewrite map_size_empty. lia.
  - done.
  - exists fh. unfold restart_state. change (FileIface.gdpfs_file_open restart_name)
      with (settle;; open_file (G := gdp_logs) restart_name GDPFS_FILE_TYPE_UNKNOWN 0 false false). by rewrite Hrun.
Qed.

Definition restart_images : list ft_node :=
  [mkNode [mkEnt (mkInterval 0 7 true) 2] [mkSubtreePtr 0 0 None true; mkSubtreePtr 0 0 None true] 0 false].

Lemma restart_state_fits : indices_fit restart_state.
Proof.
  intros g p F Hg HF.
  assert (map_to_list (file_hash restart_state) = [(restart_name, 2%positive)]) as Hh by (vm_compute; reflexivity).
  assert (p = 2%positive) as ->.
  { apply elem_of_map_to_list in Hg. rewrite Hh in Hg. by apply list_elem_of_singleton in Hg as [= _ ->]. }
  assert ((λ F, (figtree_initialized F, match get_dirty (file_figtree F) (last_recno F + 1) (figtree_nodes F) with
    Ok (images, _) => images | Fault _ => [] end)) <$> g_objs restart_state !! 2%positive =
    Some (true, restart_images)) as Ho by (vm_compute; reflexivity).
  rewrite HF in Ho. simpl in Ho. injection Ho as Hi Himg. split; [done|].
  intros images σ Hd. rewrite Hd in Himg. subst images. split; [|done].
  repeat constructor; simpl; unfold in_width, FT_SPLITLIMIT, FT_ORDER; try done; lia.
Qed.

Lemma restart_reads_witness :
  ∃ s1 s2, stop_gdpfs_file restart_state = Ok (tt, s1) ∧
    open_and_read restart_name [(6, 2)] (new_process s1 {[ (restart_name, None) := [Some 0] ]}) =
      Ok ((GDPFS_STAT_OK, [[3; 4; 5; 6; 7; 8]]), s2).
Proof.
  destruct restart_state_rep as [fh Hrep].
  apply (restart_reads restart_state (set_handle (mkAfs {[ restart_name := restart_file ]} ∅) fh restart_name)
    restart_name restart_file {[ (restart_name, None) := [Some 0] ]} [(6, 2)]).
  - reflexivity.
  - exact Hrep.
  - exact restart_state_fits.
  - apply lookup_singleton_eq.
  - exists 2%positive. vm_compute. reflexivity.
  - constructor; [|constructor]. simpl. unfold BYTE_INDEX_MAX. lia.
  - right. reflexivity.
Defined.
