(* ===== verification/FileConc.v ===== *)
(** * References to files under concurrency ([src/gdpfs_file.c])

    [File] runs the calls of the file layer one after the other.  Here they are
    interleaved: the worker threads of FUSE and the event thread of the client
    library open, write and close files and run the callbacks, and a step of a
    thread is a region that holds one of the locks ([open_lock], [rc_lock], the
    [ref_count_lock] and the [index_flush_lock] of a file), or a stretch of code
    between two such regions.  The state is what the management of references
    uses: the objects with their counters, the hash table, the list of recently
    closed files, the handles and the callbacks that have not run.  The data, the
    index and the cache of a file are left out; whether the index is dirty, and
    whether a log can be opened or an append is accepted, are parts of the events.

    The address of a freed object is not used again, so that a use after free is
    always the fault [DanglingPtr]. *)
From S2P Require Import Prelude.
From S2P Require Import Types.
From S2P Require Import FileIface.
From S2P Require Import File.

#[local] Open Scope Z_scope.

(** ** State *)

(** The fields of [gdpfs_file_t] that count. *)
Record cfile := mkCfile {
  cf_key : file_gname;
  cf_ref_count : Z;
  cf_recently_closed : bool;
  cf_outstanding : Z;
  cf_flush : Z;
}.

(** Where a thread is; [p] is the file it has a pointer to. *)
Inductive pc :=
  | Idle
  (* in [open_file], with [open_lock] *)
  | OpenRevive (fh : nat) (p : floc)   (* the flag is cleared; about to lock [rc_lock] *)
  | OpenRef (fh : nat) (p : floc)      (* about to run [_file_ref] *)
  (* in [_file_unref], [_recently_closed_insert] and [_file_dealloc] *)
  | Unref (p : floc)                   (* about to lock [ref_count_lock] *)
  | Insert (p : floc)                  (* the count is 0; about to check the flag *)
  | InsertLock (p : floc)              (* about to lock [rc_lock] *)
  | Dealloc (p : floc)                 (* [p] left the list; about to lock [index_flush_lock] *)
  (* in [do_write] *)
  | WriteRef (fh : nat) (p : floc)     (* about to run [_file_ref] *)
  | WriteCount (fh : nat) (p : floc)   (* about to count an outstanding request *)
  | WriteAppend (fh : nat) (p : floc)  (* about to append *)
  (* in [_file_chkpt_finish] *)
  | FinishCheck (p : floc)             (* about to take the three locks *)
  | FinishDelete (p : floc)            (* has released them; about to remove [p] from the hash table *)
  | FinishFree (p : floc).

Inductive slot := Free | Reserved | Holds (p : floc).

#[export] Instance pc_eq_dec : EqDecision pc.
Proof. solve_decision. Defined.
#[export] Instance slot_eq_dec : EqDecision slot.
Proof. solve_decision. Defined.

Record conc := mkConc {
  c_objs : gmap floc cfile;
  c_next : floc;                       (* no address from here on was used *)
  c_hash : gmap file_gname floc;
  c_list : list floc;                  (* recently closed, most recent first *)
  c_size : Z;
  c_open_lock : option nat;
  c_fhs : list slot;
  c_pending : list callback;
  c_lost : list floc;                  (* references of writes whose append was refused *)
  c_threads : list pc;
}.

Definition init_conc (threads : nat) : conc :=
  mkConc ∅ 1 ∅ [] 0 None (replicate (Z.to_nat MAX_FHS) Free) [] [] (replicate threads Idle).

Inductive event :=
  | EvOpen (t fh : nat) (g : file_gname) (ok : bool)  (* [open_file] reserves [fh] and locks *)
  | EvClose (t fh : nat)
  | EvWrite (t fh : nat)                              (* [do_write] looks [fh] up *)
  | EvCallback (t k : nat)                            (* the [k]-th pending callback starts in [t] *)
  | EvStep (t : nat) (b : bool).                      (* [t] goes on *)

(** ** Operations *)

Definition set_pc (t : nat) (c : pc) (s : conc) : conc :=
  mkConc (c_objs s) (c_next s) (c_hash s) (c_list s) (c_size s) (c_open_lock s) (c_fhs s) (c_pending s)
    (c_lost s) (<[t := c]> (c_threads s)).
Definition set_obj (p : floc) (F : cfile) (s : conc) : conc :=
  mkConc (<[p := F]> (c_objs s)) (c_next s) (c_hash s) (c_list s) (c_size s) (c_open_lock s) (c_fhs s)
    (c_pending s) (c_lost s) (c_threads s).
Definition set_clist (l : list floc) (n : Z) (s : conc) : conc :=
  mkConc (c_objs s) (c_next s) (c_hash s) l n (c_open_lock s) (c_fhs s) (c_pending s) (c_lost s) (c_threads s).
Definition set_lock (o : option nat) (s : conc) : conc :=
  mkConc (c_objs s) (c_next s) (c_hash s) (c_list s) (c_size s) o (c_fhs s) (c_pending s) (c_lost s) (c_threads s).
Definition set_slot (fh : nat) (x : slot) (s : conc) : conc :=
  mkConc (c_objs s) (c_next s) (c_hash s) (c_list s) (c_size s) (c_open_lock s) (<[fh := x]> (c_fhs s))
    (c_pending s) (c_lost s) (c_threads s).
Definition set_callbacks (l : list callback) (s : conc) : conc :=
  mkConc (c_objs s) (c_next s) (c_hash s) (c_list s) (c_size s) (c_open_lock s) (c_fhs s) l (c_lost s) (c_threads s).
Definition add_lost (p : floc) (s : conc) : conc :=
  mkConc (c_objs s) (c_next s) (c_hash s) (c_list s) (c_size s) (c_open_lock s) (c_fhs s) (c_pending s)
    (p :: c_lost s) (c_threads s).
Definition set_chash (h : gmap file_gname floc) (s : conc) : conc :=
  mkConc (c_objs s) (c_next s) h (c_list s) (c_size s) (c_open_lock s) (c_fhs s) (c_pending s) (c_lost s) (c_threads s).
Definition drop_obj (p : floc) (s : conc) : conc :=
  mkConc (delete p (c_objs s)) (c_next s) (c_hash s) (c_list s) (c_size s) (c_open_lock s) (c_fhs s)
    (c_pending s) (c_lost s) (c_threads s).
Definition new_obj (g : file_gname) (s : conc) : conc :=
  mkConc (<[c_next s := mkCfile g 0 false 0 0]> (c_objs s)) (Pos.succ (c_next s)) (<[g := c_next s]> (c_hash s))
    (c_list s) (c_size s) (c_open_lock s) (c_fhs s) (c_pending s) (c_lost s) (c_threads s).

Definition with_ref (n : Z) (F : cfile) : cfile :=
  mkCfile (cf_key F) n (cf_recently_closed F) (cf_outstanding F) (cf_flush F).
Definition with_closed (b : bool) (F : cfile) : cfile :=
  mkCfile (cf_key F) (cf_ref_count F) b (cf_outstanding F) (cf_flush F).
Definition with_outstanding (n : Z) (F : cfile) : cfile :=
  mkCfile (cf_key F) (cf_ref_count F) (cf_recently_closed F) n (cf_flush F).
Definition with_flush (n : Z) (F : cfile) : cfile :=
  mkCfile (cf_key F) (cf_ref_count F) (cf_recently_closed F) (cf_outstanding F) n.

(** Dereferencing [p]. *)
Definition deref {A} (p : floc) (s : conc) (k : cfile → res A) : res A :=
  match c_objs s !! p with Some F => k F | None => Fault DanglingPtr end.

(** [open_file] from [open_lock] on: the file is found, or made if its log can be
    opened; if it is in the list its flag is cleared. *)
Definition open_search (t fh : nat) (g : file_gname) (ok : bool) (s : conc) : res conc :=
  match c_hash s !! g with
  | None =>
      if ok then Ok (set_pc t (OpenRef fh (c_next s)) (set_slot fh Reserved (set_lock (Some t) (new_obj g s))))
      else Ok s
  | Some p =>
      deref p s (λ F,
        let s := set_slot fh Reserved (set_lock (Some t) s) in
        Ok (if cf_recently_closed F then set_pc t (OpenRevive fh p) (set_obj p (with_closed false F) s)
            else set_pc t (OpenRef fh p) s))
  end.

(** The locked part of [_recently_closed_revive].  The links of an element that
    is not in the list are stale. *)
Definition open_revive (t fh : nat) (p : floc) (s : conc) : res conc :=
  deref p s (λ _,
    if decide (p ∈ c_list s)
    then Ok (set_pc t (OpenRef fh p) (set_clist (filter (λ q, q ≠ p) (c_list s)) (c_size s - 1) s))
    else Fault DanglingPtr).

Definition open_ref (t fh : nat) (p : floc) (s : conc) : res conc :=
  deref p s (λ F,
    Ok (set_pc t Idle (set_lock None (set_slot fh (Holds p) (set_obj p (with_ref (wrap32 (cf_ref_count F + 1)) F) s))))).

(** [gdpfs_file_close] gives the handle back, then the reference. *)
Definition close_handle (t fh : nat) (p : floc) (s : conc) : res conc :=
  Ok (set_pc t (Unref p) (set_slot fh Free s)).

Definition unref (t : nat) (p : floc) (s : conc) : res conc :=
  deref p s (λ F,
    let n := wrap32 (cf_ref_count F - 1) in
    Ok (set_pc t (if n =? 0 then Insert p else Idle) (set_obj p (with_ref n F) s))).

Definition insert_assert (t : nat) (p : floc) (s : conc) : res conc :=
  deref p s (λ F, if cf_recently_closed F then Fault AssertFail else Ok (set_pc t (InsertLock p) s)).

(** With [RC_CAP] files in the list, the oldest one leaves it. *)
Definition insert_locked (t : nat) (p : floc) (s : conc) : res conc :=
  deref p s (λ F,
    let s := set_obj p (with_closed true F) s in
    let l := p :: c_list s in
    if negb ((c_size s <=? RC_CAP) && (0 <=? c_size s)) then Fault AssertFail
    else if c_size s =? RC_CAP then
      match last l with
      | None => Fault NullDeref
      | Some oldfile =>
          deref oldfile s (λ O,
            Ok (set_pc t (Dealloc oldfile)
                  (set_obj oldfile (with_closed false O) (set_clist (take (length l - 1) l) (c_size s) s))))
      end
    else Ok (set_pc t Idle (set_clist l (c_size s + 1) s))).

(** [_file_dealloc] once no request is outstanding; it appends a checkpoint if the
    index is dirty. *)
Definition dealloc (t : nat) (p : floc) (dirty : bool) (s : conc) : res conc :=
  deref p s (λ F,
    Ok (set_pc t Idle
      (if dirty then set_callbacks (c_pending s ++ [CbChkptFinish (Some p)]) (set_obj p (with_flush (cf_flush F + 1) F) s)
       else s))).

Definition write_ref (t fh : nat) (p : floc) (s : conc) : res conc :=
  deref p s (λ F, Ok (set_pc t (WriteCount fh p) (set_obj p (with_ref (wrap32 (cf_ref_count F + 1)) F) s))).

Definition write_count (t fh : nat) (p : floc) (s : conc) : res conc :=
  deref p s (λ F, Ok (set_pc t (WriteAppend fh p) (set_obj p (with_outstanding (cf_outstanding F + 1) F) s))).

(** A refused append leaves the reference and the count behind. *)
Definition write_append (t : nat) (p : floc) (ok : bool) (s : conc) : res conc :=
  deref p s (λ _,
    Ok (set_pc t Idle (if ok then set_callbacks (c_pending s ++ [CbFreeFileref p]) s else add_lost p s))).

(** The first locked region of [free_fileref] and of [_file_chkpt_finish]. *)
Definition start_callback (t : nat) (cb : callback) (s : conc) : res conc :=
  match cb with
  | CbFreeFileref p =>
      deref p s (λ F, Ok (set_pc t (Unref p) (set_obj p (with_outstanding (cf_outstanding F - 1) F) s)))
  | CbChkptFinish None => Ok s
  | CbChkptFinish (Some p) =>
      deref p s (λ F,
        let n := cf_flush F - 1 in
        Ok (set_pc t (if n =? 0 then FinishCheck p else Idle) (set_obj p (with_flush n F) s)))
  end.

(** The check under [open_lock], [rc_lock] and [ref_count_lock]. *)
Definition finish_check (t : nat) (p : floc) (s : conc) : res conc :=
  deref p s (λ F,
    Ok (set_pc t (if negb (cf_ref_count F =? 0) || cf_recently_closed F then Idle else FinishDelete p) s)).

Definition finish_delete (t : nat) (p : floc) (s : conc) : res conc :=
  deref p s (λ F, Ok (set_pc t (FinishFree p) (set_chash (delete (cf_key F) (c_hash s)) s))).

Definition finish_free (t : nat) (p : floc) (s : conc) : res conc :=
  deref p s (λ _, Ok (set_pc t Idle (drop_obj p s))).

(** The next region of a thread; [None] if it has to wait. *)
Definition thread_step (t : nat) (b : bool) (s : conc) : option (res conc) :=
  match c_threads s !! t with
  | None | Some Idle => None
  | Some (OpenRevive fh p) => Some (open_revive t fh p s)
  | Some (OpenRef fh p) => Some (open_ref t fh p s)
  | Some (Unref p) => Some (unref t p s)
  | Some (Insert p) => Some (insert_assert t p s)
  | Some (InsertLock p) => Some (insert_locked t p s)
  | Some (Dealloc p) =>
      match c_objs s !! p with
      | Some F => if cf_outstanding F =? 0 then Some (dealloc t p b s) else None
      | None => Some (Fault DanglingPtr)
      end
  | Some (WriteRef fh p) => Some (write_ref t fh p s)
  | Some (WriteCount fh p) => Some (write_count t fh p s)
  | Some (WriteAppend fh p) => Some (write_append t p b s)
  | Some (FinishCheck p) => if c_open_lock s then None else Some (finish_check t p s)
  | Some (FinishDelete p) => Some (finish_delete t p s)
  | Some (FinishFree p) => Some (finish_free t p s)
  end.

(** The handle a thread writes through: the kernel does not release it. *)
Definition writes_to (fh : nat) (c : pc) : bool :=
  match c with
  | WriteRef fh' _ | WriteCount fh' _ | WriteAppend fh' _ => bool_decide (fh = fh')
  | _ => false
  end.

(** One event; [None] if it cannot happen. *)
Definition step (s : conc) (ev : event) : option (res conc) :=
  match ev with
  | EvOpen t fh g ok =>
      if decide (c_threads s !! t = Some Idle ∧ c_fhs s !! fh = Some Free ∧ c_open_lock s = None)
      then Some (open_search t fh g ok s) else None
  | EvClose t fh =>
      match c_fhs s !! fh with
      | Some (Holds p) =>
          if decide (c_threads s !! t = Some Idle ∧ existsb (writes_to fh) (c_threads s) = false)
          then Some (close_handle t fh p s) else None
      | _ => None
      end
  | EvWrite t fh =>
      match c_fhs s !! fh with
      | Some (Holds p) =>
          if decide (c_threads s !! t = Some Idle) then Some (Ok (set_pc t (WriteRef fh p) s)) else None
      | _ => None
      end
  | EvCallback t k =>
      match c_pending s !! k with
      | Some cb =>
          if decide (c_threads s !! t = Some Idle)
          then Some (start_callback t cb (set_callbacks (delete k (c_pending s)) s)) else None
      | None => None
      end
  | EvStep t b => thread_step t b s
  end.

(** A run; [None] if one of the events cannot happen. *)
Fixpoint run (s : conc) (evs : list event) : option (res conc) :=
  match evs with
  | [] => Some (Ok s)
  | ev :: evs =>
      match step s ev with
      | Some (Ok s) => run s evs
      | r => r
      end
  end.

(** ** Races

    [t] opens a file and closes it without being disturbed. *)
Definition conc_name (i : Z) : file_gname := i / 256 :: i mod 256 :: replicate 30 0.
Definition open_evs (t fh : nat) (i : Z) (revived : bool) : list event :=
  EvOpen t fh (conc_name i) true :: replicate (if revived then 2 else 1) (EvStep t true).
Definition close_evs (t fh : nat) : list event := EvClose t fh :: replicate 3 (EvStep t true).
Definition visit (t : nat) (i : Z) : list event := open_evs t 0 i false ++ close_evs t 0.

(** Thread 0 gives back the last reference to a file; before it inserts the file
    into the list, thread 1 opens it. *)
Definition race_insert : list event :=
  open_evs 0 0 1 false ++ [EvClose 0 0; EvStep 0 true] ++ open_evs 1 1 1 false ++ [EvStep 0 true; EvStep 0 true] ++
  [EvClose 1 1; EvStep 1 true; EvStep 1 true].

(** File 1 is written to, and evicted by 256 others; its checkpoint completes in
    thread 2, which finds the file unused; before thread 2 frees it, thread 1 opens
    it. *)
Definition race_free : list event :=
  ((Z.of_nat <$> seq 1 257) ≫= visit 0) ++ [EvStep 0 true] ++
  [EvCallback 2 0; EvStep 2 true] ++ [EvOpen 1 1 (conc_name 1) true] ++ [EvStep 2 true; EvStep 2 true] ++ [EvStep 1 true].

(** The file was opened again, and closed, while its checkpoint was pending:
    between the two regions of the last close the callback frees it. *)
Definition race_close_free : list event :=
  ((Z.of_nat <$> seq 1 257) ≫= visit 0) ++ [EvStep 0 true] ++ open_evs 1 1 1 false ++ [EvClose 1 1; EvStep 1 true] ++
  [EvCallback 2 0; EvStep 2 true; EvStep 2 true; EvStep 2 true] ++ [EvStep 1 true].

Example ex_race_insert : run (init_conc 2) race_insert = Some (Fault AssertFail).
Proof. vm_compute. reflexivity. Qed.
Example ex_race_free : run (init_conc 3) race_free = Some (Fault DanglingPtr).
Proof. vm_compute. reflexivity. Qed.
Example ex_race_close_free : run (init_conc 3) race_close_free = Some (Fault DanglingPtr).
Proof. vm_compute. reflexivity. Qed.

(** ** Counting *)

Definition is_file (p q : floc) : nat := if decide (p = q) then 1 else 0.

(** The counted references of a thread, of a handle and of a callback. *)
Definition pc_refs (p : floc) (c : pc) : nat :=
  match c with Unref q | WriteCount _ q | WriteAppend _ q => is_file p q | _ => 0 end.
Definition slot_refs (p : floc) (x : slot) : nat := match x with Holds q => is_file p q | _ => 0 end.
Definition cb_refs (p : floc) (cb : callback) : nat :=
  match cb with CbFreeFileref q => is_file p q | CbChkptFinish _ => 0 end.

(** The writes whose append has not completed. *)
Definition pc_writes (p : floc) (c : pc) : nat := match c with WriteAppend _ q => is_file p q | _ => 0 end.

(** The checkpoints that will be completed. *)
Definition cb_flushes (p : floc) (cb : callback) : nat :=
  match cb with CbChkptFinish (Some q) => is_file p q | _ => 0 end.

Definition threads_sum (f : pc → nat) (s : conc) : nat := sum_list_with f (c_threads s).

Definition lost_refs (p : floc) (s : conc) : nat := sum_list_with (is_file p) (c_lost s).

(** The references to a file. *)
Definition refs (p : floc) (s : conc) : nat :=
  sum_list_with (slot_refs p) (c_fhs s) + threads_sum (pc_refs p) s + sum_list_with (cb_refs p) (c_pending s) +
  lost_refs p s.
Definition outstanding (p : floc) (s : conc) : nat :=
  threads_sum (pc_writes p) s + sum_list_with (cb_refs p) (c_pending s) + lost_refs p s.
Definition flushes (p : floc) (s : conc) : nat := sum_list_with (cb_flushes p) (c_pending s).

Lemma sum_insert {A} (f : A → nat) (l : list A) i x y :
  l !! i = Some x → (sum_list_with f (<[i := y]> l) + f x = sum_list_with f l + f y)%nat.
Proof.
  revert i. induction l as [|z l IH]; intros [|i] Hi; simplify_eq/=; [lia|]. specialize (IH i Hi). lia.
Qed.

Lemma sum_delete {A} (f : A → nat) (l : list A) i x :
  l !! i = Some x → (sum_list_with f (delete i l) + f x = sum_list_with f l)%nat.
Proof.
  revert i. induction l as [|z l IH]; intros [|i] Hi; simplify_eq/=; [lia|]. specialize (IH i Hi). lia.
Qed.

Lemma sum_at {A} (f : A → nat) (l : list A) i x : l !! i = Some x → (f x ≤ sum_list_with f l)%nat.
Proof. intros Hi. pose proof (sum_delete f l i x Hi). lia. Qed.

Lemma sum_snoc {A} (f : A → nat) (l : list A) x : sum_list_with f (l ++ [x]) = (sum_list_with f l + f x)%nat.
Proof. rewrite sum_list_with_app. simpl. lia. Qed.

Lemma sum_replicate {A} (f : A → nat) n x : f x = 0%nat → sum_list_with f (replicate n x) = 0%nat.
Proof. intros Hx. induction n; simpl; lia. Qed.

Lemma is_file_same p : is_file p p = 1%nat.
Proof. unfold is_file. by rewrite decide_True. Qed.

Lemma is_file_ne p q : p ≠ q → is_file p q = 0%nat.
Proof. intros. unfold is_file. by rewrite decide_False. Qed.

(** ** Reachable states *)

Inductive reachable (threads : nat) : conc → Prop :=
  | reachable_init : reachable threads (init_conc threads)
  | reachable_step s ev s' : reachable threads s → step s ev = Some (Ok s') → reachable threads s'.

(** No pointer is to an address that was not allocated. *)
Definition pc_file (c : pc) : option floc :=
  match c with
  | Idle => None
  | OpenRevive _ p | OpenRef _ p | Unref p | Insert p | InsertLock p | Dealloc p
  | WriteRef _ p | WriteCount _ p | WriteAppend _ p | FinishCheck p | FinishDelete p | FinishFree p => Some p
  end.
Definition slot_file (x : slot) : option floc := match x with Holds p => Some p | _ => None end.
Definition cb_file (cb : callback) : option floc :=
  match cb with CbFreeFileref p => Some p | CbChkptFinish o => o end.

Definition below (n : floc) (o : option floc) : Prop := from_option (λ p, p < n)%positive True o.

Record allocated (s : conc) : Prop := {
  al_objs : ∀ p F, c_objs s !! p = Some F → (p < c_next s)%positive;
  al_hash : ∀ g p, c_hash s !! g = Some p → (p < c_next s)%positive;
  al_list : Forall (λ p, p < c_next s)%positive (c_list s);
  al_fhs : Forall (λ x, below (c_next s) (slot_file x)) (c_fhs s);
  al_pending : Forall (λ cb, below (c_next s) (cb_file cb)) (c_pending s);
  al_lost : Forall (λ p, p < c_next s)%positive (c_lost s);
  al_threads : Forall (λ c, below (c_next s) (pc_file c)) (c_threads s);
}.

(** The counters of an object are right. *)
Definition counted (s : conc) : Prop :=
  ∀ p F, c_objs s !! p = Some F →
    cf_ref_count F = wrap32 (Z.of_nat (refs p s)) ∧
    cf_outstanding F = Z.of_nat (outstanding p s) ∧
    cf_flush F = Z.of_nat (flushes p s).

(** The cases of a step that does not fault. *)
Ltac step_cases H :=
  unfold step, thread_step, open_search, open_revive, open_ref, close_handle, unref, insert_assert, insert_locked,
    dealloc, write_ref, write_count, write_append, start_callback, finish_check, finish_delete, finish_free,
    deref in H;
  repeat case_match; simplify_eq;
  repeat match goal with H : _ ∧ _ |- _ => destruct H end.

Ltac conc_simpl :=
  cbn [c_objs c_next c_hash c_list c_size c_open_lock c_fhs c_pending c_lost c_threads
    set_pc set_obj set_clist set_lock set_slot set_callbacks add_lost set_chash drop_obj new_obj] in *.

(** What a step does to the sum of [f] over the threads, the handles or the
    callbacks. *)
Ltac sum_threads f :=
  match goal with
  | Ht : c_threads ?s !! ?t = Some ?c |- context [sum_list_with f (<[?t := ?c']> (c_threads ?s))] =>
      pose proof (sum_insert f (c_threads s) t c c' Ht)
  | _ => idtac
  end.
Ltac sum_fhs f :=
  match goal with
  | Ht : c_fhs ?s !! ?t = Some ?c |- context [sum_list_with f (<[?t := ?c']> (c_fhs ?s))] =>
      pose proof (sum_insert f (c_fhs s) t c c' Ht)
  | _ => idtac
  end.
Ltac sum_pending f :=
  match goal with
  | Ht : c_pending ?s !! ?k = Some ?c |- context [sum_list_with f (delete ?k (c_pending ?s))] =>
      pose proof (sum_delete f (c_pending s) k c Ht)
  | |- context [sum_list_with f (c_pending ?s ++ [?c])] => rewrite !(sum_snoc f (c_pending s) c)
  | _ => idtac
  end.

Ltac count_simpl := cbn [pc_refs pc_writes slot_refs cb_refs cb_flushes sum_list_with] in *.

Ltac count_sums :=
  let q := match goal with |- context [refs ?q _] => q end in
  unfold refs, outstanding, flushes, threads_sum, lost_refs in *; conc_simpl;
  sum_threads (pc_refs q); sum_threads (pc_writes q); sum_fhs (slot_refs q); sum_pending (cb_refs q); sum_pending (cb_flushes q);
  count_simpl.

Lemma wrap32_step z d : wrap32 (wrap32 z + d) = wrap32 (z + d).
Proof. rewrite !wrap32_eq. by rewrite Zplus_mod_idemp_l. Qed.
Lemma wrap32_step_back z d : wrap32 (wrap32 z - d) = wrap32 (z - d).
Proof. rewrite !wrap32_eq. by rewrite Zminus_mod_idemp_l. Qed.

(** The counters of the objects a step has read. *)
Ltac use_counted Hc :=
  repeat match goal with Ho : c_objs _ !! ?p = Some ?F |- _ =>
    lazymatch goal with Hf : cf_flush F = _ |- _ => fail | _ => idtac end;
    destruct (Hc p F Ho) as (? & ? & ?) end.

(** The object that a step wrote, or another one. *)
Ltac lookup_cases :=
  repeat match goal with
  | Hq : <[?p := _]> _ !! ?q = Some _ |- _ =>
      destruct (decide (q = p)) as [->|?]; [rewrite lookup_insert_eq in Hq|rewrite lookup_insert_ne in Hq by congruence]
  | Hq : delete ?p _ !! ?q = Some _ |- _ => apply lookup_delete_Some in Hq as [? Hq]
  end; simplify_eq.

Ltac is_file_cases :=
  repeat match goal with
  | |- context [is_file ?p ?p] => rewrite (is_file_same p) in *
  | H : context [is_file ?p ?p] |- _ => rewrite (is_file_same p) in *
  | |- context [is_file ?p ?q] => destruct (decide (p = q)) as [->|?]; [|rewrite (is_file_ne p q) in * by done]
  | H : context [is_file ?p ?q] |- _ => destruct (decide (p = q)) as [->|?]; [|rewrite (is_file_ne p q) in * by done]
  end.

Lemma sum_zero {A} (f : A → nat) (l : list A) : Forall (λ x, f x = 0%nat) l → sum_list_with f l = 0%nat.
Proof. induction 1; simpl; lia. Qed.

Lemma is_file_below n p : (p < n)%positive → is_file n p = 0%nat.
Proof. intros. apply is_file_ne. lia. Qed.

Lemma below_counts n :
  (∀ x, below n (slot_file x) → slot_refs n x = 0%nat) ∧
  (∀ c, below n (pc_file c) → pc_refs n c = 0%nat ∧ pc_writes n c = 0%nat) ∧
  (∀ cb, below n (cb_file cb) → cb_refs n cb = 0%nat ∧ cb_flushes n cb = 0%nat).
Proof.
  split_and!.
  - intros []; simpl; auto using is_file_below.
  - intros []; simpl; auto using is_file_below.
  - intros [p|[p|]]; simpl; auto using is_file_below.
Qed.

(** Nothing refers to a new object. *)
Lemma fresh_counts s : allocated s →
  refs (c_next s) s = 0%nat ∧ outstanding (c_next s) s = 0%nat ∧ flushes (c_next s) s = 0%nat.
Proof.
  intros []. destruct (below_counts (c_next s)) as (Hfhs & Hpc & Hcb).
  unfold refs, outstanding, flushes, threads_sum, lost_refs.
  rewrite !(sum_zero (slot_refs _)), !(sum_zero (pc_refs _)), !(sum_zero (pc_writes _)), !(sum_zero (cb_refs _)),
    !(sum_zero (cb_flushes _)), !(sum_zero (is_file _)); [done|..];
    (eapply Forall_impl; [eassumption|]); intros x Hx; first [by apply Hfhs|by apply Hpc|by apply Hcb|by apply is_file_below].
Qed.

(** Handles are filled by the thread that reserved them, and not given back while
    a thread writes through them. *)
Definition opens (c : pc) : option nat :=
  match c with OpenRevive fh _ | OpenRef fh _ => Some fh | _ => None end.
Definition writes (c : pc) : option (nat * floc) :=
  match c with WriteRef fh p | WriteCount fh p | WriteAppend fh p => Some (fh, p) | _ => None end.

Record slots_ok (s : conc) : Prop := {
  so_opens t c fh : c_threads s !! t = Some c → opens c = Some fh → c_fhs s !! fh = Some Reserved;
  so_one t1 t2 c1 c2 fh : c_threads s !! t1 = Some c1 → c_threads s !! t2 = Some c2 →
    opens c1 = Some fh → opens c2 = Some fh → t1 = t2;
  so_writes t c fh p : c_threads s !! t = Some c → writes c = Some (fh, p) → c_fhs s !! fh = Some (Holds p);
}.

Ltac solve_counted :=
  repeat match goal with
  | |- _ ∧ _ => split
  | Hr : cf_ref_count ?F = wrap32 _ |- context [cf_ref_count ?F] =>
      rewrite Hr, ?wrap32_step, ?wrap32_step_back; f_equal; lia
  | |- 0 = wrap32 (Z.of_nat ?n) => replace n with 0%nat by lia; reflexivity
  | |- _ => lia
  end.

Lemma counted_step s ev s' :
  step s ev = Some (Ok s') → allocated s → slots_ok s → counted s → counted s'.
Proof.
  intros Hs Ha Hsl Hc. pose proof (fresh_counts s Ha) as (? & ? & ?).
  step_cases Hs; intros q F' Hq; use_counted Hc; conc_simpl; lookup_cases; use_counted Hc;
    repeat match goal with Ht : c_threads _ !! _ = Some (OpenRef _ _) |- _ =>
      pose proof (so_opens _ Hsl _ _ _ Ht eq_refl); revert Ht end; intros;
    count_sums; unfold with_ref, with_closed, with_outstanding, with_flush;
    cbn [cf_ref_count cf_outstanding cf_flush] in *; is_file_cases; solve_counted.
Qed.

Lemma allocated_grows s : allocated s →
  Forall (λ p, p < Pos.succ (c_next s))%positive (c_list s) ∧
  Forall (λ x, below (Pos.succ (c_next s)) (slot_file x)) (c_fhs s) ∧
  Forall (λ cb, below (Pos.succ (c_next s)) (cb_file cb)) (c_pending s) ∧
  Forall (λ p, p < Pos.succ (c_next s))%positive (c_lost s) ∧
  Forall (λ c, below (Pos.succ (c_next s)) (pc_file c)) (c_threads s).
Proof.
  intros []. assert (∀ o, below (c_next s) o → below (Pos.succ (c_next s)) o) as Hm by (intros []; simpl; lia).
  split_and!; (eapply Forall_impl; [eassumption|]); simpl; auto; intros; lia.
Qed.

Lemma allocated_step s ev s' : step s ev = Some (Ok s') → allocated s → allocated s'.
Proof.
  intros Hs Ha. pose proof Ha as [Ho Hh Hl Hf Hp Hlo Ht].
  pose proof (allocated_grows s Ha) as (Hl' & Hf' & Hp' & Hlo' & Ht').
  assert (∀ fh p, c_fhs s !! fh = Some (Holds p) → (p < c_next s)%positive) as Hslot
    by (intros fh p Hx; by eapply Forall_lookup_1 in Hx; [|exact Hf]).
  step_cases Hs; split; conc_simpl; try done.
  all: try (by intros; lookup_cases; eauto; try lia; eapply Pos.lt_lt_succ; eauto).
  all: repeat first [apply Forall_insert|apply Forall_delete|apply Forall_take|apply Forall_app; split
                    |apply Forall_cons; split|apply Forall_nil]; simpl; eauto; try lia.
  - apply Forall_forall. intros q [_ Hq]%list_elem_of_filter. by eapply Forall_forall in Hq; [|exact Hl].
  - lookup_cases; eauto.
Qed.

Lemma writes_to_none fh l t c p :
  existsb (writes_to fh) l = false → l !! t = Some c → writes c ≠ Some (fh, p).
Proof.
  intros He Ht Hw. assert (existsb (writes_to fh) l = true); [|congruence].
  apply existsb_exists. exists c. split; [by eapply list_elem_of_In, list_elem_of_lookup_2|].
  destruct c; simplify_eq/=; by apply bool_decide_eq_true.
Qed.

(** The thread that moved, or another one; the handle that changed, or another. *)
Ltac list_cases :=
  repeat match goal with
  | H : <[_ := _]> (c_threads _) !! _ = Some _ |- _ => apply list_lookup_insert_Some in H as [(? & ? & _)|[? H]]
  end; subst.
Ltac slot_cases :=
  match goal with
  | |- <[?i := _]> (c_fhs ?s) !! ?j = Some _ =>
      destruct (decide (i = j)) as [?|?]; subst;
      [try (rewrite list_lookup_insert_eq; [done|by eapply lookup_lt_Some])|rewrite list_lookup_insert_ne by done]
  | _ => idtac
  end.

(** The handles of the threads at hand. *)
Ltac thread_slots Hsl :=
  repeat match goal with
  | Ho : opens ?c = Some ?fh, Ht : c_threads ?s !! ?t = Some ?c |- _ =>
      lazymatch goal with _ : c_fhs s !! fh = Some Reserved |- _ => fail | _ => idtac end;
      pose proof (so_opens _ Hsl _ _ _ Ht Ho)
  | Ho : writes ?c = Some (?fh, ?p), Ht : c_threads ?s !! ?t = Some ?c |- _ =>
      lazymatch goal with _ : c_fhs s !! fh = Some (Holds p) |- _ => fail | _ => idtac end;
      pose proof (so_writes _ Hsl _ _ _ _ Ht Ho)
  end; simplify_eq.

Lemma slots_step s ev s' : step s ev = Some (Ok s') → slots_ok s → slots_ok s'.
Proof.
  intros Hs Hsl. pose proof Hsl as [Hopen Hone Hwrite].
  step_cases Hs; split; conc_simpl; try done;
    intros; list_cases; simplify_eq/=; slot_cases; eauto; try done; thread_slots Hsl.
  - exfalso. by eapply writes_to_none.
  - match goal with Ht : c_threads s !! ?u = Some (OpenRef ?i _), Hv : c_threads s !! ?v = Some _ |- _ =>
      assert (u = v) by (by eapply (Hone u v _ _ i)) end. congruence.
  - match goal with Ht : c_threads s !! _ = Some (OpenRef _ _) |- _ => pose proof (Hopen _ _ _ Ht eq_refl) end.
    congruence.
Qed.

Lemma init_allocated n : allocated (init_conc n).
Proof.
  unfold init_conc. generalize (Z.to_nat MAX_FHS) as m. intros m.
  split; conc_simpl; try done; try (by apply Forall_nil); by apply Forall_replicate.
Qed.
Lemma init_slots n : slots_ok (init_conc n).
Proof.
  unfold init_conc. generalize (Z.to_nat MAX_FHS) as m. intros m. split; conc_simpl; intros.
  all: repeat match goal with H : replicate _ _ !! _ = Some _ |- _ => apply lookup_replicate in H as [-> ?] end; done.
Qed.
Lemma init_counted n : counted (init_conc n).
Proof. by intros p F HF. Qed.

Lemma reachable_ok n s : reachable n s → allocated s ∧ slots_ok s ∧ counted s.
Proof.
  induction 1 as [|s ev s' _ (Ha & Hsl & Hc) Hs].
  - split_and!; [apply init_allocated|apply init_slots|apply init_counted].
  - split_and!; [by eapply allocated_step|by eapply slots_step|by eapply counted_step].
Qed.

(** C11: The counters are exact in every interleaving.  In every state that any
    number of threads can reach, racing or not, the reference count of a file
    that was not freed is the number of the handles, threads, pending appends and
    refused writes that hold a reference (modulo 2^32), its outstanding requests
    are the writes whose append has not completed, and its pending flushes the
    checkpoints that have not. *)
Theorem conc_counters_exact n s p F :
  reachable n s → c_objs s !! p = Some F →
  cf_ref_count F = wrap32 (Z.of_nat (refs p s)) ∧
  cf_outstanding F = Z.of_nat (outstanding p s) ∧
  cf_flush F = Z.of_nat (flushes p s).
Proof. intros Hr. apply (reachable_ok _ _ Hr). Qed.

Lemma run_reachable n evs : ∀ s s', reachable n s → run s evs = Some (Ok s') → reachable n s'.
Proof.
  induction evs as [|ev evs IH]; intros s s' Hr; simpl; [by intros [= <-]|].
  destruct (step s ev) as [[s1|f]|] eqn:E; try done. apply IH. by eapply reachable_step.
Qed.

Definition step_of (t : nat) : event := EvStep t true.

Lemma conc_counters_exact_witness :
  ∃ s F, run (init_conc 2) (open_evs 0 0 1 false ++ [EvWrite 0 0; step_of 0; step_of 0; step_of 0; EvClose 0 0]) = Some (Ok s) ∧
    c_objs s !! 1%positive = Some F ∧ cf_ref_count F = wrap32 2 ∧
    cf_ref_count F = wrap32 (Z.of_nat (refs 1 s)) ∧ cf_outstanding F = Z.of_nat (outstanding 1 s) ∧
    cf_flush F = Z.of_nat (flushes 1 s).
Proof.
  set (evs := open_evs 0 0 1 false ++ _).
  destruct (run (init_conc 2) evs) as [[s|]|] eqn:E; try (exfalso; revert E; vm_compute; discriminate).
  destruct (c_objs s !! 1%positive) as [F|] eqn:EF;
    [|exfalso; revert EF; assert (Some (Ok s) = run (init_conc 2) evs) as Hs by done; revert Hs; vm_compute; intros [= ->]; discriminate].
  exists s, F. split; [done|]. split; [done|].
  split; [|apply (conc_counters_exact 2 s 1 F); [eapply run_reachable; [apply reachable_init|exact E]|exact EF]].
  revert EF. assert (Some (Ok s) = run (init_conc 2) evs) as Hs by done. revert Hs. vm_compute. intros [= ->]. simpl.
  intros [= <-]. reflexivity.
Defined.

