(* ===== verification/FileConcSafe.v ===== *)
(** * Disciplined interleavings of references to files

    The races of [FileConc] come from regions that are not exclusive.  This file
    says which interleavings avoid them, and proves that all of these are free of
    faults. *)
From S2P Require Import Prelude.
From S2P Require Import Types.
From S2P Require Import FileIface.
From S2P Require Import File.
From S2P Require Import FileConc.

#[local] Open Scope Z_scope.

(** ** A discipline that excludes the races

    Opening a file, giving back its last reference and inserting it into the list,
    and freeing it after a checkpoint, are regions that the code means to be
    exclusive: the discipline lets a thread enter one on a file only if no other
    thread is in one on the same file.  Beyond that, a file is freed only if no
    other thread or callback is about to look at it, and a file that is being
    revived is not evicted.  Everything else is interleaved freely. *)
Definition in_region (p : floc) (c : pc) : bool :=
  match c with
  | OpenRevive _ q | OpenRef _ q | Insert q | InsertLock q | FinishDelete q | FinishFree q => bool_decide (p = q)
  | _ => false
  end.
Definition late (p : floc) (c : pc) : bool :=
  match c with Dealloc q | FinishCheck q => bool_decide (p = q) | _ => false end.
Definition reviving (p : floc) (c : pc) : bool :=
  match c with OpenRevive _ q => bool_decide (p = q) | _ => false end.

Definition no_other (f : pc → bool) (t : nat) (s : conc) : bool := forallb (λ c, negb (f c)) (delete t (c_threads s)).

(** The counters do not wrap around. *)
Definition few_refs (s : conc) : bool :=
  Z.of_nat (length (c_fhs s) + length (c_threads s) + length (c_pending s) + length (c_lost s)) <? 4294967296.

Definition disciplined (s : conc) (ev : event) : bool :=
  few_refs s &&
  match ev with
  | EvOpen t _ g _ => match c_hash s !! g with Some p => no_other (in_region p) t s | None => true end
  | EvStep t _ =>
      match c_threads s !! t with
      | Some (Unref p) =>
          match c_objs s !! p with
          | Some F => negb (cf_ref_count F =? 1) || no_other (in_region p) t s
          | None => true
          end
      | Some (InsertLock p) =>
          match last (c_list s) with
          | Some oldfile => negb (c_size s =? RC_CAP) || no_other (reviving oldfile) t s
          | None => true
          end
      | Some (FinishCheck p) =>
          match c_objs s !! p with
          | Some F =>
              negb (cf_ref_count F =? 0) || cf_recently_closed F ||
              no_other (λ c, in_region p c || late p c) t s && (cf_flush F =? 0)
          | None => true
          end
      | _ => true
      end
  | _ => true
  end.

(** A run in which every event is disciplined. *)
Fixpoint disciplined_run (s : conc) (evs : list event) : bool :=
  match evs with
  | [] => true
  | ev :: evs =>
      disciplined s ev && match step s ev with Some (Ok s) => disciplined_run s evs | _ => true end
  end.

(** ** The invariant of disciplined runs *)

Definition pc_revive (p : floc) (c : pc) : nat := match c with OpenRevive _ q => is_file p q | _ => 0 end.
Definition pc_openref (p : floc) (c : pc) : nat := match c with OpenRef _ q => is_file p q | _ => 0 end.
Definition pc_insert (p : floc) (c : pc) : nat := match c with Insert q | InsertLock q => is_file p q | _ => 0 end.
Definition pc_finish (p : floc) (c : pc) : nat := match c with FinishDelete q | FinishFree q => is_file p q | _ => 0 end.
Definition pc_free (p : floc) (c : pc) : nat := match c with FinishFree q => is_file p q | _ => 0 end.
Definition pc_late (p : floc) (c : pc) : nat := match c with Dealloc q | FinishCheck q => is_file p q | _ => 0 end.

Definition reviving_n (p : floc) (s : conc) : nat := threads_sum (pc_revive p) s.
Definition opening_n (p : floc) (s : conc) : nat := threads_sum (pc_openref p) s.
Definition inserting_n (p : floc) (s : conc) : nat := threads_sum (pc_insert p) s.
Definition finishing_n (p : floc) (s : conc) : nat := threads_sum (pc_finish p) s.
Definition freeing_n (p : floc) (s : conc) : nat := threads_sum (pc_free p) s.
Definition late_n (p : floc) (s : conc) : nat := threads_sum (pc_late p) s.
Definition listed (p : floc) (s : conc) : nat := sum_list_with (is_file p) (c_list s).

Definition flag (p : floc) (s : conc) : nat :=
  match c_objs s !! p with Some F => if cf_recently_closed F then 1 else 0 | None => 0 end.

(** What holds of one file. *)
Record file_safe (s : conc) (p : floc) : Prop := {
  fs_region : (reviving_n p s + opening_n p s + inserting_n p s + finishing_n p s ≤ 1)%nat;
  fs_flag : (flag p s + reviving_n p s = listed p s)%nat;
  fs_list : (listed p s ≤ 1)%nat;
  fs_listed : (0 < listed p s → refs p s = 0)%nat;
  fs_insert : (0 < inserting_n p s → refs p s = 0 ∧ listed p s = 0)%nat;
  fs_opening : (0 < opening_n p s → listed p s = 0)%nat;
  fs_finish : (0 < finishing_n p s → refs p s = 0 ∧ listed p s = 0 ∧ late_n p s = 0 ∧ flushes p s = 0)%nat;
  fs_dead : c_objs s !! p = None →
    (refs p s = 0 ∧ opening_n p s = 0 ∧ reviving_n p s = 0 ∧ inserting_n p s = 0 ∧
     finishing_n p s = 0 ∧ late_n p s = 0 ∧ flushes p s = 0)%nat;
}.

Record hash_safe (s : conc) : Prop := {
  hs_live g p : c_hash s !! g = Some p → ∃ F, c_objs s !! p = Some F ∧ cf_key F = g;
  hs_free g p : c_hash s !! g = Some p → freeing_n p s = 0%nat;
}.

Record safe (s : conc) : Prop := {
  sf_file p : file_safe s p;
  sf_hash : hash_safe s;
  sf_size : c_size s = Z.of_nat (length (c_list s));
  sf_cap : c_size s ≤ RC_CAP;
}.

(** ** Lists of files *)

Lemma listed_elem l p : (0 < sum_list_with (is_file p) l)%nat ↔ p ∈ l.
Proof.
  induction l as [|q l IH]; simpl; [split; [lia|by intros ?%elem_of_nil]|].
  rewrite elem_of_cons, <-IH. unfold is_file at 1. case_decide; subst; naive_solver lia.
Qed.

Lemma listed_filter l p q :
  sum_list_with (is_file q) (filter (λ r, r ≠ p) l) = if decide (q = p) then 0%nat else sum_list_with (is_file q) l.
Proof.
  induction l as [|r l IH]; [by case_decide|]. rewrite filter_cons. cbn [sum_list_with].
  unfold is_file at 2. repeat case_decide; subst; simpl; rewrite ?IH; try done; unfold is_file; repeat case_decide; simplify_eq; lia.
Qed.

Lemma length_filter l p : (length (filter (λ r, r ≠ p) l) + sum_list_with (is_file p) l = length l)%nat.
Proof.
  induction l as [|r l IH]; [done|]. rewrite filter_cons. cbn [sum_list_with]. unfold is_file at 1.
  repeat case_decide; subst; simpl; try done; lia.
Qed.

Lemma listed_evict l p q :
  last l = Some p → sum_list_with (is_file q) (take (length l - 1) l) = (sum_list_with (is_file q) l - is_file q p)%nat.
Proof.
  intros [l' ->]%last_Some. rewrite length_app, Nat.add_sub, take_app_length, sum_snoc. lia.
Qed.

(** No other thread counts. *)
Lemma no_other_sum f g t c s :
  c_threads s !! t = Some c → no_other f t s = true → (∀ c, f c = false → g c = 0%nat) → threads_sum g s = g c.
Proof.
  intros Ht Hno Hfg. unfold threads_sum. rewrite <-(sum_delete g _ t c Ht), sum_zero; [done|].
  unfold no_other in Hno. apply Forall_forall. intros c' Hc'. rewrite forallb_forall in Hno.
  apply Hfg, negb_true_iff, Hno. by apply list_elem_of_In.
Qed.

Lemma sum_le_length {A} (f : A → nat) l : (∀ x, f x ≤ 1)%nat → (sum_list_with f l ≤ length l)%nat.
Proof. intros Hf. induction l as [|x l IH]; simpl; [lia|]. specialize (Hf x). lia. Qed.

Lemma few_refs_bound s p : few_refs s = true → Z.of_nat (refs p s) < 4294967296.
Proof.
  unfold few_refs, refs, threads_sum, lost_refs. intros Hf.
  assert (∀ q, is_file p q ≤ 1)%nat as Hi by (intros q; unfold is_file; case_decide; lia).
  assert ((∀ x, slot_refs p x ≤ 1) ∧ (∀ x, pc_refs p x ≤ 1) ∧ (∀ x, cb_refs p x ≤ 1))%nat as (H1 & H2 & H3).
  { split_and!; intros []; simpl; auto. }
  pose proof (sum_le_length _ (c_fhs s) H1). pose proof (sum_le_length _ (c_threads s) H2).
  pose proof (sum_le_length _ (c_pending s) H3). pose proof (sum_le_length _ (c_lost s) Hi).
  lia.
Qed.

(** ** No fault in a safe state *)

Lemma file_alive s p : file_safe s p →
  (0 < refs p s ∨ 0 < opening_n p s ∨ 0 < reviving_n p s ∨ 0 < inserting_n p s ∨ 0 < finishing_n p s ∨
   0 < late_n p s ∨ 0 < flushes p s ∨ 0 < listed p s)%nat → is_Some (c_objs s !! p).
Proof.
  intros []. destruct (c_objs s !! p) as [F|] eqn:E; [by eexists|]. unfold flag in *. rewrite E in *.
  specialize (fs_dead0 eq_refl). lia.
Qed.

Lemma refs_thread s t c p : c_threads s !! t = Some c → (pc_refs p c ≤ refs p s)%nat.
Proof. intros Ht. pose proof (sum_at (pc_refs p) _ _ _ Ht). unfold refs, threads_sum. lia. Qed.
Lemma refs_slot s fh x p : c_fhs s !! fh = Some x → (slot_refs p x ≤ refs p s)%nat.
Proof. intros Ht. pose proof (sum_at (slot_refs p) _ _ _ Ht). unfold refs. lia. Qed.
Lemma refs_callback s k cb p : c_pending s !! k = Some cb → (cb_refs p cb ≤ refs p s)%nat.
Proof. intros Ht. pose proof (sum_at (cb_refs p) _ _ _ Ht). unfold refs. lia. Qed.

(** The file a thread has a pointer to is there. *)
Lemma thread_alive s t c p : safe s → slots_ok s → c_threads s !! t = Some c → pc_file c = Some p →
  is_Some (c_objs s !! p).
Proof.
  intros [Hf _ _ _] Hsl Ht Hp. apply (file_alive s p (Hf p)).
  pose proof (refs_thread s t c p Ht). unfold opening_n, reviving_n, inserting_n, finishing_n, late_n, threads_sum.
  pose proof (sum_at (pc_openref p) _ _ _ Ht). pose proof (sum_at (pc_revive p) _ _ _ Ht).
  pose proof (sum_at (pc_insert p) _ _ _ Ht). pose proof (sum_at (pc_finish p) _ _ _ Ht).
  pose proof (sum_at (pc_late p) _ _ _ Ht).
  destruct c; simplify_eq/=; rewrite ?is_file_same in *; try lia.
  pose proof (refs_slot s fh _ p (so_writes _ Hsl _ _ _ _ Ht eq_refl)) as Hr. simpl in Hr. rewrite is_file_same in Hr. lia.
Qed.

Lemma deref_alive {A} s p (k : cfile → res A) : is_Some (c_objs s !! p) → ∃ F, c_objs s !! p = Some F ∧ deref p s k = k F.
Proof. intros [F HF]. exists F. unfold deref. by rewrite HF. Qed.

Lemma safe_insert s t p : safe s → c_threads s !! t = Some (InsertLock p) → is_Some (c_objs s !! p) →
  ∃ s', insert_locked t p s = Ok s'.
Proof.
  intros Hs Ht Hp. pose proof Hs as [Hf _ Hsize Hcap]. unfold insert_locked.
  destruct (deref_alive s p (λ F, insert_locked t p s) Hp) as (F & HF & _). unfold deref at 1. rewrite HF. conc_simpl.
  replace (negb ((c_size s <=? RC_CAP) && (0 <=? c_size s))) with false by lia.
  destruct (c_size s =? RC_CAP) eqn:E; [|by eexists].
  destruct (last (p :: c_list s)) as [old|] eqn:El; [|by apply last_None in El].
  assert (is_Some (<[p := with_closed true F]> (c_objs s) !! old)) as [O HO].
  { destruct (decide (old = p)) as [->|Hne]; [rewrite lookup_insert_eq; by eexists|].
    rewrite lookup_insert_ne by done. apply (file_alive s old (Hf old)). do 7 right. apply listed_elem.
    apply last_Some_elem_of in El. by apply elem_of_cons in El as [->|?]. }
  unfold deref. conc_simpl. rewrite HO. by eexists.
Qed.

Lemma step_no_fault s ev r : safe s → slots_ok s → step s ev = Some r → ∃ s', r = Ok s'.
Proof.
  intros Hs Hsl. pose proof Hs as [Hf [Hlive _] Hsize Hcap].
  destruct ev as [t fh g ok|t fh|t fh|t k|t b]; simpl.
  - case_decide; [|done]. intros [= <-]. unfold open_search. destruct (c_hash s !! g) as [p|] eqn:Hg.
    + destruct (Hlive _ _ Hg) as (F & HF & _). unfold deref. rewrite HF. by eexists.
    + destruct ok; by eexists.
  - destruct (c_fhs s !! fh) as [[| |p]|]; try done. case_decide; [|done]. intros [= <-]. by eexists.
  - destruct (c_fhs s !! fh) as [[| |p]|]; try done. case_decide; [|done]. intros [= <-]. by eexists.
  - destruct (c_pending s !! k) as [cb|] eqn:Hk; [|done]. case_decide; [|done]. intros [= <-].
    destruct cb as [p|[p|]]; simpl; [| |by eexists].
    + pose proof (refs_callback s k _ p Hk) as Hr. simpl in Hr. rewrite is_file_same in Hr.
      destruct (file_alive s p (Hf p)) as [F HF]; [lia|]. unfold deref. conc_simpl. rewrite HF. by eexists.
    + pose proof (sum_at (cb_flushes p) _ _ _ Hk) as Hr. simpl in Hr. rewrite is_file_same in Hr.
      destruct (file_alive s p (Hf p)) as [F HF]; [unfold flushes; lia|]. unfold deref. conc_simpl. rewrite HF. by eexists.
  - unfold thread_step. destruct (c_threads s !! t) as [c|] eqn:Ht; [|done].
    pose proof (λ p, thread_alive s t c p Hs Hsl Ht) as Halive.
    destruct c as [|fh p|fh p|p|p|p|p|fh p|fh p|fh p|p|p|p]; try done;
      destruct (Halive p eq_refl) as [F HF]; try rewrite HF.
    6: { case_match; [|done]. intros [= <-]. unfold dealloc, deref. rewrite HF. by eexists. }
    5: { intros [= <-]. apply safe_insert; [done..|by eexists]. }
    8: { destruct (c_open_lock s); [done|]. intros [= <-]. unfold finish_check, deref. rewrite HF. by eexists. }
    all: intros [= <-]; unfold open_revive, open_ref, unref, insert_assert, write_ref, write_count, write_append,
           finish_delete, finish_free, deref; rewrite HF; try by eexists.
    + rewrite decide_True; [by eexists|]. apply listed_elem.
      pose proof (fs_flag _ _ (Hf p)) as Hl. pose proof (sum_at (pc_revive p) _ _ _ Ht) as Hr.
      simpl in Hr. rewrite is_file_same in Hr. unfold reviving_n, threads_sum in Hl. unfold listed in Hl. lia.
    + pose proof (fs_insert _ _ (Hf p)) as Hi. pose proof (fs_flag _ _ (Hf p)) as Hl.
      pose proof (sum_at (pc_insert p) _ _ _ Ht) as Hr. simpl in Hr. rewrite is_file_same in Hr.
      unfold inserting_n, threads_sum in Hi. unfold flag in Hl. rewrite HF in Hl.
      destruct (cf_recently_closed F); [lia|by eexists].
Qed.

(** ** Disciplined steps keep the state safe *)

Definition region_n (p : floc) (s : conc) : nat :=
  reviving_n p s + opening_n p s + inserting_n p s + finishing_n p s.

Lemma no_other_region p t c s :
  c_threads s !! t = Some c → no_other (in_region p) t s = true → pc_file c = None ∨ in_region p c = false →
  region_n p s = 0%nat.
Proof.
  intros Ht Hno Hc. unfold region_n, reviving_n, opening_n, inserting_n, finishing_n.
  assert (∀ d, in_region p d = false →
    pc_revive p d = 0%nat ∧ pc_openref p d = 0%nat ∧ pc_insert p d = 0%nat ∧ pc_finish p d = 0%nat) as Hd.
  { intros d. destruct d; simpl; try done; intros Hq; apply bool_decide_eq_false in Hq; by rewrite is_file_ne. }
  rewrite !(no_other_sum _ _ _ _ _ Ht Hno); try (intros d Hq; by apply Hd in Hq as (? & ? & ? & ?)).
  destruct Hc as [Hc|Hc]; [by destruct c|]. apply Hd in Hc. lia.
Qed.

Lemma ref_exact s p F : few_refs s = true → counted s → c_objs s !! p = Some F → cf_ref_count F = Z.of_nat (refs p s).
Proof.
  intros Hfew Hc HF. destruct (Hc p F HF) as [-> _]. pose proof (few_refs_bound s p Hfew). rewrite wrap32_eq.
  apply Z.mod_small. lia.
Qed.

Lemma disciplined_open s t fh g ok p :
  disciplined s (EvOpen t fh g ok) = true → c_threads s !! t = Some Idle → c_hash s !! g = Some p → region_n p s = 0%nat.
Proof.
  unfold disciplined. intros [_ Hd]%andb_true_iff Ht Hg. rewrite Hg in Hd. eapply no_other_region; [done..|by left].
Qed.

(** The last reference goes only when no other thread is in a region. *)
Lemma disciplined_unref s t b p F :
  disciplined s (EvStep t b) = true → counted s → c_threads s !! t = Some (Unref p) → c_objs s !! p = Some F →
  wrap32 (cf_ref_count F - 1) = 0 → region_n p s = 0%nat ∧ refs p s = 1%nat.
Proof.
  unfold disciplined. intros [Hfew Hd]%andb_true_iff Hc Ht HF. rewrite Ht, HF in Hd.
  pose proof (ref_exact _ _ _ Hfew Hc HF) as Hr. pose proof (few_refs_bound s p Hfew). pose proof (refs_thread s t _ p Ht) as Hp.
  simpl in Hp. rewrite is_file_same in Hp. rewrite wrap32_eq, Hr, Z.mod_small by lia. intros H1.
  split; [|lia]. rewrite Hr in Hd. replace (Z.of_nat (refs p s) =? 1) with true in Hd by lia.
  eapply no_other_region; [done..|by right].
Qed.

Lemma disciplined_insert s t b p old :
  disciplined s (EvStep t b) = true → c_threads s !! t = Some (InsertLock p) → last (c_list s) = Some old →
  c_size s = RC_CAP → reviving_n old s = 0%nat.
Proof.
  unfold disciplined. intros [_ Hd]%andb_true_iff Ht Hl Hsize. rewrite Ht, Hl, Hsize, Z.eqb_refl in Hd.
  unfold reviving_n. rewrite (no_other_sum _ (pc_revive old) _ _ _ Ht Hd); [done|].
  intros d. destruct d; simpl; try done. intros Hq%bool_decide_eq_false. by rewrite is_file_ne.
Qed.

(** A file that will be freed is not looked at. *)
Lemma disciplined_finish s t b p F :
  disciplined s (EvStep t b) = true → counted s → c_threads s !! t = Some (FinishCheck p) → c_objs s !! p = Some F →
  cf_ref_count F = 0 → cf_recently_closed F = false →
  region_n p s = 0%nat ∧ late_n p s = 1%nat ∧ flushes p s = 0%nat ∧ refs p s = 0%nat.
Proof.
  unfold disciplined. intros [Hfew Hd]%andb_true_iff Hc Ht HF Hr Hfl. rewrite Ht, HF, Hr, Hfl in Hd. simpl in Hd.
  apply andb_true_iff in Hd as [Hd Hflush]. pose proof (ref_exact _ _ _ Hfew Hc HF). destruct (Hc p F HF) as (_ & _ & Hn).
  assert (no_other (in_region p) t s = true ∧ no_other (late p) t s = true) as [Hreg Hlate].
  { unfold no_other in *. rewrite !forallb_forall in *. split; intros d Hin; specialize (Hd d Hin);
      rewrite negb_orb in Hd; by apply andb_true_iff in Hd as []. }
  split_and!; [eapply no_other_region; [done..|by right]| |lia|lia].
  unfold late_n. rewrite (no_other_sum _ (pc_late p) _ _ _ Ht Hlate); [simpl; apply is_file_same|].
  intros d. destruct d; simpl; try done; intros Hq%bool_decide_eq_false; by rewrite is_file_ne.
Qed.

Ltac safe_counts q :=
  unfold region_n, reviving_n, opening_n, inserting_n, finishing_n, late_n, listed, refs, flushes, threads_sum,
    lost_refs in *; conc_simpl;
  sum_threads (pc_refs q); sum_threads (pc_revive q); sum_threads (pc_openref q); sum_threads (pc_insert q);
  sum_threads (pc_finish q); sum_threads (pc_late q); sum_fhs (slot_refs q);
  sum_pending (cb_refs q); sum_pending (cb_flushes q);
  cbn [pc_refs pc_writes slot_refs cb_refs cb_flushes sum_list_with pc_revive pc_openref pc_insert pc_finish pc_late] in *.

(** Is the file the one whose object the step looked at? *)
Ltac file_cases q :=
  repeat match goal with
  | Hp : c_objs ?s !! ?p = Some ?F |- _ =>
      lazymatch goal with _ : q ≠ p |- _ => fail | _ => idtac end;
      destruct (decide (q = p)) as [->|?]
  end.

(** The objects in the goal and in the hypotheses about the state before. *)
Ltac obj_simpl :=
  unfold flag in *; conc_simpl;
  repeat match goal with
  | |- context [<[?p := _]> _ !! ?p] => rewrite !lookup_insert_eq
  | |- context [<[?p := _]> _ !! ?q] => rewrite !lookup_insert_ne by congruence
  | |- context [delete ?p _ !! ?p] => rewrite !lookup_delete_eq
  | |- context [delete ?p _ !! ?q] => rewrite !lookup_delete_ne by congruence
  | Hp : ?m !! ?p = Some _ |- context [?m !! ?p] => rewrite !Hp
  | Hp : ?m !! ?p = Some _, H : context [?m !! ?p] |- _ =>
      lazymatch type of H with m !! p = _ => fail | _ => rewrite !Hp in H end
  end; unfold with_ref, with_closed, with_outstanding, with_flush in *; cbn [cf_recently_closed] in *.

(** What the thread that moves counts for. *)
Ltac thread_counts q :=
  match goal with
  | Ht : c_threads _ !! _ = Some _ |- _ =>
      pose proof (sum_at (pc_revive q) _ _ _ Ht); pose proof (sum_at (pc_openref q) _ _ _ Ht);
      pose proof (sum_at (pc_insert q) _ _ _ Ht); pose proof (sum_at (pc_finish q) _ _ _ Ht);
      pose proof (sum_at (pc_refs q) _ _ _ Ht)
  | _ => idtac
  end.

Ltac safe_case Hf :=
  conc_simpl;
  match goal with |- file_safe _ ?q => file_cases q end;
  match goal with |- file_safe _ ?q =>
    pose proof (Hf q) as []; thread_counts q;
    constructor; obj_simpl; try discriminate; try (let E := fresh in intros E;
      match goal with Hdead : c_objs _ !! q = None → _ |- _ => specialize (Hdead E) end);
    safe_counts q; is_file_cases
  end.

(** The oldest file leaves the full list. *)
Lemma evict_last s p old : c_size s = RC_CAP → safe s → last (p :: c_list s) = Some old → last (c_list s) = Some old.
Proof.
  intros Hs [_ _ Hsize _] Hl. rewrite last_cons in Hl. destruct (last (c_list s)) eqn:E; [done|].
  apply last_None in E. rewrite E in Hsize. rewrite Hs in Hsize. done.
Qed.

Lemma file_safe_evict s t b p F old O q :
  disciplined s (EvStep t b) = true → safe s → c_threads s !! t = Some (InsertLock p) → c_objs s !! p = Some F →
  (c_size s =? RC_CAP) = true → last (p :: c_list s) = Some old →
  <[p := with_closed true F]> (c_objs s) !! old = Some O →
  file_safe (set_pc t (Dealloc old) (set_obj old (with_closed false O)
    (set_clist (take (length (c_list s)) (p :: c_list s)) (c_size s) (set_obj p (with_closed true F) s)))) q.
Proof.
  intros Hd Hsafe Ht HF Hsize%Z.eqb_eq Hl HO. pose proof (sf_file _ Hsafe) as Hf.
  pose proof (evict_last _ _ _ Hsize Hsafe Hl) as Hl'.
  pose proof (disciplined_insert _ _ _ _ _ Hd Ht Hl' Hsize) as Hrev.
  assert (0 < listed old s)%nat as Hold by (apply listed_elem; by eapply last_Some_elem_of).
  assert (old ≠ p) as Hne.
  { intros ->. pose proof (fs_insert _ _ (Hf p)). pose proof (sum_at (pc_insert p) _ _ _ Ht) as Hi.
    simpl in Hi. rewrite is_file_same in Hi. unfold inserting_n, threads_sum in *. lia. }
  rewrite lookup_insert_ne in HO by done.
  assert (∀ r, sum_list_with (is_file r) (take (length (c_list s)) (p :: c_list s)) =
    (is_file r p + sum_list_with (is_file r) (c_list s) - is_file r old)%nat) as Hsum.
  { intros r. pose proof (listed_evict _ _ r Hl) as E. simpl length in E. rewrite Nat.sub_succ, Nat.sub_0_r in E. exact E. }
  assert (0 < refs old s → False)%nat as Hrefs by (pose proof (fs_listed _ _ (Hf old)); lia).
  safe_case Hf; rewrite ?Hsum; is_file_cases; lia.
Qed.

Lemma file_safe_step s ev s' q :
  step s ev = Some (Ok s') → disciplined s ev = true → allocated s → slots_ok s → counted s → safe s →
  file_safe s' q.
Proof.
  intros Hs Hd Ha Hsl Hc Hsafe. pose proof (sf_file _ Hsafe) as Hf.
  assert (c_objs s !! c_next s = None) as Hnext.
  { apply eq_None_not_Some. intros [F HF]. pose proof (al_objs _ Ha _ _ HF). lia. }
  step_cases Hs.
  all: match goal with |- file_safe _ _ => first [by safe_case Hf; lia|idtac] end.
  - pose proof (disciplined_open _ _ _ _ _ _ Hd e H1). safe_case Hf; rewrite ?H3 in *; lia.
  - pose proof (disciplined_open _ _ _ _ _ _ Hd e H1). safe_case Hf; rewrite ?H3 in *; lia.
  - destruct (decide (q = c_next s)) as [->|?]; [|safe_case Hf; lia].
    pose proof (fs_dead _ _ (Hf (c_next s)) Hnext). pose proof (fs_flag _ _ (Hf (c_next s))) as Hfl.
    unfold flag in Hfl. rewrite Hnext in Hfl. safe_case Hf; try lia.
  - destruct (decide (q = p0)) as [->|?].
    + safe_case Hf; rewrite ?listed_filter, ?decide_True by done; try lia.
    + safe_case Hf; rewrite ?listed_filter, ?decide_False by done; try lia.
  - pose proof (so_opens _ Hsl _ _ _ H0 eq_refl). safe_case Hf; try lia.
  - pose proof (disciplined_unref _ _ _ _ _ Hd Hc H0 H2) as Hu.
    apply Z.eqb_eq in H3. destruct (Hu H3) as [??]. safe_case Hf; lia.
  - conc_simpl. rewrite Nat.sub_0_r. by apply (file_safe_evict _ t b p0 c p1 c0 q).
  - pose proof (refs_slot s fh _ p0 (so_writes _ Hsl _ _ _ _ H0 eq_refl)). safe_case Hf; lia.
  - apply orb_false_iff in H4 as [Hr%negb_false_iff Hfl]. apply Z.eqb_eq in Hr.
    pose proof (disciplined_finish _ _ _ _ _ Hd Hc H0 H3 Hr Hfl). safe_case Hf; try lia.
    all: rewrite Hfl in *; lia.
Qed.

Lemma freeing_finishing s p : (freeing_n p s ≤ finishing_n p s)%nat.
Proof.
  unfold freeing_n, finishing_n, threads_sum. induction (c_threads s) as [|c l IH]; simpl; [lia|].
  assert (pc_free p c ≤ pc_finish p c)%nat by (destruct c; simpl; lia). lia.
Qed.

(** A step that leaves the table alone, and writes only to objects that are there
    without changing their keys. *)
Ltac hash_case Hlive Hfree :=
  let g := fresh "g" in let q := fresh "q" in let Hg := fresh "Hg" in
  intros g q Hg; lazymatch goal with
  | |- ∃ _, _ =>
      destruct (Hlive g q Hg) as (? & ? & ?); simplify_map_eq; file_cases q; simplify_map_eq; eauto
  | |- _ =>
      pose proof (Hfree g q Hg); unfold freeing_n, threads_sum in *; conc_simpl; sum_threads (pc_free q);
      cbn [pc_free] in *; try lia
  end.

Lemma hash_safe_step s ev s' :
  step s ev = Some (Ok s') → allocated s → safe s → hash_safe s'.
Proof.
  intros Hs Ha Hsafe. pose proof (sf_hash _ Hsafe) as [Hlive Hfree]. pose proof (sf_file _ Hsafe) as Hf.
  assert (c_objs s !! c_next s = None) as Hnext.
  { apply eq_None_not_Some. intros [F HF]. pose proof (al_objs _ Ha _ _ HF). lia. }
  step_cases Hs; split; conc_simpl; try by hash_case Hlive Hfree.
  - intros g' q Hg. destruct (decide (g' = g)) as [->|]; simplify_map_eq; [by eexists|].
    destruct (Hlive g' q Hg) as (F & HF & <-). exists F. split; [|done]. rewrite lookup_insert_ne; [done|congruence].
  - intros g' q Hg. destruct (decide (g' = g)) as [->|]; simplify_map_eq.
    + pose proof (freeing_finishing s (c_next s)). pose proof (fs_dead _ _ (Hf (c_next s)) Hnext).
      unfold freeing_n, threads_sum in *. conc_simpl. sum_threads (pc_free (c_next s)). cbn [pc_free] in *. lia.
    + pose proof (Hfree g' q Hg). unfold freeing_n, threads_sum in *. conc_simpl. sum_threads (pc_free q). cbn [pc_free] in *. lia.
  - intros g q Hg. destruct (Hlive g q Hg) as (F & HF & <-).
    destruct (decide (q = p1)), (decide (p1 = p0)), (decide (q = p0)); subst; simplify_map_eq; eauto.
  - intros g q [_ Hg]%lookup_delete_Some. eauto.
  - intros g q [Hne Hg]%lookup_delete_Some. destruct (Hlive g q Hg) as (F & HF & <-). pose proof (Hfree _ q Hg).
    unfold freeing_n, threads_sum in *. conc_simpl. sum_threads (pc_free q). cbn [pc_free] in *.
    rewrite (is_file_ne q p0) in * by congruence. lia.
  - intros g q Hg. destruct (Hlive g q Hg) as (F & HF & <-). exists F. split; [|done].
    rewrite lookup_delete_ne; [done|]. intros ->. pose proof (Hfree _ q Hg) as Hz.
    pose proof (sum_at (pc_free q) _ _ _ H0) as Hr. unfold freeing_n, threads_sum in Hz. simpl in Hr.
    rewrite is_file_same in Hr. lia.
Qed.

Lemma size_safe_step s ev s' :
  step s ev = Some (Ok s') → slots_ok s → safe s → c_size s' = Z.of_nat (length (c_list s')) ∧ c_size s' ≤ RC_CAP.
Proof.
  intros Hs Hsl [Hf _ Hsize Hcap]. step_cases Hs; conc_simpl; try done.
  - pose proof (length_filter (c_list s) p0). pose proof (fs_list _ _ (Hf p0)). unfold listed in *.
    assert (0 < sum_list_with (is_file p0) (c_list s))%nat by by apply listed_elem. lia.
  - rewrite length_take. simpl length. lia.
  - simpl length. lia.
Qed.

Lemma safe_step s ev s' :
  step s ev = Some (Ok s') → disciplined s ev = true → allocated s → slots_ok s → counted s → safe s → safe s'.
Proof.
  intros Hs Hd Ha Hsl Hc Hsafe. destruct (size_safe_step s ev s' Hs Hsl Hsafe). split; [|by eapply hash_safe_step|done..].
  intros p. by eapply file_safe_step.
Qed.

Lemma init_safe n : safe (init_conc n).
Proof.
  unfold init_conc. generalize (Z.to_nat MAX_FHS) as m. intros m. split; conc_simpl; [|by split|done|done].
  intros p. constructor; unfold reviving_n, opening_n, inserting_n, finishing_n, late_n, refs, flushes, listed, flag,
    threads_sum, lost_refs; conc_simpl; rewrite ?lookup_empty, ?sum_replicate by done; simpl; lia.
Qed.

(** ** Theorems *)

Lemma disciplined_run_safe evs : ∀ s r,
  allocated s → slots_ok s → counted s → safe s →
  disciplined_run s evs = true → run s evs = Some r → ∃ s', r = Ok s' ∧ safe s'.
Proof.
  induction evs as [|ev evs IH]; intros s r Ha Hsl Hc Hs Hd Hrun; simpl in *; [injection Hrun as <-; by exists s|].
  apply andb_true_iff in Hd as [Hd Hd'].
  destruct (step s ev) as [r1|] eqn:E; [|done]. destruct (step_no_fault s ev r1 Hs Hsl E) as [s1 ->].
  eapply IH; [by eapply allocated_step|by eapply slots_step|by eapply counted_step|by eapply safe_step|done|done].
Qed.


(** Threads 0 and 1 visit two files each in turn, until the list is full. *)
Definition round (i : Z) : list event :=
  [EvOpen 0 0 (conc_name i) true; step_of 0; EvOpen 1 1 (conc_name (128 + i)) true; EvClose 0 0; step_of 1; step_of 0;
   EvClose 1 1; step_of 0; step_of 1; step_of 0; step_of 1; step_of 1].

(** Then thread 0 evicts file 1, whose checkpoint completes in thread 2 while thread
    1 opens another file and writes to it. *)
Definition ex_disciplined : list event :=
  ((Z.of_nat <$> seq 1 128) ≫= round) ++ visit 0 300 ++ [step_of 0] ++
  [EvCallback 2 0; EvOpen 1 1 (conc_name 301) true; step_of 1; step_of 2; EvWrite 1 1; step_of 1; step_of 2; step_of 1;
   step_of 2; step_of 1; EvCallback 2 0; step_of 2].


(** In it file 1 is freed. *)
Example ex_disciplined_frees :
  match run (init_conc 3) ex_disciplined with
  | Some (Ok s) => bool_decide (c_objs s !! 1%positive = None) && (c_size s =? RC_CAP)
  | _ => false
  end = true.
Proof. vm_compute. reflexivity. Qed.
