(* ===== verification/Stable.v ===== *)
(** * What no operation can undo

    [stable R c]: every run of [c] that ends relates its first state to its last
    one by [R].  For a preorder [R] the runs of a whole program are stable when
    its basic steps are; no other property of the program is needed.  The
    directory layer, the FUSE operations and their clients are stable over every
    file layer whose functions are. *)
From S2P Require Import Prelude.
From S2P Require Import State.
From S2P Require Import Types.
From S2P Require Import FileIface.
From S2P Require Import Dir.
From S2P Require Import FsSpec.
From S2P Require Import Fuse.
From S2P Require Import FuseSpec.
From S2P Require Import FuseTheorems.

Definition stable_at {S A} (R : relation S) (s : S) (c : st S A) : Prop :=
  ∀ a s', c s = Ok (a, s') → R s s'.
Definition stable {S A} (R : relation S) (c : st S A) : Prop := ∀ s, stable_at R s c.

Create HintDb stable discriminated.

Section rules.
Context {S : Type} (R : relation S) `{!PreOrder R}.
Implicit Types (s : S).

Lemma stable_elim {A} (c : st S A) s : stable R c → stable_at R s c.
Proof. auto. Qed.

Lemma stable_ret {A} (a : A) s : stable_at R s (mret a).
Proof. by intros ? ? [= <- <-]. Qed.

Lemma stable_bind {A B} (c : st S A) (k : A → st S B) s :
  stable_at R s c → (∀ a, stable R (k a)) → stable_at R s (c ≫= k).
Proof. intros Hc Hk b s2 (a & s1 & H1 & H2)%bind_inv. transitivity s1; [by eapply Hc|by eapply Hk]. Qed.

Lemma stable_get {B} (k : S → st S B) s : stable_at R s (k s) → stable_at R s (st_get ≫= k).
Proof. done. Qed.

Lemma stable_put s s' : R s s' → stable_at R s (st_put s').
Proof. by intros Hs ? ? [= <- <-]. Qed.

Lemma stable_modify f s : R s (f s) → stable_at R s (st_modify f).
Proof. by intros Hs ? ? [= <- <-]. Qed.

Lemma stable_fail {A} f s : stable_at R s (st_fail f : st S A).
Proof. by intros a s'. Qed.

Lemma stable_assert b s : stable_at R s (st_assert b).
Proof. destruct b; [apply stable_ret|apply stable_fail]. Qed.

Lemma stable_lift {A} (r : res A) s : stable_at R s (st_lift r).
Proof. intros a s'. unfold st_lift. by destruct r; intros [= <- <-]. Qed.
End rules.

#[export] Hint Resolve stable_ret stable_fail stable_assert stable_lift : stable.
#[export] Hint Extern 0 (PreOrder _) => typeclasses eauto : stable.

(** Steps through a program: binds, tests and matches, with the lemmas of the
    [stable] database at the leaves. *)
Ltac stable :=
  intros;
  lazymatch goal with
  | |- stable _ _ => intro; stable
  | |- stable_at _ _ (st_get ≫= _) => apply stable_get; stable
  | |- stable_at _ _ (_ ≫= _) => apply stable_bind; [typeclasses eauto|stable|stable]
  | |- stable_at _ _ (st_put _) => apply stable_put; first [reflexivity | solve [eauto with stable]]
  | |- stable_at _ _ (st_modify _) => apply stable_modify; first [reflexivity | solve [eauto with stable]]
  | |- stable_at _ _ (match ?x with _ => _ end) => destruct x; stable
  | |- stable_at _ _ (let _ := _ in _) => cbv zeta; stable
  | |- stable_at _ _ _ => first [solve [eauto with stable] | apply stable_elim; solve [eauto with stable] | idtac]
  end.

(** A file layer all of whose functions are stable. *)
Class StableFiles (S : Type) `{FileOps S} (R : relation S) := {
  stable_preorder :: PreOrder R;
  stable_open g : stable R (gdpfs_file_open g);
  stable_open_type g t : stable R (gdpfs_file_open_type g t);
  stable_open_init g t p b : stable R (gdpfs_file_open_init g t p b);
  stable_create t p : stable R (gdpfs_file_create t p);
  stable_close fh : stable R (gdpfs_file_close fh);
  stable_gname fh : stable R (gdpfs_file_gname fh);
  stable_read fh n o : stable R (gdpfs_file_read fh n o);
  stable_write fh bs o : stable R (gdpfs_file_write fh bs o);
  stable_ftruncate fh n : stable R (gdpfs_file_ftruncate fh n);
  stable_set_perm fh p : stable R (gdpfs_file_set_perm fh p);
  stable_get_info fh : stable R (gdpfs_file_get_info fh);
}.
#[export] Hint Resolve stable_open stable_open_type stable_open_init stable_create stable_close
  stable_gname stable_read stable_write stable_ftruncate stable_set_perm stable_get_info : stable.

Section clients.
Context {S : Type} `{HS : StableFiles S R}.
Variable fuel : nat.
Variable root : file_gname.
Variable mode : gdpfs_file_mode.

(** ** Directories *)

Lemma stable_find_insert fh name : stable R (_find_insert_offset fuel fh name).
Proof.
  unfold _find_insert_offset. generalize 0 at 1; generalize (@None Z).
  induction fuel as [|n IH]; intros; cbn [find_loop]; unfold read_ent; stable.
Qed.
Hint Resolve stable_find_insert : stable.

Lemma stable_dir_read fh offset : stable R (gdpfs_dir_read fuel fh offset).
Proof.
  unfold gdpfs_dir_read. revert offset.
  induction fuel as [|n IH]; intros; cbn [dir_read_loop]; unfold read_ent; stable.
Qed.
Hint Resolve stable_dir_read : stable.

Lemma stable_isempty fh : stable R (gdpfs_dir_isempty fuel fh).
Proof. unfold gdpfs_dir_isempty. stable. Qed.
Hint Resolve stable_isempty : stable.

Lemma stable_dir_remove fh name t : stable R (gdpfs_dir_remove fuel fh name t).
Proof. unfold gdpfs_dir_remove, check_removable, mark_removed, close_and_return. stable. Qed.
Hint Resolve stable_dir_remove : stable.

Lemma stable_walk n path fh t : stable R (walk fuel n path fh t).
Proof. revert path fh t. induction n as [|n IH]; intros; cbn [walk]; stable. Qed.
Hint Resolve stable_walk : stable.

Lemma stable_open_at path t : stable R (gdpfs_dir_open_file_at_path fuel root path t).
Proof. unfold gdpfs_dir_open_file_at_path. stable. Qed.
Hint Resolve stable_open_at : stable.

Lemma stable_open_parent path : stable R (_open_parent_dir fuel root path).
Proof. unfold _open_parent_dir. stable. Qed.
Hint Resolve stable_open_parent : stable.

Lemma stable_add fh offset name g : stable R (_add_at_offset fh offset name g).
Proof. unfold _add_at_offset. stable. Qed.
Hint Resolve stable_add : stable.

Lemma stable_create_at path t b p : stable R (gdpfs_dir_create_file_at_path fuel root path t b p).
Proof. unfold gdpfs_dir_create_file_at_path. stable. Qed.
Hint Resolve stable_create_at : stable.

Lemma stable_replace_at fh path : stable R (gdpfs_dir_replace_file_at_path fuel root fh path).
Proof. unfold gdpfs_dir_replace_file_at_path, check_replaceable, close_and_return. stable. Qed.
Hint Resolve stable_replace_at : stable.

Lemma stable_remove_at path t : stable R (gdpfs_dir_remove_file_at_path fuel root path t).
Proof. unfold gdpfs_dir_remove_file_at_path. stable. Qed.
Hint Resolve stable_remove_at : stable.

Lemma stable_init_dir : stable R (init_gdpfs_dir root).
Proof. unfold init_gdpfs_dir. stable. Qed.

(** ** Requests *)

Lemma stable_handle r : stable R (handle fuel root mode r).
Proof.
  destruct r; cbn [handle]; unfold gdpfs_getattr, gdpfs_open, gdpfs_opendir, open_as, _open,
    _check_open_flags, gdpfs_release, _release, gdpfs_read, gdpfs_write, gdpfs_truncate, gdpfs_ftruncate,
    gdpfs_create, gdpfs_unlink, gdpfs_mkdir, gdpfs_rmdir, gdpfs_rename, gdpfs_access, gdpfs_chmod, _open,
    _release; stable.
Qed.
Hint Resolve stable_handle : stable.

Lemma stable_client c : stable R (run_client fuel root mode c).
Proof. induction c as [|r k IH]; cbn [run_client]; stable. Qed.
End clients.
