(* ===== verification/FileSerial.v ===== *)
(** * The calls of [File] as serial runs

    [File] runs each call and each callback to its end; [FileConc] runs them region
    by region.  The two agree: a callback of [File], and the part of opening and
    closing that manages references, is a run of [FileConc] in which one thread
    executes its regions one after the other. *)
From S2P Require Import Prelude.
From S2P Require Import State.
From S2P Require Heap.
From S2P Require Import Types.
From S2P Require Import Posix.
From S2P Require Import FileIface.
From S2P Require Import FigNode.
From S2P Require Import FigTree.
From S2P Require Import Gdp.
From S2P Require Import LogEnt.
From S2P Require Import File.
From S2P Require Import FileConc.
From S2P Require Import Stable.

#[local] Open Scope Z_scope.

Section serial.
Context {G : Type} `{GdpOps G} `{!Heap.Allocator} `{!FileConfig}.
Implicit Types (s : gfs G) (k : conc) (p : floc).

Definition cfile_of (F : gdpfs_file_t G) : cfile :=
  mkCfile (hash_key F) (ref_count F) (recently_closed F) (outstanding_reqs F) (index_flush_reqs F).

(** What a state of [File] and a state of the concurrent model have in common. *)
Definition abs s : conc :=
  mkConc (cfile_of <$> g_objs s) 1 (file_hash s) (recently_closed_list s) (recently_closed_size s) None []
    (g_pending s) [] [].
Definition erase k : conc :=
  mkConc (c_objs k) 1 (c_hash k) (c_list k) (c_size k) (c_open_lock k) [] (c_pending k) [] [].

(** [k] is [s] with one thread, which is at [c]. *)
Definition models s (c : pc) k : Prop := erase k = abs s ∧ c_threads k = [c].

(** [k] runs to [s'], where the thread is at [c']. *)
Definition serial_run k s' (c' : pc) : Prop :=
  ∃ evs k', run k evs = Some (Ok k') ∧ models s' c' k'.

(** ** What leaves references alone *)

Definition same_refs s s' : Prop := abs s = abs s'.

#[local] Instance same_refs_preorder : PreOrder same_refs.
Proof. split; [done|]. unfold same_refs. intros ???. congruence. Qed.

Lemma stable_on_sys_refs {A} (c : st (sys G) A) : stable same_refs (on_sys c).
Proof.
  intros s a s'. unfold on_sys. destruct (c (g_sys s)) as [[b y]|]; intros E; by simplify_eq.
Qed.

Lemma stable_the_file_refs p : stable same_refs (the_file p).
Proof. intros s a s'. unfold the_file. case_match; intros E; by simplify_eq. Qed.

Lemma stable_update p f : (∀ F, cfile_of (f F) = cfile_of F) → stable same_refs (update_file p f).
Proof.
  intros Hf s a s'. unfold update_file. destruct (g_objs s !! p) as [F|] eqn:E; intros [= <- <-].
  unfold same_refs, abs. cbn. rewrite fmap_insert, Hf, insert_id; [done|]. by rewrite lookup_fmap, E.
Qed.
Hint Resolve stable_on_sys_refs stable_the_file_refs : stable.
Hint Extern 1 (stable same_refs (update_file _ _)) => (apply stable_update; reflexivity) : stable.

Lemma stable_on_nodes_refs {A} p (c : Heap.prog ft_node A) : stable same_refs (on_nodes p c).
Proof. unfold on_nodes. stable. Qed.
Hint Resolve stable_on_nodes_refs : stable.

Lemma stable_on_index_refs {A} p (c : _ → _ → Heap.prog ft_node A) : stable same_refs (on_index p c).
Proof. unfold on_index. stable. Qed.
Hint Resolve stable_on_index_refs : stable.

Lemma stable_load_info_refs p : stable same_refs (_file_load_info_cache p).
Proof. unfold _file_load_info_cache. stable. Qed.
Hint Resolve stable_load_info_refs : stable.

Lemma stable_get_info_raw p : stable same_refs (_file_get_info_raw p).
Proof. unfold _file_get_info_raw. stable. Qed.
Hint Resolve stable_get_info_raw : stable.

(** ** The steps of [File] that do not *)

(** Writing the counters of an object. *)
Lemma update_abs p f g s a s' :
  (∀ F, cfile_of (f F) = g (cfile_of F)) → update_file p f s = Ok (a, s') →
  ∃ F, c_objs (abs s) !! p = Some F ∧ abs s' = set_obj p (g F) (abs s).
Proof.
  intros Hf. unfold update_file. destruct (g_objs s !! p) as [F|] eqn:E; [|done]. intros [= <- <-].
  exists (cfile_of F). split; [unfold abs; cbn; by rewrite lookup_fmap, E|].
  unfold abs, set_obj. cbn. by rewrite fmap_insert, Hf.
Qed.

Lemma the_file_abs p s F s' : the_file p s = Ok (F, s') → s' = s ∧ c_objs (abs s) !! p = Some (cfile_of F).
Proof.
  unfold the_file. destruct (g_objs s !! p) as [F'|] eqn:E; [|done]. intros [= <- <-].
  split; [done|]. unfold abs. cbn. by rewrite lookup_fmap, E.
Qed.

(** A checkpoint counts a flush and leaves a callback if the index is dirty. *)
Lemma chkpt_abs p s a s' :
  _file_chkpt p true s = Ok (a, s') →
  ∃ dirty : bool, abs s' = if dirty then
    match c_objs (abs s) !! p with
    | Some F => set_callbacks (c_pending (abs s) ++ [CbChkptFinish (Some p)]) (set_obj p (with_flush (cf_flush F + 1) F) (abs s))
    | None => abs s
    end else abs s.
Proof.
  unfold _file_chkpt. intros ([estat info] & s1 & E1 & Hr)%bind_inv. apply stable_get_info_raw in E1.
  destruct (negb (EP_STAT_ISOK estat)); [done|].
  apply bind_inv in Hr as (u2 & s2 & E2 & Hr). apply stable_update in E2; [|done].
  apply bind_inv in Hr as (F & s3 & E3 & Hr). apply stable_the_file_refs in E3.
  apply bind_inv in Hr as (chkpt & s4 & E4 & Hr). apply stable_on_index_refs in E4.
  assert (abs s = abs s4) as -> by (unfold same_refs in *; congruence). clear s E1 E2 E3 E4.
  case_match; [|exists false; by injection Hr as <- <-]. exists true.
  apply bind_inv in Hr as (u5 & s5 & E5 & Hr).
  apply (update_abs p _ (λ F, with_flush (cf_flush F + 1) F)) in E5 as (F' & HF & E5); [|done]. rewrite HF, <-E5.
  apply bind_inv in Hr as ([? ent] & s6 & E6%stable_on_sys_refs & Hr). apply bind_inv in Hr as ([? ent'] & s7 & E7%stable_on_sys_refs & Hr).
  apply bind_inv in Hr as (e8 & s8 & E8%stable_on_sys_refs & Hr). apply bind_inv in Hr as (u9 & s9 & E9%(stable_assert same_refs) & Hr).
  apply bind_inv in Hr as (u10 & s10 & E10 & Hr). apply stable_on_sys_refs in Hr.
  assert (abs s5 = abs s9) as Hs by (unfold same_refs in *; congruence). rewrite Hs.
  unfold add_pending, st_modify in E10. rewrite <-Hr.
  assert (c_pending (abs s4) = g_pending s9) as -> by (change (c_pending (abs s4)) with (c_pending (set_obj p (with_flush (cf_flush F' + 1) F') (abs s4))); by rewrite <-E5, Hs).
  by injection E10 as _ <-.
Qed.

(** ** Serial runs *)

Lemma serial_refl s c k : models s c k → serial_run k s c.
Proof. intros Hm. by exists [], k. Qed.

Lemma serial_step k ev k1 s' c' : step k ev = Some (Ok k1) → serial_run k1 s' c' → serial_run k s' c'.
Proof. intros Hs (evs & k' & Hrun & Hm). exists (ev :: evs), k'. split; [|done]. simpl. by rewrite Hs. Qed.

(** A region of the thread. *)
Lemma models_region s c k b r :
  models s c k → match c with Idle | Dealloc _ | FinishCheck _ => False | _ => True end →
  thread_step 0 b k = Some r → step k (EvStep 0 b) = Some r.
Proof. done. Qed.

Lemma models_thread s c k : models s c k → c_threads k !! 0%nat = Some c.
Proof. by intros [_ ->]. Qed.

Lemma models_obj s c k p F : models s c k → c_objs (abs s) !! p = Some F → c_objs k !! p = Some F.
Proof. intros [E _] HF. change (c_objs (erase k) !! p = Some F). by rewrite E. Qed.

(** The state after a region: its effect on [abs], and the next place. *)
Lemma models_next s c k s' c' k1 :
  models s c k → erase k1 = abs s' → c_threads k1 = <[0%nat := c']> (c_threads k) → models s' c' k1.
Proof. intros [_ E] He Ht. split; [done|]. by rewrite Ht, E. Qed.

Lemma dealloc_serial s k p e s' :
  models s (Dealloc p) k → _file_dealloc p s = Ok (e, s') → serial_run k s' Idle.
Proof.
  intros Hm. unfold _file_dealloc. intros (F & s1 & [-> HF]%the_file_abs & Hr)%bind_inv.
  destruct (outstanding_reqs F =? 0) eqn:Ho; [|done]. simpl in Hr.
  apply bind_inv in Hr as (u & s2 & [dirty Hd]%chkpt_abs & Hr). injection Hr as _ <-. rewrite HF in Hd.
  pose proof (models_obj _ _ _ _ _ Hm HF) as HFk.
  eapply (serial_step _ (EvStep 0 dirty)).
  { unfold step, thread_step. rewrite (models_thread _ _ _ Hm), HFk. cbn [cfile_of cf_outstanding]. rewrite Ho.
    unfold dealloc, deref. rewrite HFk. reflexivity. }
  apply serial_refl. eapply models_next; [exact Hm| |destruct dirty; reflexivity]. rewrite Hd. destruct Hm as [<- _].
  by destruct dirty.
Qed.

Lemma insert_serial s k p e s' :
  models s (Insert p) k → _recently_closed_insert p s = Ok (e, s') → serial_run k s' Idle.
Proof.
  intros Hm. unfold _recently_closed_insert. intros (F & s1 & [-> HF]%the_file_abs & Hr)%bind_inv.
  pose proof (models_obj _ _ _ _ _ Hm HF) as HFk.
  apply bind_inv in Hr as (u1 & s1 & Ha & Hr). destruct (recently_closed F) eqn:Hfl; [done|]. injection Ha as _ <-.
  eapply (serial_step _ (EvStep 0 false) (set_pc 0 (InsertLock p) k)).
  { unfold step, thread_step. rewrite (models_thread _ _ _ Hm). unfold insert_assert, deref. rewrite HFk. cbn. by rewrite Hfl. }
  assert (models s (InsertLock p) (set_pc 0 (InsertLock p) k)) as Hm1 by (eapply models_next; [exact Hm|apply Hm|done]).
  clear Hm HFk. pose proof (models_obj _ _ _ _ _ Hm1 HF) as HFk. revert Hm1 HFk. generalize (set_pc 0 (InsertLock p) k). clear k.
  intros k Hm HFk. apply bind_inv in Hr as (u2 & s2 & E2 & Hr).
  apply (update_abs p _ (with_closed true)) in E2 as (F' & HF' & E2); [|done]. assert (F' = cfile_of F) as -> by congruence.
  unfold mbind at 1, st_bind at 1, st_get in Hr. apply bind_inv in Hr as (u3 & s3 & Ha & Hr).
  destruct ((recently_closed_size s2 <=? RC_CAP) && (0 <=? recently_closed_size s2)) eqn:Hsz; [|done]. injection Ha as _ <-.
  assert (erase (set_obj p (with_closed true (cfile_of F)) k) = abs s2) as He.
  { rewrite E2. destruct Hm as [<- _]. done. }
  assert (c_size k = recently_closed_size s2) as Hks by exact (f_equal c_size He).
  assert (c_list k = recently_closed_list s2) as Hkl by exact (f_equal c_list He).
  assert (∀ q, <[p := with_closed true (cfile_of F)]> (c_objs k) !! q = c_objs (abs s2) !! q) as Hko
    by (intros q; exact (f_equal (λ k, c_objs k !! q) He)).
  assert (∀ b r, insert_locked 0 p k = r → step k (EvStep 0 b) = Some r) as Hstep.
  { intros b r <-. unfold step, thread_step. by rewrite (models_thread _ _ _ Hm). }
  unfold insert_locked, deref in Hstep. rewrite HFk in Hstep. conc_simpl. rewrite Hks, Hkl, Hsz in Hstep. cbn [negb] in Hstep.
  destruct (recently_closed_size s2 =? RC_CAP).
  - destruct (last (p :: recently_closed_list s2)) as [old|]; [|done].
    apply bind_inv in Hr as (u4 & s4 & E4 & Hr). injection E4 as _ <-.
    apply bind_inv in Hr as (u5 & s5 & E5 & Hr).
    apply (update_abs old _ (with_closed false)) in E5 as (O & HO & E5); [|done].
    change (c_objs (abs s2) !! old = Some O) in HO. rewrite Hko, HO in Hstep.
    eapply serial_step; [by apply (Hstep false)|]. eapply dealloc_serial; [|exact Hr].
    eapply models_next; [exact Hm| |reflexivity]. rewrite E5. unfold abs at 1. rewrite <-Hks at 1.
    exact (f_equal (λ k, set_obj old (with_closed false O) (set_clist (take (length (p :: recently_closed_list s2) - 1) (p :: recently_closed_list s2)) (c_size k) k)) He).
  - apply bind_inv in Hr as (u4 & s4 & E4 & Hr). injection E4 as _ <-. injection Hr as _ <-.
    eapply serial_step; [by apply (Hstep false)|]. apply serial_refl.
    eapply models_next; [exact Hm| |reflexivity].
    exact (f_equal (set_clist (p :: recently_closed_list s2) (recently_closed_size s2 + 1)) He).
Qed.

Lemma unref_serial s k p e s' :
  models s (Unref p) k → _file_unref p s = Ok (e, s') → serial_run k s' Idle.
Proof.
  intros Hm. unfold _file_unref. intros (u1 & s1 & E1 & Hr)%bind_inv.
  apply (update_abs p _ (λ F, with_ref (wrap32 (cf_ref_count F - 1)) F)) in E1 as (F & HF & E1); [|done].
  apply bind_inv in Hr as (F1 & s2 & [-> HF1]%the_file_abs & Hr).
  rewrite E1 in HF1. cbn [set_obj c_objs] in HF1. rewrite lookup_insert_eq in HF1.
  assert (ref_count F1 = wrap32 (cf_ref_count F - 1)) as Href by (apply (f_equal (fmap cf_ref_count)) in HF1; by injection HF1).
  pose proof (models_obj _ _ _ _ _ Hm HF) as HFk.
  eapply (serial_step _ (EvStep 0 false)).
  { unfold step, thread_step. rewrite (models_thread _ _ _ Hm). unfold unref, deref. by rewrite HFk. }
  rewrite Href in Hr. cbv zeta.
  assert (∀ c', models s1 c' (set_pc 0 c' (set_obj p (with_ref (wrap32 (cf_ref_count F - 1)) F) k))) as Hm1.
  { intros c'. eapply models_next; [exact Hm| |reflexivity]. rewrite E1. by destruct Hm as [<- _]. }
  destruct (wrap32 (cf_ref_count F - 1) =? 0); [by eapply insert_serial|]. injection Hr as _ <-. by apply serial_refl.
Qed.

Lemma ref_serial s k p e s' fh : models s (OpenRef fh p) k → _file_ref p s = Ok (e, s') → serial_run k s' Idle.
Proof.
  intros Hm. unfold _file_ref. intros (u1 & s1 & E1 & Hr)%bind_inv. injection Hr as _ <-.
  apply (update_abs p _ (λ F, with_ref (wrap32 (cf_ref_count F + 1)) F)) in E1 as (F & HF & E1); [|done].
  pose proof (models_obj _ _ _ _ _ Hm HF) as HFk.
  eapply (serial_step _ (EvStep 0 false)).
  { unfold step, thread_step. rewrite (models_thread _ _ _ Hm). unfold open_ref, deref. by rewrite HFk. }
  apply serial_refl. eapply models_next; [exact Hm| |reflexivity]. rewrite E1. destruct Hm as [Hm _].
  change (set_lock None (set_obj p (with_ref (wrap32 (cf_ref_count F + 1)) F) (erase k)) =
          set_obj p (with_ref (wrap32 (cf_ref_count F + 1)) F) (abs s)). by rewrite Hm.
Qed.

(** ** Callbacks *)

Lemma finish_serial s k p u s' :
  models s (FinishCheck p) k → 
  (F ← the_file p;
   if negb (ref_count F =? 0) || recently_closed F then mret tt
   else
     st_modify (λ s, set_hash (delete (hash_key F) (file_hash s)) s);;
     _ ← on_nodes p (ft_dealloc (file_figtree F));
     st_modify (λ s, set_objs (delete p (g_objs s)) s)) s = Ok (u, s') →
  serial_run k s' Idle.
Proof.
  intros Hm (F & s1 & [-> HF]%the_file_abs & Hr)%bind_inv.
  pose proof (models_obj _ _ _ _ _ Hm HF) as HFk.
  assert (c_open_lock k = None) as Hlock by (destruct Hm as [Hm _]; exact (f_equal c_open_lock Hm)).
  assert (step k (EvStep 0 false) = Some (finish_check 0 p k)) as Hs1.
  { unfold step, thread_step. by rewrite (models_thread _ _ _ Hm), Hlock. }
  unfold finish_check, deref in Hs1. rewrite HFk in Hs1. cbn [cfile_of cf_ref_count cf_recently_closed] in Hs1.
  eapply serial_step; [exact Hs1|].
  destruct (negb (ref_count F =? 0) || recently_closed F).
  { injection Hr as _ <-. apply serial_refl. eapply models_next; [exact Hm|apply Hm|reflexivity]. }
  apply bind_inv in Hr as (u2 & s2 & E2 & Hr). injection E2 as _ <-.
  apply bind_inv in Hr as (u3 & s3 & E3%stable_on_nodes_refs & Hr). injection Hr as _ <-.
  destruct Hm as [Hm Ht].
  eapply (serial_step _ (EvStep 0 false)).
  { unfold step, thread_step. cbn [c_threads set_pc]. rewrite Ht. cbn. unfold finish_delete, deref. cbn. rewrite HFk. reflexivity. }
  eapply (serial_step _ (EvStep 0 false)).
  { unfold step, thread_step. cbn. rewrite Ht. cbn. unfold finish_free, deref. cbn. rewrite HFk. reflexivity. }
  apply serial_refl. split; [|cbn; by rewrite Ht].
  transitivity (drop_obj p (abs s3)); [|unfold abs, drop_obj; cbn; by rewrite fmap_delete].
  unfold same_refs in E3. rewrite <-E3.
  transitivity (drop_obj p (set_chash (delete (hash_key F) (c_hash (erase k))) (erase k))); [reflexivity|].
  by rewrite Hm.
Qed.

Lemma start_models s k n cb : models s Idle k → g_pending s !! n = Some cb →
  models (set_pending (delete n (g_pending s)) s) Idle (set_callbacks (delete n (c_pending k)) k) ∧
  step k (EvCallback 0 n) = Some (start_callback 0 cb (set_callbacks (delete n (c_pending k)) k)).
Proof.
  intros [Hm Ht] Hn. assert (c_pending k = g_pending s) as Hp by exact (f_equal c_pending Hm). split.
  - split; [|done]. rewrite Hp. exact (f_equal (set_callbacks (delete n (g_pending s))) Hm).
  - unfold step. rewrite Hp, Hn, Ht. by rewrite decide_True.
Qed.

Lemma run_pending_serial s k n u s' : models s Idle k → run_pending n s = Ok (u, s') → serial_run k s' Idle.
Proof.
  intros Hm. unfold run_pending. unfold mbind at 1, st_bind at 1, st_get.
  destruct (g_pending s !! n) as [cb|] eqn:Hn; [|intros [= _ <-]; by apply serial_refl].
  intros (u1 & s1 & E1 & Hr)%bind_inv. injection E1 as _ <-.
  destruct (start_models s k n cb Hm Hn) as [Hm1 Hs]. revert Hm1 Hs Hr.
  generalize (set_pending (delete n (g_pending s)) s) (set_callbacks (delete n (c_pending k)) k). clear s Hm Hn.
  intros s k1 Hm Hs Hr. destruct cb as [p|[p|]]; cbn [start_callback run_callback _file_chkpt_finish] in Hs, Hr.
  - unfold free_fileref in Hr. apply bind_inv in Hr as (u1' & s1 & E1 & Hr).
    apply (update_abs p _ (λ F, with_outstanding (cf_outstanding F - 1) F)) in E1 as (F & HF & E1); [|done].
    apply bind_inv in Hr as (e & s2 & Hr & E). injection E as _ <-.
    unfold deref in Hs. rewrite (models_obj _ _ _ _ _ Hm HF) in Hs. eapply serial_step; [exact Hs|].
    eapply unref_serial; [|exact Hr]. eapply models_next; [exact Hm| |reflexivity]. rewrite E1. by destruct Hm as [<- _].
  - apply bind_inv in Hr as (u1' & s1 & E1 & Hr).
    apply (update_abs p _ (λ F, with_flush (cf_flush F - 1) F)) in E1 as (F & HF & E1); [|done].
    apply bind_inv in Hr as (F1 & s2 & HF1 & Hr). pose proof (the_file_abs _ _ _ _ HF1) as [-> HF1'].
    rewrite E1 in HF1'. cbn [set_obj c_objs] in HF1'. rewrite lookup_insert_eq in HF1'.
    assert (index_flush_reqs F1 = cf_flush F - 1) as Hfl by (apply (f_equal (fmap cf_flush)) in HF1'; by injection HF1').
    unfold deref in Hs. rewrite (models_obj _ _ _ _ _ Hm HF) in Hs. cbv zeta in Hs.
    eapply serial_step; [exact Hs|]. rewrite Hfl in Hr.
    assert (∀ c', models s1 c' (set_pc 0 c' (set_obj p (with_flush (cf_flush F - 1) F) k1))) as Hm1.
    { intros c'. eapply models_next; [exact Hm| |reflexivity]. rewrite E1. by destruct Hm as [<- _]. }
    destruct (cf_flush F - 1 =? 0).
    + eapply finish_serial; [apply Hm1|]. rewrite (bind_ok _ _ _ _ _ HF1). exact Hr.
    + injection Hr as _ <-. by apply serial_refl.
  - injection Hr as _ <-. eapply serial_step; [exact Hs|]. by apply serial_refl.
Qed.

Lemma run_app_refs evs1 evs2 k k1 : run k evs1 = Some (Ok k1) → run k (evs1 ++ evs2) = run k1 evs2.
Proof.
  revert k. induction evs1 as [|ev evs1 IH]; intros k; simpl; [by intros [= <-]|].
  destruct (step k ev) as [[k2|]|]; [apply IH|done|done].
Qed.

Lemma serial_trans k s1 c1 s2 c2 :
  serial_run k s1 c1 → (∀ k1, models s1 c1 k1 → serial_run k1 s2 c2) → serial_run k s2 c2.
Proof.
  intros (evs1 & k1 & Hr1 & Hm) Hk. destruct (Hk k1 Hm) as (evs2 & k2 & Hr2 & Hm2).
  exists (evs1 ++ evs2), k2. by rewrite (run_app_refs _ _ _ _ Hr1).
Qed.

(** ** Everything that happens between two calls *)

Lemma models_same s s' c k : same_refs s s' → models s c k → models s' c k.
Proof. unfold same_refs. intros E [Hm Ht]. split; [congruence|done]. Qed.

Lemma stable_queue ev : stable same_refs (queue_step (G := G) ev).
Proof. intros s o s'. unfold queue_step. destruct (LogQueue.step _ _ _) as [[q o']|]; [|done]. by intros [= <- <-]. Qed.
Hint Resolve stable_queue : stable.

Lemma stable_produce_refs : stable same_refs (produce (G := G)).
Proof. unfold produce. stable. Qed.

Lemma asyncs_serial evs : ∀ s k u s', models s Idle k → run_asyncs evs s = Ok (u, s') → serial_run k s' Idle.
Proof.
  induction evs as [|ev evs IH]; intros s k u s' Hm Hr; [injection Hr as _ <-; by apply serial_refl|].
  cbn [run_asyncs] in Hr. apply bind_inv in Hr as (u1 & s1 & E1 & Hr). destruct ev as [n|]; cbn [run_async] in E1.
  - eapply serial_trans; [by eapply run_pending_serial|]. intros k1 Hm1. by eapply IH.
  - apply stable_produce_refs in E1. eapply IH; [|exact Hr]. by eapply models_same.
Qed.

Lemma drain_serial n : ∀ s k u s', models s Idle k → drain_pending n s = Ok (u, s') → serial_run k s' Idle.
Proof.
  induction n as [|n IH]; intros s k u s' Hm Hr; [injection Hr as _ <-; by apply serial_refl|].
  cbn [drain_pending] in Hr. unfold mbind at 1, st_bind at 1, st_get in Hr.
  case_match; [injection Hr as _ <-; by apply serial_refl|]. apply bind_inv in Hr as (u1 & s1 & E1 & Hr).
  eapply serial_trans; [by eapply run_pending_serial|]. intros k1 Hm1. by eapply IH.
Qed.

Lemma settle_serial s k u s' : models s Idle k → settle s = Ok (u, s') → serial_run k s' Idle.
Proof.
  intros Hm. unfold settle. unfold mbind at 1, st_bind at 1, st_get at 1. intros (u1 & s1 & E1 & Hr)%bind_inv.
  injection E1 as _ <-. apply bind_inv in Hr as (u2 & s2 & E2 & Hr).
  eapply serial_trans; [eapply asyncs_serial; [|exact E2]; by eapply models_same|]. intros k1 Hm1.
  unfold mbind at 1, st_bind at 1, st_get in Hr. by eapply drain_serial.
Qed.

(** ** Closing and opening *)

Lemma stable_on_fhs_refs (c : option Bitmap.bitmap → res (Z * option Bitmap.bitmap)) : stable same_refs (on_fhs (G := G) c).
Proof. intros s z s'. unfold on_fhs. destruct (c (g_fhs s)) as [[? ?]|]; [|done]. by intros [= <- <-]. Qed.
Hint Resolve stable_on_fhs_refs : stable.

Lemma stable_lookup_fh_refs fh : stable same_refs (lookup_fh (G := G) fh).
Proof.
  unfold lookup_fh. intros s. apply stable_bind; [typeclasses eauto|by apply stable_on_fhs_refs|]. intros z s1.
  destruct (z <? 0); [apply stable_ret; typeclasses eauto|]. intros o s2. unfold file_at. case_match; [|done]. by intros [= <- <-].
Qed.

(** Closing a handle; [i] is its slot in the concurrent model. *)
Lemma close_serial s k fh i p s1 e s' :
  models s Idle k → lookup_fh fh s = Ok (Some p, s1) → c_fhs k !! i = Some (Holds p) →
  gdpfs_file_close fh s = Ok (e, s') → serial_run k s' Idle.
Proof.
  intros Hm Hfh Hi. unfold gdpfs_file_close. rewrite (bind_ok _ _ _ _ _ Hfh).
  intros (z & s2 & E2%stable_on_fhs_refs & Hr)%bind_inv. apply stable_lookup_fh_refs in Hfh.
  eapply (serial_step _ (EvClose 0 i) (set_pc 0 (Unref p) (set_slot i Free k))).
  { unfold step. rewrite Hi. destruct Hm as [_ Ht]. rewrite Ht. by rewrite decide_True. }
  eapply unref_serial; [|exact Hr]. split; [|destruct Hm as [_ Ht]; cbn; by rewrite Ht].
  transitivity (erase k); [done|]. destruct Hm as [-> _]. unfold same_refs in *. congruence.
Qed.

(** Opening a file that has an object: the part of [open_file] under [open_lock]. *)
Definition find_and_ref (g : file_gname) : st (gfs G) (option floc) :=
  '(_, o) ← find_file g;
  match o with
  | None => mret None
  | Some p => _ ← _file_ref p; mret (Some p)
  end.

Lemma open_serial s k g i p F o s' :
  models s Idle k → c_fhs k !! i = Some Free →
  file_hash s !! g = Some p → g_objs s !! p = Some F → (recently_closed F = true → p ∈ recently_closed_list s) →
  find_and_ref g s = Ok (o, s') → serial_run k s' Idle ∧ o = Some p.
Proof.
  intros Hm Hi Hg HF Hin. unfold find_and_ref, find_file. intros ([e o1] & s1 & E1 & Hr)%bind_inv.
  unfold mbind at 1, st_bind at 1, st_get in E1. rewrite Hg in E1.
  apply bind_inv in E1 as (F1 & s2 & HF1 & E1). unfold the_file in HF1. rewrite HF in HF1. injection HF1 as <- <-.
  destruct Hm as [Hm Ht].
  assert (c_objs k !! p = Some (cfile_of F)) as HFk.
  { change (c_objs (erase k) !! p = Some (cfile_of F)). rewrite Hm. unfold abs. cbn. by rewrite lookup_fmap, HF. }
  assert (step k (EvOpen 0 i g true) = Some (open_search 0 i g true k)) as Hs1.
  { unfold step. rewrite decide_True; [done|]. split_and!; [by rewrite Ht|done|exact (f_equal c_open_lock Hm)]. }
  unfold open_search, deref in Hs1. assert (c_hash k !! g = Some p) as Hgk.
  { rewrite <-Hg. exact (f_equal (λ k, c_hash k !! g) Hm). }
  rewrite Hgk, HFk in Hs1. cbn [cfile_of cf_recently_closed] in Hs1.
  apply bind_inv in E1 as (u2 & s2 & E2 & E1). injection E1 as <- <- <-.
  apply bind_inv in Hr as (e3 & s3 & E3 & Hr). injection Hr as <- <-. split; [|done].
  unfold _file_ref in E3. apply bind_inv in E3 as (u4 & s4 & E4 & E3). injection E3 as _ <-.
  apply (update_abs p _ (λ F, with_ref (wrap32 (cf_ref_count F + 1)) F)) in E4 as (F4 & HF4 & E4); [|done].
  destruct (recently_closed F) eqn:Hrc.
  - unfold _recently_closed_revive in E2. apply bind_inv in E2 as (F5 & s5 & [-> _]%the_file_abs & E2).
    apply bind_inv in E2 as (u6 & s6 & E6 & E2). destruct (recently_closed F5); [|done]. injection E6 as _ <-.
    apply bind_inv in E2 as (u7 & s7 & E7 & E2). injection E2 as _ <-.
    apply (update_abs p _ (with_closed false)) in E7 as (F7 & HF7 & E7); [|done].
    assert (F7 = cfile_of F) as -> by (rewrite <-Hm in HF7; cbn in HF7; congruence).
    change (c_objs (abs s7) !! p = Some F4) in HF4. rewrite E7 in HF4. cbn in HF4. rewrite lookup_insert_eq in HF4. injection HF4 as <-.
    eapply serial_step; [exact Hs1|].
    assert (recently_closed_list s = c_list k) as Hl by (symmetry; exact (f_equal c_list Hm)).
    eapply (serial_step _ (EvStep 0 false)).
    { unfold step, thread_step. cbn. rewrite Ht. cbn. unfold open_revive, deref. cbn. rewrite lookup_insert_eq.
      rewrite decide_True; [reflexivity|]. rewrite <-Hl. by apply Hin. }
    eapply (serial_step _ (EvStep 0 false)).
    { unfold step, thread_step. cbn. rewrite Ht. cbn. unfold open_ref, deref. cbn. by rewrite lookup_insert_eq. }
    apply serial_refl. split; [|cbn; by rewrite Ht]. rewrite E4.
    change (abs (set_rc (filter (λ q, q ≠ p) (recently_closed_list s7)) (recently_closed_size s7 - 1) s7))
      with (set_clist (filter (λ q, q ≠ p) (c_list (abs s7))) (c_size (abs s7) - 1) (abs s7)).
    rewrite E7, <-Hm. change (c_open_lock (erase k)) with (c_open_lock k). unfold erase at 1.
    assert (c_open_lock k = None) as Hlk by exact (f_equal c_open_lock Hm). unfold erase. cbn. by rewrite Hlk.
  - injection E2 as _ <-. assert (F4 = cfile_of F) as -> by (rewrite <-Hm in HF4; cbn in HF4; congruence).
    eapply serial_step; [exact Hs1|].
    eapply (serial_step _ (EvStep 0 false)).
    { unfold step, thread_step. cbn. rewrite Ht. cbn. unfold open_ref, deref. cbn. by rewrite HFk. }
    apply serial_refl. split; [|cbn; by rewrite Ht]. rewrite E4, <-Hm.
    assert (c_open_lock k = None) as Hlk by exact (f_equal c_open_lock Hm). unfold erase. cbn. by rewrite Hlk.
Qed.
End serial.

(** ** Theorem *)

Section theorem.
Context {G : Type} `{GdpOps G} `{!Heap.Allocator} `{!FileConfig}.

(** C12: The calls of the sequential model are serial schedules of the concurrent
    one.  From a state of [File], and the same state of [FileConc] with one thread:
    the callbacks and productions before a call are a run of that thread, for every
    schedule; so is closing a handle, with the eviction and the checkpoint it may
    cause; and so is the part of opening a file that is already open, or recently
    closed, up to its reference. *)
Theorem file_calls_serial (s : gfs G) k :
  models s Idle k →
  (∀ u s', settle s = Ok (u, s') → serial_run k s' Idle) ∧
  (∀ fh i p s1 e s', lookup_fh fh s = Ok (Some p, s1) → c_fhs k !! i = Some (Holds p) →
    gdpfs_file_close fh s = Ok (e, s') → serial_run k s' Idle) ∧
  (∀ g i p F o s', c_fhs k !! i = Some Free → file_hash s !! g = Some p → g_objs s !! p = Some F →
    (recently_closed F = true → p ∈ recently_closed_list s) →
    find_and_ref g s = Ok (o, s') → serial_run k s' Idle ∧ o = Some p).
Proof.
  intros Hm. split_and!.
  - intros u s'. by apply settle_serial.
  - intros fh i p s1 e s' Hfh Hi. by eapply close_serial.
  - intros g i p F o s' Hi Hg HF Hin. by eapply open_serial.
Qed.
End theorem.

(** ** An example: a file with two pending appends is closed *)

#[local] Instance serial_config : FileConfig := {| use_cache := true; gcl_mode := GDP_MODE_RA; HOLE_BLOCK := 4 |}.
#[local] Existing Instance Heap.bump_allocator.

Definition serial_start : res (Z * gfs gdp_logs) :=
  (_ ← gdpfs_file_create GDPFS_FILE_TYPE_REGULAR 420; gdpfs_file_write 0 [1; 2; 3] 0)
    (init_gdpfs_file (mkSys ∅ ∅) [[AsyncCallback 1; AsyncProduce]]).

(** The concurrent state of [s], with the file of handle 0. *)
Definition conc_of (s : gfs gdp_logs) (p : floc) : conc :=
  mkConc (cfile_of <$> g_objs s) 100 (file_hash s) (recently_closed_list s) (recently_closed_size s) None
    [Holds p; Free] (g_pending s) [] [Idle].

(** The callbacks before and after [settle], the file of handle 0, and the status
    of closing it. *)
Definition serial_summary : option (list callback * list callback * option floc * stat) :=
  match serial_start with
  | Ok (_, s) =>
      match settle s, lookup_fh 0 s, gdpfs_file_close 0 s with
      | Ok (_, s'), Ok (o, _), Ok (e, _) => Some (g_pending s, g_pending s', o, e)
      | _, _, _ => None
      end
  | Fault _ => None
  end.

Example ex_serial_summary :
  serial_summary = Some ([CbFreeFileref 2; CbFreeFileref 2], [CbFreeFileref 2], Some 2%positive, GDPFS_STAT_OK).
Proof. vm_compute. reflexivity. Qed.

Lemma file_calls_serial_witness :
  ∃ z s, serial_start = Ok (z, s) ∧ g_pending s = [CbFreeFileref 2; CbFreeFileref 2] ∧
    (∃ s', settle s = Ok (tt, s') ∧ g_pending s' = [CbFreeFileref 2] ∧ serial_run (conc_of s 2) s' Idle) ∧
    (∃ s', gdpfs_file_close 0 s = Ok (GDPFS_STAT_OK, s') ∧ serial_run (conc_of s 2) s' Idle).
Proof.
  pose proof ex_serial_summary as Hs. unfold serial_summary in Hs.
  destruct serial_start as [[z s]|f] eqn:E; [|discriminate]. exists z, s.
  destruct (settle s) as [[[] s1]|] eqn:E1; [|discriminate].
  destruct (lookup_fh 0 s) as [[o s2]|] eqn:E2; [|discriminate].
  destruct (gdpfs_file_close 0 s) as [[e s3]|] eqn:E3; [|discriminate].
  injection Hs as Hp Hp1 -> ->.
  destruct (file_calls_serial s (conc_of s 2) (conj eq_refl eq_refl)) as (Hsettle & Hclose & _).
  split; [done|]. split; [done|]. split.
  - exists s1. split; [done|]. split; [done|]. exact (Hsettle _ _ E1).
  - exists s3. split; [done|]. exact (Hclose 0 0%nat 2%positive s2 _ _ E2 eq_refl E3).
Defined.
