(* ===== verification/Mount.v ===== *)
(** * The whole program on a log service

    [gdpfs_run] starts the file layer and the directory layer on a log service and
    serves requests.  The FUSE operations, the directories, the files, the log
    entries and the FIG trees are composed as in the code; what remains abstract
    is the service. *)
From S2P Require Import Prelude.
From S2P Require Import State.
From S2P Require Import Types.
From S2P Require Import Posix.
From S2P Require Heap.
From S2P Require Import Bitmap.
From S2P Require Import LogQueue.
From S2P Require Import FileIface.
From S2P Require Import Fresh.
From S2P Require Import Gdp.
From S2P Require Import LogEnt.
From S2P Require Import LogEntProof.
From S2P Require Import File.
From S2P Require Import FileSpec.
From S2P Require Import FileFocus.
From S2P Require Import FileRead.
From S2P Require Import FileRep.
From S2P Require Import FileLaws.
From S2P Require Import FileStart.
From S2P Require Import Dir.
From S2P Require Import DirSpec.
From S2P Require Import FsPath.
From S2P Require Import FsSpec.
From S2P Require Import FsDir.
From S2P Require Import FsOps.
From S2P Require Import FsTree.
From S2P Require Import Fuse.
From S2P Require Import FuseSpec.
From S2P Require Import FuseProof.
From S2P Require Import FuseTheorems.

#[local] Open Scope Z_scope.

Section mount.
Context {G : Type} `{GdpLaws G} `{!Heap.Allocator} `{!FileConfig}.
Implicit Types (s : gfs G) (y : sys G) (L : gdp_logs) (files : gmap file_gname afile).

(** [gdpfs_run] up to [gdpfs_stop], with the requests of a client; [None] if the
    root directory cannot be opened. *)
Definition gdpfs_run (fuel : nat) (root : file_gname) (mode : gdpfs_file_mode) (c : client)
    : st (gfs G) (option (list response)) :=
  estat ← init_gdpfs_dir root;
  if negb (EP_STAT_ISOK estat) then mret None else
  xs ← run_client fuel root mode c;
  mret (Some xs).

(** A root log without entries becomes an empty directory. *)
Definition with_root files (root : file_gname) : gmap file_gname afile :=
  match files !! root with
  | Some f => a_files (init_file (mkAfs files ∅) root f GDPFS_FILE_TYPE_DIR GDPFS_ROOT_DEFAULT_PERM)
  | None => files
  end.

Lemma init_dir_ok s files root :
  files_rep s (mkAfs files ∅) → is_Some (files !! root) →
  ∃ s', init_gdpfs_dir root s = Ok (GDPFS_STAT_OK, s') ∧ files_rep s' (mkAfs (with_root files root) ∅).
Proof.
  intros Hr [f Hf]. change (file_rep s (mkAfs files ∅)) in Hr. unfold init_gdpfs_dir, with_root. rewrite Hf.
  destruct (open_init_ok s (mkAfs files ∅) root f GDPFS_FILE_TYPE_DIR GDPFS_ROOT_DEFAULT_PERM Hr Hf)
    as (fh & s1 & Hopen & Hfh & Hfree & Hr1); [change (size (∅ : gmap Z file_gname) < 1024)%nat; rewrite map_size_empty; lia|done|done|].
  rewrite (bind_ok _ _ _ _ _ Hopen). cbv beta iota. cbn [EP_STAT_ISOK].
  destruct (close_ok s1 _ fh root Hr1) as (e & s2 & Hclose & Hr2); [apply lookup_insert_eq|].
  exists s2. split; [by unfold mbind, st_bind; rewrite Hclose|].
  assert (drop_handle (set_handle (init_file (mkAfs files ∅) root f GDPFS_FILE_TYPE_DIR GDPFS_ROOT_DEFAULT_PERM) fh root) fh =
    mkAfs (a_files (init_file (mkAfs files ∅) root f GDPFS_FILE_TYPE_DIR GDPFS_ROOT_DEFAULT_PERM)) ∅) as <-; [|done].
  unfold drop_handle, set_handle, init_file. destruct (decide _); simpl; f_equal; by rewrite delete_insert_id.
Qed.

(** The file system on a disk when the program has started. *)
Definition disk_fs files root : fs := view (mkAfs (with_root files root) ∅).

Lemma mount_fs_rep fuel y sched L files root k :
  use_cache = true → gcl_mode = GDP_MODE_RA → gdp_rep (sys_gdp y) L → logs_hold L files →
  Z.of_nat (size files) ≤ RC_CAP → log_room L → is_Some (files !! root) →
  fs_inv k (mkAfs (with_root files root) ∅) → room (S := gfs G) fuel k → has_root (disk_fs files root) root →
  ∃ s', init_gdpfs_dir root (init_gdpfs_file y sched) = Ok (GDPFS_STAT_OK, s') ∧
    fs_rep fuel root k s' (disk_fs files root).
Proof.
  intros Hu Hmode HG HL Hsize Hroom Hroot Hinv Hfuel Hdir.
  destruct (init_dir_ok (init_gdpfs_file y sched) files root) as (s' & Hrun & Hr); [by eapply mount_rep|done|].
  exists s'. split; [done|]. exists (mkAfs (with_root files root) ∅). split; [|done]. by constructor.
Qed.

Lemma serves_client fuel y sched L files root mode k n c :
  use_cache = true → gcl_mode = GDP_MODE_RA → gdp_rep (sys_gdp y) L → logs_hold L files →
  Z.of_nat (size files) ≤ RC_CAP → log_room L → is_Some (files !! root) →
  fs_inv k (mkAfs (with_root files root) ∅) → has_root (disk_fs files root) root →
  room (S := gfs G) fuel (k + n) → valid (S := gfs G) root mode (disk_fs files root) n c →
  ∃ o, client_spec root mode (disk_fs files root) c o ∧
    match o with
    | Done xs F' => ∃ s', gdpfs_run fuel root mode c (init_gdpfs_file y sched) = Ok (Some xs, s') ∧
        fs_rep fuel root (k + n) s' F'
    | Crash f => gdpfs_run fuel root mode c (init_gdpfs_file y sched) = Fault f
    end.
Proof.
  intros Hu Hmode HG HL Hsize Hroom Hroot Hinv Hdir Hfuel Hv.
  assert (room (S := gfs G) fuel k) as Hk.
  { destruct Hfuel as [? Ho]. split; [lia|]. unfold ent_offset, sizeof_phys in *. lia. }
  destruct (mount_fs_rep fuel y sched L files root k) as (s1 & Hinit & Hs1); [done..|].
  destruct (fuse_client_delivers fuel root mode c n k s1 _ Hs1 Hfuel Hv) as (o & Hspec & Ho).
  exists o. split; [done|]. unfold gdpfs_run. rewrite (bind_ok _ _ _ _ _ Hinit). cbv beta. cbn [EP_STAT_ISOK negb].
  destruct o as [xs F'|f].
  - destruct Ho as (s' & Hrun & Hs'). exists s'. by rewrite (bind_ok _ _ _ _ _ Hrun).
  - unfold mbind, st_bind. by rewrite Ho.
Qed.


(** ** Restarting *)

(** The logs of a process that was killed, as a new process finds them. *)
Definition remount s (local : gmap local_name (list (option Z))) (sched : list (list async_event)) : gfs G :=
  init_gdpfs_file (mkSys (sys_gdp (g_sys s)) local) sched.

Lemma fs_inv_no_handles k a : fs_inv k a → fs_inv k (mkAfs (a_files a) ∅).
Proof. intros []. by constructor. Qed.

Lemma with_root_same a root : has_root (view a) root → with_root (a_files a) root = a_files a.
Proof.
  unfold has_root, dir_entries, with_root. simpl. rewrite lookup_fmap.
  destruct (a_files a !! root) as [f|]; [|done]. unfold init_file. intros [m Hm].
  rewrite decide_False; [done|]. intros Ht. unfold inode_of in Hm. simpl in Hm. by rewrite Ht in Hm.
Qed.

Lemma restart_rep fuel root k s F :
  use_cache = true → fs_rep fuel root k s F →
  ∃ L, gdp_rep (sys_gdp (g_sys s)) L ∧
    (log_room L → ∀ local sched, ∃ s',
       init_gdpfs_dir root (remount s local sched) = Ok (GDPFS_STAT_OK, s') ∧
       fs_rep fuel root k s' (mkFs (nodes F) ∅)).
Proof.
  intros Hu (a & Hg & <-). destruct Hg as [Hr Hinv Hroom Hroot].
  destruct (rep_on_disk s a Hr) as (L & HG & HL & Hmode & Hsize). exists L. split; [done|].
  intros Hlog local sched. unfold remount. pose proof (with_root_same a root Hroot) as Hsame.
  assert (disk_fs (a_files a) root = mkFs (nodes (view a)) ∅) as Hdisk by (unfold disk_fs; by rewrite Hsame).
  rewrite <-Hdisk. eapply mount_fs_rep; try done.
  - unfold has_root, dir_entries in Hroot. simpl in Hroot. rewrite lookup_fmap in Hroot.
    destruct (a_files a !! root); [by eexists|]. by destruct Hroot.
  - rewrite Hsame. by apply fs_inv_no_handles.
  - by rewrite Hdisk.
Qed.


End mount.

(** ** An example

    The reference service with an empty root log. *)
#[export] Instance ex_config : FileConfig := {| use_cache := true; gcl_mode := GDP_MODE_RA; HOLE_BLOCK := 4 |}.

#[local] Existing Instance Heap.bump_allocator.

Definition ex_logs : gdp_logs := {[ ex_root := [] ]}.
Definition ex_files : gmap file_gname afile := {[ ex_root := file_of [] ]}.
Definition ex_sched : list (list async_event) :=
  [[AsyncProduce; AsyncProduce]; []; [AsyncCallback 0]; []; [AsyncCallback 1; AsyncProduce]].

Example ex_gdpfs_run :
  result (gdpfs_run 10 ex_root GDPFS_FILE_MODE_RW ex_client (init_gdpfs_file (mkSys ex_logs ∅) ex_sched)) =
  Some (Some [RHandle 0 (Some 1); RInt 2; RData 5 [0; 0; 0; 104; 105]; RStat 0 (Some (mkStat 33188 1 5))]).
Proof. vm_compute. reflexivity. Qed.

Lemma ex_with_root : mkAfs (with_root ex_files ex_root) ∅ = ex_state.
Proof.
  unfold with_root, ex_files. rewrite lookup_singleton_eq. unfold init_file. rewrite decide_True by done.
  unfold set_file, ex_state. cbn [a_files]. rewrite insert_singleton_eq. reflexivity.
Qed.

Lemma ex_logs_hold : logs_hold ex_logs ex_files.
Proof.
  exists {[ ex_root := [] ]}. split; [by unfold ex_files; rewrite map_fmap_singleton|].
  intros g es [<- <-]%lookup_singleton_Some. split; [apply lookup_singleton_eq|done].
Qed.

Lemma ex_inv k : fs_inv k (mkAfs (with_root ex_files ex_root) ∅).
Proof.
  rewrite ex_with_root. constructor; simpl.
  - intros g f [<- <-]%lookup_singleton_Some. split; [done|]. by apply Forall_replicate.
  - by intros g f [<- <-]%lookup_singleton_Some.
  - intros g f [<- <-]%lookup_singleton_Some _. constructor; [constructor; done|by apply NoDup_nil|simpl; lia].
  - by intros g f n g' [<- <-]%lookup_singleton_Some.
  - by intros fh g.
Qed.

Lemma ex_disk : disk_fs ex_files ex_root = ex_fs.
Proof. unfold disk_fs. by rewrite ex_with_root. Qed.

Lemma ex_log_room : log_room ex_logs.
Proof. unfold log_room, ex_logs. rewrite map_size_singleton. done. Qed.

Lemma ex_room k : (k < 10)%nat → room (S := gfs gdp_logs) 10 k.
Proof. intros Hk. split; [lia|]. unfold ent_offset, sizeof_phys. change (max_offset (S := gfs gdp_logs)) with 4294967295. lia. Qed.

Lemma ex_mount_valid mode : valid (S := gfs gdp_logs) ex_root mode ex_fs 4 ex_client.
Proof. apply ex_valid; [|done|done]. change (8 ≤ 1024)%nat. lia. Qed.


Lemma ex_mounted k : (k < 10)%nat → ∃ s,
  init_gdpfs_dir ex_root (init_gdpfs_file (mkSys ex_logs ∅) ex_sched) = Ok (GDPFS_STAT_OK, s) ∧
  fs_rep 10 ex_root k s ex_fs.
Proof.
  intros Hk. rewrite <-ex_disk. apply (mount_fs_rep _ _ _ ex_logs).
  - done.
  - done.
  - done.
  - apply ex_logs_hold.
  - unfold ex_files. by rewrite map_size_singleton.
  - apply ex_log_room.
  - unfold ex_files. rewrite lookup_singleton_eq. by eexists.
  - apply ex_inv.
  - by apply ex_room.
  - rewrite ex_disk. by eexists.
Qed.

