(* ===== verification/History.v ===== *)
(** * The logs only grow, and a read-only mount leaves them alone

    Whatever the requests and the data are, no run of the program changes or
    removes a record of a log: the logs after it extend the logs before it.  On a
    mount whose logs are opened in mode [GDP_MODE_RO] no record is added either;
    all that happens to the service is the creation of empty logs by the producer
    thread.  Nothing is assumed of the state or of the requests. *)
From S2P Require Import Prelude.
From S2P Require Heap.
From S2P Require Import State.
From S2P Require Import Types.
From S2P Require Import Posix.
From S2P Require Import FileIface.
From S2P Require Import Fresh.
From S2P Require Import LogQueue.
From S2P Require Import FigNode.
From S2P Require Import FigTree.
From S2P Require Import Gdp.
From S2P Require Import LogEnt.
From S2P Require Import File.
From S2P Require Import Dir.
From S2P Require Import FsSpec.
From S2P Require Import FuseSpec.
From S2P Require Import FuseTheorems.
From S2P Require Import Stable.
From S2P Require Import Mount.

#[local] Open Scope Z_scope.

(** ** The modes of the logs *)

(** [gdpfs_log_mode]; [gdpfs_file_mode] is converted to it by its number. *)
Inductive gdpfs_log_mode := GDPFS_LOG_MODE_RO | GDPFS_LOG_MODE_RA | GDPFS_LOG_MODE_AO.

Definition log_mode_of (mode : gdpfs_file_mode) : gdpfs_log_mode :=
  match mode with
  | GDPFS_FILE_MODE_RO => GDPFS_LOG_MODE_RO
  | GDPFS_FILE_MODE_RW => GDPFS_LOG_MODE_RA
  | GDPFS_FILE_MODE_WO => GDPFS_LOG_MODE_AO
  end.

(** The choice of [gcl_mode] in [init_gdpfs_log]. *)
Definition init_gdpfs_log (log_mode : gdpfs_log_mode) : gdp_iomode :=
  match log_mode with
  | GDPFS_LOG_MODE_RO => GDP_MODE_RO
  | GDPFS_LOG_MODE_RA => GDP_MODE_RA
  | GDPFS_LOG_MODE_AO => GDP_MODE_AO
  end.

(** ** Histories *)

(** Every record is still there. *)
Definition extends (L L' : gdp_logs) : Prop :=
  ∀ g l, L !! g = Some l → ∃ more, L' !! g = Some (l ++ more).

(** No record was added. *)
Definition quiet (L L' : gdp_logs) : Prop :=
  ∀ g, L' !! g = L !! g ∨ (L !! g = None ∧ L' !! g = Some []).

#[export] Instance extends_preorder : PreOrder extends.
Proof.
  split.
  - intros L g l Hl. exists []. by rewrite app_nil_r.
  - intros L1 L2 L3 H12 H23 g l Hl. destruct (H12 _ _ Hl) as [m Hm]. destruct (H23 _ _ Hm) as [m' Hm'].
    exists (m ++ m'). by rewrite app_assoc.
Qed.

#[export] Instance quiet_preorder : PreOrder quiet.
Proof.
  split; [by intros L g; left|]. intros L1 L2 L3 H12 H23 g.
  destruct (H12 g) as [E1|[E1 E1']], (H23 g) as [E2|[E2 E2']]; rewrite ?E1 in *; try congruence; eauto.
  - right. by rewrite E2.
Qed.

Lemma quiet_extends L L' : quiet L L' → extends L L'.
Proof.
  intros H g l Hl. destruct (H g) as [E|[E _]]; [|congruence]. exists []. by rewrite app_nil_r, E.
Qed.

(** What is assumed of the client library: only the two append functions add
    records, at the end of a log. *)
Class GdpHistory (G : Type) `{GdpOps G} := {
  gdp_history : G → gdp_logs;
  history_create s r s' : gdp_gcl_create s = Ok (r, s') → quiet (gdp_history s) (gdp_history s');
  history_open g m s r s' : gdp_gcl_open g m s = Ok (r, s') → quiet (gdp_history s) (gdp_history s');
  history_close c s r s' : gdp_gcl_close c s = Ok (r, s') → quiet (gdp_history s) (gdp_history s');
  history_read c n d s r s' : gdp_gcl_read c n d s = Ok (r, s') → quiet (gdp_history s) (gdp_history s');
  history_append c d s r s' : gdp_gcl_append c d s = Ok (r, s') → extends (gdp_history s) (gdp_history s');
  history_append_async c d s r s' :
    gdp_gcl_append_async c d s = Ok (r, s') → extends (gdp_history s) (gdp_history s');
}.

Lemma alter_extends (L : gdp_logs) g r : extends L (alter (λ l, l ++ [r]) g L).
Proof.
  intros g' l Hl. destruct (decide (g = g')) as [->|Hne].
  - exists [r]. by rewrite lookup_alter_eq, Hl.
  - exists []. by rewrite lookup_alter_ne, app_nil_r.
Qed.

#[export] Program Instance ref_gdp_history : GdpHistory gdp_logs := {| gdp_history := id |}.
Next Obligation.
  intros s r s'. unfold gdp_gcl_create, ref_gdp. destruct (least_free _ _ _) as [i|] eqn:E; intros [= <- <-]; [|reflexivity].
  apply least_free_Some in E as [Hf _]. apply bool_decide_eq_false, eq_None_not_Some in Hf.
  unfold gdp_history, id. intros g. destruct (decide (g = ref_name i)) as [->|Hne].
  - right. by rewrite lookup_insert_eq.
  - left. by rewrite lookup_insert_ne.
Qed.
Next Obligation. intros g m s r s' E. assert (s = s') as ->; [|reflexivity]. simpl in E. case_match; by injection E. Qed.
Next Obligation. by intros c s r s' [= <- <-]. Qed.
Next Obligation.
  intros g n d s r s'. simpl. intros E. assert (s = s') as ->; [|reflexivity].
  repeat case_match; by injection E.
Qed.
Next Obligation. intros g d s r s' [= <- <-]. apply alter_extends. Qed.
Next Obligation. intros g d s r s' [= <- <-]. apply alter_extends. Qed.

Section history.
Context {G : Type} `{GdpHistory G} `{!Heap.Allocator} `{!FileConfig}.

(** Everything below holds for [quiet], on read-only logs, and for [extends]. *)
Context (R : relation gdp_logs) `{!PreOrder R}.
Hypothesis R_quiet : ∀ L L', quiet L L' → R L L'.
Hypothesis R_append : gcl_mode ≠ GDP_MODE_RO → ∀ L L', extends L L' → R L L'.

Definition on_gdp (a b : G) : Prop := R (gdp_history a) (gdp_history b).
Definition on_service (y y' : sys G) : Prop := on_gdp (sys_gdp y) (sys_gdp y').
Definition on_state (s s' : gfs G) : Prop := on_service (g_sys s) (g_sys s').

#[local] Instance on_gdp_preorder : PreOrder on_gdp.
Proof. split; [intros a; unfold on_gdp; reflexivity|intros a b c; unfold on_gdp; apply transitivity]. Qed.
#[local] Instance on_service_preorder : PreOrder on_service.
Proof. split; [intros a; unfold on_service; reflexivity|intros a b c; unfold on_service; apply transitivity]. Qed.
#[local] Instance on_state_preorder : PreOrder on_state.
Proof. split; [intros a; unfold on_state; reflexivity|intros a b c; unfold on_state; apply transitivity]. Qed.

(** ** Log entries *)

Lemma stable_in_gdp {A} (c : st G A) : stable on_gdp c → stable on_service (in_gdp c).
Proof.
  intros Hc y a y'. unfold in_gdp. destruct (c (sys_gdp y)) as [[b g]|] eqn:E; intros [= <- <-].
  exact (Hc _ _ _ E).
Qed.

Lemma stable_read_gdp c n d : stable on_gdp (gdp_gcl_read c n d).
Proof. intros s r s' E. eapply R_quiet, history_read, E. Qed.
Lemma stable_open_gdp g m : stable on_gdp (gdp_gcl_open g m).
Proof. intros s r s' E. eapply R_quiet, history_open, E. Qed.
Lemma stable_create_gdp : stable on_gdp gdp_gcl_create.
Proof. intros s r s' E. eapply R_quiet, history_create, E. Qed.

Lemma on_service_same y y' : sys_gdp y = sys_gdp y' → on_service y y'.
Proof. unfold on_service. by intros ->. Qed.

Lemma stable_on_fd {A} fd (c : fd_prog A) : stable on_service (on_fd fd c).
Proof. intros y a y'. unfold on_fd. repeat case_match; intros [= <- <-]. by apply on_service_same. Qed.
Lemma stable_local_open n : stable on_service (local_open (G := G) n).
Proof. intros y a y'. unfold local_open. case_match; intros [= <- <-]; by apply on_service_same. Qed.
Lemma stable_local_create n : stable on_service (local_create (G := G) n).
Proof. intros y a y' [= <- <-]. by apply on_service_same. Qed.
Lemma stable_local_create_trunc n : stable on_service (local_create_trunc (G := G) n).
Proof. intros y a y' [= <- <-]. by apply on_service_same. Qed.
Lemma stable_local_size fd : stable on_service (local_size (G := G) fd).
Proof. intros y a y' [= <- <-]. by apply on_service_same. Qed.
Hint Resolve stable_in_gdp stable_read_gdp stable_open_gdp stable_create_gdp stable_on_fd stable_local_open
  stable_local_create stable_local_create_trunc stable_local_size : stable.

Lemma stable_the_datum ent : stable on_service (the_datum (G := G) ent).
Proof. unfold the_datum. stable. Qed.
Lemma stable_the_fd ent : stable on_service (the_fd (G := G) ent).
Proof. unfold the_fd. stable. Qed.
Hint Resolve stable_the_datum stable_the_fd : stable.

Lemma stable_log_open g : stable on_service (gdpfs_log_open gcl_mode g).
Proof. unfold gdpfs_log_open. stable. Qed.
Lemma stable_ent_open h n b : stable on_service (gdpfs_log_ent_open gcl_mode h n b).
Proof. unfold gdpfs_log_ent_open. stable. Qed.
Lemma stable_ent_close ent : stable on_service (gdpfs_log_ent_close ent).
Proof. unfold gdpfs_log_ent_close. stable. Qed.
Lemma stable_ent_length ent : stable on_service (gdpfs_log_ent_length ent).
Proof. unfold gdpfs_log_ent_length. stable. Qed.
Lemma stable_ent_read ent n : stable on_service (gdpfs_log_ent_read ent n).
Proof. unfold gdpfs_log_ent_read. stable. Qed.
Lemma stable_ent_peek ent n : stable on_service (gdpfs_log_ent_peek ent n).
Proof. unfold gdpfs_log_ent_peek. stable. Qed.
Lemma stable_ent_recno ent : stable on_service (gdpfs_log_ent_recno ent).
Proof. unfold gdpfs_log_ent_recno. stable. Qed.
Lemma stable_ent_write ent bs : stable on_service (gdpfs_log_ent_write ent bs).
Proof. unfold gdpfs_log_ent_write. stable. Qed.
Lemma stable_ent_drain ent n : stable on_service (gdpfs_log_ent_drain ent n).
Proof. unfold gdpfs_log_ent_drain. stable. Qed.

(** The only call that adds records. *)
Lemma stable_append h ent b : stable on_service (gdpfs_log_append gcl_mode h ent b).
Proof.
  unfold gdpfs_log_append. destruct (decide (gcl_mode = GDP_MODE_RO)) as [E|E]; [stable|].
  assert (∀ c d, stable on_gdp (gdp_gcl_append c d) ∧ stable on_gdp (gdp_gcl_append_async c d)) as Ha.
  { intros c d. split; intros s r s' Hr; eapply R_append; try done.
    - by eapply history_append.
    - by eapply history_append_async. }
  stable; apply stable_elim, stable_in_gdp, Ha.
Qed.
Hint Resolve stable_log_open stable_ent_open stable_ent_close stable_ent_length stable_ent_read
  stable_ent_peek stable_ent_recno stable_ent_write stable_ent_drain stable_append : stable.

Lemma stable_read_from h n l r : stable on_service (read_from_record h n l r).
Proof. unfold read_from_record. stable. Qed.
Hint Resolve stable_read_from : stable.

(** ** Files *)

Lemma on_state_same s s' : g_sys s = g_sys s' → on_state s s'.
Proof. unfold on_state. by intros ->. Qed.

Hint Extern 1 (on_state _ _) => apply on_state_same; reflexivity : stable.

Lemma stable_on_sys {A} (c : st (sys G) A) : stable on_service c → stable on_state (on_sys c).
Proof.
  intros Hc s a s'. unfold on_sys. destruct (c (g_sys s)) as [[b y]|] eqn:E; intros [= <- <-].
  exact (Hc _ _ _ E).
Qed.

Lemma stable_on_fhs c : stable on_state (on_fhs (G := G) c).
Proof. intros s a s'. unfold on_fhs. repeat case_match; intros [= <- <-]. by apply on_state_same. Qed.
Lemma stable_the_file p : stable on_state (the_file (G := G) p).
Proof. intros s a s'. unfold the_file. case_match; intros [= <- <-]. by apply on_state_same. Qed.
Lemma stable_update_file p f : stable on_state (update_file (G := G) p f).
Proof. intros s a s'. unfold update_file. case_match; intros [= <- <-]. by apply on_state_same. Qed.
Lemma stable_file_at fh : stable on_state (file_at (G := G) fh).
Proof. intros s a s'. unfold file_at. case_match; intros [= <- <-]. by apply on_state_same. Qed.
Lemma stable_queue_step ev : stable on_state (queue_step (G := G) ev).
Proof. intros s a s'. unfold queue_step. repeat case_match; intros [= <- <-]. by apply on_state_same. Qed.
Hint Resolve stable_on_sys stable_on_fhs stable_the_file stable_update_file stable_file_at
  stable_queue_step : stable.

Lemma stable_on_cache {A} p (c : fd_prog A) : stable on_state (on_cache p c).
Proof. unfold on_cache. stable. Qed.
Lemma stable_on_nodes {A} p (c : Heap.prog ft_node A) : stable on_state (on_nodes p c).
Proof. unfold on_nodes. stable. Qed.
Lemma stable_set_tree p t : stable on_state (set_tree (G := G) p t).
Proof. unfold set_tree. stable. Qed.
Hint Resolve stable_on_cache stable_on_nodes stable_set_tree : stable.

Lemma stable_on_index {A} p (c : gdpfs_log → figtree → Heap.prog ft_node A) : stable on_state (on_index p c).
Proof. unfold on_index. stable. Qed.
Lemma stable_lookup_fh fh : stable on_state (lookup_fh (G := G) fh).
Proof. unfold lookup_fh. stable. Qed.
Lemma stable_fill p bs o : stable on_state (gdpfs_file_fill_cache (G := G) p bs o).
Proof. unfold gdpfs_file_fill_cache. stable. Qed.
Lemma stable_get_cache p n o : stable on_state (gdpfs_file_get_cache (G := G) p n o).
Proof. unfold gdpfs_file_get_cache. stable. Qed.
Lemma stable_load_info p : stable on_state (_file_load_info_cache (G := G) p).
Proof. unfold _file_load_info_cache. stable. Qed.
Hint Resolve stable_on_index stable_lookup_fh stable_fill stable_get_cache stable_load_info : stable.

Lemma stable_info_raw p : stable on_state (_file_get_info_raw (G := G) p).
Proof. unfold _file_get_info_raw. stable. Qed.
Hint Resolve stable_info_raw : stable.

Lemma stable_info fh : stable on_state (File.gdpfs_file_get_info (G := G) fh).
Proof. unfold File.gdpfs_file_get_info. stable. Qed.
Lemma stable_index_write p l r v : stable on_state (index_write (G := G) p l r v).
Proof. unfold index_write. stable. Qed.
Lemma stable_index_init p : stable on_state (index_init (G := G) p).
Proof. unfold index_init. stable. Qed.
Lemma stable_add_pending cb : stable on_state (add_pending (G := G) cb).
Proof. unfold add_pending. stable. Qed.
Hint Resolve stable_info stable_index_write stable_index_init stable_add_pending : stable.

Lemma stable_chkpt p b : stable on_state (_file_chkpt (G := G) p b).
Proof. unfold _file_chkpt. stable. Qed.
Hint Resolve stable_chkpt : stable.

Lemma stable_unref p : stable on_state (_file_unref (G := G) p).
Proof. unfold _file_unref, _recently_closed_insert, _file_dealloc. stable. Qed.
Lemma stable_ref p : stable on_state (_file_ref (G := G) p).
Proof. unfold _file_ref. stable. Qed.
Lemma stable_revive p : stable on_state (_recently_closed_revive (G := G) p).
Proof. unfold _recently_closed_revive. stable. Qed.
Hint Resolve stable_unref stable_ref stable_revive : stable.

Lemma stable_file_close fh : stable on_state (File.gdpfs_file_close (G := G) fh).
Proof. unfold File.gdpfs_file_close. stable. Qed.
Lemma stable_callback cb : stable on_state (run_callback (G := G) cb).
Proof. unfold run_callback, free_fileref, _file_chkpt_finish. stable. Qed.
Hint Resolve stable_file_close stable_callback : stable.

Lemma stable_run_pending k : stable on_state (run_pending (G := G) k).
Proof. unfold run_pending. stable. Qed.
Lemma stable_do_write fh bs o i : stable on_state (do_write (G := G) fh bs o i).
Proof. unfold do_write. stable. Qed.
Hint Resolve stable_run_pending stable_do_write : stable.

Lemma stable_set_cached fh i : stable on_state (set_cached_info (G := G) fh i).
Proof. unfold set_cached_info. stable. Qed.
Hint Resolve stable_set_cached : stable.

Lemma stable_read_loop fuel log p o it buf : stable on_state (File.read_loop (G := G) fuel log p o it buf).
Proof. revert it buf. induction fuel as [|fuel IH]; intros it buf; cbn [File.read_loop]; stable. Qed.
Hint Resolve stable_read_loop : stable.

Lemma stable_do_read fh n o : stable on_state (do_read (G := G) fh n o).
Proof. unfold do_read, read_index. stable. Qed.
Hint Resolve stable_do_read : stable.

Lemma stable_collect n p recno ents : stable on_state (collect_ents (G := G) n p recno ents).
Proof.
  revert recno ents. induction n as [|n IH]; intros recno ents; cbn [collect_ents];
    unfold entry_header, load_root; stable.
Qed.
Lemma stable_copy fuel p ent o n k : stable on_state (copy_to_cache (G := G) fuel p ent o n k).
Proof. revert ent k. induction fuel as [|fuel IH]; intros ent k; cbn [copy_to_cache]; stable. Qed.
Hint Resolve stable_collect stable_copy : stable.

Lemma stable_replay p ents : stable on_state (replay (G := G) p ents).
Proof. induction ents as [|ent ents IH]; cbn [replay]; unfold replay_ent, entry_header; stable. Qed.
Hint Resolve stable_replay : stable.

Lemma stable_load_index p b : stable on_state (load_index (G := G) p b).
Proof. unfold load_index. stable. Qed.
Lemma stable_find_file g : stable on_state (find_file (G := G) g).
Proof. unfold find_file. stable. Qed.
Lemma stable_check_type fh p t perm b b' : stable on_state (check_type (G := G) fh p t perm b b').
Proof. unfold check_type. stable. Qed.
Hint Resolve stable_load_index stable_find_file stable_check_type : stable.

Lemma stable_open_file g t p b b' : stable on_state (open_file (G := G) g t p b b').
Proof. unfold open_file. stable. Qed.
Hint Resolve stable_open_file : stable.

Lemma stable_produce : stable on_state (produce (G := G)).
Proof. unfold produce. stable. Qed.
Hint Resolve stable_produce : stable.

Lemma stable_asyncs evs : stable on_state (run_asyncs (G := G) evs).
Proof. induction evs as [|[k|] evs IH]; cbn [run_asyncs run_async]; stable. Qed.
Lemma stable_drain n : stable on_state (drain_pending (G := G) n).
Proof. induction n as [|n IH]; cbn [drain_pending]; stable. Qed.
Hint Resolve stable_asyncs stable_drain : stable.

Lemma stable_settle : stable on_state (settle (G := G)).
Proof. unfold settle. stable. Qed.
Hint Resolve stable_settle : stable.

Lemma stable_stop : stable on_state (stop_gdpfs_file (G := G)).
Proof.
  unfold stop_gdpfs_file. intros s. apply stable_get. generalize (map_to_list (file_hash s)).*2. intros ps.
  apply stable_elim. induction ps as [|p ps IH]; cbn [chkpt_all]; stable.
Qed.

#[local] Instance stable_files : StableFiles (gfs G) on_state.
Proof.
  split; [typeclasses eauto|..]; intros; unfold FileIface.gdpfs_file_open, FileIface.gdpfs_file_open_type,
    FileIface.gdpfs_file_open_init, FileIface.gdpfs_file_create, FileIface.gdpfs_file_close,
    FileIface.gdpfs_file_gname, FileIface.gdpfs_file_read, FileIface.gdpfs_file_write,
    FileIface.gdpfs_file_ftruncate, FileIface.gdpfs_file_set_perm, FileIface.gdpfs_file_get_info, file_ops;
    unfold File.gdpfs_file_open, File.gdpfs_file_open_type, File.gdpfs_file_open_init, File.gdpfs_file_create,
      get_precreated, File.gdpfs_file_open_init, File.gdpfs_file_gname, File.gdpfs_file_read,
      File.gdpfs_file_write, File.gdpfs_file_ftruncate, File.gdpfs_file_set_perm; stable.
Qed.

Lemma stable_run fuel root mode c : stable on_state (gdpfs_run (G := G) fuel root mode c).
Proof.
  unfold gdpfs_run. intros s. apply stable_bind; [typeclasses eauto|apply stable_init_dir|]. intros estat.
  destruct (EP_STAT_ISOK estat); simpl; [|stable]. intros s'.
  apply stable_bind; [typeclasses eauto|apply stable_client|]. stable.
Qed.

(** [gdpfs_stop]; [stop_gdpfs_dir] does nothing. *)
Definition gdpfs_stop : st (gfs G) unit := stop_gdpfs_file.

(** The whole life of a process. *)
Definition gdpfs_session (fuel : nat) (root : file_gname) (mode : gdpfs_file_mode) (c : client)
    : st (gfs G) (option (list response)) :=
  xs ← gdpfs_run fuel root mode c;
  gdpfs_stop;;
  mret xs.

Lemma stable_session fuel root mode c : stable on_state (gdpfs_session fuel root mode c).
Proof.
  intros s. apply stable_bind; [typeclasses eauto|apply stable_run|]. intros xs s'.
  apply stable_bind; [typeclasses eauto|apply stable_stop|]. stable.
Qed.
End history.

Section theorems.
Context {G : Type} `{GdpHistory G} `{!Heap.Allocator} `{!FileConfig}.

(** A relation that holds of quiet logs, and of logs that grew unless they are
    read-only, holds of the logs before and after a run. *)
Lemma run_history (R : relation gdp_logs) fuel root mode c (y : sys G) sched r s' :
  PreOrder R → (∀ L L', quiet L L' → R L L') →
  (gcl_mode ≠ GDP_MODE_RO → ∀ L L', extends L L' → R L L') →
  gdpfs_run fuel root mode c (init_gdpfs_file y sched) = Ok (r, s') ∨
  gdpfs_session fuel root mode c (init_gdpfs_file y sched) = Ok (r, s') →
  R (gdp_history (sys_gdp y)) (gdp_history (sys_gdp (g_sys s'))).
Proof.
  intros HR Hq Ha Hrun. assert (on_state R (init_gdpfs_file y sched) s') as Hs.
  { destruct Hrun as [E|E]; [by eapply stable_run in E|by eapply stable_session in E]. }
  unfold on_state, on_service, on_gdp, init_gdpfs_file in Hs. cbn [g_sys] in Hs. by destruct use_cache.
Qed.

(** C13: History is never rewritten.  Whatever a client asks for, in whatever state
    the service is and for every schedule of completions and creations, the logs
    after a run, with or without the checkpoints of [gdpfs_stop], extend the logs
    before it; and when the logs were opened for a read-only mount, no record is
    added to any log. *)
Theorem history_preserved fuel root mode c (y : sys G) sched :
  (∀ r s', gdpfs_run fuel root mode c (init_gdpfs_file y sched) = Ok (r, s') ∨
           gdpfs_session fuel root mode c (init_gdpfs_file y sched) = Ok (r, s') →
    extends (gdp_history (sys_gdp y)) (gdp_history (sys_gdp (g_sys s'))) ∧
    (gcl_mode = init_gdpfs_log (log_mode_of GDPFS_FILE_MODE_RO) →
     quiet (gdp_history (sys_gdp y)) (gdp_history (sys_gdp (g_sys s'))))).
Proof.
  intros r s' Hrun. split; [|intros Hmode]; eapply run_history; try exact Hrun; try typeclasses eauto; try done.
  apply quiet_extends.
Qed.
End theorems.

(** ** A read-only mount *)

#[local] Existing Instance Heap.bump_allocator.

(** The logs that the example of [Mount] leaves: a directory with the file [f]. *)
Definition rw_logs : gdp_logs :=
  match gdpfs_run 10 ex_root GDPFS_FILE_MODE_RW ex_client (init_gdpfs_file (mkSys ex_logs ∅) ex_sched) with
  | Ok (_, s) => sys_gdp (g_sys s)
  | Fault _ => ∅
  end.

#[local] Instance ro_config : FileConfig :=
  {| use_cache := true; gcl_mode := init_gdpfs_log (log_mode_of GDPFS_FILE_MODE_RO); HOLE_BLOCK := 4 |}.

Definition ro_start : gfs gdp_logs := init_gdpfs_file (mkSys rw_logs ∅) ex_sched.

(** Opening the file, reading it, writing to it and reading it again. *)
Definition ro_client : client :=
  Ask (Open ex_path 0) (λ x,
    match x with
    | RHandle 0 (Some fh) =>
        Ask (Read 10 0 fh) (λ _, Ask (Write [88; 89] 3 fh) (λ _, Ask (Read 10 0 fh) (λ _, Stop)))
    | _ => Stop
    end).

Definition value_of {S A} (r : res (A * S)) : res A :=
  match r with Ok (a, _) => Ok a | Fault f => Fault f end.


Definition returned {S A} (r : res (A * S)) : bool :=
  match r with Ok _ => true | Fault _ => false end.

Lemma history_preserved_witness :
  ∃ a s', gdpfs_run 10 ex_root GDPFS_FILE_MODE_RO ro_client ro_start = Ok (a, s') ∧
    extends (gdp_history (sys_gdp (mkSys rw_logs ∅))) (gdp_history (sys_gdp (g_sys s'))) ∧
    quiet (gdp_history (sys_gdp (mkSys rw_logs ∅))) (gdp_history (sys_gdp (g_sys s'))).
Proof.
  assert (returned (gdpfs_run 10 ex_root GDPFS_FILE_MODE_RO ro_client ro_start) = true) as Hr
    by (vm_compute; reflexivity).
  destruct (gdpfs_run 10 ex_root GDPFS_FILE_MODE_RO ro_client ro_start) as [[a s']|f] eqn:E; [|discriminate].
  destruct (history_preserved 10 ex_root GDPFS_FILE_MODE_RO ro_client (mkSys rw_logs ∅) ex_sched a s'
    (or_introl E)) as [H1 H2].
  exists a, s'. split; [reflexivity|]. split; [exact H1|exact (H2 eq_refl)].
Defined.
