(* ===== verification/Main.v ===== *)
(** * The command line ([src/main.c])

    [main] looks for the arguments of FUSE, which come after [--], reads its own
    options with [getopt] and calls [gdpfs_run] with two names and the arguments
    of FUSE.  [argv] is a list of strings that ends with a null pointer; reading
    past that pointer is a fault.  [getopt] is modelled as the GNU library
    documents it (with [POSIXLY_CORRECT] unset): it goes through the elements of
    [argv], several options may share an element, and the elements that are not
    options are moved to the end. *)
From S2P Require Import Prelude.
From stdpp Require Import strings.
From Stdlib Require Import Ascii.
From S2P Require Import State.
From S2P Require Import Types.
From S2P Require Import Posix.
From S2P Require Heap.
From S2P Require Import FileIface.
From S2P Require Import Gdp.
From S2P Require Import LogEnt.
From S2P Require Import File.
From S2P Require Import FileSpec.
From S2P Require Import FileRead.
From S2P Require Import FileRep.
From S2P Require Import FileLaws.
From S2P Require Import FileStart.
From S2P Require Import Dir.
From S2P Require Import DirSpec.
From S2P Require Import FsSpec.
From S2P Require Import FsOps.
From S2P Require Import FsTree.
From S2P Require Import FsDir.
From S2P Require Import FsPath.
From S2P Require Import FuseProof.
From S2P Require Import FuseSpec.
From S2P Require Import FuseTheorems.
From S2P Require Import Mount.
From S2P Require Import History.

#[local] Open Scope string_scope.
#[local] Open Scope list_scope.
#[local] Open Scope nat_scope.

(** ** [getopt] *)

Inductive arg_kind := NoArg | RequiredArg | OptionalArg.

(** What [optstring] says of an option character. *)
Fixpoint find_opt (optstring : string) (c : ascii) : option arg_kind :=
  match optstring with
  | EmptyString => None
  | String d rest =>
      if decide (c = ":"%char) then None
      else if decide (c = d) then
        Some match rest with
             | String ":" (String ":" _) => OptionalArg
             | String ":" _ => RequiredArg
             | _ => NoArg
             end
      else find_opt rest c
  end.

(** An element of [argv] with options. *)
Definition is_option (e : string) : bool :=
  match e with String "-" (String _ _) => true | _ => false end.

(** The elements of [argv] after [argv[0]], as far as they were scanned:
    options with their arguments, others, the rest of the element in which the
    scan is ([nextchar]), and what comes next. *)
Record getopt_state := mkGetopt {
  go_options : list string;
  go_skipped : list string;
  nextchar : string;
  go_rest : list string;
}.

Definition no_arg : option string := None.

(** One option character of [nextchar]: it, or ['?'], and [optarg]. *)
Definition getopt_char (optstring : string) (c : ascii) (s : string) (st : getopt_state)
    : (ascii * option string) * getopt_state :=
  let 'mkGetopt opts skipped _ rest := st in
  match find_opt optstring c with
  | None => (("?"%char, no_arg), mkGetopt opts skipped s rest)
  | Some NoArg => ((c, no_arg), mkGetopt opts skipped s rest)
  | Some OptionalArg =>
      ((c, if decide (s = EmptyString) then no_arg else Some s), mkGetopt opts skipped EmptyString rest)
  | Some RequiredArg =>
      if decide (s = EmptyString) then
        match rest with
        | [] => (("?"%char, no_arg), mkGetopt opts skipped EmptyString [])
        | arg :: rest => ((c, Some arg), mkGetopt (opts ++ [arg]) skipped EmptyString rest)
        end
      else ((c, Some s), mkGetopt opts skipped EmptyString rest)
  end.

(** The next element with options, past those that are none. *)
Fixpoint next_element (opts skipped rest : list string) : getopt_state :=
  match rest with
  | [] => mkGetopt opts skipped EmptyString []
  | e :: rest =>
      if decide (e = "--") then mkGetopt (opts ++ [e]) (skipped ++ rest) EmptyString []
      else match is_option e, e with
           | true, String _ s => mkGetopt (opts ++ [e]) skipped s rest
           | _, _ => next_element opts (skipped ++ [e]) rest
           end
  end.

(** One call; [None] stands for -1, the end of the options. *)
Definition getopt (optstring : string) (st : getopt_state)
    : option (ascii * option string) * getopt_state :=
  let st := if decide (nextchar st = EmptyString) then next_element (go_options st) (go_skipped st) (go_rest st)
            else st in
  match nextchar st with
  | EmptyString => (None, st)
  | String c s => let '(r, st) := getopt_char optstring c s st in (Some r, st)
  end.

(** ** The options of the program *)

Record options := mkOptions {
  read_only : bool;
  opt_use_cache : bool;
  gdp_router_addr : option string;
  show_usage : bool;
}.

Definition default_options : options := mkOptions false true None false.

(** The [switch] of the loop. *)
Definition set_option (c : ascii) (optarg : option string) (o : options) : options :=
  if decide (c = "h"%char) then mkOptions (read_only o) (opt_use_cache o) (gdp_router_addr o) true
  else if decide (c = "r"%char) then mkOptions true (opt_use_cache o) (gdp_router_addr o) (show_usage o)
  else if decide (c = "d"%char) then mkOptions (read_only o) false (gdp_router_addr o) (show_usage o)
  else if decide (c = "G"%char) then mkOptions (read_only o) (opt_use_cache o) optarg (show_usage o)
  else mkOptions (read_only o) (opt_use_cache o) (gdp_router_addr o) true.

Definition optstring : string := "G:hrd::".

(** [while ((opt = getopt (argc, argv, "G:hrd::")) > 0)]; the code of a
    character is positive unless it is the null character, which no string
    holds. *)
Fixpoint parse_options (fuel : nat) (st : getopt_state) (o : options) : res (options * getopt_state) :=
  match fuel with
  | O => Fault OutOfFuel
  | S fuel =>
      match getopt optstring st with
      | (None, st) => Ok (o, st)
      | (Some (c, optarg), st) => parse_options fuel st (set_option c optarg o)
      end
  end.

(** Every call but the last takes a character or an element. *)
Definition parse_fuel (args : list string) : nat :=
  S (sum_list_with String.length args + length args).

(** ** [main] *)

Inductive main_result :=
  | Usage   (* exit (EX_USAGE) *)
  | Run (gclpname logd_xname : option string) (o : options) (fuse_argv : list (option string)).

(** The number of arguments from [--] on. *)
Fixpoint count_fuse (argv : list string) : nat :=
  match argv with
  | [] => 0
  | a :: rest => if decide (a = "--") then length argv else count_fuse rest
  end.

(** An element of an array. *)
Definition at_index {A} (l : list A) (i : nat) : res A :=
  match l !! i with Some x => Ok x | None => Fault OutOfBounds end.

Definition main (argv : list string) : res main_result :=
  let argv0 := head argv in
  let fuseargc := count_fuse argv in
  let argc := length argv - fuseargc in
  match parse_options (parse_fuel (take argc argv)) (mkGetopt [] [] EmptyString (tail (take argc argv)))
          default_options with
  | Fault f => Fault f
  | Ok (o, st) =>
      let optind := S (length (go_options st)) in
      (* [argv] as [getopt] leaves it *)
      let vec := (Some <$> take 1 (take argc argv) ++ go_options st ++ go_skipped st ++ drop argc argv) ++ [None] in
      match at_index vec optind, at_index vec (S optind) with
      | Ok gclpname, Ok logd_xname =>
          if show_usage o || negb (Z.of_nat argc - Z.of_nat optind - 2 =? 0)%Z then Ok Usage else
          let '(argv, argc) := (if decide (0 < fuseargc) then (optind + 3, fuseargc - 1) else (optind + 2, 0)) in
          let argv := argv - 1 in
          Ok (Run gclpname logd_xname o (take (argc + 1) (drop argv (<[argv := argv0]> vec))))
      | Fault f, _ | _, Fault f => Fault f
      end
  end.

Example ex_main :
  main ["gdpfs"; "-r"; "root"; "-Gr1"; "logd"; "--"; "-f"; "mnt"] =
  Ok (Run (Some "root") (Some "logd") (mkOptions true true (Some "r1") false)
        [Some "gdpfs"; Some "-f"; Some "mnt"]).
Proof. vm_compute. reflexivity. Qed.

Example ex_main_no_fuse : main ["gdpfs"; "root"; "-d"; "logd"] =
  Ok (Run (Some "root") (Some "logd") (mkOptions false false None false) [Some "gdpfs"]).
Proof. vm_compute. reflexivity. Qed.

(** ** What a command line means

    A command line is a list of words, then perhaps an element that ends in [-G]
    without its argument, then perhaps [--] and the arguments of FUSE.  The flags
    of a word are the option characters before [d] or [G]. *)
Inductive word :=
  | WName (s : string)
  | WFlags (fs : string)                 (* -rh *)
  | WNoCache (fs arg : string)           (* -rdarg: the argument of -d is not used *)
  | WRouter (fs addr : string)           (* -rGaddr *)
  | WRouterArg (fs addr : string).       (* -rG addr *)

Definition render_word (w : word) : list string :=
  match w with
  | WName s => [s]
  | WFlags fs => [String "-" fs]
  | WNoCache fs arg => [String "-" (fs +:+ String "d" arg)]
  | WRouter fs addr => [String "-" (fs +:+ String "G" addr)]
  | WRouterArg fs addr => [String "-" (fs +:+ String "G" EmptyString); addr]
  end.

Definition flag_char (c : ascii) : bool := negb (bool_decide (c = "d"%char) || bool_decide (c = "G"%char)).

Fixpoint all_chars (f : ascii → bool) (s : string) : bool :=
  match s with EmptyString => true | String c s => f c && all_chars f s end.

Definition flags_ok (fs : string) : Prop := all_chars flag_char fs = true.

Definition word_ok (w : word) : Prop :=
  Forall (λ e, e ≠ "--") (render_word w) ∧
  match w with
  | WName s => is_option s = false
  | WFlags fs => flags_ok fs ∧ fs ≠ EmptyString
  | WNoCache fs _ => flags_ok fs
  | WRouter fs addr => flags_ok fs ∧ addr ≠ EmptyString
  | WRouterArg fs _ => flags_ok fs
  end.

Definition word_flags (w : word) : string :=
  match w with
  | WName _ => EmptyString
  | WFlags fs | WNoCache fs _ | WRouter fs _ | WRouterArg fs _ => fs
  end.
Definition word_name (w : word) : option string := match w with WName s => Some s | _ => None end.
Definition word_router (w : word) : option string :=
  match w with WRouter _ a | WRouterArg _ a => Some a | _ => None end.
Definition no_cache (w : word) : bool := match w with WNoCache _ _ => true | _ => false end.

Definition has_read_only (fs : string) : bool := negb (all_chars (λ c, negb (bool_decide (c = "r"%char))) fs).
Definition only_read_only (fs : string) : bool := all_chars (λ c, bool_decide (c = "r"%char)) fs.

Record line := mkLine { l_words : list word; l_lone : option string; l_fuse : option (list string) }.

Definition line_ok (l : line) : Prop :=
  Forall word_ok (l_words l) ∧ from_option flags_ok True (l_lone l).

Definition render_lone (lone : option string) : list string :=
  match lone with Some fs => [String "-" (fs +:+ "G")] | None => [] end.
Definition render_fuse (fuse : option (list string)) : list string :=
  match fuse with Some l => "--" :: l | None => [] end.
Definition render (l : line) : list string :=
  (l_words l ≫= render_word) ++ render_lone (l_lone l) ++ render_fuse (l_fuse l).

(** Each option is looked up on its own. *)
Definition line_options (l : line) : options :=
  mkOptions
    (existsb (λ w, has_read_only (word_flags w)) (l_words l) || from_option has_read_only false (l_lone l))
    (negb (existsb no_cache (l_words l)))
    (last (omap word_router (l_words l)))
    (negb (forallb (λ w, only_read_only (word_flags w)) (l_words l)) || bool_decide (is_Some (l_lone l))).

Definition line_names (l : line) : list string := omap word_name (l_words l).

(** Without names and arguments of FUSE, [main] reads [argv] past its end. *)
Definition meaning (prog : string) (l : line) : res main_result :=
  match line_names l, l_fuse l with
  | [], None => Fault OutOfBounds
  | [root; logd], fuse =>
      if show_usage (line_options l) then Ok Usage
      else Ok (Run (Some root) (Some logd) (line_options l) (Some <$> prog :: default [] fuse))
  | _, _ => Ok Usage
  end.

(** ** The options of a word *)

Lemma parse_next n st st' o : getopt optstring st = getopt optstring st' → parse_options n st o = parse_options n st' o.
Proof. intros E. destruct n; [done|]. simpl. by rewrite E. Qed.

Lemma parse_name n opts sk s rest o :
  s ≠ "--" → is_option s = false →
  parse_options n (mkGetopt opts sk EmptyString (s :: rest)) o = parse_options n (mkGetopt opts (sk ++ [s]) EmptyString rest) o.
Proof.
  intros Hd Hs. apply parse_next. unfold getopt. cbn -[next_element getopt_char decide].
  by rewrite decide_True, (decide_True (P := EmptyString = EmptyString)) by done; simpl; rewrite decide_False, Hs by done.
Qed.

Lemma parse_element n opts sk s rest o :
  String "-" s ≠ "--" → s ≠ EmptyString →
  parse_options n (mkGetopt opts sk EmptyString (String "-" s :: rest)) o =
  parse_options n (mkGetopt (opts ++ [String "-" s]) sk s rest) o.
Proof.
  intros Hd Hs. apply parse_next. unfold getopt. cbn [nextchar go_options go_skipped go_rest].
  rewrite decide_True, (decide_False (P := s = EmptyString)) by done. cbn [next_element]. rewrite decide_False by done.
  by destruct s.
Qed.

Definition set_flag (c : ascii) (o : options) : options :=
  if bool_decide (c = "r"%char) then mkOptions true (opt_use_cache o) (gdp_router_addr o) (show_usage o)
  else mkOptions (read_only o) (opt_use_cache o) (gdp_router_addr o) true.

Lemma parse_flag n opts sk c s rest o :
  flag_char c = true →
  parse_options (S n) (mkGetopt opts sk (String c s) rest) o = parse_options n (mkGetopt opts sk s rest) (set_flag c o).
Proof.
  intros Hc. unfold flag_char in Hc. apply negb_true_iff, orb_false_iff in Hc as [Hd HG].
  apply bool_decide_eq_false in Hd, HG.
  cbn [parse_options]. unfold getopt. cbn [nextchar]. rewrite decide_False by done. cbn [nextchar].
  unfold getopt_char, find_opt, optstring. unfold set_flag.
  destruct (decide (c = ":"%char)) as [->|]; [done|]. rewrite (decide_False (P := c = "G"%char)) by done.
  destruct (decide (c = "h"%char)) as [->|]; [done|].
  destruct (decide (c = "r"%char)) as [->|]; [done|]. rewrite (decide_False (P := c = "d"%char)) by done.
  by rewrite bool_decide_false.
Qed.

Fixpoint set_flags (fs : string) (o : options) : options :=
  match fs with EmptyString => o | String c fs => set_flags fs (set_flag c o) end.

Lemma parse_flags fs : ∀ n opts sk s rest o, flags_ok fs →
  parse_options (String.length fs + n) (mkGetopt opts sk (fs +:+ s) rest) o =
  parse_options n (mkGetopt opts sk s rest) (set_flags fs o).
Proof.
  induction fs as [|c fs IH]; intros n opts sk s rest o Hf; [done|].
  unfold flags_ok in Hf. simpl in Hf. apply andb_true_iff in Hf as [Hc Hf].
  change (String.length (String c fs) + n) with (S (String.length fs + n)).
  change (String c fs +:+ s) with (String c (fs +:+ s)). rewrite parse_flag by done. by apply IH.
Qed.

Lemma set_flags_spec fs : ∀ o,
  set_flags fs o = mkOptions (read_only o || has_read_only fs) (opt_use_cache o) (gdp_router_addr o)
                     (show_usage o || negb (only_read_only fs)).
Proof.
  unfold has_read_only, only_read_only. induction fs as [|c fs IH]; intros []; simpl.
  - by rewrite !orb_false_r.
  - rewrite IH. unfold set_flag. case_bool_decide; simpl; f_equal; rewrite ?orb_true_r; done.
Qed.

Definition word_calls (w : word) : nat :=
  match w with WName _ => 0 | WFlags fs => String.length fs | _ => S (String.length (word_flags w)) end.
Definition word_elements (w : word) : list string := match w with WName _ => [] | _ => render_word w end.

Definition set_word (w : word) (o : options) : options :=
  let o := set_flags (word_flags w) o in
  mkOptions (read_only o) (opt_use_cache o && negb (no_cache w))
    (match word_router w with Some a => Some a | None => gdp_router_addr o end) (show_usage o).

Lemma options_eta o : mkOptions (read_only o) (opt_use_cache o) (gdp_router_addr o) (show_usage o) = o.
Proof. by destruct o. Qed.

Lemma append_empty s : s +:+ EmptyString = s.
Proof. induction s as [|c s IH]; [done|]. change (String c (s +:+ EmptyString) = String c s). by rewrite IH. Qed.

Lemma append_not_empty s t : t ≠ EmptyString → s +:+ t ≠ EmptyString.
Proof. by destruct s. Qed.

Lemma parse_word w n opts sk rest o : word_ok w →
  parse_options (word_calls w + n) (mkGetopt opts sk EmptyString (render_word w ++ rest)) o =
  parse_options n (mkGetopt (opts ++ word_elements w) (sk ++ option_list (word_name w)) EmptyString rest) (set_word w o).
Proof.
  intros [He Hw]. unfold set_word.
  destruct w as [s|fs|fs arg|fs addr|fs addr]; cbn [word_calls word_elements render_word word_name
    word_flags word_router no_cache option_list app] in *;
    cbn [negb]; rewrite ?andb_true_r, ?app_nil_r; rewrite Forall_cons in He; destruct He as [He _].
  - rewrite options_eta. by apply parse_name.
  - rewrite options_eta. destruct Hw as [Hfs Hne]. rewrite parse_element by done.
    pose proof (parse_flags fs n (opts ++ [String "-" fs]) sk EmptyString rest o Hfs) as E.
    by rewrite append_empty in E.
  - rewrite parse_element by (done || by apply append_not_empty).
    rewrite Nat.add_succ_comm, parse_flags by done. cbn [parse_options]. unfold getopt. cbn [nextchar].
    rewrite decide_False by done. simpl. by rewrite andb_false_r.
  - destruct Hw as [Hfs Hne]. rewrite parse_element by (done || by apply append_not_empty).
    rewrite Nat.add_succ_comm, parse_flags by done. cbn [parse_options]. unfold getopt. cbn [nextchar].
    rewrite decide_False by done. simpl. by rewrite decide_False.
  - rewrite parse_element by (done || by apply append_not_empty).
    rewrite Nat.add_succ_comm, parse_flags by done. cbn [parse_options]. unfold getopt. cbn [nextchar].
    rewrite decide_False by done. simpl. by rewrite <-app_assoc.
Qed.

Definition line_calls (ws : list word) : nat := sum_list_with word_calls ws.

Lemma parse_words ws : ∀ n opts sk rest o, Forall word_ok ws →
  parse_options (line_calls ws + n) (mkGetopt opts sk EmptyString ((ws ≫= render_word) ++ rest)) o =
  parse_options n (mkGetopt (opts ++ (ws ≫= word_elements)) (sk ++ omap word_name ws) EmptyString rest)
    (foldl (λ o w, set_word w o) o ws).
Proof.
  induction ws as [|w ws IH]; intros n opts sk rest o Hws.
  - cbn. by rewrite !app_nil_r.
  - apply Forall_cons in Hws as [Hw Hws]. cbn [mbind list_bind foldl]. unfold line_calls. cbn [sum_list_with].
    rewrite <-Nat.add_assoc, <-(app_assoc (render_word w)), parse_word by done. fold (line_calls ws).
    rewrite (IH n _ _ rest) by done. rewrite <-!app_assoc. do 3 f_equal. simpl. by destruct (word_name w).
Qed.

Lemma set_words_spec ws : ∀ o,
  foldl (λ o w, set_word w o) o ws =
  mkOptions (read_only o || existsb (λ w, has_read_only (word_flags w)) ws)
    (opt_use_cache o && negb (existsb no_cache ws))
    (match last (omap word_router ws) with Some a => Some a | None => gdp_router_addr o end)
    (show_usage o || negb (forallb (λ w, only_read_only (word_flags w)) ws)).
Proof.
  induction ws as [|w ws IH]; intros o.
  - simpl. by rewrite !orb_false_r, andb_true_r, options_eta.
  - cbn [foldl existsb forallb]. rewrite IH. unfold set_word. rewrite set_flags_spec. cbn.
    rewrite negb_andb, negb_orb, !orb_assoc, andb_assoc. f_equal.
    destruct (word_router w) as [a|]; [|done]. rewrite last_cons. by destruct (last _).
Qed.

(** The lone [-G] is an option without its argument. *)
Lemma parse_lone lone n opts sk o : from_option flags_ok True lone →
  let k := match lone with Some fs => S (String.length fs) | None => 0 end in
  parse_options (k + S n) (mkGetopt opts sk EmptyString (render_lone lone)) o =
  Ok (match lone with Some fs => set_flag "?"%char (set_flags fs o) | None => o end,
      mkGetopt (opts ++ render_lone lone) sk EmptyString []).
Proof.
  destruct lone as [fs|]; intros Hf; cbv zeta; cbn [render_lone from_option] in *.
  - rewrite parse_element by ((by apply append_not_empty) || (by destruct fs as [|? [|]])).
    replace (S (String.length fs) + S n) with (String.length fs + S (S n)) by lia.
    rewrite parse_flags by done. simpl. unfold set_flag. by destruct (set_flags fs o).
  - rewrite app_nil_r. by simpl.
Qed.

(** ** [argv] *)

Lemma count_fuse_line args fuse : Forall (λ e, e ≠ "--") args →
  count_fuse (args ++ render_fuse fuse) = length (render_fuse fuse).
Proof.
  induction 1 as [|a args Ha _ IH]; [by destruct fuse|]. simpl. by rewrite decide_False.
Qed.

Definition line_args (l : line) : list string := (l_words l ≫= render_word) ++ render_lone (l_lone l).

Lemma line_args_no_dashes l : line_ok l → Forall (λ e, e ≠ "--") (line_args l).
Proof.
  intros [Hws _]. apply Forall_app. split.
  - apply Forall_bind. eapply Forall_impl; [exact Hws|]. by intros w [].
  - destruct (l_lone l) as [fs|]; repeat constructor. by destruct fs as [|? [|]].
Qed.

Lemma render_args l : render l = line_args l ++ render_fuse (l_fuse l).
Proof. unfold render, line_args. by rewrite app_assoc. Qed.

Lemma length_append s t : String.length (s +:+ t) = String.length s + String.length t.
Proof. induction s as [|c s IH]; [done|]. change (S (String.length (s +:+ t)) = S (String.length s) + String.length t). by rewrite IH. Qed.

Lemma word_calls_le w : word_calls w ≤ sum_list_with String.length (render_word w).
Proof. destruct w; cbn; rewrite ?length_append; simpl; lia. Qed.

Lemma line_calls_le ws : line_calls ws ≤ sum_list_with String.length (ws ≫= render_word).
Proof.
  unfold line_calls. induction ws as [|w ws IH]; [done|]. cbn [sum_list_with mbind list_bind].
  rewrite sum_list_with_app. pose proof (word_calls_le w). lia.
Qed.

Definition line_elements (l : line) : list string := (l_words l ≫= word_elements) ++ render_lone (l_lone l).

Lemma length_args l : length (line_args l) = length (line_elements l) + length (line_names l).
Proof.
  unfold line_args, line_elements, line_names. rewrite !length_app.
  enough (length (l_words l ≫= render_word) = length (l_words l ≫= word_elements) + length (omap word_name (l_words l))) by lia.
  induction (l_words l) as [|w ws IH]; [done|]. cbn [mbind list_bind omap]. rewrite !length_app, IH.
  unfold omap in *. destruct w; simpl; lia.
Qed.

(** [getopt] on a whole command line. *)
Lemma parse_line prog l : line_ok l →
  parse_options (parse_fuel (prog :: line_args l)) (mkGetopt [] [] EmptyString (line_args l)) default_options =
  Ok (line_options l, mkGetopt (line_elements l) (line_names l) EmptyString []).
Proof.
  intros [Hws Hl]. pose proof (line_calls_le (l_words l)) as Hc. unfold parse_fuel, line_args. cbn [sum_list_with].
  rewrite sum_list_with_app.
  set (k := match l_lone l with Some fs => S (String.length fs) | None => 0 end).
  assert (k ≤ sum_list_with String.length (render_lone (l_lone l))) as Hk.
  { unfold k. destruct (l_lone l); cbn; rewrite ?length_append; simpl; lia. }
  assert (∃ n, parse_fuel (prog :: line_args l) = line_calls (l_words l) + (k + S n)) as [n E].
  { unfold parse_fuel, line_args. cbn [sum_list_with]. rewrite sum_list_with_app.
    exists (parse_fuel (prog :: line_args l) - line_calls (l_words l) - k - 1).
    unfold parse_fuel, line_args. cbn [sum_list_with]. rewrite sum_list_with_app. lia. }
  unfold parse_fuel, line_args in E. cbn [sum_list_with] in E. rewrite sum_list_with_app in E. rewrite E.
  rewrite parse_words by done. unfold k. rewrite parse_lone by done. do 2 f_equal.
  rewrite set_words_spec. unfold line_options. cbn [default_options read_only opt_use_cache gdp_router_addr show_usage orb andb].
  destruct (l_lone l) as [fs|]; cbn [from_option].
  - rewrite set_flags_spec. unfold set_flag. cbn. rewrite orb_true_r. do 2 f_equal. by destruct (last _).
  - rewrite !orb_false_r. f_equal. by destruct (last _).
Qed.

(** [argv] after the loop. *)
Definition line_vec (prog : string) (l : line) : list (option string) :=
  (Some <$> prog :: line_elements l) ++ (Some <$> line_names l ++ render_fuse (l_fuse l)) ++ [None].

Lemma at_vec prog l i :
  at_index (line_vec prog l) (S (length (line_elements l)) + i) =
  at_index ((Some <$> line_names l ++ render_fuse (l_fuse l)) ++ [None]) i.
Proof.
  unfold at_index, line_vec. rewrite lookup_app_r; rewrite length_fmap; [|simpl; lia].
  change (length (prog :: line_elements l)) with (S (length (line_elements l))). by rewrite Nat.add_comm, Nat.add_sub.
Qed.

Lemma drop_vec prog l i :
  drop (S (length (line_elements l)) + i) (line_vec prog l) =
  drop i ((Some <$> line_names l ++ render_fuse (l_fuse l)) ++ [None]).
Proof.
  unfold line_vec. rewrite <-drop_drop. f_equal.
  change (S (length (line_elements l))) with (length (prog :: line_elements l)). rewrite <-(length_fmap Some).
  apply drop_app_length.
Qed.

(** The name of the program is put in front of the arguments of FUSE. *)
Lemma drop_write {A} (l : list A) i x : i < length l → drop i (<[i := x]> l) = x :: drop (S i) l.
Proof.
  intros Hi. rewrite (drop_S _ x) by (apply list_lookup_insert_eq; done). f_equal. apply drop_insert_lt. lia.
Qed.

Lemma length_vec prog l :
  length (line_vec prog l) = S (length (line_elements l)) + (length (line_names l) + length (render_fuse (l_fuse l)) + 1).
Proof. unfold line_vec. rewrite !length_app, !length_fmap, length_app. simpl. lia. Qed.

Lemma main_meaning prog l : prog ≠ "--" → line_ok l → main (prog :: render l) = meaning prog l.
Proof.
  intros Hp Hl. rewrite render_args. unfold main.
  rewrite app_comm_cons, count_fuse_line by (constructor; [done|by apply line_args_no_dashes]).
  rewrite length_app, Nat.add_sub, take_app_length, drop_app_length.
  cbn [tail head]. rewrite parse_line by done. cbn [go_options go_skipped take app].
  assert ((Some <$> prog :: take 0 (line_args l) ++ line_elements l ++ line_names l ++ render_fuse (l_fuse l)) ++ [None] =
    line_vec prog l) as -> by (unfold line_vec; by rewrite (app_assoc (Some <$> _) (Some <$> _) [None]), <-fmap_app).
  replace (S (S (length (line_elements l)))) with (S (length (line_elements l)) + 1) by lia.
  replace (S (length (line_elements l))) with (S (length (line_elements l)) + 0) at 1 by lia.
  rewrite !at_vec. change (length (prog :: line_args l)) with (S (length (line_args l))). rewrite length_args.
  replace (Z.of_nat (S (length (line_elements l) + length (line_names l))) - Z.of_nat (S (length (line_elements l))) - 2 =? 0)%Z
    with (bool_decide (length (line_names l) = 2)) by (case_bool_decide; lia).
  cbn [head app]. pose proof (drop_vec prog l) as Hd. pose proof (length_vec prog l) as Hv.
  unfold meaning. revert Hd Hv. generalize (line_vec prog l), (line_options l), (length (line_elements l)).
  intros vec o n Hd Hv.
  destruct (line_names l) as [|a [|b [|c ns]]].
  3:{ rewrite bool_decide_true by done. rewrite orb_false_r. destruct (show_usage o); [by destruct (l_fuse l)|].
      cbn [length] in Hv. destruct (l_fuse l) as [fl|].
      - rewrite decide_True by (simpl; lia). replace (S n + 3 - 1) with (S n + 2) by lia.
        rewrite drop_write by (simpl in Hv; lia). replace (S (S n + 2)) with (S n + 3) by lia. rewrite Hd. simpl.
        rewrite Nat.sub_0_r, Nat.add_1_r. simpl. do 3 f_equal. apply take_app_length'. by rewrite length_fmap.
      - rewrite decide_False by (simpl; lia). replace (S n + 2 - 1) with (S n + 1) by lia.
        rewrite drop_write by (simpl in Hv; lia). replace (S (S n + 1)) with (S n + 2) by lia. by rewrite Hd. }
  all: rewrite bool_decide_false, orb_true_r by done; by destruct (l_fuse l) as [[]|].
Qed.

(** ** Every command line has such a form *)

Lemma split_flags s : ∃ fs t, s = fs +:+ t ∧ flags_ok fs ∧
  match t with EmptyString => True | String c _ => c = "d"%char ∨ c = "G"%char end.
Proof.
  induction s as [|c s (fs & t & -> & Hfs & Ht)]; [by exists EmptyString, EmptyString|].
  destruct (flag_char c) eqn:Hc.
  - exists (String c fs), t. split_and!; [done| |done]. unfold flags_ok. cbn. by rewrite Hc.
  - exists EmptyString, (String c (fs +:+ t)). split_and!; [done..|].
    unfold flag_char in Hc. apply negb_false_iff, orb_true_iff in Hc.
    destruct Hc as [Hc|Hc]; apply bool_decide_eq_true in Hc; auto.
Qed.

Lemma every_args n : ∀ args, length args ≤ n → Forall (λ e, e ≠ "--") args →
  ∃ ws lone, Forall word_ok ws ∧ from_option flags_ok True lone ∧ args = (ws ≫= render_word) ++ render_lone lone.
Proof.
  induction n as [|n IH]; intros [|e args] Hn Hargs; simpl in Hn; try lia;
    try (exists [], None; by split_and!; [constructor|..]).
  assert (∀ w args, length args ≤ n → Forall (λ e, e ≠ "--") args → word_ok w → ∃ ws lone, Forall word_ok ws ∧
    from_option flags_ok True lone ∧ render_word w ++ args = (ws ≫= render_word) ++ render_lone lone) as Hnext.
  { intros w args' Hn' Ha Hw. destruct (IH args' Hn' Ha) as (ws & lone & Hws & Hl & ->).
    exists (w :: ws), lone. split_and!; [by constructor|done|]. cbn [mbind list_bind]. by rewrite <-app_assoc. }
  apply Forall_cons in Hargs as [He Hargs].
  assert (∀ w, render_word w = [e] → match w with
    | WName s => is_option s = false | WFlags fs => flags_ok fs ∧ fs ≠ EmptyString | WNoCache fs _ => flags_ok fs
    | WRouter fs addr => flags_ok fs ∧ addr ≠ EmptyString | WRouterArg fs _ => flags_ok fs end →
    ∃ ws lone, Forall word_ok ws ∧ from_option flags_ok True lone ∧
      e :: args = (ws ≫= render_word) ++ render_lone lone) as Hone.
  { intros w Hr Hw. change (e :: args) with ([e] ++ args). rewrite <-Hr. apply Hnext; [lia|done|].
    split; [rewrite Hr; by repeat constructor|done]. }
  destruct (is_option e) eqn:Ho; [|by apply (Hone (WName e))].
  destruct e as [|c s]; [done|]. assert (c = "-"%char ∧ s ≠ EmptyString) as [-> Hs].
  { unfold is_option in Ho. destruct c as [[] [] [] [] [] [] [] []]; destruct s; by try discriminate Ho. }
  destruct (split_flags s) as (fs & t & -> & Hfs & Ht). destruct t as [|c r].
  - rewrite append_empty in *. by apply (Hone (WFlags fs)).
  - destruct Ht as [->| ->]; [by apply (Hone (WNoCache fs r))|].
    destruct r as [|c r]; [|by apply (Hone (WRouter fs (String c r)))].
    destruct args as [|a args]; [by exists [], (Some fs)|]. apply Forall_cons in Hargs as [Ha Hargs].
    apply (Hnext (WRouterArg fs a) args); [simpl in Hn; lia|done|]. split; [by repeat constructor|done].
Qed.

Lemma every_line args : ∃ l, line_ok l ∧ args = render l.
Proof.
  assert (∃ a fuse, Forall (λ e, e ≠ "--") a ∧ args = a ++ render_fuse fuse) as (a & fuse & Ha & ->).
  { induction args as [|e args (a & fuse & Ha & ->)]; [by exists [], None|].
    destruct (decide (e = "--")) as [->|He]; [by exists [], (Some (a ++ render_fuse fuse))|].
    exists (e :: a), fuse. split; [by constructor|done]. }
  destruct (every_args (length a) a) as (ws & lone & Hws & Hl & ->); [done..|].
  exists (mkLine ws lone fuse). split; [done|]. unfold render. cbn [l_words l_lone l_fuse]. by rewrite app_assoc.
Qed.

(** C17: Every command line is a list of options, names and arguments of FUSE, in
    any order up to [--]; each option is found wherever it stands and however it
    is written, the two names are the root log and the log daemon, FUSE gets the
    name of the program and its own arguments, and anything else prints the usage
    message, but for a line without names that ends there, where [main] reads
    [argv] out of bounds. *)
Theorem main_command_line prog :
  prog ≠ "--" →
  (∀ l, line_ok l → main (prog :: render l) = meaning prog l) ∧
  (∀ args, ∃ l, line_ok l ∧ args = render l).
Proof. intros Hp. split; [intros l; by apply main_meaning|apply every_line]. Qed.

(** ** The program, from its command line *)

Section program.
Context {G : Type} `{GdpLaws G} `{!Heap.Allocator}.
(** The name of a log that is given as text ([gdp_parse_name]), and the block
    size of the file system with the cache. *)
Context (gdp_parse_name : string → file_gname) (hole : nat).

(** The mode that [gdpfs_run] chooses. *)
Definition fs_mode (o : options) : gdpfs_file_mode :=
  if read_only o then GDPFS_FILE_MODE_RO else GDPFS_FILE_MODE_RW.

Definition config_of (o : options) : FileConfig :=
  {| use_cache := opt_use_cache o; gcl_mode := init_gdpfs_log (log_mode_of (fs_mode o)); HOLE_BLOCK := hole |}.

Inductive outcome :=
  | Exited                                              (* with a usage message *)
  | Served (xs : option (list response)) (s : gfs G).   (* [None]: EX_UNAVAILABLE *)

(** [main] and [gdpfs_run] up to [gdpfs_stop]. *)
Definition gdpfs (fuel : nat) (argv : list string) (y : sys G) (sched : list (list async_event)) (c : client)
    : res outcome :=
  match main argv with
  | Ok Usage => Ok Exited
  | Ok (Run None _ _ _) => Fault NullDeref
  | Ok (Run (Some root) _ o _) =>
      let cfg := config_of o in
      match gdpfs_run fuel (gdp_parse_name root) (fs_mode o) c (init_gdpfs_file y sched) with
      | Ok (xs, s) => Ok (Served xs s)
      | Fault f => Fault f
      end
  | Fault f => Fault f
  end.

(** The handler of SIGINT. *)
Definition sig_int : st (gfs G) unit := gdpfs_stop.

(** The options of a mount that can be written to. *)
Definition writable (l : line) : Prop :=
  show_usage (line_options l) = false ∧ read_only (line_options l) = false ∧
  opt_use_cache (line_options l) = true.

Lemma gdpfs_line fuel prog l root logd y sched c :
  prog ≠ "--" → line_ok l → line_names l = [root; logd] → show_usage (line_options l) = false →
  gdpfs fuel (prog :: render l) y sched c =
    let cfg := config_of (line_options l) in
    match gdpfs_run fuel (gdp_parse_name root) (fs_mode (line_options l)) c (init_gdpfs_file y sched) with
    | Ok (xs, s) => Ok (Served xs s)
    | Fault f => Fault f
    end.
Proof.
  intros Hp Hl Hn Hu. unfold gdpfs. rewrite main_meaning by done. unfold meaning. by rewrite Hn, Hu.
Qed.

End program.

(** With [-r], no client adds a record to a log. *)
Lemma main_read_only {G} `{GdpHistory G} `{!Heap.Allocator} gdp_parse_name hole fuel prog l root logd
    (y : sys G) sched c xs s :
  prog ≠ "--" → line_ok l → line_names l = [root; logd] → show_usage (line_options l) = false →
  read_only (line_options l) = true →
  gdpfs gdp_parse_name hole fuel (prog :: render l) y sched c = Ok (Served xs s) →
  quiet (gdp_history (sys_gdp y)) (gdp_history (sys_gdp (g_sys s))).
Proof.
  intros Hp Hl Hn Hu Hr. rewrite (gdpfs_line _ _ _ _ _ root logd) by done. cbv zeta. intros Hrun.
  destruct (gdpfs_run _ _ _ _ _) as [[xs' s']|] eqn:E in Hrun; [|done]. injection Hrun as -> ->.
  eapply (run_history (H2 := config_of hole (line_options l)) quiet); [typeclasses eauto|done| |by left].
  unfold config_of, fs_mode. rewrite Hr. done.
Qed.

(** [-rdr0 root -h -Gr1 logd -G r2 -- -f mnt] *)
Definition ex_line : line :=
  mkLine [WNoCache "r" "r0"; WName "root"; WFlags "r"; WRouter EmptyString "r1"; WName "logd"; WRouterArg EmptyString "r2"]
    None (Some ["-f"; "mnt"]).

Lemma main_command_line_witness :
  main ("gdpfs" :: render ex_line) =
    Ok (Run (Some "root") (Some "logd") (mkOptions true false (Some "r2") false) [Some "gdpfs"; Some "-f"; Some "mnt"]).
Proof.
  destruct (main_command_line "gdpfs") as [Hmain _]; [done|].
  rewrite Hmain; [reflexivity|]. split; [|done]. repeat constructor; done.
Defined.

(** The argument of [-d] swallows the [r]: the mount is not read-only. *)
Example ex_main_dr :
  main ["gdpfs"; "-dr"; "root"; "logd"] =
  Ok (Run (Some "root") (Some "logd") (mkOptions false false None false) [Some "gdpfs"]).
Proof. vm_compute. reflexivity. Qed.

Example ex_main_help : main ["gdpfs"; "-h"] = Fault OutOfBounds.
Proof. vm_compute. reflexivity. Qed.

(** ** An example: the reference service with an empty root log *)

#[local] Existing Instance Heap.bump_allocator.

Definition ex_parse_name (s : string) : file_gname := ex_root.

(** [-Gr1 root logd -- mnt] *)
Definition ex_rw_line : line :=
  mkLine [WRouter EmptyString "r1"; WName "root"; WName "logd"] None (Some ["mnt"]).

